(* ===== verification/_CoqProject ===== *)
-Q . S2P
Prelude.v
Vec.v
NetParser.v
MixAddr.v
Io.v
Copy.v
UdpTraits.v
UdpCopy.v
TrojanUdp.v
Acceptor.v
UdpSockets.v
Quic.v
Timeout.v
Adapter.v
UdpPackets.v
LiteTls.v
LiteTlsPipe.v
LiteTlsHandshake.v
Inbound.v
Socks5.v
Http.v
DnsResolver.v
Fallback.v
Connector.v
Client.v
Tunnel.v
LiteTlsTunnel.v
Session.v
UdpEnds.v
UdpTunnel.v
Args.v
TlsConfig.v
Simd.v
Listeners.v
Main.v
Zio.v
