(* ===== verification/Prelude.v ===== *)
(** * trojan-oxide: verification library

    trojan-oxide is a proxy that hides in TLS. A client accepts the user's SOCKS5 and
    HTTP requests on the loopback address, authenticates to a server with a password
    hash over TLS, QUIC or "Lite TLS", and relays; the server connects to the target
    and relays, or hands a connection that does not authenticate to a local service.
    This library models that program (src/src/) and proves what makes it correct.

    ** How the program is modelled

    - A Rust expression ends in an [outcome]: [Ok], [Err], [Pending], [Panic], or
      [OutOfFuel], which is the model's own. A method on [&mut self] is an [ST]
      computation, whose state survives every exit. [Poll] functions are modelled as
      they are polled; an [async fn] that returns [Pending] is suspended.
    - Bytes are [Z]; arithmetic on machine integers wraps or panics as the build
      does, which is an argument ([overflow_checks]) where it matters; indexing,
      slicing and [unwrap] panic.
    - Sockets, TLS and QUIC streams, timers, the clock, the resolver's answers and the
      shutdown signal are parameters, reached through classes ([AsyncRead],
      [AsyncWrite], [UdpSocket], [Sleep], [Signal], [Dns], ...). A class named [..Ok]
      states what the library documents of them (a read fits its buffer, a write
      accepts no more than it was offered, ...). Scripted streams instantiate all of
      them in the examples.
    - A write may be short. Where the code does not look whether it was (Lite TLS), a
      history ([io_handed]) keeps apart what the writes were handed and what the
      stream took, and recorded streams count the bytes lost that way ([relay_short]).
    - A [select!] takes its branches in an order that is an argument.
    - All features are enabled; what [zio] replaces is modelled beside it (Zio).

    ** Files, in the order of their dependencies

    - Prelude: outcomes, the state monad and its rules ([post], [keeps], [respects]),
      integers, slices, [ParserError] and [expect_buf_len!] (utils/mod.rs, macros.rs).
    - Vec: [Vec], the buffer traits of utils/buffers.rs, [UdpRelayBuffer]
      (utils/udp/udp_relay_buffer.rs).
    - NetParser: the standard library's socket address parser, which mix_addr.rs calls.
    - MixAddr: utils/mix_addr.rs, module [Mix].
    - Io: the stream classes and their histories ([io_trace]); utils/buffered_recv.rs,
      wr_tuple.rs, either_io.rs.
    - Copy: utils/forked_copy/ and utils/glommio_utils/copy_*.rs, modules [Forked] and
      [Glommio] for what differs.
    - UdpTraits, UdpCopy: utils/udp/udp_traits.rs, udp_shutdown.rs, copy_udp.rs,
      copy_udp_bidirectional.rs.
    - TrojanUdp: utils/udp/trojan_udp_stream.rs.
    - Acceptor: server/inbound/acceptor.rs, client/outbound/trojan_auth.rs and
      request_cmd.rs.
    - UdpSockets: client/utils/client_udp_stream.rs, server/utils/server_udp_stream.rs.
    - Quic: client/outbound/quic.rs, but for the configuration of its endpoint.
    - Timeout, Adapter: utils/timedout_duplex_io.rs, utils/adapter.rs.
    - UdpPackets: no definition of the program; what a relay of datagrams promises to
      two ends that keep the laws [datagram_end].
    - LiteTls (definitions), LiteTlsPipe, LiteTlsHandshake (theorems): utils/lite_tls/,
      and the Lite TLS arms of server/utils/lite_tls.rs and
      client/utils/data_transfer.rs.
    - Inbound, Socks5, Http: client/inbound/socks5.rs and http.rs with the loop they
      share.
    - DnsResolver: utils/dns_utils/dns_resolver.rs.
    - Fallback: server/outbound/fallback.rs.
    - Connector: server/outbound/connector.rs, [TcpOption::forward], and the TLS
      handler of server/inbound/handler.rs.
    - Client: client/outbound/connect.rs, tcp_tls.rs, client/utils/data_transfer.rs.
    - Tunnel, LiteTlsTunnel, Session, UdpEnds, UdpTunnel: recorded streams and sockets,
      the ends of the program as [datagram_end]s, and the theorems on client and server
      together. The only definition of the program is [user_accept] in Session, the
      front end that client/inbound/listener.rs puts ahead of a request.
    - Args: args.rs and the lookup of main.rs.
    - TlsConfig: the configurations of TLS and QUIC on both sides (server/inbound/quic.rs
      and tcp_tls.rs, both rustls_utils.rs, [new_builder] and [load_cert] of
      client/outbound/quic.rs) over a file system, the class [Files], that can fail at
      every operation; the libraries are behind [TlsLibrary].
    - Simd: simd/simd_parse.rs, which is not compiled into the program.
    - Listeners: the tasks of the process (proxy.rs, server/run.rs, client/run.rs, both
      inbound/listener.rs, [handle_quic_connection]), the shutdown signal, and the
      channel from a front end to its QUIC manager; the interface [Connection] stands
      for the relays, which Connector and Client provide.
    - Main: main.rs, and the steps of the tasks in Listeners that depend on the options
      and files.
    - Zio: the io_uring workers of the feature [zio] (glommio_utils/
      start_tcp_relay_thread.rs, [relay_tcp_zio]).

    ** What is proved

    - The whole path: [tunnel_exact] (streams) and [udp_tunnel_exact] (datagrams) compose
      the client's authentication and relay with the server's acceptor, connector and
      relay, over TLS, QUIC and Lite TLS; [user_session_exact] puts the front end ahead
      of it, from the user's first byte; [lite_tls_tunnel_exact] follows a stream that
      leaves the tunnel on both sides; [server_fallback_exact] composes a rejection
      with the fallback.
    - Transparency of every relay, at any moment and for any interleaving: Copy,
      UdpCopy, Adapter, Fallback, and the Lite TLS hand-over (LiteTlsHandshake).
    - Parsers: round trips (MixAddr, TrojanUdp, Acceptor, UdpSockets), refinement of
      the incremental server parser by a function of the bytes
      ([acceptor_parse_refines]), equivalence of the HTTP parser that forgets its
      input with the one that keeps it ([http_four_bytes_enough]), of the vector search
      with the scalar one ([simd_matches_scalar]), the functional
      behaviour of the two front ends, independence from how the stream is cut.
    - State: the QUIC manager's stream limit, the idle timeout's window, the
      resolver's cache and the liveness of its queries, the io_uring workers.
    - The process: the shutdown signal reaches every task ([shutdown_reaches_all]); a
      server without a given certificate has one identity however its starts go
      ([keyless_server_one_identity], [quic_identity_persists]), the two sides agree
      ([quic_endpoints_agree]); what does not run without a certificate
      ([process_without_certificate]).
    - Scope: the theorems on the whole path and [trojan_request_accepted] are about
      targets the server can read back ([carried_addr]): IPv4 addresses and host names
      of at most 255 bytes; [mix_addr_v6_roundtrip_iff] says what becomes of an IPv6
      target. In Lite TLS mode the whole path is exact if no write was short before
      the relays started; [lite_tls_handshake_exact] and [lite_tls_leaves_exact] say
      without that condition what the handshake handed to its writes and what the
      streams took of it.
    - Errors and bounds: exactly when a decoder, a port option or a datagram reader
      refuses, wraps or panics. Theorems and examples named for a defect
      ([lite_tls_short_write_loses], [quic_daemon_can_panic], ...) evaluate the
      model on the input that shows it.

    ** Fuel

    A loop that may poll a stream for ever takes fuel. Where the code has a bound the
    model computes it ([write_all]: each pass writes a byte). Otherwise fuel is an
    argument and a theorem says when it is enough: [forked_poll_copy_terminates], and
    the clauses of [trojan_request_accepted], [lite_tls_handshake_exact],
    [socks5_accept_exact] and [http_accept_exact] that bound the bytes read when fuel
    runs out.

    ** What is not modelled

    - Logging and the help text; the tests; utils/copy_tcp.rs, which is commented out.
    - The libraries: TLS, QUIC, PEM, the generation of certificates, SHA-224, the
      parsing of the command line's text. They are parameters.
    - [udp_tunnel_exact] starts from the socket of an association the SOCKS5 front end
      has granted. [lite_tls_tunnel_exact] asks for whole records inside the tunnel; of a
      connection that only one side takes out of the tunnel, what that side did is stated
      ([lite_tls_leaves_exact]), not what becomes of both.
    - TlsConfig: between two starts nothing else changes the files of the data
      directory. Links and other names for the same file are excluded by [FilesOk].
    - The tasks in Listeners stop mattering when [build_tunnel] returns: [main] then
      drops the runtime and with it all tasks.
    - Wake-ups of tasks, but for those of ServerUdpStream: a poll may happen at any
      time.
    - Two connections share nothing but the counters used in log messages, the
      resolver and the QUIC manager; each of those is modelled with its users
      interleaved. *)
From Stdlib Require Export ZArith Lia.
From stdpp Require Export base tactics list option strings gmap numbers.

(** ** Outcomes

    One type carries every way a Rust expression of this program can end:
    [Ok]/[Err] are [Result]; [Pending] is [Poll::Pending], and for an [async fn]
    the state "suspended at an await the environment never completes"; [Panic] is
    a failed index, slice, assertion, [unwrap], [unreachable!] or [panic!];
    [OutOfFuel] is the model's own: a loop that was given too little fuel. *)
Inductive outcome (E A : Type) : Type :=
| Ok (a : A)
| Err (e : E)
| Pending
| Panic (msg : string)
| OutOfFuel.
Arguments Ok {E A} a.
Arguments Err {E A} e.
Arguments Pending {E A}.
Arguments Panic {E A} msg.
Arguments OutOfFuel {E A}.

#[global] Instance outcome_ret {E} : MRet (outcome E) := λ A a, Ok a.
#[global] Instance outcome_bind {E} : MBind (outcome E) := λ A B f m,
  match m with
  | Ok a => f a
  | Err e => Err e
  | Pending => Pending
  | Panic s => Panic s
  | OutOfFuel => OutOfFuel
  end.

(** [Result::map_err]. *)
Definition map_err {E E' A} (f : E → E') (m : outcome E A) : outcome E' A :=
  match m with
  | Ok a => Ok a
  | Err e => Err (f e)
  | Pending => Pending
  | Panic s => Panic s
  | OutOfFuel => OutOfFuel
  end.

Definition is_panic {E A} (m : outcome E A) : bool :=
  match m with Panic _ => true | _ => false end.

(** ** Stateful operations

    [ST S E A] is a method on [&mut S]: the state it leaves behind is kept on
    every exit, an early return through [?] included. *)
Definition ST (S E A : Type) : Type := S → outcome E A * S.

#[global] Instance st_ret {S E} : MRet (ST S E) := λ A a s, (Ok a, s).
#[global] Instance st_bind {S E} : MBind (ST S E) := λ A B f m s,
  match m s with
  | (Ok a, s') => f a s'
  | (Err e, s') => (Err e, s')
  | (Pending, s') => (Pending, s')
  | (Panic msg, s') => (Panic msg, s')
  | (OutOfFuel, s') => (OutOfFuel, s')
  end.

Section st_operations.
Context {S E : Type}.
Definition st_get : ST S E S := λ s, (Ok s, s).
Definition st_put (s' : S) : ST S E unit := λ _, (Ok tt, s').
Definition st_gets {A} (f : S → A) : ST S E A := λ s, (Ok (f s), s).
Definition st_modify (f : S → S) : ST S E unit := λ s, (Ok tt, f s).
Definition st_lift {A} (m : outcome E A) : ST S E A := λ s, (m, s).
Definition st_map_err {E' A} (f : E → E') (m : ST S E A) : ST S E' A :=
  λ s, let '(r, s') := m s in (map_err f r, s').
(** Run an operation and keep its outcome as a value, as a [match] on a
    [Poll<Result<_>>] does. *)
Definition st_try {E' A} (m : ST S E A) : ST S E' (outcome E A) :=
  λ s, let '(r, s') := m s in (Ok r, s').
(** Run an operation on a part of the state: a method call on a field. *)
Definition st_zoom {T A} (get : S → T) (set : T → S → S) (m : ST T E A) : ST S E A :=
  λ s, let '(r, t) := m (get s) in (r, set t s).
End st_operations.

Notation "'throw' e" := (st_lift (Err e)) (at level 10, e at level 9).
Notation "'panic' s" := (st_lift (Panic s)) (at level 10, s at level 9).

(** *** Laws and inversion of the two monads *)
Section monad_laws.
Context {S E A B C : Type}.
Implicit Types (m : ST S E A) (f : A → ST S E B) (g : B → ST S E C).

Lemma outcome_bind_Ok (m : outcome E A) (f : A → outcome E B) b :
  m ≫= f = Ok b ↔ ∃ a, m = Ok a ∧ f a = Ok b.
Proof. destruct m; cbn; (split; [intros ?|intros (?&?&?)]); simplify_eq; eauto. Qed.

Lemma outcome_bind_assoc (m : outcome E A) (f : A → outcome E B) (g : B → outcome E C) :
  (m ≫= f) ≫= g = m ≫= (λ a, f a ≫= g).
Proof. by destruct m. Qed.

Lemma st_ret_bind (a : A) f s : (mret a ≫= f) s = f a s.
Proof. done. Qed.

Lemma st_bind_assoc m f g s : ((m ≫= f) ≫= g) s = (m ≫= (λ a, f a ≫= g)) s.
Proof. unfold mbind, st_bind. by destruct (m s) as [[] ?]. Qed.

Lemma st_bind_Ok m f s b s'' :
  (m ≫= f) s = (Ok b, s'') ↔ ∃ a s', m s = (Ok a, s') ∧ f a s' = (Ok b, s'').
Proof.
  unfold mbind, st_bind.
  destruct (m s) as [[] s0]; (split; [intros ?|intros (?&?&?&?)]); simplify_eq; eauto.
Qed.

Lemma st_get_bind (k : S → ST S E B) s : (st_get ≫= k) s = k s s.
Proof. done. Qed.

Lemma st_gets_bind (h : S → A) f s : (st_gets h ≫= f) s = f (h s) s.
Proof. done. Qed.

Lemma st_put_bind s' (k : unit → ST S E B) s : (st_put s' ≫= k) s = k tt s'.
Proof. done. Qed.

Lemma st_modify_bind h (k : unit → ST S E B) s : (st_modify h ≫= k) s = k tt (h s).
Proof. done. Qed.

Lemma st_lift_Ok_bind (a : A) f s : (st_lift (Ok a) ≫= f) s = f a s.
Proof. done. Qed.

Lemma st_lift_Err_bind e f s : (st_lift (Err e) ≫= f) s = (Err e, s).
Proof. done. Qed.

Lemma st_try_bind {E'} (m : ST S E A) (k : outcome E A → ST S E' B) s :
  (st_try m ≫= k) s = k (m s).1 (m s).2.
Proof. unfold st_try, mbind, st_bind. by destruct (m s). Qed.

Lemma st_bind_run m f s a s' : m s = (Ok a, s') → (m ≫= f) s = f a s'.
Proof. intros H. unfold mbind, st_bind. by rewrite H. Qed.

Lemma st_bind_split m f s :
  (m ≫= f) s = match m s with
    | (Ok a, s') => f a s'
    | (Err e, s') => (Err e, s')
    | (Pending, s') => (Pending, s')
    | (Panic msg, s') => (Panic msg, s')
    | (OutOfFuel, s') => (OutOfFuel, s')
    end.
Proof. done. Qed.

Lemma st_zoom_run {T} (get : S → T) set (m : ST T E A) s :
  st_zoom get set m s = ((m (get s)).1, set (m (get s)).2 s).
Proof. unfold st_zoom. by destruct (m (get s)). Qed.

Lemma st_zoom_bind {T} (get : S → T) set (m : ST T E A) f s :
  (st_zoom get set m ≫= f) s = let '(r, t) := m (get s) in
    match r with
    | Ok a => f a (set t s)
    | Err e => (Err e, set t s)
    | Pending => (Pending, set t s)
    | Panic msg => (Panic msg, set t s)
    | OutOfFuel => (OutOfFuel, set t s)
    end.
Proof. unfold st_zoom, mbind, st_bind. by destruct (m (get s)) as [[] ?]. Qed.
End monad_laws.

(** *** Postconditions

    [post m s Q]: running [m] from [s] ends in an outcome and a state that satisfy
    [Q], whichever exit is taken. The rule for [bind] is the weakest
    precondition: the early exits of the first part are exits of the whole. *)
Definition post {S E A} (m : ST S E A) (s : S) (Q : outcome E A → S → Prop) : Prop :=
  Q (m s).1 (m s).2.

Section post_rules.
Context {S E : Type}.

Lemma post_bind {A B} (m : ST S E A) (f : A → ST S E B) s Q :
  post m s (λ r s', match r with
    | Ok a => post (f a) s' Q
    | Err e => Q (Err e) s'
    | Pending => Q Pending s'
    | Panic msg => Q (Panic msg) s'
    | OutOfFuel => Q OutOfFuel s'
    end) → post (m ≫= f) s Q.
Proof. unfold post, mbind, st_bind. by destruct (m s) as [[] ?]. Qed.

Lemma post_mono {A} (m : ST S E A) s (P Q : outcome E A → S → Prop) :
  post m s P → (∀ r s', P r s' → Q r s') → post m s Q.
Proof. unfold post. auto. Qed.

Lemma post_eq {A} (m m' : ST S E A) s Q : m s = m' s → post m' s Q → post m s Q.
Proof. unfold post. by intros ->. Qed.

Lemma post_ret {A} (a : A) s (Q : outcome E A → S → Prop) : Q (Ok a) s → post (mret a) s Q.
Proof. done. Qed.

Lemma post_lift {A} (r : outcome E A) s (Q : outcome E A → S → Prop) :
  Q r s → post (st_lift r) s Q.
Proof. done. Qed.

Lemma post_get s (Q : outcome E S → S → Prop) : Q (Ok s) s → post st_get s Q.
Proof. done. Qed.

Lemma post_modify f s (Q : outcome E unit → S → Prop) : Q (Ok tt) (f s) → post (st_modify f) s Q.
Proof. done. Qed.

Lemma post_try {E' A} (m : ST S E A) s (Q : outcome E' (outcome E A) → S → Prop) :
  Q (Ok (m s).1) (m s).2 → post (st_try m) s Q.
Proof. unfold post, st_try. by destruct (m s). Qed.

Lemma post_zoom {T A} get set (m : ST T E A) (s : S) (Q : outcome E A → S → Prop) :
  Q (m (get s)).1 (set (m (get s)).2 s) → post (st_zoom get set m) s Q.
Proof. unfold post, st_zoom. by destruct (m (get s)). Qed.

Lemma post_run {A} (m : ST S E A) s r s' (Q : outcome E A → S → Prop) :
  post m s Q → m s = (r, s') → Q r s'.
Proof. unfold post. intros HQ Hm. by rewrite Hm in HQ. Qed.
End post_rules.

(** *** Frames

    [respects R m]: whatever [m] does and however it exits, the state it leaves is
    related by [R] to the one it started from. For a preorder [R] this is closed
    under the combinators, so that [eauto with respects] shows it of a program. *)
Definition respects {S E A} (R : relation S) (m : ST S E A) : Prop := ∀ s, R s (m s).2.

Section respects_rules.
Context {S E : Type} (R : relation S) `{!PreOrder R}.

Lemma respects_bind {A B} (m : ST S E A) (f : A → ST S E B) :
  respects R m → (∀ a, respects R (f a)) → respects R (m ≫= f).
Proof.
  intros Hm Hf s. specialize (Hm s). unfold mbind, st_bind.
  destruct (m s) as [[a|e| |msg|] s']; cbn [snd] in *; try done. etrans; [exact Hm|apply Hf].
Qed.

Lemma respects_lift {A} (r : outcome E A) : respects R (st_lift r).
Proof. by intros s. Qed.

Lemma respects_ret {A} (a : A) : respects R (mret a : ST S E A).
Proof. by intros s. Qed.

Lemma respects_get : respects R (st_get : ST S E S).
Proof. by intros s. Qed.

Lemma respects_try {E' A} (m : ST S E A) : respects R m → respects R (st_try (E':=E') m).
Proof. intros Hm s. specialize (Hm s). unfold st_try. by destruct (m s). Qed.

Lemma respects_map_err {E' A} (f : E → E') (m : ST S E A) : respects R m → respects R (st_map_err f m).
Proof. intros Hm s. specialize (Hm s). unfold st_map_err. by destruct (m s). Qed.

Lemma respects_zoom {T A} (get : S → T) set (m : ST T E A) :
  (∀ s, R s (set (m (get s)).2 s)) → respects R (st_zoom get set m).
Proof. intros Hm s. rewrite st_zoom_run. apply Hm. Qed.
End respects_rules.

Create HintDb respects.
#[export] Hint Resolve respects_lift respects_ret respects_get respects_try respects_map_err : respects.

(** Program structure: a bind, a conditional or a match whose branches respect [R]. *)
Ltac respect :=
  repeat first
    [ progress intros
    | solve [auto with respects typeclass_instances]
    | match goal with |- respects _ (match ?x with _ => _ end) => destruct x end
    | apply respects_bind; [typeclasses eauto| |]
    | progress cbn zeta ].

(** ** [ParserError] (src/src/utils/mod.rs) and the length macro *)
Inductive ParserError : Type :=
| Incomplete (msg : string)
| Invalid (msg : string).

#[global] Instance ParserError_eq_dec : EqDecision ParserError.
Proof. solve_decision. Defined.

(** [expect_buf_len!(buf, len, mark)]. *)
Definition expect_buf_len (buf : list Z) (len : nat) (mark : string) : outcome ParserError unit :=
  if decide (length buf < len) then Err (Incomplete mark) else Ok tt.

(** [std::io::Error], by the kind the code constructs or passes on. *)
Inductive io_error : Type :=
| WriteZero
| UnexpectedEof
| Interrupted
| NotFound
| InvalidInput
| OtherKind
| Os (code : Z).

#[global] Instance io_error_eq_dec : EqDecision io_error.
Proof. solve_decision. Defined.

(** ** Machine integers *)
Definition u8_wrap (z : Z) : Z := z mod 256.
Definition u16_wrap (z : Z) : Z := z mod 65536.
Definition u32_wrap (z : Z) : Z := z mod 4294967296.
Definition u64_wrap (z : Z) : Z := z mod 18446744073709551616.

Definition is_u8 (z : Z) : Prop := (0 ≤ z < 256)%Z.
Definition is_u16 (z : Z) : Prop := (0 ≤ z < 65536)%Z.

(** [u16::to_be_bytes] and [u16::from_be_bytes]. *)
Definition u16_to_be (x : Z) : list Z := [Z.shiftr x 8; Z.land x 255]%Z.
Definition u16_from_be (hi lo : Z) : Z := Z.lor (Z.shiftl hi 8) lo.

Lemma u16_to_be_div_mod x : u16_to_be x = [x / 256; x mod 256]%Z.
Proof.
  unfold u16_to_be. rewrite Z.shiftr_div_pow2 by lia.
  change 255%Z with (Z.ones 8). by rewrite Z.land_ones by lia.
Qed.

Lemma u16_from_be_add hi lo : is_u8 lo → u16_from_be hi lo = (hi * 256 + lo)%Z.
Proof.
  unfold is_u8, u16_from_be. intros Hlo.
  rewrite Z.shiftl_mul_pow2 by lia. change (2 ^ 8)%Z with 256%Z.
  rewrite <- Z.add_lor_land.
  assert (Z.land (hi * 256) lo = 0)%Z as ->; [|lia].
  apply Z.bits_inj'. intros n Hn. rewrite Z.land_spec, Z.bits_0.
  change 256%Z with (2 ^ 8)%Z. rewrite Z.mul_pow2_bits by lia.
  destruct (decide (n < 8)%Z).
  - by rewrite Z.testbit_neg_r by lia.
  - rewrite (Z.bits_above_log2 lo n) by (first [lia | destruct (decide (lo = 0)%Z) as [->|];
      [cbn; lia | apply Z.log2_lt_pow2; [lia|]; apply Z.lt_le_trans with (2 ^ 8)%Z; [lia|];
      apply Z.pow_le_mono_r; lia]]).
    by rewrite andb_false_r.
Qed.

Lemma u16_be_roundtrip x :
  is_u16 x → u16_from_be (Z.shiftr x 8) (Z.land x 255) = x.
Proof.
  intros Hx. pose proof (u16_to_be_div_mod x) as H. unfold u16_to_be in H.
  injection H as -> ->. rewrite u16_from_be_add.
  - pose proof (Z.div_mod x 256). lia.
  - unfold is_u8. apply Z.mod_pos_bound. lia.
Qed.

Lemma u16_to_be_u8 x : is_u16 x → Forall is_u8 (u16_to_be x).
Proof.
  unfold is_u16. rewrite u16_to_be_div_mod. intros Hx. repeat constructor; unfold is_u8.
  - apply Z.div_pos; lia.
  - apply Z.div_lt_upper_bound; lia.
  - apply Z.mod_pos_bound; lia.
  - apply Z.mod_pos_bound; lia.
Qed.

Lemma u16_from_be_u16 hi lo : is_u8 hi → is_u8 lo → is_u16 (u16_from_be hi lo).
Proof. intros Hh Hl. rewrite u16_from_be_add by done. unfold is_u8, is_u16 in *. lia. Qed.

Lemma u16_split x :
  is_u16 x → ∃ hi lo, is_u8 hi ∧ is_u8 lo ∧ x = u16_from_be hi lo ∧ u16_to_be x = [hi; lo].
Proof.
  intros Hx. exists (Z.shiftr x 8), (Z.land x 255).
  pose proof (u16_to_be_u8 x Hx) as HF. unfold u16_to_be in *.
  rewrite !Forall_cons_iff in HF. destruct_and!. rewrite u16_be_roundtrip by done. done.
Qed.

Lemma u16_from_be_inj hi lo hi' lo' :
  is_u8 hi → is_u8 lo → is_u8 hi' → is_u8 lo' →
  u16_from_be hi lo = u16_from_be hi' lo' → hi = hi' ∧ lo = lo'.
Proof. intros ????. rewrite !u16_from_be_add by done. unfold is_u8 in *. lia. Qed.

Lemma u8_wrap_id z : is_u8 z → u8_wrap z = z.
Proof. unfold is_u8, u8_wrap. intros. by apply Z.mod_small. Qed.

Lemma u16_wrap_id z : is_u16 z → u16_wrap z = z.
Proof. unfold is_u16, u16_wrap. intros. by apply Z.mod_small. Qed.

(** ** Indexing and slicing, with Rust's panics *)
Definition index {E A} (l : list A) (i : nat) : outcome E A :=
  match l !! i with
  | Some x => Ok x
  | None => Panic "index out of bounds"
  end.

(** [&l[a..b]]. *)
Definition slice {E A} (l : list A) (a b : nat) : outcome E (list A) :=
  if decide (a ≤ b ∧ b ≤ length l) then Ok (take (b - a) (drop a l))
  else Panic "slice index out of range".

(** [&l[a..]]. *)
Definition slice_from {E A} (l : list A) (a : nat) : outcome E (list A) :=
  if decide (a ≤ length l) then Ok (drop a l) else Panic "slice start out of range".

(** [l[i] = x]. *)
Definition store {E A} (l : list A) (i : nat) (x : A) : outcome E (list A) :=
  if decide (i < length l) then Ok (<[i:=x]> l) else Panic "index out of bounds".

Section slice_lemmas.
Context {E A : Type}.
Implicit Types (l : list A).

Lemma index_Ok l i x : l !! i = Some x → index (E:=E) l i = Ok x.
Proof. unfold index. by intros ->. Qed.

Lemma index_lt l i : i < length l → ∃ x, index (E:=E) l i = Ok x ∧ l !! i = Some x.
Proof.
  intros [x Hx]%lookup_lt_is_Some. exists x. eauto using index_Ok.
Qed.

Lemma index_app_l l k i : i < length l → index (E:=E) (l ++ k) i = index l i.
Proof. intros. unfold index. by rewrite lookup_app_l. Qed.

Lemma slice_Ok l a b :
  a ≤ b → b ≤ length l → slice (E:=E) l a b = Ok (take (b - a) (drop a l)).
Proof. intros. unfold slice. by rewrite decide_True. Qed.

Lemma slice_app_l l k a b :
  b ≤ length l → slice (E:=E) (l ++ k) a b = slice l a b.
Proof.
  intros Hb. unfold slice. destruct (decide (a ≤ b)).
  - rewrite !decide_True by (rewrite ?length_app; lia).
    rewrite drop_app_le, take_app_le by (rewrite ?length_drop; lia). done.
  - rewrite !decide_False by lia. done.
Qed.

Lemma slice_from_Ok l a : a ≤ length l → slice_from (E:=E) l a = Ok (drop a l).
Proof. intros. unfold slice_from. by rewrite decide_True. Qed.

Lemma store_Ok l i x : i < length l → store (E:=E) l i x = Ok (<[i:=x]> l).
Proof. intros. unfold store. by rewrite decide_True. Qed.
End slice_lemmas.

Lemma expect_buf_len_Ok buf n mark : n ≤ length buf → expect_buf_len buf n mark = Ok tt.
Proof. intros. unfold expect_buf_len. rewrite decide_False by lia. done. Qed.

Lemma expect_buf_len_Err buf n mark :
  length buf < n → expect_buf_len buf n mark = Err (Incomplete mark).
Proof. intros. unfold expect_buf_len. by rewrite decide_True. Qed.

(** ** UTF-8 validation ([String::from_utf8], [str::from_utf8]) *)
Definition utf8_cont (b : Z) : bool := bool_decide (128 ≤ b < 192)%Z.
Definition in_range (lo hi b : Z) : bool := bool_decide (lo ≤ b ≤ hi)%Z.

Fixpoint utf8_valid (bs : list Z) : bool :=
  match bs with
  | [] => true
  | b0 :: r0 =>
      if in_range 0 0x7f b0 then utf8_valid r0
      else match r0 with
      | [] => false
      | b1 :: r1 =>
          if in_range 0xc2 0xdf b0 then utf8_cont b1 && utf8_valid r1
          else match r1 with
          | [] => false
          | b2 :: r2 =>
              if in_range 0xe0 0xe0 b0 then in_range 0xa0 0xbf b1 && utf8_cont b2 && utf8_valid r2
              else if in_range 0xed 0xed b0 then in_range 0x80 0x9f b1 && utf8_cont b2 && utf8_valid r2
              else if in_range 0xe1 0xef b0 then utf8_cont b1 && utf8_cont b2 && utf8_valid r2
              else match r2 with
              | [] => false
              | b3 :: r3 =>
                  utf8_cont b2 && utf8_cont b3 && utf8_valid r3 &&
                  (if in_range 0xf0 0xf0 b0 then in_range 0x90 0xbf b1
                   else if in_range 0xf1 0xf3 b0 then utf8_cont b1
                   else if in_range 0xf4 0xf4 b0 then in_range 0x80 0x8f b1
                   else false)
              end
          end
      end
  end.

Lemma utf8_valid_ascii bs : Forall (λ b, 0 ≤ b ≤ 127)%Z bs → utf8_valid bs = true.
Proof.
  induction 1 as [|b bs Hb _ IH]; [done|]. cbn. unfold in_range.
  by rewrite bool_decide_eq_true_2 by lia.
Qed.

(** The bytes of an ASCII literal. *)
Definition bytes_of_string (s : string) : list Z :=
  map (λ a, Z.of_nat (Ascii.nat_of_ascii a)) (String.list_ascii_of_string s).

(** ** Shared automation *)
Create HintDb oxide.
#[export] Hint Resolve u16_to_be_u8 u16_from_be_u16 utf8_valid_ascii : oxide.

(** Case analysis on every [decide], [if] and [match] of a hypothesis or goal. *)
Ltac crush_cases :=
  repeat (case_match || case_decide); simplify_eq/=; try done; try lia.

(** Execute the administrative steps of a stateful operation. *)
Ltac st_simpl :=
  repeat first
    [ rewrite st_get_bind | rewrite st_try_bind | rewrite st_gets_bind | rewrite st_put_bind
    | rewrite st_modify_bind | rewrite st_try_bind | rewrite st_lift_Ok_bind | rewrite st_lift_Err_bind
    | rewrite st_ret_bind ].

(** One administrative step of a [post] goal. *)
Ltac post_step :=
  lazymatch goal with
  | |- post (mbind _ _) _ _ => apply post_bind
  | |- post (mret _) _ _ => apply post_ret
  | |- post st_get _ _ => apply post_get
  | |- post (st_modify _) _ _ => apply post_modify
  | |- post (st_lift _) _ _ => apply post_lift
  | |- post (st_try _) _ _ => apply post_try
  | |- post (st_zoom _ _ _) _ _ => apply post_zoom
  end; cbv beta iota.
Ltac post_steps := repeat post_step.

(** Invert a successful run of a bind. *)
Ltac st_inv :=
  repeat match goal with
  | H : (_ ≫= _) _ = (Ok _, _) |- _ =>
      apply st_bind_Ok in H as (? & ? & ? & ?)
  | H : _ ≫= _ = Ok _ |- _ => apply outcome_bind_Ok in H as (? & ? & ?)
  end.

(** ** Relations every exit of an operation keeps

    [keeps R m s]: whichever way [m] exits, its state is [R]-related to the state
    it started from. For a preorder [R] this follows the structure of [m]. *)
Definition keeps {S E A} (R : S → S → Prop) (m : ST S E A) (s : S) : Prop := R s (m s).2.

Section keeps.
Context {S : Type} {R : S → S → Prop} `{!PreOrder R}.

Lemma keeps_bind {E A B} (m : ST S E A) (f : A → ST S E B) s :
  keeps R m s → (∀ a s', m s = (Ok a, s') → keeps R (f a) s') → keeps R (m ≫= f) s.
Proof.
  unfold keeps, mbind, st_bind. intros Hm Hf.
  destruct (m s) as [[a|e| |msg|] s'] eqn:E1; cbn in *; try done.
  etrans; [exact Hm|by apply Hf].
Qed.

Lemma keeps_ret {E A} (a : A) s : keeps R (E:=E) (mret a) s.
Proof. unfold keeps. cbn. reflexivity. Qed.

Lemma keeps_get {E} s : keeps R (E:=E) st_get s.
Proof. unfold keeps. cbn. reflexivity. Qed.

Lemma keeps_lift {E A} (r : outcome E A) s : keeps R (st_lift r) s.
Proof. unfold keeps. cbn. reflexivity. Qed.

Lemma keeps_modify {E} f s : R s (f s) → keeps R (E:=E) (st_modify f) s.
Proof. done. Qed.

Lemma keeps_try {E E' A} (m : ST S E A) s : keeps R m s → keeps R (E:=E') (st_try m) s.
Proof. unfold keeps, st_try. by destruct (m s). Qed.

Lemma keeps_zoom {T E A} get set (m : ST T E A) s :
  R s (set (m (get s)).2 s) → keeps R (st_zoom get set m) s.
Proof. unfold keeps, st_zoom. by destruct (m (get s)). Qed.

Lemma keeps_if {E A} (P : Prop) `{Decision P} (m1 m2 : ST S E A) s :
  (P → keeps R m1 s) → (¬ P → keeps R m2 s) → keeps R (if decide P then m1 else m2) s.
Proof. intros. case_decide; auto. Qed.
End keeps.

(** One step of a [keeps] goal; the operations on the state are left. *)
Ltac keeps_step :=
  lazymatch goal with
  | |- keeps _ (mbind _ _) _ => apply keeps_bind; [|intros ? ? ?]
  | |- keeps _ (mret _) _ => apply keeps_ret
  | |- keeps _ st_get _ => apply keeps_get
  | |- keeps _ (st_lift _) _ => apply keeps_lift
  | |- keeps _ (st_try _) _ => apply keeps_try
  | |- keeps _ (if decide _ then _ else _) _ => apply keeps_if; intros ?
  | |- keeps _ (match ?x with _ => _ end) _ => destruct x eqn:?
  end; cbv beta iota.
Ltac keeps_steps := repeat keeps_step.
