(* ===== verification/Vec.v ===== *)
(** Byte vectors and the buffer traits.

    [Vec<u8>] with its capacity (the growth of [RawVec], which decides how much
    one [read_buf] may read), the traits [CursoredBuffer] and
    [ExtendableFromSlice] of src/src/utils/buffers.rs as classes with their
    contracts, and the buffers that implement them: the pair
    [(&mut usize, &Vec<u8>)], [Vec<u8>], and [UdpRelayBuffer] of
    src/src/utils/udp/udp_relay_buffer.rs. *)
From S2P Require Import Prelude.

(** ** [Vec<u8>] *)
Record Vec := mkVec { vdata : list Z; vcap : nat }.

Definition vec_with_capacity (n : nat) : Vec := mkVec [] n.
Definition vec_len (v : Vec) : nat := length (vdata v).

(** [RawVec::grow_amortized] for one-byte elements. *)
Definition vec_reserve (additional : nat) (v : Vec) : Vec :=
  if decide (additional ≤ vcap v - vec_len v) then v
  else mkVec (vdata v) (Nat.max (Nat.max (2 * vcap v) (vec_len v + additional)) 8).

Definition vec_extend_from_slice (src : list Z) (v : Vec) : Vec :=
  let v' := vec_reserve (length src) v in mkVec (vdata v' ++ src) (vcap v').

(** [Vec::set_len], used by the code only to shrink. *)
Definition vec_set_len (n : nat) (v : Vec) : Vec := mkVec (take n (vdata v)) (vcap v).

(** [BufMut::chunk_mut] of the bytes crate: room for 64 bytes when full. *)
Definition vec_chunk_mut (v : Vec) : Vec :=
  if decide (vec_len v = vcap v) then vec_reserve 64 v else v.

(** The spare room a [read_buf] or an [as_read_buf] on [v] sees. *)
Definition vec_room (v : Vec) : nat := vcap (vec_chunk_mut v) - vec_len v.

(** The vector after [bs] bytes were read into its spare room. *)
Definition vec_filled (bs : list Z) (v : Vec) : Vec :=
  let v' := vec_chunk_mut v in mkVec (vdata v' ++ bs) (vcap v').

Definition vec_wf (v : Vec) : Prop := vec_len v ≤ vcap v.

Section vec_lemmas.
Implicit Types (v : Vec).

Lemma vec_reserve_data n v : vdata (vec_reserve n v) = vdata v.
Proof. unfold vec_reserve. by case_decide. Qed.

Lemma vec_reserve_room n v : vec_wf v → n ≤ vcap (vec_reserve n v) - vec_len v.
Proof.
  unfold vec_reserve. case_decide; [done|]. cbn. lia.
Qed.

Lemma vec_reserve_wf n v : vec_wf v → vec_wf (vec_reserve n v).
Proof. unfold vec_reserve, vec_wf. case_decide; [done|]. unfold vec_len. cbn. lia. Qed.

Lemma vec_chunk_mut_data v : vdata (vec_chunk_mut v) = vdata v.
Proof. unfold vec_chunk_mut. case_decide; [apply vec_reserve_data|done]. Qed.

Lemma vec_chunk_mut_wf v : vec_wf v → vec_wf (vec_chunk_mut v).
Proof. unfold vec_chunk_mut. case_decide; eauto using vec_reserve_wf. Qed.

Lemma vec_extend_data src v : vdata (vec_extend_from_slice src v) = vdata v ++ src.
Proof. unfold vec_extend_from_slice. cbn. by rewrite vec_reserve_data. Qed.

Lemma vec_extend_wf src v : vec_wf v → vec_wf (vec_extend_from_slice src v).
Proof.
  intros Hv. pose proof (vec_reserve_room (length src) v Hv).
  unfold vec_wf, vec_len, vec_extend_from_slice in *. cbn.
  rewrite length_app, vec_reserve_data. pose proof (vec_reserve_wf (length src) v Hv) as Hw.
  unfold vec_wf, vec_len in Hw. rewrite vec_reserve_data in Hw. lia.
Qed.

Lemma vec_filled_data bs v : vdata (vec_filled bs v) = vdata v ++ bs.
Proof. unfold vec_filled. cbn. by rewrite vec_chunk_mut_data. Qed.

(** A [read_buf] always offers room: a read of 0 bytes is an end of file. *)
Lemma vec_room_pos v : vec_wf v → 0 < vec_room v.
Proof.
  unfold vec_room, vec_chunk_mut. intros Hv. case_decide.
  - pose proof (vec_reserve_room 64 v Hv). lia.
  - unfold vec_wf in Hv. lia.
Qed.

Lemma vec_filled_wf bs v : vec_wf v → length bs ≤ vec_room v → vec_wf (vec_filled bs v).
Proof.
  unfold vec_room, vec_wf, vec_len, vec_filled. cbn.
  rewrite length_app, vec_chunk_mut_data. intros Hv Hb.
  pose proof (vec_chunk_mut_wf v Hv) as Hw. unfold vec_wf, vec_len in Hw.
  rewrite vec_chunk_mut_data in Hw. lia.
Qed.

Lemma vec_filled_nil_room v : vec_wf v → vec_room (vec_filled [] v) = vec_room v.
Proof.
  intros Hv. pose proof (vec_room_pos v Hv) as Hpos. unfold vec_room in *.
  unfold vec_filled, vec_len in *. rewrite app_nil_r, vec_chunk_mut_data. cbn.
  unfold vec_chunk_mut at 1, vec_len. cbn. rewrite decide_False by lia. done.
Qed.
End vec_lemmas.

(** ** Moving bytes down in place

    The loop [for i in 0..n { l[i] = l[off + i] }], which [UdpRelayBuffer::compact],
    [TlsRelayBuffer::pop_checked_packets] and [HttpRequest::parse] all contain. *)
Definition copy_down {E} (off n : nat) (l : list Z) : outcome E (list Z) :=
  foldl (λ acc i, l' ← acc; x ← index l' (off + i); store l' i x) (Ok l) (seq 0 n).

Lemma copy_down_Ok {E} off n l :
  off + n ≤ length l →
  copy_down (E:=E) off n l = Ok (take n (drop off l) ++ drop n l).
Proof.
  unfold copy_down. induction n as [|n IH]; intros Hn; [done|].
  rewrite seq_S, foldl_app, IH by lia. cbn.
  destruct (lookup_lt_is_Some_2 l (off + n)) as [x Hx]; [lia|].
  assert (length (take n (drop off l)) = n) as Hlen by (rewrite length_take, length_drop; lia).
  rewrite (index_Ok _ _ x).
  2: { rewrite lookup_app_r by lia. rewrite Hlen, lookup_drop.
       by replace (n + (off + n - n)) with (off + n) by lia. }
  cbn. rewrite store_Ok by (rewrite length_app, Hlen, length_drop; lia).
  rewrite insert_app_r_alt by lia. rewrite Hlen, Nat.sub_diag.
  destruct (lookup_lt_is_Some_2 l n) as [y Hy]; [lia|].
  rewrite (drop_S _ _ _ Hy). cbn.
  rewrite (take_S_r _ _ x) by (by rewrite lookup_drop). by rewrite <- app_assoc.
Qed.

(** The loop ends or panics; it never suspends. *)
Lemma copy_down_runs {E} off n l : copy_down (E:=E) off n l ≠ Pending.
Proof.
  unfold copy_down. generalize (seq 0 n) as js. assert (Ok (E:=E) l ≠ Pending) as Hacc by done.
  revert Hacc. generalize (Ok (E:=E) l) as acc. intros acc Hacc js.
  revert acc Hacc. induction js as [|i js IH]; intros acc Hacc; [done|]. cbn. apply IH.
  destruct acc as [l'| | | |]; try done. unfold index, store. cbn.
  destruct (l' !! (off + i)); cbn; [by case_decide|done].
Qed.

(** The vector after the loop and the [set_len] that follows it. *)
Lemma copy_down_all {E} off l :
  off ≤ length l →
  ∃ l', copy_down (E:=E) off (length l - off) l = Ok l' ∧
        take (length l - off) l' = drop off l.
Proof.
  intros Hoff. rewrite copy_down_Ok by lia. eexists. split; [done|].
  rewrite take_app_le by (rewrite length_take, length_drop; lia).
  rewrite take_take, Nat.min_id. rewrite take_ge; [done|]. rewrite length_drop. lia.
Qed.

(** ** The buffer traits *)

(** [trait CursoredBuffer]: [chunk] is what is left to consume, [advance n]
    consumes [n] bytes of it and panics past the end. *)
Class CursoredBuffer (B : Type) := {
  chunk : ∀ {E}, B → outcome E (list Z);
  advance : ∀ {E}, nat → ST B E unit;
}.

Class CursoredBufferOk (B : Type) `{CursoredBuffer B} := {
  advance_chunk : ∀ E (b : B) c n,
    chunk (E:=E) b = Ok c → n ≤ length c →
    ∃ b', advance (E:=E) n b = (Ok tt, b') ∧ chunk (E:=E) b' = Ok (drop n c);
  advance_past : ∀ E (b : B) c n,
    chunk (E:=E) b = Ok c → length c < n →
    ∃ msg, advance (E:=E) n b = (Panic msg, b);
}.

(** The trait's provided method [remaining]. *)
Definition remaining `{CursoredBuffer B} {E} (b : B) : outcome E nat :=
  c ← chunk b; mret (length c).

(** [trait ExtendableFromSlice]; [contents] is the ghost view its contract
    speaks about. *)
Class ExtendableFromSlice (B : Type) := {
  extend_from_slice : list Z → B → B;
  contents : B → list Z;
}.

Class ExtendableFromSliceOk (B : Type) `{ExtendableFromSlice B} := {
  contents_extend : ∀ src (b : B),
    contents (extend_from_slice src b) = contents b ++ src;
}.

(** [impl ExtendableFromSlice for Vec<u8>]. *)
#[export] Instance Vec_ExtendableFromSlice : ExtendableFromSlice Vec := {
  extend_from_slice := vec_extend_from_slice;
  contents := vdata;
}.

#[export] Instance Vec_ExtendableFromSliceOk : ExtendableFromSliceOk Vec.
Proof. constructor. apply vec_extend_data. Qed.

(** [impl CursoredBuffer for (&mut usize, &Vec<u8>)]. *)
Record CursorVec := mkCursorVec { cv_cursor : nat; cv_vec : list Z }.

Definition cursor_vec_chunk {E} (b : CursorVec) : outcome E (list Z) :=
  slice_from (cv_vec b) (cv_cursor b).

Definition cursor_vec_advance {E} (len : nat) : ST CursorVec E unit := λ b,
  if decide (cv_cursor b + len ≤ length (cv_vec b))
  then (Ok tt, mkCursorVec (cv_cursor b + len) (cv_vec b))
  else (Panic "(&'a mut usize, &Vec<u8>) was about to set a larger position than it's length", b).

#[export] Instance CursorVec_CursoredBuffer : CursoredBuffer CursorVec := {
  chunk := @cursor_vec_chunk;
  advance := @cursor_vec_advance;
}.

#[export] Instance CursorVec_CursoredBufferOk : CursoredBufferOk CursorVec.
Proof.
  split; intros E [c v] ch n Hc Hn; cbn in *;
    unfold cursor_vec_chunk, cursor_vec_advance, slice_from in *; cbn in *;
    case_decide; simplify_eq; rewrite length_drop in Hn.
  - rewrite decide_True by lia. eexists. split; [done|].
    unfold cursor_vec_chunk, slice_from. cbn. rewrite decide_True by lia. by rewrite drop_drop.
  - rewrite decide_False by lia. eauto.
Qed.

(** ** [UdpRelayBuffer] *)
Definition UDP_BUFFER_SIZE : nat := 8192.

Record UdpRelayBuffer := mkUdpRelayBuffer { ub_cursor : nat; ub_inner : Vec }.

Module UdpRelay.
Definition new : UdpRelayBuffer := mkUdpRelayBuffer 0 (vec_with_capacity UDP_BUFFER_SIZE).

(** [as_read_buf] followed by [advance_mut] of the bytes read. *)
Definition room (b : UdpRelayBuffer) : nat := vec_room (ub_inner b).
Definition advance_mut (bs : list Z) (b : UdpRelayBuffer) : UdpRelayBuffer :=
  mkUdpRelayBuffer (ub_cursor b) (vec_filled bs (ub_inner b)).

(** The buffer as [as_read_buf] leaves it when nothing is read: grown if full. *)
Definition as_read_buf (b : UdpRelayBuffer) : UdpRelayBuffer := advance_mut [] b.

Definition reset (b : UdpRelayBuffer) : UdpRelayBuffer :=
  mkUdpRelayBuffer 0 (vec_set_len 0 (ub_inner b)).

Definition has_remaining (b : UdpRelayBuffer) : bool :=
  bool_decide (ub_cursor b < vec_len (ub_inner b)).

Definition is_empty (b : UdpRelayBuffer) : bool := bool_decide (vec_len (ub_inner b) = 0).

Definition udp_chunk {E} (b : UdpRelayBuffer) : outcome E (list Z) :=
  slice_from (vdata (ub_inner b)) (ub_cursor b).

Definition udp_advance {E} (len : nat) : ST UdpRelayBuffer E unit := λ b,
  if decide (ub_cursor b + len ≤ vec_len (ub_inner b))
  then (Ok tt, mkUdpRelayBuffer (ub_cursor b + len) (ub_inner b))
  else (Panic "UdpRelayBuffer was about to set a larger position than it's length", b).

#[global] Instance UdpRelayBuffer_CursoredBuffer : CursoredBuffer UdpRelayBuffer := {
  chunk := @udp_chunk;
  advance := @udp_advance;
}.

Definition compact {E} : ST UdpRelayBuffer E unit :=
  b ← st_get;
  if decide (ub_cursor b = 0) then mret tt else
  data_len ← st_lift (remaining b);
  l ← st_lift (copy_down (ub_cursor b) data_len (vdata (ub_inner b)));
  st_put (mkUdpRelayBuffer 0 (vec_set_len data_len (mkVec l (vcap (ub_inner b))))).

Definition reserve_by_cursor {E} (len : nat) : ST UdpRelayBuffer E unit :=
  b ← st_get;
  if decide (len + ub_cursor b ≤ vcap (ub_inner b)) then mret tt else
  c ← st_lift (chunk b);
  st_put (mkUdpRelayBuffer 0 (vec_extend_from_slice c (vec_with_capacity len))).

Definition udp_extend (src : list Z) (b : UdpRelayBuffer) : UdpRelayBuffer :=
  mkUdpRelayBuffer (ub_cursor b) (vec_extend_from_slice src (ub_inner b)).

#[global] Instance UdpRelayBuffer_ExtendableFromSlice : ExtendableFromSlice UdpRelayBuffer := {
  extend_from_slice := udp_extend;
  contents := λ b, vdata (ub_inner b);
}.

#[global] Instance UdpRelayBuffer_ExtendableFromSliceOk : ExtendableFromSliceOk UdpRelayBuffer.
Proof. constructor. intros. apply vec_extend_data. Qed.

(** *** The abstraction: a relay buffer is the queue of bytes not yet consumed *)
Definition wf (b : UdpRelayBuffer) : Prop :=
  ub_cursor b ≤ vec_len (ub_inner b) ∧ vec_wf (ub_inner b).

Definition queue (b : UdpRelayBuffer) : list Z := drop (ub_cursor b) (vdata (ub_inner b)).

Lemma chunk_queue {E} b : wf b → chunk (E:=E) b = Ok (queue b).
Proof. intros [??]. cbn. by apply slice_from_Ok. Qed.

Lemma wf_new : wf new.
Proof. split; cbn; unfold vec_wf, vec_len; cbn; lia. Qed.

Lemma queue_new : queue new = [].
Proof. done. Qed.

Lemma wf_reset b : wf (reset b) ∧ queue (reset b) = [].
Proof.
  split; [|unfold queue; cbn; by rewrite take_0].
  split; unfold reset, vec_wf, vec_len; cbn; rewrite ?take_0; cbn; lia.
Qed.

Lemma length_queue b : length (queue b) = vec_len (ub_inner b) - ub_cursor b.
Proof. unfold queue. by rewrite length_drop. Qed.

Lemma has_remaining_queue b : has_remaining b = bool_decide (queue b ≠ []).
Proof.
  unfold has_remaining. apply bool_decide_ext.
  rewrite <- length_zero_iff_nil, length_queue. lia.
Qed.

Lemma remaining_queue {E} b : wf b → remaining (E:=E) b = Ok (length (queue b)).
Proof. intros Hb. unfold remaining. by rewrite chunk_queue. Qed.

Lemma advance_queue {E} n b :
  wf b → n ≤ length (queue b) →
  ∃ b', udp_advance (E:=E) n b = (Ok tt, b') ∧ wf b' ∧ queue b' = drop n (queue b).
Proof.
  intros [Hc Hw]. rewrite length_queue. intros Hn. unfold udp_advance.
  rewrite decide_True by lia. eexists. repeat split; cbn; [lia|done|].
  unfold queue. by rewrite drop_drop.
Qed.

Lemma advance_past_queue {E} n b :
  wf b → length (queue b) < n → ∃ msg, udp_advance (E:=E) n b = (Panic msg, b).
Proof.
  intros [Hc Hw]. rewrite length_queue. intros Hn. unfold udp_advance.
  rewrite decide_False by lia. eauto.
Qed.

#[global] Instance UdpRelayBuffer_wf_dec b : Decision (wf b).
Proof. unfold wf, vec_wf. apply _. Defined.

Lemma extend_queue src b : wf b → wf (udp_extend src b) ∧ queue (udp_extend src b) = queue b ++ src.
Proof.
  intros [Hc Hw]. unfold wf, queue, vec_len in *. cbn. rewrite vec_reserve_data, length_app.
  repeat split; [lia|by apply vec_extend_wf|]. by apply drop_app_le.
Qed.

Lemma advance_mut_queue bs b :
  wf b → length bs ≤ room b → wf (advance_mut bs b) ∧ queue (advance_mut bs b) = queue b ++ bs.
Proof.
  intros [Hc Hw] Hr. unfold wf, queue, vec_len in *. cbn. rewrite vec_chunk_mut_data, length_app.
  repeat split; [lia|by apply vec_filled_wf|]. by apply drop_app_le.
Qed.

Lemma compact_queue {E} b :
  wf b → ∃ b', compact (E:=E) b = (Ok tt, b') ∧ wf b' ∧ queue b' = queue b ∧ ub_cursor b' = 0.
Proof.
  intros Hb. destruct (decide (ub_cursor b = 0)) as [H0|H0].
  { exists b. unfold compact. st_simpl. by rewrite decide_True by done. }
  pose proof Hb as [Hc Hw]. unfold compact. st_simpl. rewrite decide_False by done. rewrite remaining_queue, length_queue by done.
  destruct (copy_down_all (E:=E) (ub_cursor b) (vdata (ub_inner b)) Hc) as (l' & Hl' & Ht).
  st_simpl. unfold vec_len in *. rewrite Hl'. st_simpl. eexists. split; [done|].
  unfold wf, queue, vec_wf, vec_len in *. cbn. rewrite Ht, length_drop.
  repeat split; first [lia | done].
Qed.

Lemma reserve_queue {E} len b :
  wf b → ∃ b', reserve_by_cursor (E:=E) len b = (Ok tt, b') ∧ wf b' ∧ queue b' = queue b.
Proof.
  intros Hb. unfold reserve_by_cursor. st_simpl.
  case_decide; [by exists b|]. rewrite chunk_queue by done. st_simpl.
  eexists. split; [done|].
  unfold wf, queue, vec_len. cbn. rewrite vec_reserve_data. cbn.
  repeat split; [lia|]. apply vec_extend_wf. unfold vec_wf, vec_len. cbn. lia.
Qed.

Lemma as_read_buf_queue b :
  wf b → wf (as_read_buf b) ∧ queue (as_read_buf b) = queue b ∧ room (as_read_buf b) = room b.
Proof.
  intros Hb. destruct (advance_mut_queue [] b Hb) as [Hw Hq]; [cbn; lia|].
  unfold as_read_buf. rewrite Hq, app_nil_r. split_and!; [done..|].
  unfold room, advance_mut. cbn. by apply vec_filled_nil_room, Hb.
Qed.
End UdpRelay.
