(* ===== verification/NetParser.v ===== *)
(** The textual address parsers of Rust's standard library that
    [MixAddrType::from_http_header] calls: [SocketAddrV4::from_str] and
    [SocketAddrV6::from_str] (core/std [net::parser]).

    A parser maps the unread bytes to a value and the bytes left; a failed
    parser restores its input, as [Parser::read_atomically] does. *)
From S2P Require Import Prelude.

Definition parser (A : Type) : Type := list Z → option (A * list Z).

#[export] Instance parser_ret : MRet parser := λ A a s, Some (a, s).
#[export] Instance parser_bind : MBind parser := λ A B f p s,
  match p s with
  | Some (a, s') => f a s'
  | None => None
  end.

Module NetParser.
Definition fail {A} : parser A := λ _, None.

Definition read_given_char (target : Z) : parser unit := λ s,
  match s with
  | c :: s' => if decide (c = target) then Some (tt, s') else None
  | [] => None
  end.

Definition read_separator {A} (sep : Z) (index : nat) (inner : parser A) : parser A :=
  if decide (0 < index) then read_given_char sep ≫= λ _, inner else inner.

(** [char::to_digit]. *)
Definition to_digit (radix c : Z) : option Z :=
  let d := if in_range 48 57 c then (c - 48)%Z
           else if in_range 97 122 c then (c - 87)%Z
           else if in_range 65 90 c then (c - 55)%Z
           else radix in
  if decide (d < radix)%Z then Some d else None.

(** The loop of [read_number]: [bound] is the maximum of the integer type,
    [n] the digits read so far. *)
Fixpoint read_digits (radix bound : Z) (max_digits : option nat) (result : Z) (n : nat)
    (s : list Z) : option (Z * nat * list Z) :=
  match s with
  | [] => Some (result, n, [])
  | c :: s' =>
      match to_digit radix c with
      | None => Some (result, n, s)
      | Some d =>
          let r := (result * radix + d)%Z in
          if decide (bound < result * radix ∨ bound < r)%Z then None else
          if match max_digits with Some m => bool_decide (m < S n) | None => false end
          then None
          else read_digits radix bound max_digits r (S n) s'
      end
  end.

Definition read_number (radix bound : Z) (max_digits : option nat)
    (allow_zero_prefix : bool) : parser Z := λ s,
  let has_leading_zero := bool_decide (head s = Some 48%Z) in
  '(result, n, s') ← read_digits radix bound max_digits 0 0 s;
  if decide (n = 0) then None
  else if negb allow_zero_prefix && has_leading_zero && bool_decide (1 < n) then None
  else Some (result, s').

Definition read_octet (i : nat) : parser Z :=
  read_separator 46 i (read_number 10 255 (Some 3) false).

Definition read_ipv4_addr : parser (list Z) :=
  read_octet 0 ≫= λ a, read_octet 1 ≫= λ b, read_octet 2 ≫= λ c, read_octet 3 ≫= λ d,
  mret [a; b; c; d].

(** [read_groups]: fills [groups] from index [i]; [fuel] counts the slots left.
    Result: the groups, how many were read, whether an IPv4 tail was read. *)
Fixpoint read_groups (limit i fuel : nat) (groups : list Z) (s : list Z)
    : list Z * nat * bool * list Z :=
  match fuel with
  | 0 => (groups, limit, false, s)
  | S fuel' =>
      let ipv4 := if decide (i < limit - 1) then read_separator 58 i read_ipv4_addr s else None in
      match ipv4 with
      | Some ([one; two; three; four], s') =>
          (<[i + 1 := u16_from_be three four]> (<[i := u16_from_be one two]> groups), i + 2, true, s')
      | _ =>
          match read_separator 58 i (read_number 16 65535 (Some 4) true) s with
          | Some (g, s') => read_groups limit (i + 1) fuel' (<[i := g]> groups) s'
          | None => (groups, i, false, s)
          end
      end
  end.

Definition read_ipv6_addr : parser (list Z) := λ s,
  let '(head, head_size, head_ipv4, s1) := read_groups 8 0 8 (replicate 8 0%Z) s in
  if decide (head_size = 8) then Some (head, s1) else
  if head_ipv4 then None else
  '(_, s2) ← (read_given_char 58 ≫= λ _, read_given_char 58) s1;
  let limit := 8 - (head_size + 1) in
  let '(tail, tail_size, _, s3) := read_groups limit 0 limit (replicate limit 0%Z) s2 in
  Some (take (8 - tail_size) head ++ take tail_size tail, s3).

Definition read_port : parser Z :=
  read_given_char 58 ≫= λ _, read_number 10 65535 None true.

Definition read_scope_id : parser Z :=
  read_given_char 37 ≫= λ _, read_number 10 4294967295 None true.

Definition read_socket_addr_v4 : parser (list Z * Z) :=
  read_ipv4_addr ≫= λ ip, read_port ≫= λ port, mret (ip, port).

(** [read_scope_id().unwrap_or(0)]. *)
Definition opt_scope_id : parser Z := λ s,
  match read_scope_id s with Some r => Some r | None => Some (0%Z, s) end.

Definition read_socket_addr_v6 : parser (list Z * Z) :=
  read_given_char 91 ≫= λ _, read_ipv6_addr ≫= λ ip, opt_scope_id ≫= λ _,
  read_given_char 93 ≫= λ _, read_port ≫= λ port, mret (ip, port).

(** [parse_with]: the whole input must be consumed. *)
Definition parse_with {A} (p : parser A) (s : list Z) : option A :=
  match p s with
  | Some (a, []) => Some a
  | _ => None
  end.

(** [SocketAddrV4::from_str(s)] and its [ip().octets()];
    [SocketAddrV6::from_str(s)] and its [ip().segments()]. *)
Definition parse_socket_addr_v4 (s : list Z) : option (list Z) :=
  fst <$> parse_with read_socket_addr_v4 s.
Definition parse_socket_addr_v6 (s : list Z) : option (list Z) :=
  fst <$> parse_with read_socket_addr_v6 s.

(** *** Every parser leaves a suffix of its input *)
Definition consumes {A} (p : parser A) : Prop := ∀ s a s', p s = Some (a, s') → s' `suffix_of` s.

Lemma consumes_ret {A} (a : A) : consumes (mret a).
Proof. intros s a' s' [= <- <-]. reflexivity. Qed.

Lemma consumes_bind {A B} (p : parser A) (f : A → parser B) :
  consumes p → (∀ a, consumes (f a)) → consumes (p ≫= f).
Proof.
  unfold mbind, parser_bind. intros Hp Hf s b s''.
  destruct (p s) as [[a s']|] eqn:E; [|done]. intros H.
  etrans; [eapply Hf, H|]. by eapply Hp.
Qed.

Lemma consumes_given c : consumes (read_given_char c).
Proof. intros [|x s] a s'; [done|]. cbn. case_decide; [|done]. intros [= <- <-]. by exists [x]. Qed.

Lemma consumes_separator {A} c i (p : parser A) : consumes p → consumes (read_separator c i p).
Proof.
  intros Hp. unfold read_separator. case_decide; [|done].
  apply consumes_bind; [apply consumes_given | done].
Qed.

(** The digits a number parser consumed. *)
Lemma read_digits_spec radix bound m r n s r' n' s' :
  read_digits radix bound m r n s = Some (r', n', s') →
  ∃ ds, s = ds ++ s' ∧ n' = n + length ds ∧ Forall (λ c, is_Some (to_digit radix c)) ds.
Proof.
  revert r n. induction s as [|c s IH]; intros r n; cbn.
  - intros [= <- <- <-]. exists []. cbn. by rewrite Nat.add_0_r.
  - destruct (to_digit radix c) as [d|] eqn:Ed.
    + case_decide; [done|]. case_match; [done|].
      intros (ds & -> & -> & Hds)%IH. exists (c :: ds).
      repeat split; [cbn; lia | by constructor].
    + intros [= <- <- <-]. exists []. cbn. by rewrite Nat.add_0_r.
Qed.

Lemma read_number_spec radix bound m z s v s' :
  read_number radix bound m z s = Some (v, s') →
  ∃ ds, s = ds ++ s' ∧ ds ≠ [] ∧ Forall (λ c, is_Some (to_digit radix c)) ds.
Proof.
  unfold read_number. destruct (read_digits _ _ _ _ _ _) as [[[r n] s1]|] eqn:E; [|done].
  apply read_digits_spec in E as (ds & -> & -> & Hds). cbn.
  destruct ds as [|d ds]; cbn; [done|]. case_decide; [done|].
  destruct (_ && _ && _); [done|]. intros [= -> ->].
  exists (d :: ds). done.
Qed.

Lemma consumes_number radix bound m z : consumes (read_number radix bound m z).
Proof. intros s a s' (ds & -> & _)%read_number_spec. by exists ds. Qed.

Lemma consumes_ipv4 : consumes read_ipv4_addr.
Proof.
  unfold read_ipv4_addr, read_octet.
  repeat (apply consumes_bind; [apply consumes_separator, consumes_number|intros ?]).
  apply consumes_ret.
Qed.

Lemma read_groups_suffix limit i fuel groups s gs n b s' :
  read_groups limit i fuel groups s = (gs, n, b, s') → s' `suffix_of` s.
Proof.
  revert i groups s. induction fuel as [|fuel IH]; intros i groups s; cbn.
  { intros [= _ _ _ ->]. reflexivity. }
  assert (∀ g s1, read_separator 58 i (read_number 16 65535 (Some 4) true) s = Some (g, s1) →
                  s1 `suffix_of` s) as Hg.
  { intros g s1. apply consumes_separator, consumes_number. }
  assert (∀ v s1, (if decide (i < limit - 1) then read_separator 58 i read_ipv4_addr s else None)
                  = Some (v, s1) → s1 `suffix_of` s) as H4.
  { intros v s1. case_decide; [|done]. apply consumes_separator, consumes_ipv4. }
  repeat case_match; intros; simplify_eq; try reflexivity; try (by eapply H4);
    (etrans; [by eapply IH | by eapply Hg]).
Qed.

Lemma consumes_ipv6 : consumes read_ipv6_addr.
Proof.
  intros s a s'. unfold read_ipv6_addr.
  destruct (read_groups 8 0 8 _ s) as [[[h hs] h4] s1] eqn:E1.
  apply read_groups_suffix in E1. case_decide; [by intros [= <- <-]|].
  destruct h4; [done|].
  destruct ((read_given_char 58 ≫= λ _, read_given_char 58) s1) as [[[] s2]|] eqn:E2; [|done].
  apply (consumes_bind _ _ (consumes_given 58) (λ _, consumes_given 58)) in E2. cbn -[read_groups].
  destruct (read_groups _ _ _ _ s2) as [[[t ts] ?] s3] eqn:E3.
  apply read_groups_suffix in E3. intros [= _ <-]. by do 2 (etrans; [eassumption|]).
Qed.

Lemma consumes_scope : consumes opt_scope_id.
Proof.
  intros s a s'. unfold opt_scope_id. destruct (read_scope_id s) as [[v s1]|] eqn:E.
  - intros [= <- <-]. revert E. apply consumes_bind; [apply consumes_given|intros _].
    apply consumes_number.
  - intros [= _ <-]. reflexivity.
Qed.

(** What [read_port] consumed: a colon and at least one decimal digit. *)
Lemma read_port_spec s v s' :
  read_port s = Some (v, s') →
  ∃ ds, s = 58%Z :: ds ++ s' ∧ ds ≠ [] ∧ Forall (λ c, is_Some (to_digit 10 c)) ds.
Proof.
  unfold read_port, mbind, parser_bind. destruct s as [|c s]; [done|]. cbn.
  case_decide; [|done]. subst. intros (ds & -> & Hne & Hds)%read_number_spec. eauto.
Qed.

(** A complete socket address ends with a colon and decimal digits. *)
Definition ends_with_port (s : list Z) : Prop :=
  ∃ pre ds, s = pre ++ 58%Z :: ds ∧ ds ≠ [] ∧ Forall (λ c, is_Some (to_digit 10 c)) ds.

Lemma port_at_end {A} (p : parser A) (s : list Z) (a : A * Z) :
  consumes p → (p ≫= λ ip, read_port ≫= λ port, mret (ip, port)) s = Some (a, []) →
  ends_with_port s.
Proof.
  unfold mbind, parser_bind. intros Hp. destruct (p s) as [[ip s1]|] eqn:E; [|done].
  apply Hp in E as [pre ->]. destruct (read_port s1) as [[v s2]|] eqn:E2; [|done].
  intros [= _ ->]. apply read_port_spec in E2 as (ds & -> & Hne & Hds).
  exists pre, ds. by rewrite app_nil_r.
Qed.

Lemma parse_with_Some {A} (p : parser A) s a :
  parse_with p s = Some a → p s = Some (a, []).
Proof. unfold parse_with. destruct (p s) as [[? [|??]]|]; naive_solver. Qed.

Lemma parse_v4_port s ip : parse_socket_addr_v4 s = Some ip → ends_with_port s.
Proof.
  unfold parse_socket_addr_v4. intros ([a port] & H & ->)%fmap_Some.
  apply parse_with_Some in H. eapply (port_at_end _ _ _ consumes_ipv4), H.
Qed.

Lemma parse_v6_port s ip : parse_socket_addr_v6 s = Some ip → ends_with_port s.
Proof.
  unfold parse_socket_addr_v6. intros ([a port] & H & ->)%fmap_Some.
  apply parse_with_Some in H. revert H.
  unfold read_socket_addr_v6, mbind, parser_bind.
  destruct (read_given_char 91 s) as [[[] s1]|] eqn:E1; [|done].
  destruct (read_ipv6_addr s1) as [[ip' s2]|] eqn:E2; [|done].
  destruct (opt_scope_id s2) as [[v s3]|] eqn:E3; [|done].
  destruct (read_given_char 93 s3) as [[[] s4]|] eqn:E4; [|done].
  destruct (read_port s4) as [[v' s5]|] eqn:E5; [|done]. intros [= _ _ ->].
  apply consumes_given in E1. apply consumes_ipv6 in E2. apply consumes_scope in E3.
  apply consumes_given in E4. apply read_port_spec in E5 as (ds & -> & Hne & Hds).
  rewrite app_nil_r in E4.
  assert ((58%Z :: ds) `suffix_of` s) as [pre ->] by (by do 3 (etrans; [eassumption|])).
  by exists pre, ds.
Qed.
End NetParser.
