(* ===== verification/MixAddr.v ===== *)
(** Target addresses: [MixAddrType] of src/src/utils/mix_addr.rs and
    [transmute_u16s_to_u8s] of src/src/utils/mod.rs.

    The SOCKS5-like wire format ([write_buf], [from_encoded_bytes],
    [from_encoded]) and the address of an HTTP request line
    ([from_http_header]), with its 16-bit port arithmetic in both build modes. *)
From S2P Require Import Prelude Vec NetParser.

(** ** Data *)

(** [V4]'s octets are 4 bytes, [V6]'s segments 8 16-bit words, a host name the
    bytes of a [Box<str>]; [wf_addr] states those Rust types. *)
Inductive MixAddrType : Type :=
| V4 (ip : list Z) (port : Z)
| V6 (ip : list Z) (port : Z)
| Hostname (host : list Z) (port : Z)
| MNone.

(** [std::net::SocketAddr]. *)
Inductive SocketAddr : Type :=
| SocketV4 (ip : list Z) (port : Z)
| SocketV6 (ip : list Z) (port : Z).

(** [std::net::IpAddr] and the conversion of [(ip, port)] into a socket address. *)
Inductive IpAddr : Type :=
| IpV4 (octets : list Z)
| IpV6 (segments : list Z).

Definition socket_addr_of (ip : IpAddr) (port : Z) : SocketAddr :=
  match ip with
  | IpV4 o => SocketV4 o port
  | IpV6 s => SocketV6 s port
  end.

#[export] Instance MixAddrType_eq_dec : EqDecision MixAddrType.
Proof. solve_decision. Defined.
#[export] Instance IpAddr_eq_dec : EqDecision IpAddr.
Proof. solve_decision. Defined.
#[export] Instance SocketAddr_eq_dec : EqDecision SocketAddr.
Proof. solve_decision. Defined.

Definition wf_addr (a : MixAddrType) : Prop :=
  match a with
  | V4 ip port => length ip = 4 ∧ Forall is_u8 ip ∧ is_u16 port
  | V6 ip port => length ip = 8 ∧ Forall is_u16 ip ∧ is_u16 port
  | Hostname host port => Forall is_u8 host ∧ utf8_valid host = true ∧ is_u16 port
  | MNone => True
  end.

Definition wf_socket_addr (a : SocketAddr) : Prop :=
  match a with
  | SocketV4 ip port => length ip = 4 ∧ Forall is_u8 ip ∧ is_u16 port
  | SocketV6 ip port => length ip = 8 ∧ Forall is_u16 ip ∧ is_u16 port
  end.

Module Mix.
(** ** Accessors *)

(** [impl PartialEq]. *)
Definition eqb (x y : MixAddrType) : bool :=
  match x, y with
  | V4 i p, V4 j q => bool_decide (i = j) && bool_decide (p = q)
  | V6 i p, V6 j q => bool_decide (i = j) && bool_decide (p = q)
  | Hostname h p, Hostname k q => bool_decide (h = k) && bool_decide (p = q)
  | MNone, MNone => true
  | _, _ => false
  end.

Definition default : MixAddrType := MNone.

Definition is_none (a : MixAddrType) : bool :=
  match a with MNone => true | _ => false end.

Definition as_host {E} (a : MixAddrType) : outcome E (list Z * Z) :=
  match a with
  | Hostname host port => Ok (host, port)
  | _ => Panic "only Hostname can use this method"
  end.

Definition port {E} (a : MixAddrType) : outcome E Z :=
  match a with
  | Hostname _ p => Ok p
  | V4 _ p => Ok p
  | V6 _ p => Ok p
  | MNone => Panic "not implemented: None doesn't have a port"
  end.

(** [resolve]: [dns] is the answer the resolver task sends back for a host
    name (an error when one of the two channels is closed). *)
Definition resolve {E} (dns : list Z → outcome E IpAddr) (a : MixAddrType)
    : outcome E SocketAddr :=
  match a with
  | Hostname host_str p => ip ← dns host_str; mret (socket_addr_of ip p)
  | V4 ip p => Ok (SocketV4 ip p)
  | V6 ip p => Ok (SocketV6 ip p)
  | MNone => Panic "not implemented: we can't resolve None"
  end.

Definition encoded_len {E} (a : MixAddrType) : outcome E nat :=
  match a with
  | Hostname h _ => Ok (2 + length h + 2)
  | V4 _ _ => Ok (1 + 4 + 2)
  | V6 _ _ => Ok (1 + 16 + 2)
  | MNone => Panic "encoded_len() unexpected: MixAddrType::None"
  end.

Definition to_socket_addrs {E} (a : MixAddrType) : outcome E SocketAddr :=
  match a with
  | V4 ip p => Ok (SocketV4 ip p)
  | V6 ip p => Ok (SocketV6 ip p)
  | _ => Panic "only IP can use this method"
  end.

(** [impl From<&SocketAddr>] and [new_null]. *)
Definition from_socket_addr (a : SocketAddr) : MixAddrType :=
  match a with
  | SocketV4 ip p => V4 ip p
  | SocketV6 ip p => V6 ip p
  end.

Definition new_null : MixAddrType := V4 [0; 0; 0; 0]%Z 0%Z.

(** ** Encoding *)

(** The loop of [transmute_u16s_to_u8s(a, b)], writing into [b] in place. *)
Definition transmute_u16s_to_u8s (a b : list Z) : list Z :=
  if decide (length b < length a * 2) then b else
  foldl (λ acc '(i, val),
           let x := u16_to_be val in
           <[2 * i + 1 := nth 1 x 0%Z]> (<[2 * i := nth 0 x 0%Z]> acc))
        b (zip (seq 0 (length a)) a).

Definition write_buf {E} `{ExtendableFromSlice B} (a : MixAddrType) : ST B E unit :=
  match a with
  | Hostname host p =>
      st_modify (extend_from_slice [3; u8_wrap (Z.of_nat (length host))]%Z);;
      st_modify (extend_from_slice host);;
      st_modify (extend_from_slice (u16_to_be p))
  | V4 ip p =>
      st_modify (extend_from_slice [1]%Z);;
      st_modify (extend_from_slice ip);;
      st_modify (extend_from_slice (u16_to_be p))
  | V6 ip p =>
      let v6_addr_u8 := transmute_u16s_to_u8s ip (replicate 16 0%Z) in
      st_modify (extend_from_slice [4]%Z);;
      st_modify (extend_from_slice v6_addr_u8);;
      st_modify (extend_from_slice (u16_to_be p))
  | MNone => panic "as_bytes() unexpected: MixAddrType::None"
  end.

(** ** Decoding *)

(** The loop filling [v6u16] from [v6u8]. *)
Definition read_v6u16 (v6u8 : list Z) : outcome ParserError (list Z) :=
  foldl (λ acc i,
           v6u16 ← acc;
           hi ← index v6u8 i;
           lo ← index v6u8 (i + 1);
           store v6u16 i (u16_from_be hi lo))
        (Ok (replicate 8 0%Z)) (seq 0 8).

Definition from_encoded_bytes (buf : list Z) : outcome ParserError (MixAddrType * nat) :=
  expect_buf_len buf 2 "MixAddrType::from_encoded_bytes cmd";;
  atyp ← index buf 0;
  if (atyp =? 1)%Z then
    expect_buf_len buf (1 + 4 + 2) "MixAddrType::from_encoded_bytes IPv4";;
    b1 ← index buf 1; b2 ← index buf 2; b3 ← index buf 3; b4 ← index buf 4;
    b5 ← index buf 5; b6 ← index buf 6;
    mret (V4 [b1; b2; b3; b4] (u16_from_be b5 b6), 7)
  else if (atyp =? 3)%Z then
    b1 ← index buf 1;
    let host_len := Z.to_nat b1 in
    expect_buf_len buf (1 + 1 + host_len + 2) "MixAddrType::from_encoded_bytes Domain Name";;
    host ← slice buf 2 (2 + host_len);
    if utf8_valid host then
      hi ← index buf (2 + host_len); lo ← index buf (2 + host_len + 1);
      mret (Hostname host (u16_from_be hi lo), 1 + 1 + host_len + 2)
    else Err (Invalid "MixAddrType::from_encoded_bytes Domain Name Utf8Error")
  else if (atyp =? 4)%Z then
    expect_buf_len buf (1 + 16 + 2) "MixAddrType::from_encoded_bytes IPv6";;
    v6u8 ← slice buf 1 (1 + 16);
    v6u16 ← read_v6u16 v6u8;
    hi ← index buf (1 + 16); lo ← index buf (1 + 16 + 1);
    mret (V6 v6u16 (u16_from_be hi lo), 1 + 16 + 2)
  else Err (Invalid "MixAddrType::from_encoded_bytes invalid command type").

Definition from_encoded `{CursoredBuffer T} : ST T ParserError MixAddrType :=
  cursored_buf ← st_get;
  buf ← st_lift (chunk cursored_buf);
  '(addr, len) ← st_lift (from_encoded_bytes buf);
  advance len;;
  mret addr.

(** ** HTTP request targets *)
Section http.
(** Whether the build checks integer overflow (a debug build panics, a
    release build wraps). *)
Context (overflow_checks : bool).

Definition u16_arith (z : Z) : outcome ParserError Z :=
  if decide (0 ≤ z < 65536)%Z then Ok z
  else if overflow_checks then Panic "arithmetic operation overflowed"
  else Ok (u16_wrap z).

(** [for i in (0..n).rev()]: the index of the last colon, [dflt] if none. *)
Fixpoint last_colon (buf : list Z) (n dflt : nat) : nat :=
  match n with
  | 0 => dflt
  | S i => if decide (buf !! i = Some 58%Z) then i else last_colon buf i dflt
  end.

Definition parse_port (digits : list Z) : outcome ParserError Z :=
  foldl (λ acc di,
           p ← acc;
           if decide (48 ≤ di ∧ di ≤ 57)%Z then
             q ← u16_arith (p * 10)%Z; u16_arith (q + (di - 48))%Z
           else Err (Invalid "MixAddrType::from_http_header invalid characters"))
        (Ok 0%Z) digits.

Definition header_port (is_https : bool) (buf : list Z) (port_idx : nat)
    : outcome ParserError Z :=
  let e := length buf in
  if decide (port_idx = 0) then
    Err (Invalid "MixAddrType::from_http_header empty host name")
  else if decide (port_idx + 1 = e) then
    Err (Invalid "MixAddrType::from_http_header port_idx + 1 == end")
  else if decide (port_idx = e) then
    if is_https then Err (Invalid "MixAddrType::from_http_header port_idx == end") else Ok 80%Z
  else parse_port (drop (port_idx + 1) buf).

Definition is_alpha (c : Z) : bool :=
  bool_decide (c ≤ 122 ∧ 97 ≤ c)%Z || bool_decide (c ≤ 90 ∧ 65 ≤ c)%Z.

(** The part of [from_http_header] after the port is known. *)
Definition header_addr (buf : list Z) (port_idx : nat) (port : Z)
    : outcome ParserError MixAddrType :=
  addr ← slice buf 0 port_idx;
  last ← index addr (length addr - 1);
  if decide (last = 93%Z) then
    if utf8_valid addr then
      match NetParser.parse_socket_addr_v6 addr with
      | Some segments => mret (V6 segments port)
      | None => Err (Invalid "MixAddrType::from_http_header IPv6 AddressParseError")
      end
    else Err (Invalid "MixAddrType::from_http_header IPv6 Utf8Error")
  else if is_alpha last then
    if utf8_valid addr then mret (Hostname addr port)
    else Err (Invalid "MixAddrType::from_http_header Hostname Utf8Error")
  else if utf8_valid addr then
    match NetParser.parse_socket_addr_v4 addr with
    | Some octets => mret (V4 octets port)
    | None => Err (Invalid "MixAddrType::from_http_header IPv4 AddressParseError")
    end
  else Err (Invalid "MixAddrType::from_http_header IPv4 Utf8Error").

Definition from_http_header (is_https : bool) (buf : list Z) : outcome ParserError MixAddrType :=
  let port_idx := last_colon buf (length buf) (length buf) in
  port ← header_port is_https buf port_idx;
  header_addr buf port_idx port.
End http.

(** ** The encoding as a function of the address *)
Definition encoded (a : MixAddrType) : list Z :=
  match a with
  | Hostname host p => [3; u8_wrap (Z.of_nat (length host))]%Z ++ host ++ u16_to_be p
  | V4 ip p => [1]%Z ++ ip ++ u16_to_be p
  | V6 ip p => [4]%Z ++ concat (map u16_to_be ip) ++ u16_to_be p
  | MNone => []
  end.

Lemma transmute_loop a k b :
  2 * (k + length a) ≤ length b →
  foldl (λ acc '(i, val),
           let x := u16_to_be val in
           <[2 * i + 1 := nth 1 x 0%Z]> (<[2 * i := nth 0 x 0%Z]> acc))
        b (zip (seq k (length a)) a)
  = take (2 * k) b ++ concat (map u16_to_be a) ++ drop (2 * (k + length a)) b.
Proof.
  revert k b. induction a as [|x a IH]; intros k b Hlen; cbn -[u16_to_be Nat.mul].
  { rewrite Nat.add_0_r. by rewrite take_drop. }
  cbn in Hlen. unfold u16_to_be at 1 2. cbn [nth].
  rewrite IH by (rewrite !length_insert; lia).
  destruct (lookup_lt_is_Some_2 b (2 * k)) as [y Hy]; [lia|].
  destruct (lookup_lt_is_Some_2 b (2 * k + 1)) as [z Hz]; [lia|].
  rewrite !drop_insert_lt by lia.
  replace (2 * S k) with (S (S (2 * k))) by lia.
  rewrite (take_S_r _ (S (2 * k)) (Z.land x 255)), (take_S_r _ (2 * k) (Z.shiftr x 8)).
  - rewrite !take_insert_ge by lia. rewrite <- !app_assoc. cbn [u16_to_be app].
    do 4 f_equal. f_equal. lia.
  - rewrite list_lookup_insert_ne by lia. rewrite list_lookup_insert_eq by lia. done.
  - replace (S (2 * k)) with (2 * k + 1) by lia.
    rewrite list_lookup_insert_eq by (rewrite length_insert; lia). done.
Qed.

Lemma length_concat_be a : length (concat (map u16_to_be a)) = 2 * length a.
Proof. induction a; cbn; lia. Qed.

(** With exactly enough room the loop writes the big-endian bytes. *)
Lemma transmute_exact a b :
  length b = 2 * length a → transmute_u16s_to_u8s a b = concat (map u16_to_be a).
Proof.
  intros Hb. unfold transmute_u16s_to_u8s. rewrite decide_False by lia.
  rewrite transmute_loop by lia. rewrite drop_ge by lia. by rewrite app_nil_r.
Qed.

(** What [write_buf] writes, whatever the address holds. *)
Definition written (a : MixAddrType) : list Z :=
  match a with
  | V6 ip p => [4]%Z ++ transmute_u16s_to_u8s ip (replicate 16 0%Z) ++ u16_to_be p
  | _ => encoded a
  end.

Lemma written_encoded a : wf_addr a → written a = encoded a.
Proof. destruct a as [ip p|ip p|host p|]; try done. intros (Hl & _). cbn [written]. by rewrite transmute_exact by (by rewrite Hl). Qed.

Lemma written_nonempty a : a ≠ MNone → 1 ≤ length (written a).
Proof. by destruct a; cbn; [lia..|]. Qed.

Section write_buf.
Context {E B : Type} `{ExtendableFromSliceOk B}.

Lemma write_buf_written (a : MixAddrType) (b : B) :
  a ≠ MNone → ∃ b', write_buf (E:=E) a b = (Ok tt, b') ∧ contents b' = contents b ++ written a.
Proof.
  intros Hne. destruct a as [ip p|ip p|host p|]; [..|done]; cbn -[transmute_u16s_to_u8s u16_to_be];
    eexists; (split; [reflexivity|]); by rewrite !contents_extend, <- !app_assoc.
Qed.

Lemma write_buf_encoded (a : MixAddrType) (b : B) :
  a ≠ MNone → wf_addr a →
  ∃ b', write_buf (E:=E) a b = (Ok tt, b') ∧ contents b' = contents b ++ encoded a.
Proof. intros Hne Hwf. rewrite <- written_encoded by done. by apply write_buf_written. Qed.
End write_buf.

Lemma encoded_len_length {E} a :
  a ≠ MNone → wf_addr a → encoded_len (E:=E) a = Ok (length (encoded a)).
Proof.
  intros Hne Hwf. destruct a as [ip p|ip p|host p|]; [..|done];
    cbn -[u16_to_be]; rewrite ?length_app, ?length_concat_be; cbn; f_equal;
    destruct Hwf as (Hl & _); lia.
Qed.

Lemma encoded_u8 a : wf_addr a → Forall is_u8 (encoded a).
Proof.
  assert (∀ x, is_u8 (u8_wrap x)) as Hw by (intros; apply Z.mod_pos_bound; lia).
  destruct a as [ip p|ip p|host p|]; cbn -[u16_to_be]; [| | |done].
  - intros (_ & Hip & Hp). constructor; [split; lia|].
    apply Forall_app; auto using u16_to_be_u8.
  - intros (_ & Hip & Hp). constructor; [split; lia|].
    apply Forall_app; split; [|auto using u16_to_be_u8].
    induction Hip; cbn -[u16_to_be]; [done|]. apply Forall_app; auto using u16_to_be_u8.
  - intros (Hh & _ & Hp). constructor; [split; lia|]. constructor; [done|].
    apply Forall_app; auto using u16_to_be_u8.
Qed.

(** ** Decoding what was encoded *)
Lemma decode_V4 ip p rest :
  wf_addr (V4 ip p) → from_encoded_bytes (encoded (V4 ip p) ++ rest) = Ok (V4 ip p, 7).
Proof.
  intros (Hl & _ & Hp). do 4 (destruct ip as [|? ip]; [done|]). destruct ip; [|done].
  pose proof (u16_be_roundtrip p Hp) as Hrt.
  unfold from_encoded_bytes. rewrite (expect_buf_len_Ok _ 2) by (cbn; lia). cbn -[u16_from_be expect_buf_len].
  rewrite expect_buf_len_Ok by (cbn; lia). cbn -[u16_from_be]. by rewrite Hrt.
Qed.

Lemma decode_Hostname host p rest :
  wf_addr (Hostname host p) → length host ≤ 255 →
  from_encoded_bytes (encoded (Hostname host p) ++ rest)
  = Ok (Hostname host p, length (encoded (Hostname host p))).
Proof.
  intros (Hh & Hu & Hp) Hl. pose proof (u16_be_roundtrip p Hp) as Hrt.
  unfold from_encoded_bytes, encoded.
  rewrite (u8_wrap_id (Z.of_nat _)) by (unfold is_u8; lia).
  rewrite <- !app_assoc. set (tl := u16_to_be p ++ rest).
  rewrite (expect_buf_len_Ok _ 2) by (cbn; lia).
  rewrite (index_Ok _ 0 3%Z), (index_Ok _ 1 (Z.of_nat (length host))) by done.
  cbn -[u16_from_be expect_buf_len slice index]. rewrite Nat2Z.id.
  rewrite expect_buf_len_Ok by (cbn; rewrite length_app; cbn; lia). cbn -[u16_from_be slice index].
  rewrite slice_Ok by (cbn; rewrite ?length_app; lia). cbn -[u16_from_be index].
  rewrite Nat.sub_0_r, drop_0, take_app_length, Hu.
  rewrite (index_Ok _ (S (S (length host))) (Z.shiftr p 8)),
    (index_Ok _ (S (S (length host + 1))) (Z.land p 255)).
  - cbn -[u16_from_be]. rewrite Hrt. do 2 f_equal. rewrite length_app. cbn. lia.
  - simpl. rewrite lookup_app_r by lia. by replace (length host + 1 - length host) with 1 by lia.
  - simpl. rewrite lookup_app_r by lia. by rewrite Nat.sub_diag.
Qed.

Lemma decode_encoded a rest :
  wf_addr a →
  match a with V4 _ _ => True | Hostname h _ => length h ≤ 255 | _ => False end →
  from_encoded_bytes (encoded a ++ rest) = Ok (a, length (encoded a)).
Proof.
  destruct a as [ip p|ip p|h p|]; intros Hwf Hok; [| |by apply decode_Hostname|]; try done.
  rewrite decode_V4 by done. do 2 f_equal. destruct Hwf as (Hl & _). cbn. rewrite length_app. cbn. lia.
Qed.

(** *** The IPv6 decoder reads overlapping pairs of bytes *)
Definition v6_overlap (bs : list Z) : list Z :=
  map (λ i, u16_from_be (nth i bs 0%Z) (nth (i + 1) bs 0%Z)) (seq 0 8).

Lemma decode_V6 ip p rest :
  wf_addr (V6 ip p) →
  from_encoded_bytes (encoded (V6 ip p) ++ rest)
  = Ok (V6 (v6_overlap (concat (map u16_to_be ip))) p, 19).
Proof.
  intros (Hl & _ & Hp). pose proof (u16_be_roundtrip p Hp) as Hrt.
  do 8 (destruct ip as [|? ip]; [done|]). destruct ip; [|done].
  unfold from_encoded_bytes. rewrite (expect_buf_len_Ok _ 2) by (cbn; lia).
  cbn -[u16_from_be expect_buf_len Z.shiftr Z.land].
  rewrite expect_buf_len_Ok by (cbn; lia).
  cbn -[u16_from_be Z.shiftr Z.land]. by rewrite Hrt.
Qed.

(** What the decoder makes of an encoded address: an IPv6 one is changed. *)
Definition as_decoded (a : MixAddrType) : MixAddrType :=
  match a with V6 ip p => V6 (v6_overlap (concat (map u16_to_be ip))) p | _ => a end.

(** The addresses whose encoding can be decoded. *)
Definition encodable (a : MixAddrType) : Prop :=
  match a with V4 _ _ | V6 _ _ => True | Hostname h _ => length h ≤ 255 | MNone => False end.

Lemma decode_encodable a rest :
  wf_addr a → encodable a → from_encoded_bytes (encoded a ++ rest) = Ok (as_decoded a, length (encoded a)).
Proof.
  intros Hwf Hok. destruct a as [ip p|ip p|h p|]; [by apply decode_encoded| |by apply decode_encoded|done].
  rewrite decode_V6 by done. do 2 f_equal. destruct Hwf as (Hl & _).
  cbn -[u16_to_be]. rewrite length_app, length_concat_be, Hl. done.
Qed.

Lemma as_decoded_MNone a : as_decoded a = MNone → a = MNone.
Proof. by destruct a. Qed.

Lemma encodable_MNone a : encodable a → a ≠ MNone.
Proof. by destruct a. Qed.

Lemma concat_be_u8 ip : Forall is_u16 ip → Forall is_u8 (concat (map u16_to_be ip)).
Proof. induction 1; cbn -[u16_to_be]; [done|]. apply Forall_app; auto using u16_to_be_u8. Qed.

Lemma as_decoded_wf a : wf_addr a → wf_addr (as_decoded a).
Proof.
  destruct a as [ip p|ip p|h p|]; try done. intros (Hl & Hip & Hp). split_and!; [done| |done].
  apply concat_be_u8 in Hip. unfold v6_overlap. apply Forall_map, Forall_forall. intros i _.
  assert (∀ j, is_u8 (nth j (concat (map u16_to_be ip)) 0%Z)) as Hn.
  { intros j. destruct (nth_in_or_default j (concat (map u16_to_be ip)) 0%Z) as [Hin| ->]; [|split; lia].
    rewrite Forall_forall in Hip. by apply Hip. }
  by apply u16_from_be_u16.
Qed.

(** ** Totality of the decoder *)
Definition settled {A} (r : outcome ParserError A) : Prop :=
  match r with Err (Incomplete _) => False | _ => True end.

Lemma expect_buf_len_cases buf n mark :
  (length buf < n ∧ expect_buf_len buf n mark = Err (Incomplete mark)) ∨
  (n ≤ length buf ∧ expect_buf_len buf n mark = Ok tt).
Proof.
  destruct (decide (length buf < n)).
  - left. auto using expect_buf_len_Err.
  - right. split; [lia|]. apply expect_buf_len_Ok. lia.
Qed.

Lemma read_v6u16_Ok v6u8 :
  length v6u8 = 16 →
  ∃ segs, read_v6u16 v6u8 = Ok segs ∧ length segs = 8 ∧
          (Forall is_u8 v6u8 → Forall is_u16 segs).
Proof.
  intros Hl. do 16 (destruct v6u8 as [|? v6u8]; [done|]). destruct v6u8; [|done].
  eexists. split; [reflexivity|]. split; [done|].
  intros HF. rewrite !Forall_cons_iff in HF. destruct_and!. cbn -[u16_from_be].
  repeat (apply Forall_cons_iff; split; [by apply u16_from_be_u16|]). done.
Qed.

(** The decoder never panics; what it accepts fits the buffer and is well formed. *)
Definition decodes_to (buf : list Z) (r : outcome ParserError (MixAddrType * nat)) : Prop :=
  match r with
  | Ok (a, n) => n ≤ length buf ∧ 4 ≤ n ∧ a ≠ MNone ∧ (Forall is_u8 buf → wf_addr a)
  | Err _ => True
  | _ => False
  end.

Lemma Forall_index buf i x : buf !! i = Some x → Forall is_u8 buf → is_u8 x.
Proof. intros. by eapply Forall_lookup_1. Qed.

Lemma from_encoded_bytes_total buf : decodes_to buf (from_encoded_bytes buf).
Proof.
  unfold from_encoded_bytes.
  destruct (expect_buf_len_cases buf 2 "MixAddrType::from_encoded_bytes cmd") as [[_ ->]|[H2 ->]];
    [done|].
  destruct buf as [|b0 [|b1 t]]; [cbn in H2; lia..|].
  cbn -[expect_buf_len slice u16_from_be utf8_valid read_v6u16].
  destruct (b0 =? 1)%Z; [|destruct (b0 =? 3)%Z; [|destruct (b0 =? 4)%Z; [|done]]].
  - destruct (expect_buf_len_cases (b0 :: b1 :: t) 7 "MixAddrType::from_encoded_bytes IPv4")
      as [[_ ->]|[H7 ->]]; [done|]. do 5 (destruct t as [|? t]; [cbn in H7; lia|]).
    cbn -[u16_from_be]. split_and!; [lia|lia|done|]. intros HF.
    rewrite !Forall_cons_iff in HF; destruct_and!. split_and!; auto using u16_from_be_u16.
  - destruct (expect_buf_len_cases (b0 :: b1 :: t) (S (S (Z.to_nat b1 + 2)))
      "MixAddrType::from_encoded_bytes Domain Name") as [[_ ->]|[Hl ->]]; [done|].
    cbn -[slice u16_from_be utf8_valid index].
    rewrite slice_Ok by (cbn in *; lia). cbn -[u16_from_be utf8_valid index].
    rewrite Nat.sub_0_r, drop_0. destruct (utf8_valid _) eqn:Hu; [|done].
    destruct (index_lt (E:=ParserError) (b0 :: b1 :: t) (S (S (Z.to_nat b1)))) as (hi & -> & Hhi);
      [cbn in *; lia|].
    destruct (index_lt (E:=ParserError) (b0 :: b1 :: t) (S (S (Z.to_nat b1 + 1))))
      as (lo & -> & Hlo); [cbn in *; lia|].
    cbn -[u16_from_be utf8_valid]. split_and!; [cbn in *; lia|lia|done|]. intros HF.
    split_and!; [|done|apply u16_from_be_u16; eapply Forall_index; eauto].
    rewrite !Forall_cons_iff in HF; destruct_and!. by apply Forall_take.
  - destruct (expect_buf_len_cases (b0 :: b1 :: t) 19 "MixAddrType::from_encoded_bytes IPv6")
      as [[_ ->]|[Hl ->]]; [done|]. cbn -[slice u16_from_be index read_v6u16].
    rewrite slice_Ok by (cbn in *; lia). cbn -[u16_from_be index read_v6u16].
    destruct (read_v6u16_Ok (b1 :: take 15 t)) as (segs & -> & Hseg & Hwf).
    { cbn. rewrite length_take. cbn in Hl. lia. }
    destruct (index_lt (E:=ParserError) (b0 :: b1 :: t) 17) as (hi & -> & Hhi); [cbn in *; lia|].
    destruct (index_lt (E:=ParserError) (b0 :: b1 :: t) 18) as (lo & -> & Hlo); [cbn in *; lia|].
    cbn -[u16_from_be]. split_and!; [cbn in *; lia|lia|done|]. intros HF.
    split_and!; [done| |apply u16_from_be_u16; eapply Forall_index; eauto].
    apply Hwf. rewrite !Forall_cons_iff in *; destruct_and!.
    split; [done|]. by apply Forall_take.
Qed.

(** A verdict on a prefix of the stream is the verdict on the whole stream. *)
Lemma from_encoded_bytes_app buf more :
  settled (from_encoded_bytes buf) → from_encoded_bytes (buf ++ more) = from_encoded_bytes buf.
Proof.
  unfold from_encoded_bytes.
  destruct (expect_buf_len_cases buf 2 "MixAddrType::from_encoded_bytes cmd") as [[_ ->]|[H2 E]];
    [done|]. rewrite E. clear E.
  rewrite (expect_buf_len_Ok (buf ++ more) 2) by (rewrite length_app; lia).
  cbn -[expect_buf_len slice index read_v6u16 utf8_valid u16_from_be length].
  destruct (index_lt (E:=ParserError) buf 0) as (b0 & E0 & _); [lia|].
  rewrite (index_app_l _ _ 0), E0 by lia. cbn -[expect_buf_len slice index read_v6u16 utf8_valid u16_from_be].
  destruct (b0 =? 1)%Z; [|destruct (b0 =? 3)%Z; [|destruct (b0 =? 4)%Z; [|done]]].
  - destruct (expect_buf_len_cases buf 7 "MixAddrType::from_encoded_bytes IPv4") as [[_ ->]|[Hl ->]];
      [done|]. intros _. rewrite expect_buf_len_Ok by (rewrite length_app; lia).
    cbn -[index u16_from_be]. by rewrite !index_app_l by lia.
  - destruct (index_lt (E:=ParserError) buf 1) as (b1 & E1 & _); [lia|].
    rewrite (index_app_l _ _ 1), E1 by lia. cbn -[expect_buf_len slice index utf8_valid u16_from_be].
    destruct (expect_buf_len_cases buf (S (S (Z.to_nat b1 + 2)))
      "MixAddrType::from_encoded_bytes Domain Name") as [[_ ->]|[Hl ->]]; [done|].
    intros _. rewrite expect_buf_len_Ok by (rewrite length_app; lia).
    cbn -[slice index utf8_valid u16_from_be]. rewrite slice_app_l by lia.
    by rewrite !index_app_l by lia.
  - destruct (expect_buf_len_cases buf 19 "MixAddrType::from_encoded_bytes IPv6") as [[_ ->]|[Hl ->]];
      [done|]. intros _. rewrite expect_buf_len_Ok by (rewrite length_app; lia).
    cbn -[index u16_from_be slice read_v6u16]. rewrite slice_app_l by lia.
    by rewrite !index_app_l by lia.
Qed.

(** The length byte bounds the name. *)
Lemma decoded_host_length b1 t h p n :
  from_encoded_bytes (3%Z :: b1 :: t) = Ok (Hostname h p, n) → length h = Z.to_nat b1.
Proof.
  unfold from_encoded_bytes. rewrite (expect_buf_len_Ok _ 2) by (cbn; lia).
  cbn -[expect_buf_len slice u16_from_be utf8_valid length].
  destruct (expect_buf_len_cases (3%Z :: b1 :: t) (S (S (Z.to_nat b1 + 2)))
    "MixAddrType::from_encoded_bytes Domain Name") as [[_ ->]|[Hl ->]]; [done|].
  cbn -[slice u16_from_be utf8_valid index]. cbn [length] in Hl.
  rewrite slice_Ok by (cbn [length]; lia). cbn -[u16_from_be utf8_valid index].
  destruct (utf8_valid _); [|done]. intros H.
  apply outcome_bind_Ok in H as (hi & _ & H). apply outcome_bind_Ok in H as (lo & _ & H).
  injection H as <- _ _. rewrite length_take, length_drop, Nat.sub_0_r. lia.
Qed.

(** *** Against the buffer interface *)
Section from_encoded.
Context `{CursoredBufferOk T}.

(** [from_encoded] consumes exactly what [from_encoded_bytes] measured, and
    nothing on an error. *)
Lemma from_encoded_Ok (b : T) c a n :
  chunk (E:=ParserError) b = Ok c → from_encoded_bytes c = Ok (a, n) →
  ∃ b', from_encoded b = (Ok a, b') ∧ chunk (E:=ParserError) b' = Ok (drop n c).
Proof.
  intros Hc Hd. unfold from_encoded. st_simpl. rewrite Hc. st_simpl. rewrite Hd. st_simpl.
  pose proof (from_encoded_bytes_total c) as Ht. rewrite Hd in Ht. destruct Ht as (Hn & _).
  destruct (advance_chunk ParserError b c n Hc Hn) as (b' & Ha & Hc').
  exists b'. split; [|done]. by erewrite st_bind_run by exact Ha.
Qed.

Lemma from_encoded_Err (b : T) c e :
  chunk (E:=ParserError) b = Ok c → from_encoded_bytes c = Err e →
  from_encoded b = (Err e, b).
Proof. intros Hc Hd. unfold from_encoded. st_simpl. rewrite Hc. st_simpl. by rewrite Hd. Qed.
End from_encoded.

(** ** The HTTP request target *)
Definition is_digit (c : Z) : Prop := (48 ≤ c ≤ 57)%Z.
Definition dec_value (digits : list Z) : Z := foldl (λ p d, p * 10 + (d - 48))%Z 0%Z digits.

Lemma last_colon_spec buf n dflt :
  (last_colon buf n dflt = dflt ∧ ∀ j, j < n → buf !! j ≠ Some 58%Z) ∨
  (∃ i, last_colon buf n dflt = i ∧ i < n ∧ buf !! i = Some 58%Z ∧
        ∀ j, i < j → j < n → buf !! j ≠ Some 58%Z).
Proof.
  induction n as [|n IH]; cbn.
  - left. split; [done|]. lia.
  - case_decide as Hc; [right; exists n; repeat split; auto; lia|].
    destruct IH as [[-> Hno]|(i & -> & Hi & Hb & Hno)].
    + left. split; [done|]. intros j Hj. destruct (decide (j = n)) as [->|]; [done|].
      apply Hno. lia.
    + right. exists i. repeat split; auto with lia. intros j Hij Hj.
      destruct (decide (j = n)) as [->|]; [done|]. apply Hno; lia.
Qed.

Lemma last_colon_app host digits :
  Forall is_digit digits →
  last_colon (host ++ 58%Z :: digits) (length (host ++ 58%Z :: digits))
             (length (host ++ 58%Z :: digits)) = length host.
Proof.
  intros Hd. set (buf := host ++ 58%Z :: digits).
  assert (buf !! length host = Some 58%Z) as Hb.
  { unfold buf. rewrite lookup_app_r, Nat.sub_diag by lia. done. }
  assert (∀ j, length host < j → buf !! j ≠ Some 58%Z) as Hafter.
  { intros j Hj Hs. unfold buf in Hs. rewrite lookup_app_r in Hs by lia.
    replace (j - length host) with (S (j - length host - 1)) in Hs by lia. cbn in Hs.
    apply (Forall_lookup_1 _ _ _ _ Hd) in Hs. unfold is_digit in Hs. lia. }
  destruct (last_colon_spec buf (length buf) (length buf)) as [[_ Hno]|(i & -> & Hi & Hs & Hno)].
  - exfalso. eapply (Hno (length host)), Hb. unfold buf. rewrite length_app. cbn. lia.
  - destruct (Nat.lt_trichotomy i (length host)) as [Hlt|[->|Hgt]]; [|done|].
    + exfalso. eapply (Hno (length host)), Hb; [done|]. unfold buf. rewrite length_app. cbn. lia.
    + exfalso. by eapply Hafter.
Qed.

Section port_arithmetic.
Context (oc : bool).

(** The loop body of [parse_port]. *)
Definition port_step (acc : outcome ParserError Z) (di : Z) : outcome ParserError Z :=
  p ← acc;
  if decide (48 ≤ di ∧ di ≤ 57)%Z then
    q ← u16_arith oc (p * 10)%Z; u16_arith oc (q + (di - 48))%Z
  else Err (Invalid "MixAddrType::from_http_header invalid characters").

Lemma port_step_Panic msg digits : foldl port_step (Panic msg) digits = Panic msg.
Proof. induction digits; [done|]. by cbn. Qed.
Lemma port_step_Err e digits : foldl port_step (Err e) digits = Err e.
Proof. induction digits; [done|]. by cbn. Qed.

Lemma port_step_digit p d :
  is_digit d → (0 ≤ p < 65536)%Z →
  port_step (Ok p) d =
    if decide (p * 10 + (d - 48) < 65536)%Z then Ok (p * 10 + (d - 48))%Z
    else if oc then Panic "arithmetic operation overflowed"
    else Ok (u16_wrap (p * 10 + (d - 48))).
Proof.
  unfold is_digit. intros Hd Hp. unfold port_step. cbn.
  rewrite decide_True by lia. unfold u16_arith, u16_wrap.
  destruct (decide (0 ≤ p * 10 < 65536)%Z) as [H1|H1]; cbn.
  - destruct (decide (0 ≤ p * 10 + (d - 48) < 65536)%Z);
      [by rewrite decide_True by lia | by rewrite decide_False by lia].
  - rewrite (decide_False (P:=(p * 10 + (d - 48) < 65536)%Z)) by lia.
    destruct oc; cbn; [done|].
    assert (∀ a b, (a mod 65536 + b) mod 65536 = (a + b) mod 65536)%Z as Hm.
    { intros. by rewrite Z.add_mod_idemp_l by lia. }
    case_decide as Hc.
    + rewrite <- (Hm (p * 10)%Z). by rewrite (Z.mod_small _ _ Hc).
    + by rewrite Hm.
Qed.
End port_arithmetic.

Definition dec_from (p : Z) (digits : list Z) : Z := foldl (λ p d, p * 10 + (d - 48))%Z p digits.

Lemma dec_from_ge digits p : (0 ≤ p)%Z → Forall is_digit digits → (p ≤ dec_from p digits)%Z.
Proof.
  intros Hp Hd. revert p Hp. induction Hd as [|d ds Hd _ IH]; intros p Hp; cbn; [lia|].
  unfold is_digit in Hd. etrans; [|apply IH; lia]. lia.
Qed.

Lemma dec_from_wrap digits p :
  u16_wrap (dec_from (u16_wrap p) digits) = u16_wrap (dec_from p digits).
Proof.
  revert p. induction digits as [|d ds IH]; intros p; cbn; [by apply Z.mod_mod|].
  fold (dec_from (u16_wrap p * 10 + (d - 48)) ds) (dec_from (p * 10 + (d - 48)) ds).
  rewrite <- IH, <- (IH (p * 10 + (d - 48))%Z). do 2 f_equal. unfold u16_wrap.
  by rewrite <- Z.add_mod_idemp_l, Z.mul_mod_idemp_l, Z.add_mod_idemp_l by lia.
Qed.

Lemma parse_port_loop oc digits p :
  Forall is_digit digits → (0 ≤ p < 65536)%Z →
  foldl (port_step oc) (Ok p) digits =
    if decide (dec_from p digits < 65536)%Z then Ok (dec_from p digits)
    else if oc then Panic "arithmetic operation overflowed"
    else Ok (u16_wrap (dec_from p digits)).
Proof.
  intros Hds. revert p. induction Hds as [|d ds Hd Hds IH]; intros p Hp; cbn -[port_step].
  { by rewrite decide_True by lia. }
  fold (dec_from (p * 10 + (d - 48)) ds). rewrite port_step_digit by done.
  pose proof Hd as Hd'. unfold is_digit in Hd'. case_decide as Hlt; [by apply IH; lia|].
  pose proof (dec_from_ge ds (p * 10 + (d - 48)) ltac:(lia) Hds).
  rewrite (decide_False (P:=(dec_from _ _ < _)%Z)) by lia.
  destruct oc; [apply port_step_Panic|].
  rewrite IH by (apply Z.mod_pos_bound; lia). rewrite <- (dec_from_wrap ds (p * 10 + (d - 48))).
  case_decide as Hc; [|done]. f_equal. symmetry. apply u16_wrap_id. split; [|done].
  etrans; [|apply dec_from_ge; [|done]]; apply Z.mod_pos_bound; lia.
Qed.

(** A debug build computes the port or panics; a release build wraps it. *)
Lemma parse_port_digits oc digits :
  Forall is_digit digits →
  parse_port oc digits =
    if decide (dec_value digits < 65536)%Z then Ok (dec_value digits)
    else if oc then Panic "arithmetic operation overflowed"
    else Ok (u16_wrap (dec_value digits)).
Proof. intros Hd. by apply parse_port_loop. Qed.

Lemma parse_port_release_total digits :
  match parse_port false digits with Ok p => is_u16 p | Err _ => True | _ => False end.
Proof.
  unfold parse_port. fold (port_step false).
  change (foldl _ (Ok 0%Z) digits) with (foldl (port_step false) (Ok 0%Z) digits).
  assert (is_u16 0) as Hp by (split; lia). revert Hp. generalize 0%Z as p.
  induction digits as [|d ds IH]; intros p Hp; cbn -[port_step]; [done|].
  destruct (decide (48 ≤ d ∧ d ≤ 57)%Z) as [Hd|Hd].
  - rewrite port_step_digit by done. case_decide as Hc; apply IH; split; try lia.
    + unfold is_u16 in Hp. lia.
    + apply Z.mod_pos_bound. lia.
    + apply Z.mod_pos_bound. lia.
  - unfold port_step at 2. cbn. rewrite decide_False by done. by rewrite port_step_Err.
Qed.

(** *** The shape of an accepted HTTP target *)
Lemma ends_with_port_last s c :
  NetParser.ends_with_port s → s !! (length s - 1) = Some c → is_Some (NetParser.to_digit 10 c).
Proof.
  intros (pre & ds & -> & Hne & Hds) Hc. rewrite lookup_app_r in Hc by (rewrite length_app; cbn; lia).
  rewrite length_app in Hc. cbn in Hc. destruct ds as [|d ds]; [done|].
  replace (length pre + S (length (d :: ds)) - 1 - length pre) with (S (length ds)) in Hc by (cbn; lia).
  cbn [lookup list_lookup] in Hc. exact (Forall_lookup_1 _ _ _ _ Hds Hc).
Qed.

Lemma ends_with_port_colon s : NetParser.ends_with_port s → ∃ i, i < length s ∧ s !! i = Some 58%Z.
Proof.
  intros (pre & ds & -> & _). exists (length pre). rewrite length_app. cbn. split; [lia|].
  by rewrite lookup_app_r, Nat.sub_diag by lia.
Qed.

Lemma header_addr_no_panic buf i p :
  i ≠ 0 → i ≤ length buf → is_panic (header_addr buf i p) = false.
Proof.
  intros H0 Hi. unfold header_addr. rewrite slice_Ok by lia.
  cbn -[index utf8_valid is_alpha]. rewrite Nat.sub_0_r, drop_0.
  destruct (index_lt (E:=ParserError) (take i buf) (length (take i buf) - 1)) as (c & -> & _).
  { rewrite length_take. lia. }
  cbn -[utf8_valid is_alpha]. destruct (utf8_valid _), (is_alpha c); case_decide; try done;
    destruct (NetParser.parse_socket_addr_v6 (take i buf)),
      (NetParser.parse_socket_addr_v4 (take i buf)); done.
Qed.

(** The exits of [from_http_header], once the port is known. *)
Lemma from_http_header_inv oc is_https buf a :
  from_http_header oc is_https buf = Ok a →
  let i := last_colon buf (length buf) (length buf) in
  let addr := take i buf in
  ∃ p c, header_port oc is_https buf i = Ok p ∧ i ≤ length buf ∧
    addr !! (length addr - 1) = Some c ∧
    (c = 93%Z ∧ (∃ ip, NetParser.parse_socket_addr_v6 addr = Some ip ∧ a = V6 ip p) ∨
     is_alpha c = true ∧ a = Hostname addr p ∨
     (∃ ip, NetParser.parse_socket_addr_v4 addr = Some ip ∧ a = V4 ip p)).
Proof.
  unfold from_http_header, header_addr. set (i := last_colon _ _ _). intros H.
  apply outcome_bind_Ok in H as (p & Hp & H). apply outcome_bind_Ok in H as (addr & Ha & H).
  unfold slice in Ha. case_decide as Hi; [|done]. rewrite Nat.sub_0_r, drop_0 in Ha.
  injection Ha as <-. apply outcome_bind_Ok in H as (c & Hc & H).
  exists p, c. unfold index in Hc. destruct (_ !! _) as [c'|]; [|done]. injection Hc as ->.
  split_and!; [done|lia|done|].
  case_decide as H93; [|destruct (is_alpha c) eqn:Hal]; (destruct (utf8_valid _); [|done]).
  - left. split; [done|]. destruct (NetParser.parse_socket_addr_v6 _) as [ip|]; [|done].
    injection H as <-. eauto.
  - right; left. injection H as <-. done.
  - right; right. destruct (NetParser.parse_socket_addr_v4 _) as [ip|]; [|done].
    injection H as <-. eauto.
Qed.
End Mix.

(** ** Properties *)

(** C10: every IPv4 or host-name target (name of at most 255 bytes) that
    [write_buf] appends to a buffer is decoded back by [from_encoded_bytes], which
    consumes exactly [encoded_len] bytes and leaves what follows untouched. *)
Theorem mix_addr_roundtrip {E B} `{ExtendableFromSliceOk B} (a : MixAddrType) (b : B) (rest : list Z) :
  wf_addr a →
  match a with V4 _ _ => True | Hostname h _ => length h ≤ 255 | _ => False end →
  ∃ b' w, Mix.write_buf (E:=E) a b = (Ok tt, b') ∧ contents b' = contents b ++ w ∧
    Mix.from_encoded_bytes (w ++ rest) = Ok (a, length w) ∧
    Mix.encoded_len (E:=E) a = Ok (length w).
Proof.
  intros Hwf Hok. assert (a ≠ MNone) as Hne by (by destruct a).
  destruct (Mix.write_buf_encoded (E:=E) a b Hne Hwf) as (b' & Hw & Hc).
  exists b', (Mix.encoded a). split_and!; [done|done| |by apply Mix.encoded_len_length].
  by apply Mix.decode_encoded.
Qed.

Definition example_host : MixAddrType := Hostname (bytes_of_string "example.com") 443.

Lemma mix_addr_roundtrip_witness :
  ∃ b' w, Mix.write_buf (E:=io_error) example_host (vec_with_capacity 0) = (Ok tt, b') ∧
    contents b' = contents (vec_with_capacity 0) ++ w ∧
    Mix.from_encoded_bytes (w ++ [13; 10]%Z) = Ok (example_host, length w) ∧
    Mix.encoded_len (E:=io_error) example_host = Ok (length w).
Proof.
  apply (mix_addr_roundtrip (E:=io_error) example_host (vec_with_capacity 0) [13; 10]%Z).
  - split_and!; [|reflexivity|split; lia]. vm_compute. repeat constructor; intros [=].
  - vm_compute. lia.
Defined.

(** The decoder inverts the big-endian bytes of an IPv6 address exactly if bytes 1 to
    15 of it are equal. *)
Lemma decode_V6_iff ip p rest :
  wf_addr (V6 ip p) →
  Mix.from_encoded_bytes (Mix.encoded (V6 ip p) ++ rest) = Ok (V6 ip p, 19) ↔
  ∃ hi lo, is_u8 hi ∧ is_u8 lo ∧ ip = u16_from_be hi lo :: replicate 7 (u16_from_be lo lo).
Proof.
  intros Hwf. rewrite Mix.decode_V6 by done. destruct Hwf as (Hl & Hip & _).
  do 8 (destruct ip as [|? ip]; [done|]). destruct ip; [|done].
  rewrite !Forall_cons_iff in Hip. destruct_and!. cbn [map concat].
  repeat match goal with
  | H : is_u16 ?z |- _ => apply u16_split in H as (? & ? & ? & ? & -> & ->)
  end.
  cbn -[u16_from_be]. split.
  - intros [= ].
    repeat match goal with
    | H : u16_from_be _ _ = u16_from_be _ _ |- _ =>
        apply u16_from_be_inj in H as [??]; [|done..]
    end. subst. eauto 10.
  - intros (hi & lo & ? & ? & [= ]).
    repeat match goal with
    | H : u16_from_be _ _ = u16_from_be _ _ |- _ =>
        apply u16_from_be_inj in H as [??]; [|done..]
    end. by subst.
Qed.

(** C23: [write_buf] puts an IPv6 target on the wire as the byte 4, the 16 bytes of the
    address and the port, all big-endian; [from_encoded_bytes] accepts that, but reads
    overlapping pairs of bytes, and so gives back the target exactly if bytes 1 to 15
    of the address are equal. Every other IPv6 target is changed in transit. *)
Theorem mix_addr_v6_roundtrip_iff {E B} `{ExtendableFromSliceOk B} ip p (b : B) rest :
  wf_addr (V6 ip p) →
  ∃ b' w, Mix.write_buf (E:=E) (V6 ip p) b = (Ok tt, b') ∧ contents b' = contents b ++ w ∧
    w = [4]%Z ++ concat (map u16_to_be ip) ++ u16_to_be p ∧
    (∃ ip', Mix.from_encoded_bytes (w ++ rest) = Ok (V6 ip' p, 19)) ∧
    (Mix.from_encoded_bytes (w ++ rest) = Ok (V6 ip p, 19) ↔
     ∃ hi lo, is_u8 hi ∧ is_u8 lo ∧ ip = u16_from_be hi lo :: replicate 7 (u16_from_be lo lo)).
Proof.
  intros Hwf. destruct (Mix.write_buf_encoded (E:=E) (V6 ip p) b ltac:(done) Hwf) as (b' & Hw & Hc).
  exists b', (Mix.encoded (V6 ip p)). do 3 (split; [done|]).
  split; [eexists; by apply Mix.decode_V6|by apply decode_V6_iff].
Qed.

Definition example_v6 : MixAddrType := V6 [0x2001; 0xdb8; 0; 0; 0; 0; 0; 1]%Z 443%Z.

Lemma mix_addr_v6_roundtrip_iff_witness :
  wf_addr example_v6 ∧
  ∃ b' w, Mix.write_buf (E:=io_error) example_v6 (vec_with_capacity 0) = (Ok tt, b') ∧ contents b' = w ∧
    Mix.from_encoded_bytes (w ++ []) ≠ Ok (example_v6, 19).
Proof.
  assert (wf_addr example_v6) as Hwf.
  { split_and!; [done| |split; lia]. by repeat (constructor; [split; lia|]). }
  split; [exact Hwf|].
  destruct (mix_addr_v6_roundtrip_iff (E:=io_error) _ _ (vec_with_capacity 0) [] Hwf) as (b' & w & Hw & Hc & _ & _ & Hiff).
  exists b', w. split; [exact Hw|]. split; [exact Hc|]. intros H.
  apply Hiff in H as (hi & lo & _ & _ & [= _ H1 _ _ _ _ _ H7]). rewrite <- H1 in H7. discriminate H7.
Defined.

(** A host name longer than 255 bytes is never decoded as sent: its length
    byte is truncated modulo 256. *)
Theorem mix_addr_long_host_truncated host p rest n :
  255 < length host →
  Mix.from_encoded_bytes (Mix.encoded (Hostname host p) ++ rest) ≠ Ok (Hostname host p, n).
Proof.
  intros Hl. cbn [Mix.encoded]. set (L := u8_wrap _). rewrite <- !app_assoc.
  intros H. apply Mix.decoded_host_length in H. cbn in H. subst L.
  pose proof (Z.mod_pos_bound (Z.of_nat (length host)) 256 ltac:(lia)). unfold u8_wrap in H. lia.
Qed.

Lemma mix_addr_long_host_truncated_witness :
  255 < length (replicate 300 97%Z) ∧
  Mix.from_encoded_bytes (Mix.encoded (Hostname (replicate 300 97%Z) 80) ++ []) ≠
    Ok (Hostname (replicate 300 97%Z) 80, 304).
Proof.
  assert (255 < length (replicate 300 97%Z)) as H by (rewrite length_replicate; lia).
  split; [exact H|]. apply (mix_addr_long_host_truncated _ _ [] 304 H).
Defined.

(** C24: [from_encoded_bytes] never panics on any byte string; what it accepts
    lies inside the buffer and is a well-formed address; and once it has decided
    (accepted or rejected) on a prefix of a stream, more bytes never change the
    decision. *)
Theorem mix_addr_decoder_stream_safe buf more :
  Mix.decodes_to buf (Mix.from_encoded_bytes buf) ∧
  (Mix.from_encoded_bytes (buf ++ more) = Mix.from_encoded_bytes buf ∨
   ∃ msg, Mix.from_encoded_bytes buf = Err (Incomplete msg)).
Proof.
  split; [apply Mix.from_encoded_bytes_total|].
  pose proof (Mix.from_encoded_bytes_app buf more) as Happ.
  destruct (Mix.from_encoded_bytes buf) as [|[]| | |]; eauto; left; by apply Happ.
Qed.

(** What is in front of the last colon, when a port follows it that fits 16 bits. *)
Lemma header_split oc is_https host digits :
  0 < length host → digits ≠ [] → Forall Mix.is_digit digits → (Mix.dec_value digits < 65536)%Z →
  Mix.from_http_header oc is_https (host ++ 58%Z :: digits) =
    Mix.header_addr (host ++ 58%Z :: digits) (length host) (Mix.dec_value digits).
Proof.
  intros Hpos Hne Hd Hlt. unfold Mix.from_http_header. rewrite Mix.last_colon_app by done.
  assert (0 < length digits) by (destruct digits; [done|cbn; lia]).
  unfold Mix.header_port. rewrite length_app. cbn [length]. rewrite !decide_False by lia. rewrite drop_app_ge by lia.
  replace (length host + 1 - length host) with 1 by lia. cbn [drop].
  by rewrite Mix.parse_port_digits, decide_True.
Qed.

(** C25: what the HTTP front end does with IP literals. A target [host:port] whose host
    does not end in a letter is rejected, whatever the port below 65536, if it is in
    brackets or holds no colon: so is
    [CONNECT 1.2.3.4:443], and so is [CONNECT [::1]:443], because the text handed to
    [SocketAddrV4/V6::from_str] has already lost its port. Whatever is accepted is a
    host name that ends in a letter, or an IPv4 target written with two colons; never
    an IPv6 target. *)
Theorem http_header_ip_literal_rejected oc is_https buf :
  (∀ host c digits, buf = host ++ 58%Z :: digits → host !! (length host - 1) = Some c → Mix.is_alpha c = false →
    c = 93%Z ∨ 58%Z ∉ host →
    digits ≠ [] → Forall Mix.is_digit digits → (Mix.dec_value digits < 65536)%Z →
    ∃ msg, Mix.from_http_header oc is_https buf = Err (Invalid msg)) ∧
  (∀ a, Mix.from_http_header oc is_https buf = Ok a →
    (∃ h p c, a = Hostname h p ∧ h `prefix_of` buf ∧ h !! (length h - 1) = Some c ∧ Mix.is_alpha c = true) ∨
    (∃ ip p i j, a = V4 ip p ∧ i < j ∧ buf !! i = Some 58%Z ∧ buf !! j = Some 58%Z)).
Proof.
  split.
  - intros host c digits -> Hc Hal Hkind Hne Hd Hlt.
    assert (0 < length host) as Hpos by (destruct host; [done|cbn; lia]).
    rewrite header_split by done. unfold Mix.header_addr. rewrite slice_app_l, slice_Ok by lia.
    cbn -[index utf8_valid Mix.is_alpha]. rewrite Nat.sub_0_r, drop_0, firstn_all, (index_Ok _ _ c) by done.
    cbn -[utf8_valid Mix.is_alpha]. rewrite Hal. case_decide as H93; destruct (utf8_valid host); try by eexists.
    + destruct (NetParser.parse_socket_addr_v6 host) as [ip|] eqn:Hip; [|by eexists].
      apply NetParser.parse_v6_port in Hip. subst c. destruct (Mix.ends_with_port_last _ _ Hip Hc) as [d [=]].
    + destruct (NetParser.parse_socket_addr_v4 host) as [ip|] eqn:Hip; [|by eexists].
      apply NetParser.parse_v4_port, Mix.ends_with_port_colon in Hip as (i & _ & Hcol).
      destruct Hkind as [?|Hno]; [done|]. by destruct Hno; eapply list_elem_of_lookup_2.
  - intros a (p & c & Hp & Hi & Hc & Hcase)%Mix.from_http_header_inv.
    destruct Hcase as [(-> & ip & Hip & ->)|[(Hal & ->)|(ip & Hip & ->)]].
    + apply NetParser.parse_v6_port in Hip. destruct (Mix.ends_with_port_last _ _ Hip Hc) as [d [=]].
    + left. eexists _, _, c. split; [done|]. split; [apply prefix_take|done].
    + right. apply NetParser.parse_v4_port, Mix.ends_with_port_colon in Hip as (i & Hlt & Hcol).
      rewrite length_take in Hlt. rewrite lookup_take in Hcol. case_decide; [|done].
      destruct (Mix.last_colon_spec buf (length buf) (length buf)) as [[_ Hno]|(j & Hj & Hjl & Hb & _)].
      * exfalso. by apply (Hno i); [lia|].
      * exists ip, p, i, j. rewrite Hj in *. split_and!; [done|lia|done|done].
Qed.

Lemma http_header_ip_literal_rejected_witness :
  (∃ msg, Mix.from_http_header false true (bytes_of_string "93.184.216.34:443") = Err (Invalid msg)) ∧
  (∃ msg, Mix.from_http_header false true (bytes_of_string "[::1]:443") = Err (Invalid msg)) ∧
  (∃ h p c, Hostname (bytes_of_string "a.com") 443 = Hostname h p ∧ h `prefix_of` bytes_of_string "a.com:443" ∧
    h !! (length h - 1) = Some c ∧ Mix.is_alpha c = true).
Proof.
  split; [|split].
  - apply (proj1 (http_header_ip_literal_rejected false true (bytes_of_string "93.184.216.34:443"))
      (bytes_of_string "93.184.216.34") 52%Z (bytes_of_string "443")); try by (vm_compute; reflexivity).
    + right. apply (bool_decide_unpack _). vm_compute. reflexivity.
    + discriminate.
    + repeat (constructor; [split; vm_compute; discriminate|]). constructor.
  - apply (proj1 (http_header_ip_literal_rejected false true (bytes_of_string "[::1]:443"))
      (bytes_of_string "[::1]") 93%Z (bytes_of_string "443")); try by (vm_compute; reflexivity).
    + by left.
    + discriminate.
    + repeat (constructor; [split; vm_compute; discriminate|]). constructor.
  - destruct (proj2 (http_header_ip_literal_rejected false true (bytes_of_string "a.com:443"))
      (Hostname (bytes_of_string "a.com") 443)) as [Hh|(? & ? & ? & ? & [=] & _)]; [vm_compute; reflexivity|exact Hh].
Defined.

(** With two colons the second port is taken and the first ignored. *)
Example http_header_ip_two_ports :
  Mix.from_http_header false true (bytes_of_string "1.2.3.4:80:443") = Ok (V4 [1; 2; 3; 4]%Z 443%Z).
Proof. vm_compute. reflexivity. Qed.

(** On [host:digits] whose host is valid UTF-8 ending in a letter, the HTTP
    front end yields that host with the decimal port when it fits 16 bits;
    otherwise a debug build panics and a release build silently wraps the port
    modulo 65536. *)
Theorem http_header_host_port oc is_https host c digits :
  host !! (length host - 1) = Some c → Mix.is_alpha c = true → utf8_valid host = true →
  digits ≠ [] → Forall Mix.is_digit digits →
  Mix.from_http_header oc is_https (host ++ 58%Z :: digits) =
    if decide (Mix.dec_value digits < 65536)%Z then Ok (Hostname host (Mix.dec_value digits))
    else if oc then Panic "arithmetic operation overflowed"
    else Ok (Hostname host (u16_wrap (Mix.dec_value digits))).
Proof.
  intros Hc Hal Hu Hne Hd. unfold Mix.from_http_header. rewrite Mix.last_colon_app by done.
  assert (0 < length host) as Hpos by (destruct host; [done|cbn; lia]).
  assert (0 < length digits) by (destruct digits; [done|cbn; lia]).
  unfold Mix.header_port. rewrite length_app. cbn [length].
  rewrite !decide_False by lia. rewrite drop_app_ge by lia.
  replace (length host + 1 - length host) with 1 by lia. cbn [drop].
  rewrite Mix.parse_port_digits by done.
  assert (∀ p, Mix.header_addr (host ++ 58%Z :: digits) (length host) p = Ok (Hostname host p)) as Hrest.
  { intros p. unfold Mix.header_addr. rewrite slice_app_l, slice_Ok by lia.
    cbn -[index utf8_valid Mix.is_alpha]. rewrite Nat.sub_0_r, drop_0, firstn_all.
    rewrite (index_Ok _ _ c) by done. cbn -[utf8_valid Mix.is_alpha].
    rewrite Hal, Hu. case_decide; [|done]. by subst. }
  destruct (decide _); [|destruct oc]; cbn; by rewrite ?Hrest.
Qed.

Lemma http_header_host_port_witness :
  Mix.from_http_header false true (bytes_of_string "example.com:65979") =
    Ok (Hostname (bytes_of_string "example.com") 443).
Proof.
  apply (http_header_host_port false true (bytes_of_string "example.com") 109%Z
    (bytes_of_string "65979")); [reflexivity..|discriminate|].
  vm_compute. repeat constructor; intros [=].
Defined.

(** In a release build [from_http_header] never panics, whatever bytes the
    browser sends. *)
Theorem http_header_release_no_panic is_https buf :
  is_panic (Mix.from_http_header false is_https buf) = false.
Proof.
  unfold Mix.from_http_header.
  destruct (Mix.last_colon_spec buf (length buf) (length buf)) as [[-> Hno]|(i & -> & Hi & _)].
  - destruct (Mix.header_port false is_https buf (length buf)) as [p| | | |] eqn:Hp; try done.
    + apply Mix.header_addr_no_panic; [|lia]. intros H0. rewrite H0 in Hp. discriminate Hp.
    + revert Hp. unfold Mix.header_port. repeat case_decide; try done. by destruct is_https.
  - destruct (Mix.header_port false is_https buf i) as [p| | | |] eqn:Hp; try done.
    + apply Mix.header_addr_no_panic; [|lia]. intros ->. discriminate Hp.
    + pose proof (Mix.parse_port_release_total (drop (i + 1) buf)) as Ht.
      revert Hp. unfold Mix.header_port. repeat case_decide; try done; [by destruct is_https|].
      intros Hp. by rewrite Hp in Ht.
Qed.
