(* ===== verification/Io.v ===== *)
(** The asynchronous stream traits and the stream wrappers of the program.

    [AsyncRead] and [AsyncWrite] are tokio's traits; the streams that implement
    them outside the repository (sockets, TLS and QUIC streams) are parameters of
    every client below, reached only through these classes. The wrappers of the
    repository are instances: [BufferedRecv] (src/src/utils/buffered_recv.rs),
    [WRTuple] (src/src/utils/wr_tuple.rs), [EitherIO] (src/src/utils/either_io.rs).
    [read_trace], [write_trace] and [io_trace] are the histories of a stream: what
    a sequence of polls delivered and accepted. *)
From S2P Require Import Prelude.

(** ** The traits *)

(** [poll_read room]: the bytes put into a [ReadBuf] with [room] bytes free. *)
Class AsyncRead (R : Type) := poll_read : nat → ST R io_error (list Z).

Class AsyncWrite (W : Type) := {
  poll_write : list Z → ST W io_error nat;
  poll_flush : ST W io_error unit;
  poll_shutdown : ST W io_error unit;
}.

(** The contracts tokio documents: a read fits the buffer, a write accepts no
    more than it was offered; a poll returns. *)
Class AsyncReadOk (R : Type) `{AsyncRead R} := {
  poll_read_fits : ∀ room (r : R) bs r', poll_read room r = (Ok bs, r') → length bs ≤ room;
  poll_read_returns : ∀ room (r : R), (poll_read room r).1 ≠ OutOfFuel;
}.

Class AsyncWriteOk (W : Type) `{AsyncWrite W} := {
  poll_write_fits : ∀ b (w : W) n w', poll_write b w = (Ok n, w') → n ≤ length b;
  poll_write_returns : ∀ b (w : W), (poll_write b w).1 ≠ OutOfFuel;
  poll_flush_returns : ∀ w : W, (poll_flush w).1 ≠ OutOfFuel;
  poll_shutdown_returns : ∀ w : W, (poll_shutdown w).1 ≠ OutOfFuel;
}.

#[export] Hint Resolve poll_read_returns poll_write_returns poll_flush_returns
  poll_shutdown_returns : oxide.

(** ** Histories *)
Definition bytes_read (r : outcome io_error (list Z)) : list Z :=
  match r with Ok bs => bs | _ => [] end.

Definition bytes_accepted (b : list Z) (r : outcome io_error nat) : list Z :=
  match r with Ok n => take n b | _ => [] end.

(** What a write that succeeded was handed: more than it accepted, if it was short. *)
Definition bytes_handed (b : list Z) (r : outcome io_error nat) : list Z :=
  match r with Ok _ => b | _ => [] end.

Lemma accepted_handed b r : bytes_accepted b r `sublist_of` bytes_handed b r.
Proof. destruct r; [apply sublist_take|done..]. Qed.

Lemma sublist_same_length {A} (l k : list A) : l `sublist_of` k → length k ≤ length l → l = k.
Proof.
  induction 1 as [|x l k _ IH|x l k Hs _]; cbn; intros Hl; [done|f_equal; apply IH; lia|].
  apply sublist_length in Hs. lia.
Qed.

Section traces.
Context {S : Type} `{AsyncRead S, AsyncWrite S}.

(** [io_trace s ins outs s']: some sequence of polls leads from [s] to [s'],
    delivering the bytes [ins] and accepting the bytes [outs]. *)
Inductive io_trace : S → list Z → list Z → S → Prop :=
| io_refl s : io_trace s [] [] s
| io_read s room ins outs s'' :
    io_trace (poll_read room s).2 ins outs s'' →
    io_trace s (bytes_read (poll_read room s).1 ++ ins) outs s''
| io_write s b ins outs s'' :
    io_trace (poll_write b s).2 ins outs s'' →
    io_trace s ins (bytes_accepted b (poll_write b s).1 ++ outs) s''
| io_flush s ins outs s'' :
    io_trace (poll_flush s).2 ins outs s'' → io_trace s ins outs s''
| io_shutdown s ins outs s'' :
    io_trace (poll_shutdown s).2 ins outs s'' → io_trace s ins outs s''.

Lemma io_trace_trans s1 i1 o1 s2 i2 o2 s3 :
  io_trace s1 i1 o1 s2 → io_trace s2 i2 o2 s3 → io_trace s1 (i1 ++ i2) (o1 ++ o2) s3.
Proof.
  intros H1 H2. induction H1; rewrite <- ?app_assoc; eauto using io_trace.
Qed.

Lemma io_trace_read1 room s :
  io_trace s (bytes_read (poll_read room s).1) [] (poll_read room s).2.
Proof. rewrite <- (app_nil_r (bytes_read _)). apply io_read, io_refl. Qed.

Lemma io_trace_write1 b s :
  io_trace s [] (bytes_accepted b (poll_write b s).1) (poll_write b s).2.
Proof. rewrite <- (app_nil_r (bytes_accepted _ _)). apply io_write, io_refl. Qed.

Lemma io_trace_flush1 s : io_trace s [] [] (poll_flush s).2.
Proof. apply io_flush, io_refl. Qed.

Lemma io_trace_shutdown1 s : io_trace s [] [] (poll_shutdown s).2.
Proof. apply io_shutdown, io_refl. Qed.

(** [io_handed s ins handed took s']: the same history, told by what the successful
    writes were [handed] and what the stream [took] of it. Whoever calls [write] once
    and goes on loses the difference. *)
Inductive io_handed : S → list Z → list Z → list Z → S → Prop :=
| ih_refl s : io_handed s [] [] [] s
| ih_read s room ins handed took s'' :
    io_handed (poll_read room s).2 ins handed took s'' →
    io_handed s (bytes_read (poll_read room s).1 ++ ins) handed took s''
| ih_write s b ins handed took s'' :
    io_handed (poll_write b s).2 ins handed took s'' →
    io_handed s ins (bytes_handed b (poll_write b s).1 ++ handed)
      (bytes_accepted b (poll_write b s).1 ++ took) s''
| ih_flush s ins handed took s'' :
    io_handed (poll_flush s).2 ins handed took s'' → io_handed s ins handed took s''
| ih_shutdown s ins handed took s'' :
    io_handed (poll_shutdown s).2 ins handed took s'' → io_handed s ins handed took s''.

Lemma io_handed_trans s1 i1 o1 t1 s2 i2 o2 t2 s3 :
  io_handed s1 i1 o1 t1 s2 → io_handed s2 i2 o2 t2 s3 → io_handed s1 (i1 ++ i2) (o1 ++ o2) (t1 ++ t2) s3.
Proof. intros H1 H2. induction H1; rewrite <- ?app_assoc; eauto using io_handed. Qed.

Lemma io_handed_trace s ins handed took s' : io_handed s ins handed took s' → io_trace s ins took s'.
Proof. induction 1; eauto using io_trace. Qed.

Lemma io_trace_handed s ins took s' : io_trace s ins took s' → ∃ handed, io_handed s ins handed took s'.
Proof. induction 1; destruct_and?; try destruct IHio_trace; eauto using io_handed. Qed.

Lemma io_handed_took s ins handed took s' : io_handed s ins handed took s' → took `sublist_of` handed.
Proof. induction 1; [done|done| |done..]. by apply sublist_app, IHio_handed; apply accepted_handed. Qed.
End traces.

Section half_traces.
Context {R : Type} `{AsyncRead R} {W : Type} `{AsyncWrite W}.

Inductive read_trace : R → list Z → R → Prop :=
| rt_refl r : read_trace r [] r
| rt_read r room bs r'' :
    read_trace (poll_read room r).2 bs r'' →
    read_trace r (bytes_read (poll_read room r).1 ++ bs) r''.

Inductive write_trace : W → list Z → W → Prop :=
| wt_refl w : write_trace w [] w
| wt_write w b bs w'' :
    write_trace (poll_write b w).2 bs w'' →
    write_trace w (bytes_accepted b (poll_write b w).1 ++ bs) w''
| wt_flush w bs w'' : write_trace (poll_flush w).2 bs w'' → write_trace w bs w''
| wt_shutdown w bs w'' : write_trace (poll_shutdown w).2 bs w'' → write_trace w bs w''.

Lemma read_trace_trans r1 b1 r2 b2 r3 :
  read_trace r1 b1 r2 → read_trace r2 b2 r3 → read_trace r1 (b1 ++ b2) r3.
Proof. intros H1 H2. induction H1; rewrite <- ?app_assoc; eauto using read_trace. Qed.

Lemma write_trace_trans w1 b1 w2 b2 w3 :
  write_trace w1 b1 w2 → write_trace w2 b2 w3 → write_trace w1 (b1 ++ b2) w3.
Proof. intros H1 H2. induction H1; rewrite <- ?app_assoc; eauto using write_trace. Qed.

Lemma read_trace_1 room r :
  read_trace r (bytes_read (poll_read room r).1) (poll_read room r).2.
Proof. rewrite <- (app_nil_r (bytes_read _)). apply rt_read, rt_refl. Qed.

Lemma write_trace_1 b w :
  write_trace w (bytes_accepted b (poll_write b w).1) (poll_write b w).2.
Proof. rewrite <- (app_nil_r (bytes_accepted _ _)). apply wt_write, wt_refl. Qed.

Lemma write_trace_flush w : write_trace w [] (poll_flush w).2.
Proof. apply wt_flush, wt_refl. Qed.

Lemma write_trace_shutdown w : write_trace w [] (poll_shutdown w).2.
Proof. apply wt_shutdown, wt_refl. Qed.

Inductive write_handed : W → list Z → list Z → W → Prop :=
| wh_refl w : write_handed w [] [] w
| wh_write w b handed took w'' :
    write_handed (poll_write b w).2 handed took w'' →
    write_handed w (bytes_handed b (poll_write b w).1 ++ handed) (bytes_accepted b (poll_write b w).1 ++ took) w''
| wh_flush w handed took w'' : write_handed (poll_flush w).2 handed took w'' → write_handed w handed took w''
| wh_shutdown w handed took w'' : write_handed (poll_shutdown w).2 handed took w'' → write_handed w handed took w''.

Lemma write_handed_trans w1 b1 t1 w2 b2 t2 w3 :
  write_handed w1 b1 t1 w2 → write_handed w2 b2 t2 w3 → write_handed w1 (b1 ++ b2) (t1 ++ t2) w3.
Proof. intros H1 H2. induction H1; rewrite <- ?app_assoc; eauto using write_handed. Qed.

Lemma write_handed_1 b w :
  write_handed w (bytes_handed b (poll_write b w).1) (bytes_accepted b (poll_write b w).1) (poll_write b w).2.
Proof. rewrite <- (app_nil_r (bytes_handed _ _)), <- (app_nil_r (bytes_accepted _ _)). apply wh_write, wh_refl. Qed.

Lemma write_handed_flush w : write_handed w [] [] (poll_flush w).2.
Proof. apply wh_flush, wh_refl. Qed.
End half_traces.

Section half_traces_io.
Context {S : Type} `{AsyncRead S, AsyncWrite S}.
Implicit Types s : S.

Lemma read_trace_io s bs s' : read_trace s bs s' → io_trace s bs [] s'.
Proof. induction 1; eauto using io_trace. Qed.

Lemma write_trace_io s bs s' : write_trace s bs s' → io_trace s [] bs s'.
Proof. induction 1; eauto using io_trace. Qed.

Lemma read_trace_handed s bs s' : read_trace s bs s' → io_handed s bs [] [] s'.
Proof. induction 1; eauto using io_handed. Qed.

Lemma write_handed_io s handed took s' : write_handed s handed took s' → io_handed s [] handed took s'.
Proof. induction 1; eauto using io_handed. Qed.
End half_traces_io.

#[export] Hint Resolve read_trace_1 write_trace_1 write_trace_flush write_trace_shutdown
  rt_refl wt_refl io_refl read_trace_io write_trace_io : oxide.

(** ** [BufferedRecv] *)
Record BufferedRecv (T : Type) := mkBufferedRecv {
  buffered_request : option (nat * list Z);
  br_inner : T;
}.
Arguments mkBufferedRecv {T}.
Arguments buffered_request {T}.
Arguments br_inner {T}.

Definition BufferedRecv_new {T} (inner : T) (buffered_request : option (nat * list Z))
    : BufferedRecv T :=
  mkBufferedRecv buffered_request inner.

Definition BufferedRecv_into_inner {T} (b : BufferedRecv T) : T * option (nat * list Z) :=
  (br_inner b, buffered_request b).

Definition br_set_inner {T} (t : T) (b : BufferedRecv T) : BufferedRecv T :=
  mkBufferedRecv (buffered_request b) t.

(** [put_slice] panics when the slice does not fit the free room. *)
Definition BufferedRecv_poll_read `{AsyncRead T} (room : nat)
    : ST (BufferedRecv T) io_error (list Z) :=
  b ← st_get;
  match buffered_request b with
  | Some (idx, v) =>
      bs ← st_lift (slice_from v idx);
      if decide (length bs ≤ room) then
        st_modify (λ b, mkBufferedRecv None (br_inner b));; mret bs
      else panic "buf.len() must fit in remaining()"
  | None => st_zoom br_inner br_set_inner (poll_read room)
  end.

#[export] Instance BufferedRecv_AsyncRead `{AsyncRead T} : AsyncRead (BufferedRecv T) :=
  BufferedRecv_poll_read.

#[export] Instance BufferedRecv_AsyncWrite `{AsyncWrite T} : AsyncWrite (BufferedRecv T) := {
  poll_write b := st_zoom br_inner br_set_inner (poll_write b);
  poll_flush := st_zoom br_inner br_set_inner poll_flush;
  poll_shutdown := st_zoom br_inner br_set_inner poll_shutdown;
}.

Lemma surjective_pairing_eq {A B} (p : A * B) a : p.1 = a → p = (a, p.2).
Proof. destruct p; cbn; congruence. Qed.

#[export] Instance BufferedRecv_AsyncReadOk `{AsyncReadOk T} : AsyncReadOk (BufferedRecv T).
Proof.
  split; [intros room [[[i v]|] t] bs r' | intros room [[[i v]|] t]];
    unfold poll_read, BufferedRecv_AsyncRead, BufferedRecv_poll_read; st_simpl; cbn [buffered_request].
  - unfold slice_from. case_decide; [|done]. st_simpl. case_decide; [|done].
    intros [= <- _]. done.
  - rewrite st_zoom_run. intros [= Hr _]. destruct (poll_read room t) as [res t'] eqn:E.
    exact (poll_read_fits room t bs t' ltac:(rewrite E; cbn in *; congruence)).
  - unfold slice_from. case_decide; [|done]. st_simpl. by case_decide.
  - rewrite st_zoom_run. exact (poll_read_returns room t).
Qed.

(** A wrapper inherits the contract of the stream it forwards to. *)
Lemma read_fits_fst `{AsyncReadOk R} room (r : R) bs :
  (poll_read room r).1 = Ok bs → length bs ≤ room.
Proof.
  destruct (poll_read room r) as [res r'] eqn:E. cbn. intros ->. exact (poll_read_fits room r bs r' E).
Qed.

Lemma write_fits_fst `{AsyncWriteOk W} b (w : W) n :
  (poll_write b w).1 = Ok n → n ≤ length b.
Proof.
  destruct (poll_write b w) as [res w'] eqn:E. cbn. intros ->. exact (poll_write_fits b w n w' E).
Qed.

#[export] Instance BufferedRecv_AsyncWriteOk `{AsyncWriteOk T} : AsyncWriteOk (BufferedRecv T).
Proof.
  split; cbn [poll_write poll_flush poll_shutdown BufferedRecv_AsyncWrite]; intros;
    rewrite ?st_zoom_run in *; simplify_eq/=; eauto using write_fits_fst with oxide.
Qed.

(** What a [BufferedRecv] delivers: first the whole buffered request, in one
    piece, then what the inner stream delivers. *)
Section buffered_recv.
Context `{AsyncRead T}.
Implicit Types (b : BufferedRecv T).

Definition buffered_bytes b : list Z :=
  match buffered_request b with Some (i, v) => drop i v | None => [] end.

Lemma poll_read_buffered room b :
  match buffered_request b with
  | Some (i, v) =>
      (poll_read room b = (Ok (drop i v), mkBufferedRecv None (br_inner b)) ∧
       i ≤ length v ∧ length (drop i v) ≤ room) ∨
      (∃ msg, poll_read room b = (Panic msg, b))
  | None =>
      poll_read room b =
        ((poll_read room (br_inner b)).1, mkBufferedRecv None (poll_read room (br_inner b)).2)
  end.
Proof.
  unfold poll_read at 1 2 3, BufferedRecv_AsyncRead, BufferedRecv_poll_read. st_simpl.
  destruct b as [[[i v]|] t]; cbn [buffered_request].
  - unfold slice_from. case_decide as Hi; [|right; by eexists].
    st_simpl. case_decide as Hr; [left|right; by eexists]. split_and!; [|done..]. done.
  - unfold st_zoom. cbn. by destruct (poll_read room t).
Qed.

Lemma read_trace_unbuffered t bs b' :
  read_trace (mkBufferedRecv None t) bs b' →
  buffered_request b' = None ∧ read_trace t bs (br_inner b').
Proof.
  remember (mkBufferedRecv None t) as b eqn:Eb. intros Htr. revert t Eb.
  induction Htr as [b|b room bs b'' Htr IH]; intros t ->; [split; [done|apply rt_refl]|].
  pose proof (poll_read_buffered room (mkBufferedRecv None t)) as Hp. cbn in Hp.
  rewrite Hp in IH |- *. cbn in *. destruct (IH _ eq_refl) as [Hn Hi].
  split; [done|]. by apply rt_read.
Qed.

Lemma read_trace_buffered i v t bs b' :
  read_trace (mkBufferedRecv (Some (i, v)) t) bs b' →
  (bs = [] ∧ b' = mkBufferedRecv (Some (i, v)) t) ∨
  (∃ bs', bs = drop i v ++ bs' ∧ buffered_request b' = None ∧ read_trace t bs' (br_inner b')).
Proof.
  remember (mkBufferedRecv (Some (i, v)) t) as b eqn:Eb. intros Htr. revert t Eb.
  induction Htr as [b|b room bs b'' Htr IH]; intros t ->; [by left|].
  pose proof (poll_read_buffered room (mkBufferedRecv (Some (i, v)) t)) as Hp. cbn in Hp.
  destruct Hp as [(Hp & Hi & Hr)|[msg Hp]]; rewrite Hp in IH, Htr |- *; cbn in *.
  - right. apply read_trace_unbuffered in Htr as [Hn Hti]. eauto.
  - by apply IH.
Qed.

(** Over any use of it, reads and writes: what was buffered comes first, once. *)
Lemma buffered_io_trace `{AsyncWrite T} b ins outs b' :
  io_trace b ins outs b' →
  ∃ ins', io_trace (br_inner b) ins' outs (br_inner b') ∧
    buffered_bytes b ++ ins' = ins ++ buffered_bytes b'.
Proof.
  induction 1 as [b|b room ins outs b'' Htr IH|b bs ins outs b'' Htr IH|b ins outs b'' Htr IH|b ins outs b'' Htr IH].
  - exists []. split; [apply io_refl|]. by rewrite app_nil_r.
  - destruct IH as (ins' & Ht & E). pose proof (poll_read_buffered room b) as Hp. unfold buffered_bytes at 1.
    destruct (buffered_request b) as [[i v]|] eqn:Eb.
    + destruct Hp as [(Hp & _)|[msg Hp]]; rewrite Hp in *; cbn in *.
      * exists ins'. split; [done|]. by rewrite <- app_assoc, <- E.
      * exists ins'. split; [done|]. unfold buffered_bytes in E at 1. by rewrite Eb in E.
    + rewrite Hp in *. cbn in *. exists (bytes_read (poll_read room (br_inner b)).1 ++ ins').
      split; [by apply io_read|]. by rewrite <- app_assoc, <- E.
  - destruct IH as (ins' & Ht & E). cbn [poll_write BufferedRecv_AsyncWrite] in *. rewrite st_zoom_run in *.
    exists ins'. split; [by apply io_write|done].
  - destruct IH as (ins' & Ht & E). cbn [poll_flush BufferedRecv_AsyncWrite] in *. rewrite st_zoom_run in *.
    exists ins'. split; [by apply io_flush|done].
  - destruct IH as (ins' & Ht & E). cbn [poll_shutdown BufferedRecv_AsyncWrite] in *. rewrite st_zoom_run in *.
    exists ins'. split; [by apply io_shutdown|done].
Qed.
End buffered_recv.

(** ** [WRTuple] *)
Record WRTuple (W R : Type) := mkWRTuple { wr_w : W; wr_r : R }.
Arguments mkWRTuple {W R}.
Arguments wr_w {W R}.
Arguments wr_r {W R}.

Definition from_wr_tuple {W R} (p : W * R) : WRTuple W R := mkWRTuple p.1 p.2.

#[export] Instance WRTuple_AsyncRead {W} `{AsyncRead R} : AsyncRead (WRTuple W R) := λ room,
  st_zoom wr_r (λ r t, mkWRTuple (wr_w t) r) (poll_read room).

#[export] Instance WRTuple_AsyncWrite {R} `{AsyncWrite W} : AsyncWrite (WRTuple W R) := {
  poll_write b := st_zoom wr_w (λ w t, mkWRTuple w (wr_r t)) (poll_write b);
  poll_flush := st_zoom wr_w (λ w t, mkWRTuple w (wr_r t)) poll_flush;
  poll_shutdown := st_zoom wr_w (λ w t, mkWRTuple w (wr_r t)) poll_shutdown;
}.

#[export] Instance WRTuple_AsyncReadOk {W} `{AsyncReadOk R} : AsyncReadOk (WRTuple W R).
Proof.
  split; intros room [w r]; unfold poll_read, WRTuple_AsyncRead; rewrite st_zoom_run.
  - intros bs t [= Hr _]. exact (read_fits_fst room r bs Hr).
  - exact (poll_read_returns room r).
Qed.

#[export] Instance WRTuple_AsyncWriteOk {R} `{AsyncWriteOk W} : AsyncWriteOk (WRTuple W R).
Proof.
  split; cbn [poll_write poll_flush poll_shutdown WRTuple_AsyncWrite]; intros;
    rewrite ?st_zoom_run in *; simplify_eq/=; eauto using write_fits_fst with oxide.
Qed.

(** ** [EitherIO] *)
Inductive EitherIO (IO1 IO2 : Type) : Type :=
| EitherLeft (io : IO1)
| EitherRight (io : IO2).
Arguments EitherLeft {IO1 IO2}.
Arguments EitherRight {IO1 IO2}.

(** [match *self { Left(ref mut io) => .., Right(ref mut io) => .. }]. *)
Definition either_dispatch {IO1 IO2 A} (m1 : ST IO1 io_error A) (m2 : ST IO2 io_error A)
    : ST (EitherIO IO1 IO2) io_error A := λ s,
  match s with
  | EitherLeft io => let '(r, io') := m1 io in (r, EitherLeft io')
  | EitherRight io => let '(r, io') := m2 io in (r, EitherRight io')
  end.

#[export] Instance EitherIO_AsyncRead `{AsyncRead IO1, AsyncRead IO2} : AsyncRead (EitherIO IO1 IO2) :=
  λ room, either_dispatch (poll_read room) (poll_read room).

#[export] Instance EitherIO_AsyncWrite `{AsyncWrite IO1, AsyncWrite IO2}
    : AsyncWrite (EitherIO IO1 IO2) := {
  poll_write b := either_dispatch (poll_write b) (poll_write b);
  poll_flush := either_dispatch poll_flush poll_flush;
  poll_shutdown := either_dispatch poll_shutdown poll_shutdown;
}.

Lemma either_dispatch_run {IO1 IO2 A} (m1 : ST IO1 io_error A) (m2 : ST IO2 io_error A) s :
  either_dispatch m1 m2 s =
    match s with
    | EitherLeft io => ((m1 io).1, EitherLeft (m1 io).2)
    | EitherRight io => ((m2 io).1, EitherRight (m2 io).2)
    end.
Proof. destruct s as [io|io]; cbn; [by destruct (m1 io)|by destruct (m2 io)]. Qed.

#[export] Instance EitherIO_AsyncReadOk `{AsyncReadOk IO1, AsyncReadOk IO2}
    : AsyncReadOk (EitherIO IO1 IO2).
Proof.
  split; intros room [io|io]; unfold poll_read, EitherIO_AsyncRead; rewrite either_dispatch_run.
  - intros bs t [= Hr _]. exact (read_fits_fst room io bs Hr).
  - intros bs t [= Hr _]. exact (read_fits_fst room io bs Hr).
  - exact (poll_read_returns room io).
  - exact (poll_read_returns room io).
Qed.

#[export] Instance EitherIO_AsyncWriteOk `{AsyncWriteOk IO1, AsyncWriteOk IO2}
    : AsyncWriteOk (EitherIO IO1 IO2).
Proof.
  split; [intros b [io|io] n s'|intros b [io|io]|intros [io|io]..];
    cbn [poll_write poll_flush poll_shutdown EitherIO_AsyncWrite]; rewrite either_dispatch_run;
    try (intros [= Hw _]; exact (write_fits_fst b io n Hw)); cbn [fst]; auto with oxide.
Qed.

(** ** [write_all] and [read_buf] of tokio's extension traits

    An [async fn] that awaits them is suspended where they return [Pending]. *)
Section write_all.
Context {W : Type} `{AsyncWrite W}.

Fixpoint write_all_loop (fuel : nat) (buf : list Z) : ST W io_error unit :=
  match buf with
  | [] => mret tt
  | _ :: _ =>
      match fuel with
      | 0 => st_lift OutOfFuel
      | S fuel' =>
          n ← poll_write buf;
          if decide (n = 0) then throw WriteZero else
          rest ← st_lift (slice_from buf n);
          write_all_loop fuel' rest
      end
  end.

(** Every pass writes at least one byte. *)
Definition write_all (buf : list Z) : ST W io_error unit := write_all_loop (length buf) buf.

Lemma write_all_loop_spec `{!AsyncWriteOk W} fuel buf w :
  length buf ≤ fuel →
  post (write_all_loop fuel buf) w (λ r w', r ≠ OutOfFuel ∧
    ∃ outs rest, write_trace w outs w' ∧ buf = outs ++ rest ∧ (r = Ok tt → rest = [])).
Proof.
  revert buf w. induction fuel as [|fuel IH]; intros buf w Hfuel; unfold post.
  { destruct buf; [|cbn in Hfuel; lia]. split; [done|]. exists [], []. eauto with oxide. }
  destruct buf as [|b buf]; [split; [done|]; exists [], []; eauto with oxide|].
  cbn [write_all_loop]. set (l := b :: buf) in *. rewrite st_bind_split.
  pose proof (write_trace_1 l w) as Ht. pose proof (poll_write_returns l w) as Hret.
  destruct (poll_write l w) as [res w1] eqn:Ew.
  destruct res as [n|e| |msg|]; cbn in Ht, Hret |- *;
    [|split; [done|]; by exists [], l..|done].
  pose proof (poll_write_fits _ _ _ _ Ew) as Hfit.
  case_decide as Hn; [subst n; split; [done|]; by exists [], l|].
  rewrite slice_from_Ok, st_lift_Ok_bind by done.
  destruct (IH (drop n l) w1) as (Hf & outs & rest & Ht2 & Hd & Hok); [rewrite length_drop; lia|].
  split; [done|]. exists (take n l ++ outs), rest. split_and!; [by eapply write_trace_trans| |done].
  by rewrite <- app_assoc, <- Hd, take_drop.
Qed.

Lemma write_all_spec `{!AsyncWriteOk W} buf w :
  post (write_all buf) w (λ r w', r ≠ OutOfFuel ∧
    ∃ outs rest, write_trace w outs w' ∧ buf = outs ++ rest ∧ (r = Ok tt → rest = [])).
Proof. by apply write_all_loop_spec. Qed.
End write_all.

(** ** A scripted stream

    A concrete stream for evaluating the definitions: each read and write pops
    the next scripted answer; when a script is exhausted, reads stay pending and
    writes take everything. *)
Inductive answer (A : Type) : Type :=
| Gives (a : A)
| Fails (e : io_error)
| Waits.
Arguments Gives {A}.
Arguments Fails {A}.
Arguments Waits {A}.

Record Script := mkScript {
  sc_reads : list (answer (list Z));
  sc_accepts : list (answer nat);
  sc_log : list Z;
  sc_closed : bool;
}.

Definition script_of (chunks : list (list Z)) : Script :=
  mkScript (map Gives chunks) [] [] false.

#[export] Instance Script_AsyncRead : AsyncRead Script := λ room s,
  match sc_reads s with
  | [] => (Pending, s)
  | Gives bs :: rest =>
      if decide (length bs ≤ room)
      then (Ok bs, mkScript rest (sc_accepts s) (sc_log s) (sc_closed s))
      else (Ok (take room bs),
            mkScript (Gives (drop room bs) :: rest) (sc_accepts s) (sc_log s) (sc_closed s))
  | Fails e :: rest => (Err e, mkScript rest (sc_accepts s) (sc_log s) (sc_closed s))
  | Waits :: rest => (Pending, mkScript rest (sc_accepts s) (sc_log s) (sc_closed s))
  end.

Definition script_write (b : list Z) : ST Script io_error nat := λ s,
  match sc_accepts s with
  | [] => (Ok (length b), mkScript (sc_reads s) [] (sc_log s ++ b) (sc_closed s))
  | Gives n :: rest =>
      let m := Nat.min n (length b) in
      (Ok m, mkScript (sc_reads s) rest (sc_log s ++ take m b) (sc_closed s))
  | Fails e :: rest => (Err e, mkScript (sc_reads s) rest (sc_log s) (sc_closed s))
  | Waits :: rest => (Pending, mkScript (sc_reads s) rest (sc_log s) (sc_closed s))
  end.

#[export] Instance Script_AsyncWrite : AsyncWrite Script := {
  poll_write := script_write;
  poll_flush := mret tt;
  poll_shutdown := st_modify (λ s, mkScript (sc_reads s) (sc_accepts s) (sc_log s) true);
}.

#[export] Instance Script_AsyncReadOk : AsyncReadOk Script.
Proof.
  split; [intros room [[|[bs|e|] rest] acc log cl] bs' s'|intros room [[|[bs|e|] rest] acc log cl]];
    unfold poll_read, Script_AsyncRead; cbn; try case_decide; try done;
    intros [= <- _]; rewrite ?length_take; lia.
Qed.

#[export] Instance Script_AsyncWriteOk : AsyncWriteOk Script.
Proof.
  split; [intros b [rd [|[n|e|] rest] log cl] m s'|intros b [rd [|[n|e|] rest] log cl]|done..];
    cbn; try done; intros [= <- _]; lia.
Qed.

(** A stream that delivers scripted chunks and accepts every write whole. *)
Record Sink := mkSink { sk_reads : list (answer (list Z)); sk_log : list Z }.

#[export] Instance Sink_AsyncRead : AsyncRead Sink := λ room s,
  let '(r, s') := poll_read room (mkScript (sk_reads s) [] (sk_log s) false) in
  (r, mkSink (sc_reads s') (sc_log s')).

#[export] Instance Sink_AsyncWrite : AsyncWrite Sink := {
  poll_write b := λ s, (Ok (length b), mkSink (sk_reads s) (sk_log s ++ b));
  poll_flush := mret tt;
  poll_shutdown := mret tt;
}.

#[export] Instance Sink_AsyncReadOk : AsyncReadOk Sink.
Proof.
  split; intros room s; unfold poll_read at 1, Sink_AsyncRead.
  - intros bs s'. destruct (poll_read room _) as [r t] eqn:E. intros [= -> _].
    exact (poll_read_fits _ _ _ _ E).
  - pose proof (poll_read_returns room (mkScript (sk_reads s) [] (sk_log s) false)) as Hr.
    by destruct (poll_read room _).
Qed.

#[export] Instance Sink_AsyncWriteOk : AsyncWriteOk Sink.
Proof. split; try done. intros b w n w' [= <- _]. done. Qed.

