(* ===== verification/Copy.v ===== *)
(** Stream relaying: [CopyBuffer] and [CopyBidirectional] of
    src/src/utils/forked_copy and of src/src/utils/glommio_utils.

    One poll of a copy is a function of the buffer, the reader and the writer;
    [outer] fuel bounds the reads of one poll. Module [Forked] is the tokio
    version (which flushes before it waits for the reader), [Glommio] the
    io_uring one; both use the write loop of the section before them. *)
From stdpp Require Import relations.
From S2P Require Import Prelude Io.

Definition RELAY_BUFFER_SIZE : nat := 8192 * 2.

(** [CopyBuffer]; the glommio version has no [need_flush], which stays false. *)
Record CopyBuffer := mkCopyBuffer {
  read_done : bool;
  need_flush : bool;
  pos : nat;
  cap : nat;
  amt : Z;
  cbuf : list Z;
}.

Definition CopyBuffer_new : CopyBuffer :=
  mkCopyBuffer false false 0 0 0%Z (replicate RELAY_BUFFER_SIZE 0%Z).

Definition set_read_done (b : CopyBuffer) : CopyBuffer :=
  mkCopyBuffer true (need_flush b) (pos b) (cap b) (amt b) (cbuf b).
Definition clear_need_flush (b : CopyBuffer) : CopyBuffer :=
  mkCopyBuffer (read_done b) false (pos b) (cap b) (amt b) (cbuf b).

(** [poll_read] filled the front of the buffer with [bs]; [pos = 0; cap = n]. *)
Definition refill (bs : list Z) (b : CopyBuffer) : CopyBuffer :=
  mkCopyBuffer (read_done b) (need_flush b) 0 (length bs) (amt b)
    (bs ++ drop (length bs) (cbuf b)).

(** [pos += i; amt += i as u64] and, in the tokio version, [need_flush = true]. *)
Definition written (flush : bool) (i : nat) (b : CopyBuffer) : CopyBuffer :=
  mkCopyBuffer (read_done b) (flush || need_flush b) (pos b + i) (cap b)
    (u64_wrap (amt b + Z.of_nat i)) (cbuf b).

(** The state of one direction of a relay: its copy buffer, the reader, the
    writer. *)
Record CopySt (Buf R W : Type) := mkCopySt { cs_buf : Buf; cs_rd : R; cs_wr : W }.
Arguments mkCopySt {Buf R W}.
Arguments cs_buf {Buf R W}.
Arguments cs_rd {Buf R W}.
Arguments cs_wr {Buf R W}.

Section copy_state.
Context {Buf R W : Type}.
Definition on_buf (f : Buf → Buf) : ST (CopySt Buf R W) io_error unit :=
  st_modify (λ s, mkCopySt (f (cs_buf s)) (cs_rd s) (cs_wr s)).
Definition on_rd {A} (m : ST R io_error A) : ST (CopySt Buf R W) io_error A :=
  st_zoom cs_rd (λ r s, mkCopySt (cs_buf s) r (cs_wr s)) m.
Definition on_wr {A} (m : ST W io_error A) : ST (CopySt Buf R W) io_error A :=
  st_zoom cs_wr (λ w s, mkCopySt (cs_buf s) (cs_rd s) w) m.
End copy_state.

Section copy.
Context {R W : Type} `{AsyncRead R, AsyncWrite W}.
Implicit Types (s : CopySt CopyBuffer R W).

(** [while self.pos < self.cap { .. }]. *)
Fixpoint write_out (flush : bool) (fuel : nat) : ST (CopySt CopyBuffer R W) io_error unit :=
  s ← st_get;
  let b := cs_buf s in
  if decide (pos b < cap b) then
    match fuel with
    | 0 => st_lift OutOfFuel
    | S fuel' =>
        piece ← st_lift (slice (cbuf b) (pos b) (cap b));
        i ← on_wr (poll_write piece);
        if decide (i = 0) then throw WriteZero else
        on_buf (written flush i);;
        write_out flush fuel'
    end
  else mret tt.

(** The write loop of a poll: every pass writes at least one byte, so the bytes
    left to write bound its passes. *)
Definition write_all_out (flush : bool) : ST (CopySt CopyBuffer R W) io_error unit :=
  s ← st_get;
  write_out flush (cap (cs_buf s) - pos (cs_buf s)).

(** The loop of [CopyBuffer::poll_copy]; the versions differ in the step that
    reads and in whether a write asks for a flush. *)
Fixpoint copy_loop (read_step : ST (CopySt CopyBuffer R W) io_error unit) (flush : bool)
    (fuel : nat) : ST (CopySt CopyBuffer R W) io_error Z :=
  match fuel with
  | 0 => st_lift OutOfFuel
  | S fuel' =>
      s ← st_get;
      (if decide (pos (cs_buf s) = cap (cs_buf s) ∧ read_done (cs_buf s) = false)
       then read_step else mret tt);;
      write_all_out flush;;
      s ← st_get;
      if decide (pos (cs_buf s) = cap (cs_buf s) ∧ read_done (cs_buf s) = true)
      then on_wr poll_flush;; mret (amt (cs_buf s))
      else copy_loop read_step flush fuel'
  end.
End copy.

(** ** The tokio version *)
Module Forked.
Section forked.
Context {R W : Type} `{AsyncRead R, AsyncWrite W}.

(** The read step of [CopyBuffer::poll_copy]. *)
Definition read_step : ST (CopySt CopyBuffer R W) io_error unit :=
  s ← st_get;
  res ← st_try (on_rd (poll_read (length (cbuf (cs_buf s)))));
  match res with
  | Ok bs => if decide (length bs = 0) then on_buf set_read_done else on_buf (refill bs)
  | Pending =>
      (if need_flush (cs_buf s) then on_wr poll_flush;; on_buf clear_need_flush else mret tt);;
      st_lift Pending
  | Err err => throw err
  | Panic msg => panic msg
  | OutOfFuel => st_lift OutOfFuel
  end.

Definition poll_copy (fuel : nat) : ST (CopySt CopyBuffer R W) io_error Z :=
  copy_loop read_step true fuel.
End forked.
End Forked.

(** ** The glommio version *)
Module Glommio.
Section glommio.
Context {R W : Type} `{AsyncRead R, AsyncWrite W}.

Definition read_step : ST (CopySt CopyBuffer R W) io_error unit :=
  s ← st_get;
  bs ← on_rd (poll_read (length (cbuf (cs_buf s))));
  if decide (length bs = 0) then on_buf set_read_done else on_buf (refill bs).

Definition poll_copy (fuel : nat) : ST (CopySt CopyBuffer R W) io_error Z :=
  copy_loop read_step false fuel.
End glommio.
End Glommio.

(** ** Both directions *)

(** [StreamStopReasons] (src/src/utils/adapter.rs). *)
Inductive StreamStopReasons : Type := Upload | Download | Timeout | Shutdown.

#[export] Instance StreamStopReasons_eq_dec : EqDecision StreamStopReasons.
Proof. solve_decision. Defined.

Inductive TransferState (Buf : Type) : Type :=
| Running (buf : Buf)
| ShuttingDown (count : Z)
| Done (count : Z).
Arguments Running {Buf}.
Arguments ShuttingDown {Buf}.
Arguments Done {Buf}.

(** The fields [i], [o], [upload], [download] and [stop_reason]. *)
Record CopyBidirectional (Buf I O : Type) := mkBidi {
  bi_i : I;
  bi_o : O;
  bi_upload : TransferState Buf;
  bi_download : TransferState Buf;
  bi_stop_reason : StreamStopReasons;
}.
Arguments mkBidi {Buf I O}.
Arguments bi_i {Buf I O}.
Arguments bi_o {Buf I O}.
Arguments bi_upload {Buf I O}.
Arguments bi_download {Buf I O}.
Arguments bi_stop_reason {Buf I O}.

(** The three copies of this code (tokio, glommio, UDP) differ in the buffer and
    in the traits of the two ends, so those are arguments: [poll_copy] of the
    buffer and [shutdown] of the writer. *)
Section one_direction.
Context {Buf A B : Type}.
Context (poll_copy : ST (CopySt Buf A B) io_error Z) (shutdown : ST B io_error unit).

Definition Transfer : Type := TransferState Buf * A * B.

(** The loop of [transfer_one_direction]; one call goes through at most three
    states. *)
Fixpoint transfer_loop (fuel : nat) : ST Transfer io_error Z := λ t,
  let '(state, r, w) := t in
  match fuel with
  | 0 => (OutOfFuel, t)
  | S fuel' =>
      match state with
      | Running buf =>
          let '(res, c) := poll_copy (mkCopySt buf r w) in
          match res with
          | Ok count => transfer_loop fuel' (ShuttingDown count, cs_rd c, cs_wr c)
          | Err e => (Err e, (Running (cs_buf c), cs_rd c, cs_wr c))
          | Pending => (Pending, (Running (cs_buf c), cs_rd c, cs_wr c))
          | Panic msg => (Panic msg, (Running (cs_buf c), cs_rd c, cs_wr c))
          | OutOfFuel => (OutOfFuel, (Running (cs_buf c), cs_rd c, cs_wr c))
          end
      | ShuttingDown count =>
          let '(res, w') := shutdown w in
          match res with
          | Ok _ => transfer_loop fuel' (Done count, r, w')
          | Err e => (Err e, (state, r, w'))
          | Pending => (Pending, (state, r, w'))
          | Panic msg => (Panic msg, (state, r, w'))
          | OutOfFuel => (OutOfFuel, (state, r, w'))
          end
      | Done count => (Ok count, t)
      end
  end.

Definition transfer_one_direction : ST Transfer io_error Z := transfer_loop 3.
End one_direction.

Section bidirectional.
Context {Buf I O : Type}.
Context (poll_up : ST (CopySt Buf I O) io_error Z) (poll_down : ST (CopySt Buf O I) io_error Z).
Context (shutdown_o : ST O io_error unit) (shutdown_i : ST I io_error unit).

Definition on_upload : ST (CopyBidirectional Buf I O) io_error Z := λ s,
  let '(res, (st, i, o)) :=
    transfer_one_direction poll_up shutdown_o (bi_upload s, bi_i s, bi_o s) in
  (res, mkBidi i o st (bi_download s) (bi_stop_reason s)).

Definition on_download : ST (CopyBidirectional Buf I O) io_error Z := λ s,
  let '(res, (st, o, i)) :=
    transfer_one_direction poll_down shutdown_i (bi_download s, bi_o s, bi_i s) in
  (res, mkBidi i o (bi_upload s) st (bi_stop_reason s)).

Definition set_stop_reason (r : StreamStopReasons) (s : CopyBidirectional Buf I O)
    : CopyBidirectional Buf I O :=
  mkBidi (bi_i s) (bi_o s) (bi_upload s) (bi_download s) r.

(** [?] on a [Poll<Result<_>>]: an error returns, readiness becomes a value. *)
Definition question {E A} (f : io_error → E) (m : ST (CopyBidirectional Buf I O) io_error A)
    : ST (CopyBidirectional Buf I O) E (option A) :=
  res ← st_try m;
  match res with
  | Ok a => mret (Some a)
  | Pending => mret None
  | Err e => throw (f e)
  | Panic msg => panic msg
  | OutOfFuel => st_lift OutOfFuel
  end.

(** [CopyBidirectional::poll]: [f] shapes the two counts and the stop reason into
    the version's output, [eu] and [ed] the errors of the two directions. *)
Definition bidi_poll {E T} (eu ed : io_error → E) (f : Z → Z → StreamStopReasons → T)
    : ST (CopyBidirectional Buf I O) E T :=
  upload ← question eu on_upload;
  download ← question ed on_download;
  match upload, download with
  | None, None => st_lift Pending
  | Some _, None => st_modify (set_stop_reason Upload);; st_lift Pending
  | None, Some _ => st_modify (set_stop_reason Download);; st_lift Pending
  | Some up, Some down => s ← st_get; mret (f up down (bi_stop_reason s))
  end.
End bidirectional.

Definition bidi_new {Buf I O} (up down : Buf) (i : I) (o : O) : CopyBidirectional Buf I O :=
  mkBidi i o (Running up) (Running down) Download.

(** The two stream futures: [copy_bidirectional_forked] reports which direction
    failed, [glommio_copy_bidirectional] the plain error and the byte counts. *)
Definition forked_poll {I O : Type} `{AsyncRead I, AsyncWrite I, AsyncRead O, AsyncWrite O}
    (fuel : nat)
    : ST (CopyBidirectional CopyBuffer I O) (StreamStopReasons * io_error) StreamStopReasons :=
  bidi_poll (Forked.poll_copy fuel) (Forked.poll_copy fuel) poll_shutdown poll_shutdown
    (pair Upload) (pair Download) (λ _ _ reason, reason).

Definition glommio_poll {I O : Type} `{AsyncRead I, AsyncWrite I, AsyncRead O, AsyncWrite O}
    (fuel : nat)
    : ST (CopyBidirectional CopyBuffer I O) io_error (Z * Z * StreamStopReasons) :=
  bidi_poll (Glommio.poll_copy fuel) (Glommio.poll_copy fuel) poll_shutdown poll_shutdown
    id id (λ up down reason, (up, down, reason)).

(** ** What one direction keeps *)

(** The bytes read and not yet accepted by the writer. *)
Definition unsent (b : CopyBuffer) : list Z := take (cap b - pos b) (drop (pos b) (cbuf b)).

Definition cb_wf (b : CopyBuffer) : Prop := pos b ≤ cap b ∧ cap b ≤ length (cbuf b).

Section one_copy.
Context {R W : Type} `{AsyncReadOk R, AsyncWriteOk W}.
Implicit Types (s : CopySt CopyBuffer R W) (b : CopyBuffer).

(** From [s] to [s'] the reader delivered [ins], the writer accepted [outs], and
    what was unsent and came in is what went out and is unsent; [amt] counts
    [outs]; the end of the input is noted only when the reader reported it. *)
Definition moved s s' (ins outs : list Z) : Prop :=
  read_trace (cs_rd s) ins (cs_rd s') ∧ write_trace (cs_wr s) outs (cs_wr s') ∧
  unsent (cs_buf s) ++ ins = outs ++ unsent (cs_buf s') ∧
  u64_wrap (amt (cs_buf s')) = u64_wrap (amt (cs_buf s) + Z.of_nat (length outs)) ∧
  length (cbuf (cs_buf s')) = length (cbuf (cs_buf s)) ∧
  (read_done (cs_buf s) = true → read_done (cs_buf s') = true ∧ cs_rd s' = cs_rd s) ∧
  (read_done (cs_buf s') = true → read_done (cs_buf s) = true ∨
     ∃ r, poll_read (length (cbuf (cs_buf s'))) r = (Ok [], cs_rd s')).

Definition relayed s s' : Prop :=
  cb_wf (cs_buf s) → cb_wf (cs_buf s') ∧ ∃ ins outs, moved s s' ins outs.

Lemma u64_wrap_add (x y z d : Z) :
  u64_wrap x = u64_wrap y → u64_wrap z = u64_wrap (x + d) → u64_wrap z = u64_wrap (y + d).
Proof.
  unfold u64_wrap. intros Hab ->. rewrite <- (Zplus_mod_idemp_l y), <- Hab.
  by rewrite Zplus_mod_idemp_l.
Qed.

#[export] Instance relayed_preorder : PreOrder relayed.
Proof.
  split.
  - intros s Hwf. split; [done|]. exists [], []. unfold moved. rewrite app_nil_r, Z.add_0_r.
    cbn. split_and!; auto with oxide.
  - intros s1 s2 s3 H12 H23 Hwf. apply H12 in Hwf as [Hwf (i1 & o1 & ?&?&E1&A1&L1&D1&F1)].
    apply H23 in Hwf as [Hwf (i2 & o2 & ?&?&E2&A2&L2&D2&F2)].
    split; [done|]. exists (i1 ++ i2), (o1 ++ o2). unfold moved. split_and!.
    + by eapply read_trace_trans.
    + by eapply write_trace_trans.
    + rewrite app_assoc, E1, <- !app_assoc. by f_equal.
    + rewrite length_app, Nat2Z.inj_add, Z.add_assoc. by eapply u64_wrap_add.
    + lia.
    + intros Hd. destruct (D1 Hd) as [Hd' <-]. by apply D2.
    + intros Hd. destruct (F2 Hd) as [Hd'|?]; [|by right].
      destruct (D2 Hd') as [_ ->]. rewrite L2.
      by apply F1.
Qed.

Lemma relayed_idle s r' w' :
  read_trace (cs_rd s) [] r' → write_trace (cs_wr s) [] w' →
  (read_done (cs_buf s) = true → r' = cs_rd s) →
  relayed s (mkCopySt (cs_buf s) r' w').
Proof.
  intros Hr Hw Hd Hwf. split; [done|]. exists [], []. unfold moved. cbn.
  rewrite app_nil_r, Z.add_0_r. split_and!; auto.
Qed.

Lemma relayed_clear_flush s w' :
  write_trace (cs_wr s) [] w' → relayed s (mkCopySt (clear_need_flush (cs_buf s)) (cs_rd s) w').
Proof. intros Hw Hwf. exact (relayed_idle s (cs_rd s) w' (rt_refl _) Hw (λ _, eq_refl) Hwf). Qed.

Lemma relayed_eof s r' :
  poll_read (length (cbuf (cs_buf s))) (cs_rd s) = (Ok [], r') → read_done (cs_buf s) = false →
  relayed s (mkCopySt (set_read_done (cs_buf s)) r' (cs_wr s)).
Proof.
  intros Hr Hd Hwf. split; [done|]. exists [], []. unfold moved. cbn.
  rewrite app_nil_r, Z.add_0_r. split_and!; auto with oxide; [|congruence|by eauto].
  pose proof (read_trace_1 (length (cbuf (cs_buf s))) (cs_rd s)) as Ht. by rewrite Hr in Ht.
Qed.

Lemma unsent_empty b : pos b = cap b → unsent b = [].
Proof. unfold unsent. intros ->. by rewrite Nat.sub_diag. Qed.

Lemma relayed_refill s bs r' :
  poll_read (length (cbuf (cs_buf s))) (cs_rd s) = (Ok bs, r') →
  pos (cs_buf s) = cap (cs_buf s) → read_done (cs_buf s) = false →
  relayed s (mkCopySt (refill bs (cs_buf s)) r' (cs_wr s)).
Proof.
  intros Hr Hpc Hd Hwf. pose proof (poll_read_fits _ _ _ _ Hr) as Hfit.
  assert (length (bs ++ drop (length bs) (cbuf (cs_buf s))) = length (cbuf (cs_buf s))) as Hlen
    by (rewrite length_app, length_drop; lia).
  split; [unfold cb_wf, refill; cbn [pos cap cbuf cs_buf]; rewrite Hlen; lia|].
  exists bs, []. unfold moved. cbn [cs_buf cs_rd cs_wr refill amt cbuf read_done].
  rewrite (unsent_empty _ Hpc), Hlen, Z.add_0_r. split_and!; auto with oxide; try congruence.
  - pose proof (read_trace_1 (length (cbuf (cs_buf s))) (cs_rd s)) as Ht. by rewrite Hr in Ht.
  - unfold unsent. cbn. by rewrite Nat.sub_0_r, drop_0, take_app_length.
Qed.

Lemma relayed_written flush s i w' :
  poll_write (unsent (cs_buf s)) (cs_wr s) = (Ok i, w') →
  relayed s (mkCopySt (written flush i (cs_buf s)) (cs_rd s) w').
Proof.
  intros Hw [Hpc Hcl]. pose proof (poll_write_fits _ _ _ _ Hw) as Hfit.
  assert (i ≤ cap (cs_buf s) - pos (cs_buf s)) as Hi.
  { unfold unsent in Hfit. rewrite length_take, length_drop in Hfit. lia. }
  split; [unfold cb_wf; cbn; lia|]. exists [], (take i (unsent (cs_buf s))).
  unfold moved. cbn [cs_buf cs_rd cs_wr written amt cbuf read_done].
  split_and!; auto with oxide.
  - pose proof (write_trace_1 (unsent (cs_buf s)) (cs_wr s)) as Ht. by rewrite Hw in Ht.
  - rewrite app_nil_r. unfold unsent at 3. cbn [pos cap cbuf].
    rewrite <- (take_drop i (unsent (cs_buf s))) at 1. f_equal. unfold unsent.
    rewrite skipn_firstn_comm, drop_drop. cbn [written pos cap cbuf]. f_equal. lia.
  - unfold u64_wrap. rewrite Z.mod_mod by lia. do 2 f_equal.
    rewrite length_take. unfold unsent in Hfit |- *. lia.
Qed.

(** How a poll ends: what each exit says of the state it leaves. *)
Definition write_exit {A} (r : outcome io_error A) (w' : W) : Prop :=
  match r with
  | Ok _ => True
  | Pending => ∃ p w, poll_write p w = (Pending, w')
  | Err e => e = WriteZero ∨ ∃ p w, poll_write p w = (Err e, w')
  | Panic msg => ∃ p w, poll_write p w = (Panic msg, w')
  | OutOfFuel => False
  end.

Definition flush_exit (r : outcome io_error Z) (w' : W) : Prop :=
  ∃ w, match r with
       | Ok _ => poll_flush w = (Ok tt, w')
       | Pending => poll_flush w = (Pending, w')
       | Err e => poll_flush w = (Err e, w')
       | Panic msg => poll_flush w = (Panic msg, w')
       | OutOfFuel => False
       end.

(** The reader's answer was passed on; [idle] is what held then. *)
Definition read_exit (idle : Prop) (r : outcome io_error Z) (r' : R) : Prop :=
  ∃ room rd, match r with
             | Ok _ | OutOfFuel => False
             | Pending => poll_read room rd = (Pending, r') ∧ idle
             | Err e => poll_read room rd = (Err e, r')
             | Panic msg => poll_read room rd = (Panic msg, r')
             end.

Definition copy_exit (flushes : bool) (r : outcome io_error Z) (s' : CopySt CopyBuffer R W) : Prop :=
  match r with
  | Ok n =>
      unsent (cs_buf s') = [] ∧ read_done (cs_buf s') = true ∧ n = amt (cs_buf s') ∧
      flush_exit r (cs_wr s')
  | OutOfFuel => True
  | _ =>
      write_exit r (cs_wr s') ∨ flush_exit r (cs_wr s') ∨
      read_exit (unsent (cs_buf s') = [] ∧ (flushes = true → need_flush (cs_buf s') = false))
        r (cs_rd s')
  end.

Lemma slice_unsent b : cb_wf b → slice (E:=io_error) (cbuf b) (pos b) (cap b) = Ok (unsent b).
Proof. intros [??]. by apply slice_Ok. Qed.

(** The write loop keeps the bytes, ends within its fuel, and when it succeeds
    the buffer is drained. *)
Lemma write_out_spec flush fuel s :
  cb_wf (cs_buf s) → cap (cs_buf s) - pos (cs_buf s) ≤ fuel →
  post (write_out flush fuel) s (λ r s',
    relayed s s' ∧ cs_rd s' = cs_rd s ∧ read_done (cs_buf s') = read_done (cs_buf s) ∧
    write_exit r (cs_wr s') ∧ (r = Ok tt → pos (cs_buf s') = cap (cs_buf s'))).
Proof.
  revert s. induction fuel as [|fuel IH]; intros s Hwf Hfuel; unfold post; cbn; st_simpl;
    (case_decide as Hlt; [|split_and!; [reflexivity|done..|intros _; destruct Hwf; cbn; lia]]); [lia|].
  rewrite slice_unsent by done. st_simpl.
  unfold on_wr. rewrite st_zoom_bind.
  pose proof (poll_write_returns (unsent (cs_buf s)) (cs_wr s)) as Hret.
  pose proof (write_trace_1 (unsent (cs_buf s)) (cs_wr s)) as Hwt.
  destruct (poll_write (unsent (cs_buf s)) (cs_wr s)) as [res w'] eqn:Ew.
  pose proof (λ Ht, relayed_idle s (cs_rd s) w' (rt_refl _) Ht (λ _, eq_refl)) as Hidle.
  destruct res as [i|e| |msg|]; cbn in Hret, Hwt |- *; [|by split_and!; eauto..|by exfalso; apply Hret].
  pose proof (relayed_written flush s i w' Ew) as Hw. pose proof (poll_write_fits _ _ _ _ Ew) as Hfit.
  case_decide as Hi; [subst i; cbn; split_and!; eauto; done|].
  unfold on_buf. st_simpl.
  destruct (Hw Hwf) as [Hwf' _]. apply (IH _) in Hwf' as (Hr & Hrd & Hd & He & Hok); [|cbn; lia].
  split_and!; [by etrans|done..].
Qed.

Definition read_contract (flushes : bool) (read_step : ST (CopySt CopyBuffer R W) io_error unit)
    : Prop :=
  ∀ s, cb_wf (cs_buf s) → pos (cs_buf s) = cap (cs_buf s) → read_done (cs_buf s) = false →
  post read_step s (λ r s',
    relayed s s' ∧
    match r with
    | Ok _ =>
        (read_done (cs_buf s') = true ∧ pos (cs_buf s') = cap (cs_buf s')) ∨
        (∃ bs, bs ≠ [] ∧ poll_read (length (cbuf (cs_buf s))) (cs_rd s) = (Ok bs, cs_rd s'))
    | OutOfFuel => False
    | Err e => copy_exit flushes (Err e) s'
    | Pending => copy_exit flushes Pending s'
    | Panic msg => copy_exit flushes (Panic msg) s'
    end).

Lemma forked_read_contract : read_contract true Forked.read_step.
Proof.
  intros s Hwf Hpc Hd. unfold post, Forked.read_step, on_rd. st_simpl. rewrite st_zoom_run.
  pose proof (poll_read_returns (length (cbuf (cs_buf s))) (cs_rd s)) as Hret.
  pose proof (read_trace_1 (length (cbuf (cs_buf s))) (cs_rd s)) as Hrt.
  pose proof (unsent_empty _ Hpc) as Hu.
  destruct (poll_read (length (cbuf (cs_buf s))) (cs_rd s)) as [res r'] eqn:Er.
  cbn [fst snd bytes_read] in *.
  assert (∀ w', read_trace (cs_rd s) [] r' → write_trace (cs_wr s) [] w' →
    relayed s (mkCopySt (cs_buf s) r' w')) as Hidle
    by (intros; apply relayed_idle; [done..|congruence]).
  destruct res as [bs|e| |msg|]; cbn -[poll_read] in *; [| | | |by exfalso; apply Hret].
  - case_decide as Hl; cbn -[poll_read].
    + apply nil_length_inv in Hl as ->. split; [by apply relayed_eof|]. left; split; [done|].
      by unfold set_read_done.
    + split; [by apply relayed_refill|]. right. exists bs. split; [by intros ->|done].
  - split; [auto with oxide|]. right; right. unfold read_exit. eauto.
  - cbn. unfold on_wr, on_buf. destruct (need_flush (cs_buf s)) eqn:Hnf.
    + rewrite (st_bind_assoc (st_zoom _ _ _)), st_zoom_bind. cbn [cs_wr].
      pose proof (poll_flush_returns (cs_wr s)) as Hf.
      pose proof (write_trace_flush (cs_wr s)) as Hwt.
      destruct (poll_flush (cs_wr s)) as [[[]|e| |msg|] w'] eqn:Ef; cbn in Hf, Hwt |- *;
        [|split; [by auto|]..|by exfalso; apply Hf].
      * split; [exact (Hidle w' Hrt Hwt)|].
        right; right. unfold read_exit. eauto 6.
      * right; left. unfold flush_exit. eauto.
      * right; left. unfold flush_exit. eauto.
      * right; left. unfold flush_exit. eauto.
    + st_simpl. cbn -[poll_read]. split; [auto with oxide|]. right; right. unfold read_exit. eauto 6.
  - split; [auto with oxide|]. right; right. unfold read_exit. eauto.
Qed.

Lemma glommio_read_contract : read_contract false Glommio.read_step.
Proof.
  intros s Hwf Hpc Hd. unfold post, Glommio.read_step, on_rd. st_simpl. rewrite st_zoom_bind.
  pose proof (poll_read_returns (length (cbuf (cs_buf s))) (cs_rd s)) as Hret.
  pose proof (read_trace_1 (length (cbuf (cs_buf s))) (cs_rd s)) as Hrt.
  pose proof (unsent_empty _ Hpc) as Hu.
  destruct (poll_read (length (cbuf (cs_buf s))) (cs_rd s)) as [res r'] eqn:Er.
  cbn [fst snd bytes_read] in *.
  assert (∀ w', read_trace (cs_rd s) [] r' → write_trace (cs_wr s) [] w' →
    relayed s (mkCopySt (cs_buf s) r' w')) as Hidle
    by (intros; apply relayed_idle; [done..|congruence]).
  destruct res as [bs|e| |msg|]; cbn -[poll_read] in *; [| | | |by exfalso; apply Hret].
  1: case_decide as Hl; cbn -[poll_read].
  - apply nil_length_inv in Hl as ->. split; [by apply relayed_eof|]. by left.
  - split; [by apply relayed_refill|]. right. exists bs. split; [by intros ->|done].
  - split; [auto with oxide|]. right; right. unfold read_exit. eauto.
  - split; [auto with oxide|]. right; right. by exists (length (cbuf (cs_buf s))), (cs_rd s).
  - split; [auto with oxide|]. right; right. unfold read_exit. eauto.
Qed.

Section copy_loop.
Context (flush : bool) (read_step : ST (CopySt CopyBuffer R W) io_error unit).
Context (Hread : read_contract flush read_step).

(** One pass of the loop, up to the decision to finish or to go round. *)
Definition pass : ST (CopySt CopyBuffer R W) io_error unit :=
  s ← st_get;
  (if decide (pos (cs_buf s) = cap (cs_buf s) ∧ read_done (cs_buf s) = false)
   then read_step else mret tt);;
  write_all_out flush.

Lemma pass_spec s :
  cb_wf (cs_buf s) →
  post pass s (λ r s',
    relayed s s' ∧
    match r with
    | Ok _ =>
        pos (cs_buf s') = cap (cs_buf s') ∧
        (read_done (cs_buf s') = true ∨ pos (cs_buf s) < cap (cs_buf s) ∧ cs_rd s' = cs_rd s ∨
         ∃ room bs, bs ≠ [] ∧ poll_read room (cs_rd s) = (Ok bs, cs_rd s'))
    | OutOfFuel => False
    | Err e => copy_exit flush (Err e) s'
    | Pending => copy_exit flush Pending s'
    | Panic msg => copy_exit flush (Panic msg) s'
    end).
Proof.
  intros Hwf. unfold pass. apply post_bind, post_get, post_bind.
  assert (∀ s1, cb_wf (cs_buf s1) → post (write_all_out flush) s1 (λ r s',
    relayed s1 s' ∧ cs_rd s' = cs_rd s1 ∧ read_done (cs_buf s') = read_done (cs_buf s1) ∧
    write_exit r (cs_wr s') ∧ (r = Ok tt → pos (cs_buf s') = cap (cs_buf s')))) as Hw.
  { intros s1 Hwf1. unfold write_all_out. apply post_bind, post_get. cbv iota. by apply write_out_spec. }
  case_decide as Hc.
  - destruct Hc as [Hpc Hd]. eapply post_mono; [by apply Hread|]. intros r s1 [Hrel Hr].
    destruct r as [[]|e| |msg|]; [|by split..]. destruct (Hrel Hwf) as [Hwf1 _].
    eapply post_mono; [by apply Hw|]. intros r s2 (Hrel2 & Hrd2 & Hd2 & He & Hok).
    split; [by etrans|]. destruct r as [[]|e| |msg|]; cbn in He; [|by cbn; auto..].
    split; [by apply Hok|]. rewrite Hd2, Hrd2. destruct Hr as [[? _]|(bs & ? & ?)]; [by left|right; right; eauto].
  - apply post_ret. eapply post_mono; [by apply Hw|]. intros r s2 (Hrel2 & Hrd & Hd & He & Hok).
    split; [done|]. destruct r as [[]|e| |msg|]; cbn in He; [|by cbn; auto..].
    split; [by apply Hok|]. rewrite Hd. destruct Hwf.
    destruct (read_done (cs_buf s)); [by left|right; left]. split; [|done].
    apply not_and_l in Hc as [?|?]; [lia|done].
Qed.

Lemma copy_loop_unfold fuel s :
  copy_loop read_step flush (S fuel) s =
    (pass;;
     s ← st_get;
     if decide (pos (cs_buf s) = cap (cs_buf s) ∧ read_done (cs_buf s) = true)
     then on_wr poll_flush;; mret (amt (cs_buf s))
     else copy_loop read_step flush fuel) s.
Proof. unfold pass. cbn [copy_loop]. rewrite !st_bind_assoc, !st_get_bind, st_bind_assoc. done. Qed.

(** Finishing: a flush, then the count. *)
Lemma finish_spec s :
  cb_wf (cs_buf s) → pos (cs_buf s) = cap (cs_buf s) → read_done (cs_buf s) = true →
  post (on_wr poll_flush;; mret (amt (cs_buf s))) s (λ r s',
    relayed s s' ∧ copy_exit flush r s' ∧ r ≠ OutOfFuel).
Proof.
  intros Hwf Hpc Hd. unfold post, on_wr. rewrite st_zoom_bind.
  pose proof (poll_flush_returns (cs_wr s)) as Hf.
  pose proof (write_trace_flush (cs_wr s)) as Hwt.
  pose proof (λ w' Hw, relayed_idle s (cs_rd s) w' (rt_refl _) Hw (λ _, eq_refl)) as Hidle.
  destruct (poll_flush (cs_wr s)) as [[[]|e| |msg|] w'] eqn:Ef; cbn in Hf, Hwt |- *;
    split_and!; try done; try (by apply Hidle); try (by right; left; exists (cs_wr s)).
  - by apply unsent_empty.
  - by exists (cs_wr s).
Qed.

Lemma copy_loop_spec fuel s :
  cb_wf (cs_buf s) →
  post (copy_loop read_step flush fuel) s (λ r s', relayed s s' ∧ copy_exit flush r s').
Proof.
  revert s. induction fuel as [|fuel IH]; intros s Hwf; [by split|].
  eapply post_eq; [apply copy_loop_unfold|].
  apply post_bind. eapply post_mono; [by apply pass_spec|]. intros r s1 [Hrel Hr].
  destruct r as [[]|e| |msg|]; [|by split..]. destruct (Hrel Hwf) as [Hwf1 _].
  apply post_bind, post_get. cbv iota. case_decide as Hc.
  - eapply post_mono; [by destruct Hc; apply finish_spec|]. intros r s2 (? & ? & _). split; [by etrans|done].
  - eapply post_mono; [by apply IH|]. intros r s2 (? & ?). split; [by etrans|done].
Qed.

(** When each non-empty read decreases [μ] (the bytes or chunks left to arrive
    before the reader blocks or ends), a poll ends. *)
Lemma copy_loop_terminates (μ : R → nat) fuel s :
  (∀ room r bs r', poll_read room r = (Ok bs, r') → bs ≠ [] → μ r' < μ r) →
  cb_wf (cs_buf s) →
  μ (cs_rd s) + (if decide (pos (cs_buf s) < cap (cs_buf s)) then 2 else 1) ≤ fuel →
  (copy_loop read_step flush fuel s).1 ≠ OutOfFuel.
Proof.
  intros Hμ. revert s. induction fuel as [|fuel IH]; intros s Hwf Hfuel; [case_decide; lia|].
  change (post (copy_loop read_step flush (S fuel)) s (λ r s', r ≠ OutOfFuel)).
  eapply post_eq; [apply copy_loop_unfold|].
  apply post_bind. eapply post_mono; [by apply pass_spec|]. intros r s1 [Hrel Hr].
  destruct r as [[]|e| |msg|]; [|done..]. destruct (Hrel Hwf) as [Hwf1 _].
  apply post_bind, post_get. cbv iota.
  destruct (decide (pos (cs_buf s1) = cap (cs_buf s1) ∧ read_done (cs_buf s1) = true)) as [Hc|Hc].
  - eapply post_mono; [by destruct Hc; apply finish_spec|]. by intros r s2 (? & ? & ?).
  - apply IH; [done|]. destruct Hr as (Hpc & [Hd|[[Hlt Hrd]|(room & bs & Hbs & Hrd)]]).
    + by destruct Hc.
    + rewrite Hrd. repeat case_decide; lia.
    + apply Hμ in Hrd; [|done]. repeat case_decide; lia.
Qed.
End copy_loop.
End one_copy.

(** ** What a bidirectional relay keeps

    Stated for any buffer and any two ends: [X] is the unit the relay moves
    (bytes for streams, addressed bytes for datagrams), [ti] and [to] are the
    histories of the two ends, [held] what a buffer holds. *)
Section relay.
Context {X Buf I O : Type}.
Context (ti : I → list X → list X → I → Prop) (to : O → list X → list X → O → Prop).
Context (ti_refl : ∀ i, ti i [] [] i) (to_refl : ∀ o, to o [] [] o).
Context (ti_trans : ∀ i1 a1 b1 i2 a2 b2 i3,
  ti i1 a1 b1 i2 → ti i2 a2 b2 i3 → ti i1 (a1 ++ a2) (b1 ++ b2) i3).
Context (to_trans : ∀ o1 a1 b1 o2 a2 b2 o3,
  to o1 a1 b1 o2 → to o2 a2 b2 o3 → to o1 (a1 ++ a2) (b1 ++ b2) o3).
Context (held : Buf → list X) (bwf : Buf → Prop) (lossless : bool).
Context (poll_up : ST (CopySt Buf I O) io_error Z) (poll_down : ST (CopySt Buf O I) io_error Z).
Context (shutdown_o : ST O io_error unit) (shutdown_i : ST I io_error unit).

(** The exits the balance covers: all of them for a lossless reader, else those
    that are not errors (a reader may fail with part of a packet in the buffer). *)
Definition tracked {E A} (r : outcome E A) : Prop :=
  match r with Ok _ | Pending => True | _ => lossless = true end.

(** What the poll of one direction promises. *)
Definition copies {A B} (ta : A → list X → list X → A → Prop) (tb : B → list X → list X → B → Prop)
    (poll : ST (CopySt Buf A B) io_error Z) : Prop :=
  ∀ s, bwf (cs_buf s) → post poll s (λ r s',
    tracked r → bwf (cs_buf s') ∧ (∀ n, r = Ok n → held (cs_buf s') = []) ∧
    ∃ ins outs, ta (cs_rd s) ins [] (cs_rd s') ∧ tb (cs_wr s) [] outs (cs_wr s') ∧
      held (cs_buf s) ++ ins = outs ++ held (cs_buf s')).

Context (Hup : copies ti to poll_up) (Hdown : copies to ti poll_down).
Context (Hso : ∀ o, to o [] [] (shutdown_o o).2) (Hsi : ∀ i, ti i [] [] (shutdown_i i).2).

(** Bytes read from one end and not yet accepted by the other. *)
Definition in_flight (st : TransferState Buf) : list X :=
  match st with Running b => held b | _ => [] end.

Definition state_wf (st : TransferState Buf) : Prop :=
  match st with Running b => bwf b | _ => True end.

Definition is_done (st : TransferState Buf) : bool :=
  match st with Done _ => true | _ => false end.

Section direction.
Context {A B : Type} (ta : A → list X → list X → A → Prop) (tb : B → list X → list X → B → Prop).
Context (ta_refl : ∀ a, ta a [] [] a) (tb_refl : ∀ b, tb b [] [] b).
Context (ta_trans : ∀ a1 x1 y1 a2 x2 y2 a3,
  ta a1 x1 y1 a2 → ta a2 x2 y2 a3 → ta a1 (x1 ++ x2) (y1 ++ y2) a3).
Context (tb_trans : ∀ a1 x1 y1 a2 x2 y2 a3,
  tb a1 x1 y1 a2 → tb a2 x2 y2 a3 → tb a1 (x1 ++ x2) (y1 ++ y2) a3).
Context (poll : ST (CopySt Buf A B) io_error Z) (shutdown : ST B io_error unit).
Context (Hpoll : copies ta tb poll) (Hshut : ∀ b, tb b [] [] (shutdown b).2).
Implicit Types t : TransferState Buf * A * B.

Definition carried t t' : Prop :=
  state_wf t.1.1 → state_wf t'.1.1 ∧
  (is_done t.1.1 = true → is_done t'.1.1 = true) ∧
  ∃ ins outs, ta t.1.2 ins [] t'.1.2 ∧ tb t.2 [] outs t'.2 ∧
    in_flight t.1.1 ++ ins = outs ++ in_flight t'.1.1.

#[local] Instance carried_preorder : PreOrder carried.
Proof.
  split.
  - intros [[st a] b] Hwf. split_and!; [done..|]. exists [], []. cbn. rewrite app_nil_r. auto.
  - intros t1 t2 t3 H12 H23 Hwf. apply H12 in Hwf as (Hwf & D1 & i1 & o1 & Ha1 & Hb1 & E1).
    apply H23 in Hwf as (Hwf & D2 & i2 & o2 & Ha2 & Hb2 & E2). split_and!; [done|auto|].
    exists (i1 ++ i2), (o1 ++ o2). split_and!; [by eapply (ta_trans _ _ [])
      |by eapply (tb_trans _ [])|]. rewrite app_assoc, E1, <- !app_assoc. by f_equal.
Qed.

(** One direction: the outcome is [Ok] exactly when the transfer is done. *)
Lemma transfer_loop_spec fuel t :
  state_wf t.1.1 →
  post (transfer_loop poll shutdown fuel) t (λ r t',
    (tracked r → carried t t') ∧ (∀ n, r = Ok n ↔ r ≠ OutOfFuel ∧ t'.1.1 = Done n)).
Proof.
  revert t. induction fuel as [|fuel IH]; intros [[st a] b] Hwf; unfold post; cbn [transfer_loop].
  { split; [reflexivity|]. naive_solver. }
  destruct st as [buf|count|count]; cbn in Hwf.
  - pose proof (Hpoll (mkCopySt buf a b) Hwf) as Hp. unfold post in Hp.
    destruct (poll (mkCopySt buf a b)) as [res c]. cbn in Hp.
    destruct res as [n|e| |msg|]; cycle 1;
      [(split; [|split; naive_solver]; intros (Hwf' & _ & ins & outs & Ha & Hb & E)%Hp; intros _;
        split_and!; [done..|by exists ins, outs])..|].
    destruct (Hp Logic.I) as (Hwf' & Hok & ins & outs & Ha & Hb & E).
    destruct (IH (ShuttingDown n, cs_rd c, cs_wr c) ltac:(done)) as [Hc Hr].
    split; [|exact Hr]. intros Ht. etrans; [|exact (Hc Ht)]. intros _. split_and!; [done..|].
    exists ins, outs. split_and!; [done..|]. cbn. by rewrite <- (Hok n eq_refl).
  - pose proof (Hshut b) as Hb. destruct (shutdown b) as [res b']. cbn in Hb.
    destruct res as [[]|e| |msg|]; cycle 1;
      [(split; [intros _ _; split_and!; [done..|by exists [], []]|split; naive_solver])..|].
    destruct (IH (Done count, a, b') ltac:(done)) as [Hc Hr]. split; [|exact Hr].
    intros Ht. etrans; [|exact (Hc Ht)]. intros _. split_and!; [done..|]. by exists [], [].
  - split; [reflexivity|]. cbn. naive_solver.
Qed.

(** The loop goes through at most three states. *)
Lemma transfer_three_steps t :
  (∀ c, (poll c).1 ≠ OutOfFuel) → (∀ b, (shutdown b).1 ≠ OutOfFuel) →
  (transfer_one_direction poll shutdown t).1 ≠ OutOfFuel.
Proof.
  intros Hp Hs. unfold transfer_one_direction. destruct t as [[[buf|n|n] a] b]; cbn [transfer_loop].
  - specialize (Hp (mkCopySt buf a b)). destruct (poll _) as [[n|e| |msg|] c]; try done.
    specialize (Hs (cs_wr c)). by destruct (shutdown _) as [[] ?].
  - specialize (Hs b). by destruct (shutdown _) as [[] ?].
  - done.
Qed.
End direction.

Implicit Types s : CopyBidirectional Buf I O.

Definition bidi_wf s : Prop := state_wf (bi_upload s) ∧ state_wf (bi_download s).

(** From [s] to [s'] the relay read [iin] from the inbound and [oin] from the
    outbound end, and wrote [iout] and [oout] to them. *)
Definition bidi_moved s s' (iin iout oin oout : list X) : Prop :=
  ti (bi_i s) iin iout (bi_i s') ∧ to (bi_o s) oin oout (bi_o s') ∧
  in_flight (bi_upload s) ++ iin = oout ++ in_flight (bi_upload s') ∧
  in_flight (bi_download s) ++ oin = iout ++ in_flight (bi_download s').

Definition bidi_carried s s' : Prop :=
  bidi_wf s → bidi_wf s' ∧
  (is_done (bi_upload s) = true → is_done (bi_upload s') = true) ∧
  (is_done (bi_download s) = true → is_done (bi_download s') = true) ∧
  ∃ iin iout oin oout, bidi_moved s s' iin iout oin oout.

#[local] Instance bidi_carried_preorder : PreOrder bidi_carried.
Proof.
  split.
  - intros s Hwf. split_and!; [done..|]. exists [], [], [], []. unfold bidi_moved.
    rewrite !app_nil_r. auto.
  - intros s1 s2 s3 H12 H23 Hwf.
    apply H12 in Hwf as (Hwf & U1 & D1 & i1 & j1 & o1 & p1 & Hi1 & Ho1 & E1 & F1).
    apply H23 in Hwf as (Hwf & U2 & D2 & i2 & j2 & o2 & p2 & Hi2 & Ho2 & E2 & F2).
    split_and!; [apply Hwf..|auto|auto|].
    exists (i1 ++ i2), (j1 ++ j2), (o1 ++ o2), (p1 ++ p2). unfold bidi_moved. split_and!; eauto.
    + rewrite app_assoc, E1, <- !app_assoc. by f_equal.
    + rewrite app_assoc, F1, <- !app_assoc. by f_equal.
Qed.

Lemma on_upload_spec s :
  bidi_wf s →
  post (on_upload poll_up shutdown_o) s (λ r s',
    (tracked r → bidi_carried s s') ∧ bi_download s' = bi_download s ∧ bi_stop_reason s' = bi_stop_reason s ∧
    (∀ n, r = Ok n ↔ r ≠ OutOfFuel ∧ bi_upload s' = Done n)).
Proof.
  intros [Hu Hd]. unfold post, on_upload, transfer_one_direction.
  pose proof (transfer_loop_spec ti to ti_refl to_refl ti_trans to_trans poll_up shutdown_o Hup Hso
    3 (bi_upload s, bi_i s, bi_o s) Hu) as [Hc Hr].
  destruct (transfer_loop _ _ _ _) as [res [[st i] o]]. cbn in *. split_and!; [|done..].
  intros Ht _. destruct (Hc Ht Hu) as (Hwf & Hdone & ins & outs & Ha & Hb & E). cbn in *.
  split_and!; [done..|]. exists ins, [], [], outs. unfold bidi_moved. cbn. by rewrite app_nil_r.
Qed.

Lemma on_download_spec s :
  bidi_wf s →
  post (on_download poll_down shutdown_i) s (λ r s',
    (tracked r → bidi_carried s s') ∧ bi_upload s' = bi_upload s ∧ bi_stop_reason s' = bi_stop_reason s ∧
    (∀ n, r = Ok n ↔ r ≠ OutOfFuel ∧ bi_download s' = Done n)).
Proof.
  intros [Hu Hd]. unfold post, on_download, transfer_one_direction.
  pose proof (transfer_loop_spec to ti to_refl ti_refl to_trans ti_trans poll_down shutdown_i Hdown Hsi
    3 (bi_download s, bi_o s, bi_i s) Hd) as [Hc Hr].
  destruct (transfer_loop _ _ _ _) as [res [[st o] i]]. cbn in *. split_and!; [|done..].
  intros Ht _. destruct (Hc Ht Hd) as (Hwf & Hdone & ins & outs & Ha & Hb & E). cbn in *.
  split_and!; [done..|]. exists [], outs, ins, []. unfold bidi_moved. cbn. by rewrite app_nil_r.
Qed.

(** The recorded stop reason while the relay runs: the direction that is done. *)
Definition reason_ok s : Prop :=
  match is_done (bi_upload s), is_done (bi_download s) with
  | true, true => False
  | true, false => bi_stop_reason s = Upload
  | false, _ => bi_stop_reason s = Download
  end.

Lemma is_done_iff (st : TransferState Buf) : is_done st = true ↔ ∃ n, st = Done n.
Proof. destruct st; cbn; naive_solver. Qed.

Lemma done_result (r : outcome io_error Z) (st : TransferState Buf) :
  (∀ n, r = Ok n ↔ r ≠ OutOfFuel ∧ st = Done n) → r ≠ OutOfFuel →
  is_done st = match r with Ok _ => true | _ => false end.
Proof.
  intros Hr Hfuel. destruct (is_done st) eqn:Hd.
  - apply is_done_iff in Hd as [n Hn]. destruct (Hr n) as [_ ->]; [done|done].
  - destruct r as [n| | | |]; try done. destruct (Hr n) as [[_ ->] _]; done.
Qed.

(** What a poll of the relay leaves, on every exit. *)
Definition bidi_exit {E T} (f : Z → Z → StreamStopReasons → T) s (r : outcome E T) s' : Prop :=
  match r with
  | Ok t => ∃ u d, bi_upload s' = Done u ∧ bi_download s' = Done d ∧ t = f u d (bi_stop_reason s)
  | Pending => reason_ok s → reason_ok s'
  | _ => True
  end.

Lemma bidi_poll_spec {E T} (eu ed : io_error → E) (f : Z → Z → StreamStopReasons → T) s :
  bidi_wf s →
  post (bidi_poll poll_up poll_down shutdown_o shutdown_i eu ed f) s (λ r s',
    (tracked r → bidi_carried s s') ∧ bidi_exit f s r s').
Proof.
  intros Hwf. unfold bidi_poll, question, st_try, post, mbind, st_bind.
  destruct (on_upload_spec s Hwf) as (Hc1 & Hsame1 & Hr1 & Hu).
  destruct (on_upload poll_up shutdown_o s) as [ru s1]. cbn in Hc1, Hsame1, Hr1, Hu.
  destruct ru as [u|e| |msg|]; cbn -[bidi_carried]; try by split.
  all: specialize (Hc1 Logic.I); destruct (Hc1 Hwf) as (Hwf1 & Hmu & Hmd & _).
  all: destruct (on_download_spec s1 Hwf1) as (Hc2 & Hsame2 & Hr2 & Hd).
  all: destruct (on_download poll_down shutdown_i s1) as [rd s2]; cbn in Hc2, Hsame2, Hr2, Hd.
  all: destruct rd as [d|e| |msg|]; cbn -[bidi_carried];
    (split; [intros Ht; etrans; [exact Hc1|exact (Hc2 Ht)]|]); try done.
  - destruct (Hu u) as [[_ Hu1] _]; [done|]. destruct (Hd d) as [[_ Hd1] _]; [done|].
    exists u, d. rewrite Hsame2, Hr2, Hr1. done.
  - intros _. unfold reason_ok. cbn. rewrite Hsame2.
    by rewrite (done_result _ _ Hu), (done_result _ _ Hd).
  - intros _. unfold reason_ok. cbn. rewrite Hsame2. by rewrite (done_result _ _ Hu).
  - unfold reason_ok. cbn. rewrite Hsame2, Hr2, Hr1, (done_result _ _ Hu) by done.
    destruct (is_done (bi_upload s)); [|done]. specialize (Hmu eq_refl).
    by rewrite (done_result _ _ Hu) in Hmu by done.
Qed.

(** A relay started fresh: any number of polls that returned [Pending]. *)
Section relay_run.
Context {E T : Type} (eu ed : io_error → E) (f : Z → Z → StreamStopReasons → T).
Context (poll : ST (CopyBidirectional Buf I O) E T).
Context (up down : Buf) (Hnewu : bwf up) (Hnewd : bwf down).
Context (Hemptyu : held up = []) (Hemptyd : held down = []).

Definition poll_is_relay : Prop := ∀ s, bidi_wf s →
  post poll s (λ r s', (tracked r → bidi_carried s s') ∧ bidi_exit f s r s').

Definition pending_step s s' : Prop := poll s = (Pending, s').

Lemma pending_run i o s :
  poll_is_relay → rtc pending_step (bidi_new up down i o) s →
  bidi_carried (bidi_new up down i o) s ∧ reason_ok s.
Proof.
  intros Hpoll. apply (rtc_ind_r (λ s, bidi_carried (bidi_new up down i o) s ∧ reason_ok s)).
  - by split.
  - intros s1 s2 _ Hstep [IHc IHr].
    assert (bidi_wf s1) as Hwf1 by (apply IHc; by split).
    pose proof (post_run _ _ _ _ _ (Hpoll s1 Hwf1) Hstep) as [Hc Hx].
    split; [etrans; [done|by apply Hc]|by apply Hx].
Qed.

(** Integrity: at every moment each end was sent exactly what the other
    delivered, less what is in flight; when the relay ends well nothing is, and
    the reported reason is the direction that ended first. *)
Lemma relay_integrity i o s r s' :
  poll_is_relay → rtc pending_step (bidi_new up down i o) s → poll s = (r, s') → tracked r →
  ∃ iin iout oin oout,
    ti i iin iout (bi_i s') ∧ to o oin oout (bi_o s') ∧ bidi_wf s' ∧
    iin = oout ++ in_flight (bi_upload s') ∧ oin = iout ++ in_flight (bi_download s') ∧
    ∀ t, r = Ok t → iin = oout ∧ oin = iout ∧
      ∃ u d, t = f u d (if is_done (bi_upload s) then Upload else Download).
Proof.
  intros Hpoll Hrun Hlast Ht. destruct (pending_run i o s Hpoll Hrun) as [Hc Hreason].
  assert (bidi_wf (bidi_new up down i o)) as Hwf by by split.
  assert (bidi_wf s) as Hwf1 by by apply Hc.
  pose proof (post_run _ _ _ _ _ (Hpoll s Hwf1) Hlast) as [Hc' Hx].
  assert (bidi_carried (bidi_new up down i o) s') as Hall by (etrans; [done|by apply Hc']).
  destruct (Hall Hwf) as (Hwf' & _ & _ & iin & iout & oin & oout & Hi & Ho & E1 & E2).
  cbn in Hi, Ho, E1, E2. rewrite Hemptyu in E1. rewrite Hemptyd in E2. cbn in E1, E2.
  exists iin, iout, oin, oout. split_and!; try done; try apply Hwf'.
  intros t ->. destruct Hx as (u & d & Hu & Hd & ->). rewrite Hu in E1. rewrite Hd in E2.
  cbn in E1, E2. rewrite app_nil_r in E1, E2. split_and!; [done..|]. exists u, d. f_equal.
  unfold reason_ok in Hreason. by destruct (is_done (bi_upload s)), (is_done (bi_download s)).
Qed.
End relay_run.
End relay.

Lemma tracked_true {E A} (r : outcome E A) : tracked true r.
Proof. by destruct r. Qed.

(** ** Stream relays *)
Section stream_relays.
Context {I O : Type} `{AsyncReadOk I, !AsyncWrite I, !AsyncWriteOk I}.
Context `{AsyncReadOk O, !AsyncWrite O, !AsyncWriteOk O}.

Definition relay_buf_wf (b : CopyBuffer) : Prop :=
  cb_wf b ∧ length (cbuf b) = RELAY_BUFFER_SIZE.

Lemma relay_buf_new_wf : relay_buf_wf CopyBuffer_new.
Proof. unfold relay_buf_wf, cb_wf, CopyBuffer_new. cbn [pos cap cbuf]. rewrite length_replicate. lia. Qed.

Lemma in_flight_bounded st :
  state_wf relay_buf_wf st → length (in_flight unsent st) ≤ RELAY_BUFFER_SIZE.
Proof.
  destruct st as [b|n|n]; cbn -[RELAY_BUFFER_SIZE]; [|lia..].
  intros [[??] Hl]. unfold unsent. rewrite length_take, length_drop. lia.
Qed.
End stream_relays.

Lemma copy_loop_copies {A B} `{AsyncReadOk A, !AsyncWrite A, AsyncWriteOk B, !AsyncRead B}
    flush read_step fuel :
  read_contract (R:=A) (W:=B) flush read_step →
  copies unsent relay_buf_wf true io_trace io_trace (copy_loop read_step flush fuel).
Proof.
  intros Hread s [Hwf Hlen].
  destruct (copy_loop_spec flush read_step Hread fuel s Hwf) as [Hrel Hexit].
  destruct (Hrel Hwf) as (Hwf' & ins & outs & Hr & Hw & E & _ & Hl & _).
  intros _. split_and!; [by split; [|congruence]| |].
  - intros n Hn. rewrite Hn in Hexit. apply Hexit.
  - exists ins, outs. split_and!; auto with oxide.
Qed.

Section stream_relay_theorems.
Context {I O : Type} `{AsyncReadOk I, !AsyncWrite I, !AsyncWriteOk I}.
Context `{AsyncReadOk O, !AsyncWrite O, !AsyncWriteOk O}.

Lemma forked_is_relay fuel :
  poll_is_relay (io_trace (S:=I)) (io_trace (S:=O)) unsent relay_buf_wf true
    (λ _ _ reason, reason) (forked_poll fuel).
Proof.
  intros s Hwf. apply bidi_poll_spec; eauto using io_trace_trans, io_trace_shutdown1 with oxide;
    apply copy_loop_copies, forked_read_contract.
Qed.

Lemma glommio_is_relay fuel :
  poll_is_relay (io_trace (S:=I)) (io_trace (S:=O)) unsent relay_buf_wf true
    (λ up down reason, (up, down, reason)) (glommio_poll fuel).
Proof.
  intros s Hwf. apply bidi_poll_spec; eauto using io_trace_trans, io_trace_shutdown1 with oxide;
    apply copy_loop_copies, glommio_read_contract.
Qed.
End stream_relay_theorems.

(** ** Properties *)

(** Two ends for evaluating the relays: the inbound one accepts one byte and then
    blocks once, the outbound one answers and closes. *)
Definition ex_inbound : Script :=
  mkScript [Gives [1; 2; 3]%Z; Waits; Gives []] [Gives 1; Waits] [] false.
Definition ex_outbound : Script :=
  mkScript [Gives [7; 8]%Z; Gives []] [Gives 2] [] false.

Section properties.
Context {I O : Type} `{AsyncReadOk I, !AsyncWrite I, !AsyncWriteOk I}.
Context `{AsyncReadOk O, !AsyncWrite O, !AsyncWriteOk O}.

(** C8: the tokio TCP relay is exact. However the two ends answer (short writes,
    blocking, errors at any point), after any number of polls each end has been
    sent exactly the bytes the other delivered, in order, less at most one buffer
    in flight; when the relay ends well nothing is in flight, and the reported
    reason is the direction that ended first (download when both end in one poll). *)
Theorem forked_relay_integrity fuel (i : I) (o : O) s r s' :
  rtc (pending_step (forked_poll fuel)) (bidi_new CopyBuffer_new CopyBuffer_new i o) s →
  forked_poll fuel s = (r, s') →
  ∃ iin iout oin oout,
    io_trace i iin iout (bi_i s') ∧ io_trace o oin oout (bi_o s') ∧
    iin = oout ++ in_flight unsent (bi_upload s') ∧
    oin = iout ++ in_flight unsent (bi_download s') ∧
    length (in_flight unsent (bi_upload s')) ≤ RELAY_BUFFER_SIZE ∧
    length (in_flight unsent (bi_download s')) ≤ RELAY_BUFFER_SIZE ∧
    ∀ reason, r = Ok reason →
      iin = oout ∧ oin = iout ∧ reason = if is_done (bi_upload s) then Upload else Download.
Proof.
  intros Hrun Hlast.
  destruct (relay_integrity io_trace io_trace io_refl io_refl io_trace_trans io_trace_trans
    unsent relay_buf_wf true (λ _ _ reason, reason) (forked_poll fuel) CopyBuffer_new
    CopyBuffer_new relay_buf_new_wf relay_buf_new_wf eq_refl eq_refl i o s r s' (forked_is_relay fuel) Hrun Hlast (tracked_true r))
    as (iin & iout & oin & oout & Hi & Ho & [Hwu Hwd] & E1 & E2 & Hok).
  exists iin, iout, oin, oout. split_and!; [done..| | |]; [by apply in_flight_bounded..|].
  intros reason Hr. destruct (Hok reason Hr) as (? & ? & ? & ? & ?). done.
Qed.

(** C26: the io_uring TCP relay is exact in the same sense. *)
Theorem glommio_relay_integrity fuel (i : I) (o : O) s r s' :
  rtc (pending_step (glommio_poll fuel)) (bidi_new CopyBuffer_new CopyBuffer_new i o) s →
  glommio_poll fuel s = (r, s') →
  ∃ iin iout oin oout,
    io_trace i iin iout (bi_i s') ∧ io_trace o oin oout (bi_o s') ∧
    iin = oout ++ in_flight unsent (bi_upload s') ∧
    oin = iout ++ in_flight unsent (bi_download s') ∧
    length (in_flight unsent (bi_upload s')) ≤ RELAY_BUFFER_SIZE ∧
    length (in_flight unsent (bi_download s')) ≤ RELAY_BUFFER_SIZE ∧
    ∀ up down reason, r = Ok (up, down, reason) →
      iin = oout ∧ oin = iout ∧ reason = if is_done (bi_upload s) then Upload else Download.
Proof.
  intros Hrun Hlast.
  destruct (relay_integrity io_trace io_trace io_refl io_refl io_trace_trans io_trace_trans
    unsent relay_buf_wf true (λ up down reason, (up, down, reason)) (glommio_poll fuel) CopyBuffer_new
    CopyBuffer_new relay_buf_new_wf relay_buf_new_wf eq_refl eq_refl i o s r s' (glommio_is_relay fuel) Hrun Hlast (tracked_true r))
    as (iin & iout & oin & oout & Hi & Ho & [Hwu Hwd] & E1 & E2 & Hok).
  exists iin, iout, oin, oout. split_and!; [done..| | |]; [by apply in_flight_bounded..|].
  intros up down reason Hr. destruct (Hok _ Hr) as (? & ? & ? & ? & [= _ _ ?]). done.
Qed.

(** C27: how a poll of one direction of the tokio relay can end. The bytes balance
    and [amt] counts the bytes written (modulo 2^64) on every exit; success means
    the input ended, everything was written and the writer was flushed; [Pending]
    means a stream really returned [Pending], and if it is the reader then nothing
    is unsent and no flush is owed, so the peer cannot be waiting for bytes held
    here; an error or a panic is one of the streams', or [WriteZero]. *)
Theorem forked_poll_copy_exits fuel (s : CopySt CopyBuffer I O) r s' :
  cb_wf (cs_buf s) → Forked.poll_copy fuel s = (r, s') →
  (∃ ins outs, moved s s' ins outs) ∧ copy_exit true r s'.
Proof.
  intros Hwf Hrun.
  pose proof (post_run _ _ _ _ _ (copy_loop_spec true _ forked_read_contract fuel s Hwf) Hrun)
    as [Hrel Hexit].
  split; [|done]. by destruct (Hrel Hwf).
Qed.

(** C28: a poll of one direction returns: when every non-empty read brings the
    reader closer (by [μ]) to blocking or to its end, [μ] plus two turns of the
    loop are enough, whatever the writer answers. *)
Theorem forked_poll_copy_terminates (μ : I → nat) fuel (s : CopySt CopyBuffer I O) :
  (∀ room r bs r', poll_read room r = (Ok bs, r') → bs ≠ [] → μ r' < μ r) →
  cb_wf (cs_buf s) → μ (cs_rd s) + 2 ≤ fuel →
  (Forked.poll_copy fuel s).1 ≠ OutOfFuel.
Proof.
  intros Hμ Hwf Hfuel.
  apply (copy_loop_terminates true _ forked_read_contract μ fuel s Hμ Hwf). case_decide; lia.
Qed.
End properties.

Lemma forked_relay_integrity_witness :
  let s0 := bidi_new CopyBuffer_new CopyBuffer_new ex_inbound ex_outbound in
  let s1 := (forked_poll 10 s0).2 in
  let s2 := (forked_poll 10 s1).2 in
  (forked_poll 10 s0).1 = Pending ∧ (forked_poll 10 s1).1 = Ok Download ∧
  ∃ iin iout oin oout,
    io_trace ex_inbound iin iout (bi_i s2) ∧ io_trace ex_outbound oin oout (bi_o s2) ∧
    iin = oout ++ in_flight unsent (bi_upload s2) ∧
    oin = iout ++ in_flight unsent (bi_download s2) ∧
    length (in_flight unsent (bi_upload s2)) ≤ RELAY_BUFFER_SIZE ∧
    length (in_flight unsent (bi_download s2)) ≤ RELAY_BUFFER_SIZE ∧
    ∀ reason, Ok (E:=StreamStopReasons * io_error) Download = Ok reason →
      iin = oout ∧ oin = iout ∧ reason = if is_done (bi_upload s1) then Upload else Download.
Proof.
  intros s0 s1 s2. split; [vm_compute; reflexivity|]. split; [vm_compute; reflexivity|].
  apply (forked_relay_integrity 10 ex_inbound ex_outbound s1 (Ok Download) s2);
    [eapply rtc_l; [|apply rtc_refl]|]; vm_compute; reflexivity.
Defined.

Lemma glommio_relay_integrity_witness :
  let s0 := bidi_new CopyBuffer_new CopyBuffer_new ex_inbound ex_outbound in
  let s1 := (glommio_poll 10 s0).2 in
  let s2 := (glommio_poll 10 s1).2 in
  (glommio_poll 10 s0).1 = Pending ∧ (glommio_poll 10 s1).1 = Ok (3%Z, 2%Z, Download) ∧
  ∃ iin iout oin oout,
    io_trace ex_inbound iin iout (bi_i s2) ∧ io_trace ex_outbound oin oout (bi_o s2) ∧
    iin = oout ++ in_flight unsent (bi_upload s2) ∧
    oin = iout ++ in_flight unsent (bi_download s2) ∧
    length (in_flight unsent (bi_upload s2)) ≤ RELAY_BUFFER_SIZE ∧
    length (in_flight unsent (bi_download s2)) ≤ RELAY_BUFFER_SIZE ∧
    ∀ up down reason, Ok (E:=io_error) (3%Z, 2%Z, Download) = Ok (up, down, reason) →
      iin = oout ∧ oin = iout ∧ reason = if is_done (bi_upload s1) then Upload else Download.
Proof.
  intros s0 s1 s2. split; [vm_compute; reflexivity|]. split; [vm_compute; reflexivity|].
  apply (glommio_relay_integrity 10 ex_inbound ex_outbound s1 (Ok (3%Z, 2%Z, Download)) s2);
    [eapply rtc_l; [|apply rtc_refl]|]; vm_compute; reflexivity.
Defined.

Lemma forked_poll_copy_exits_witness :
  let s := mkCopySt CopyBuffer_new ex_inbound ex_outbound in
  let s' := (Forked.poll_copy 10 s).2 in
  (∃ ins outs, moved s s' ins outs) ∧ copy_exit true Pending s'.
Proof.
  intros s s'. apply (forked_poll_copy_exits 10 s Pending s').
  - apply relay_buf_new_wf.
  - vm_compute; reflexivity.
Defined.

(** The bytes a script has left to deliver. *)
Fixpoint script_left (l : list (answer (list Z))) : nat :=
  match l with
  | [] => 0
  | Gives bs :: rest => length bs + script_left rest
  | _ :: rest => script_left rest
  end.

Lemma forked_poll_copy_terminates_witness :
  (Forked.poll_copy 10 (mkCopySt CopyBuffer_new ex_inbound ex_outbound)).1 ≠ OutOfFuel.
Proof.
  apply (forked_poll_copy_terminates (λ sc, script_left (sc_reads sc))).
  - intros room [[|[bs|e|] rest] acc log cl] bs' r'; unfold poll_read, Script_AsyncRead; cbn;
      try done. case_decide as Hfit; intros [= <- <-] Hne; cbn.
    + destruct bs; [done|]. cbn. lia.
    + destruct room; [done|]. destruct bs; cbn in *; [lia|]. rewrite length_drop. lia.
  - apply relay_buf_new_wf.
  - cbn. lia.
Defined.
