(* ===== verification/UdpTraits.v ===== *)
(** The datagram traits of src/src/utils/udp/udp_traits.rs.

    [UdpRead] and [UdpWrite] are classes; [UdpReadOk] is the contract the trait's
    comments promise of a reader and the datagram relay is proved against; the histories [udp_read_trace], [udp_write_trace] and
    [udp_trace] pair every byte with the address it came from or goes to. *)
From S2P Require Import Prelude Vec MixAddr Io.

(** [poll_proxy_stream_read(buf)] works on the stream and on the caller's buffer;
    its fuel bounds the reads of the inner stream one poll may make. *)
Class UdpRead (R : Type) :=
  poll_proxy_stream_read : nat → ST (R * UdpRelayBuffer) io_error MixAddrType.

Class UdpWrite (W : Type) := {
  poll_proxy_stream_write : list Z → MixAddrType → ST W io_error nat;
  udp_poll_flush : ST W io_error unit;
  udp_poll_shutdown : ST W io_error unit;
}.

(** [UdpWriteExt::shutdown]: one poll of the [Shutdown] future. *)
Definition shutdown `{UdpWrite W} : ST W io_error unit := udp_poll_shutdown.

(** A whole packet, put into the caller's empty buffer, with its address; [None]
    at the end of the stream; nothing when pending. *)
Class UdpReadOk (R : Type) `{UdpRead R} :=
  udp_read_whole : ∀ fuel (r : R) b res r' b',
    UdpRelay.wf b → UdpRelay.queue b = [] →
    poll_proxy_stream_read fuel (r, b) = (res, (r', b')) →
    UdpRelay.wf b' ∧
    match res with
    | Ok MNone | Pending => UdpRelay.queue b' = []
    | _ => True
    end.

(** ** Decoding an address from a relay buffer *)
Lemma from_encoded_queue_Ok b a n :
  UdpRelay.wf b → Mix.from_encoded_bytes (UdpRelay.queue b) = Ok (a, n) →
  ∃ b', Mix.from_encoded b = (Ok a, b') ∧ UdpRelay.wf b' ∧
    UdpRelay.queue b' = drop n (UdpRelay.queue b).
Proof.
  intros Hwf Hd. unfold Mix.from_encoded. st_simpl. rewrite UdpRelay.chunk_queue by done. st_simpl.
  rewrite Hd. st_simpl. pose proof (Mix.from_encoded_bytes_total (UdpRelay.queue b)) as Ht.
  rewrite Hd in Ht. destruct Ht as (Hn & _).
  destruct (UdpRelay.advance_queue (E:=ParserError) n b Hwf Hn) as (b' & Ha & Hw & Hq).
  exists b'. split; [|done]. by erewrite st_bind_run by exact Ha.
Qed.

Lemma from_encoded_queue_Err b e :
  UdpRelay.wf b → Mix.from_encoded_bytes (UdpRelay.queue b) = Err e → Mix.from_encoded b = (Err e, b).
Proof.
  intros Hwf Hd. unfold Mix.from_encoded. st_simpl. rewrite UdpRelay.chunk_queue by done. st_simpl.
  by rewrite Hd.
Qed.

(** Encoding an address into a relay buffer queues its bytes. *)
Lemma write_buf_queue {E} a b :
  a ≠ MNone → UdpRelay.wf b →
  ∃ b', Mix.write_buf (E:=E) a b = (Ok tt, b') ∧ UdpRelay.wf b' ∧
    UdpRelay.queue b' = UdpRelay.queue b ++ Mix.written a.
Proof.
  intros Hne Hb.
  assert (∀ x y z, UdpRelay.wf (UdpRelay.udp_extend z (UdpRelay.udp_extend y (UdpRelay.udp_extend x b))) ∧
    UdpRelay.queue (UdpRelay.udp_extend z (UdpRelay.udp_extend y (UdpRelay.udp_extend x b))) =
    UdpRelay.queue b ++ x ++ y ++ z) as H3.
  { intros x y z. destruct (UdpRelay.extend_queue x b Hb) as [H1 E1].
    destruct (UdpRelay.extend_queue y _ H1) as [H2 E2]. destruct (UdpRelay.extend_queue z _ H2) as [H3 E3].
    split; [done|]. by rewrite E3, E2, E1, <- !app_assoc. }
  destruct a as [ip p|ip p|host p|]; [..|done]; eexists; (split; [reflexivity|]); apply H3.
Qed.

(** ** Histories *)
Definition addressed (a : MixAddrType) (bs : list Z) : list (MixAddrType * Z) := map (pair a) bs.

(** What a read into an empty buffer delivered. *)
Definition udp_bytes_read (res : outcome io_error MixAddrType) (b' : UdpRelayBuffer)
    : list (MixAddrType * Z) :=
  match res with
  | Ok MNone => []
  | Ok a => addressed a (UdpRelay.queue b')
  | _ => []
  end.

Definition udp_bytes_accepted (b : list Z) (a : MixAddrType) (res : outcome io_error nat)
    : list (MixAddrType * Z) :=
  match res with Ok n => addressed a (take n b) | _ => [] end.

Section traces.
Context {S : Type} `{UdpRead S, UdpWrite S}.

Inductive udp_trace : S → list (MixAddrType * Z) → list (MixAddrType * Z) → S → Prop :=
| udp_refl s : udp_trace s [] [] s
| udp_read s fuel b res s1 b1 ins outs s' :
    UdpRelay.wf b → UdpRelay.queue b = [] →
    poll_proxy_stream_read fuel (s, b) = (res, (s1, b1)) →
    udp_trace s1 ins outs s' →
    udp_trace s (udp_bytes_read res b1 ++ ins) outs s'
| udp_write s b a ins outs s' :
    udp_trace (poll_proxy_stream_write b a s).2 ins outs s' →
    udp_trace s ins (udp_bytes_accepted b a (poll_proxy_stream_write b a s).1 ++ outs) s'
| udp_flush s ins outs s' : udp_trace (udp_poll_flush s).2 ins outs s' → udp_trace s ins outs s'
| udp_shut s ins outs s' : udp_trace (udp_poll_shutdown s).2 ins outs s' → udp_trace s ins outs s'.

Lemma udp_trace_trans s1 i1 o1 s2 i2 o2 s3 :
  udp_trace s1 i1 o1 s2 → udp_trace s2 i2 o2 s3 → udp_trace s1 (i1 ++ i2) (o1 ++ o2) s3.
Proof. intros H1 H2. induction H1; rewrite <- ?app_assoc; eauto using udp_trace. Qed.
End traces.

Section half_traces.
Context {R : Type} `{UdpRead R} {W : Type} `{UdpWrite W}.

Inductive udp_read_trace : R → list (MixAddrType * Z) → R → Prop :=
| urt_refl r : udp_read_trace r [] r
| urt_read r fuel b res r1 b1 ins r' :
    UdpRelay.wf b → UdpRelay.queue b = [] →
    poll_proxy_stream_read fuel (r, b) = (res, (r1, b1)) →
    udp_read_trace r1 ins r' →
    udp_read_trace r (udp_bytes_read res b1 ++ ins) r'.

Inductive udp_write_trace : W → list (MixAddrType * Z) → W → Prop :=
| uwt_refl w : udp_write_trace w [] w
| uwt_write w b a outs w' :
    udp_write_trace (poll_proxy_stream_write b a w).2 outs w' →
    udp_write_trace w (udp_bytes_accepted b a (poll_proxy_stream_write b a w).1 ++ outs) w'
| uwt_flush w outs w' : udp_write_trace (udp_poll_flush w).2 outs w' → udp_write_trace w outs w'.

Lemma udp_read_trace_trans r1 i1 r2 i2 r3 :
  udp_read_trace r1 i1 r2 → udp_read_trace r2 i2 r3 → udp_read_trace r1 (i1 ++ i2) r3.
Proof. intros H1 H2. induction H1; rewrite <- ?app_assoc; eauto using udp_read_trace. Qed.

Lemma udp_write_trace_trans w1 o1 w2 o2 w3 :
  udp_write_trace w1 o1 w2 → udp_write_trace w2 o2 w3 → udp_write_trace w1 (o1 ++ o2) w3.
Proof. intros H1 H2. induction H1; rewrite <- ?app_assoc; eauto using udp_write_trace. Qed.

Lemma udp_read_trace_1 fuel r b res r1 b1 :
  UdpRelay.wf b → UdpRelay.queue b = [] →
  poll_proxy_stream_read fuel (r, b) = (res, (r1, b1)) →
  udp_read_trace r (udp_bytes_read res b1) r1.
Proof. intros. rewrite <- (app_nil_r (udp_bytes_read _ _)). eauto using udp_read_trace. Qed.

Lemma udp_write_trace_1 b a w :
  udp_write_trace w (udp_bytes_accepted b a (poll_proxy_stream_write b a w).1)
    (poll_proxy_stream_write b a w).2.
Proof. rewrite <- (app_nil_r (udp_bytes_accepted _ _ _)). eauto using udp_write_trace. Qed.

Lemma udp_write_trace_flush w : udp_write_trace w [] (udp_poll_flush w).2.
Proof. eauto using udp_write_trace. Qed.
End half_traces.

Section half_traces_udp.
Context {S : Type} `{UdpRead S, UdpWrite S}.

Lemma udp_read_trace_udp (s : S) ins s' : udp_read_trace s ins s' → udp_trace s ins [] s'.
Proof. induction 1; eauto using udp_trace. Qed.

Lemma udp_write_trace_udp (s : S) outs s' : udp_write_trace s outs s' → udp_trace s [] outs s'.
Proof. induction 1; eauto using udp_trace. Qed.
End half_traces_udp.

#[export] Hint Resolve urt_refl uwt_refl udp_refl udp_write_trace_1 udp_write_trace_flush
  udp_read_trace_udp udp_write_trace_udp : oxide.

(** ** [EitherIO] over datagram ends (src/src/utils/either_io.rs) *)
#[export] Instance EitherIO_UdpRead `{UdpRead IO1, UdpRead IO2} : UdpRead (EitherIO IO1 IO2) :=
  λ fuel '(s, b),
    match s with
    | EitherLeft io =>
        let '(r, (io', b')) := poll_proxy_stream_read fuel (io, b) in (r, (EitherLeft io', b'))
    | EitherRight io =>
        let '(r, (io', b')) := poll_proxy_stream_read fuel (io, b) in (r, (EitherRight io', b'))
    end.

#[export] Instance EitherIO_UdpWrite `{UdpWrite IO1, UdpWrite IO2} : UdpWrite (EitherIO IO1 IO2) := {
  poll_proxy_stream_write b a :=
    either_dispatch (poll_proxy_stream_write b a) (poll_proxy_stream_write b a);
  udp_poll_flush := either_dispatch udp_poll_flush udp_poll_flush;
  udp_poll_shutdown := either_dispatch udp_poll_shutdown udp_poll_shutdown;
}.

#[export] Instance EitherIO_UdpReadOk `{UdpReadOk IO1, UdpReadOk IO2} : UdpReadOk (EitherIO IO1 IO2).
Proof.
  intros fuel [io|io] b res r' b' Hb Hq; unfold poll_proxy_stream_read at 1, EitherIO_UdpRead;
    destruct (poll_proxy_stream_read fuel (io, b)) as [r [io' b1]] eqn:E; intros [= -> _ ->];
    exact (udp_read_whole _ _ _ _ _ _ Hb Hq E).
Qed.

(** ** A scripted end: delivers packets, logs what it is sent *)
Record UdpScript := mkUdpScript {
  us_packets : list (answer (MixAddrType * list Z));
  us_log : list (MixAddrType * Z);
}.

#[export] Instance UdpScript_UdpRead : UdpRead UdpScript := λ _ '(s, b),
  match us_packets s with
  | [] | Waits :: _ => (Pending, (mkUdpScript (tail (us_packets s)) (us_log s), b))
  | Gives (a, payload) :: rest =>
      (Ok a, (mkUdpScript rest (us_log s), if Mix.is_none a then b else UdpRelay.udp_extend payload b))
  | Fails e :: rest => (Err e, (mkUdpScript rest (us_log s), b))
  end.

#[export] Instance UdpScript_UdpWrite : UdpWrite UdpScript := {
  poll_proxy_stream_write b a s := (Ok (length b), mkUdpScript (us_packets s) (us_log s ++ addressed a b));
  udp_poll_flush := mret tt;
  udp_poll_shutdown := mret tt;
}.

#[export] Instance UdpScript_UdpReadOk : UdpReadOk UdpScript.
Proof.
  intros fuel [[|[[a p]|e|] rest] log] b res r' b' Hb Hq; unfold poll_proxy_stream_read; cbn;
    intros [= <- _ <-]; try by split.
  destruct (UdpRelay.extend_queue p b Hb) as [Hw _]. by destruct a.
Qed.
