(* ===== verification/UdpCopy.v ===== *)
(** Datagram relaying: [UdpCopyBuf] of src/src/utils/udp/copy_udp.rs and the
    [CopyBidirectional] of src/src/utils/udp/copy_udp_bidirectional.rs.

    The two directions and their outcome are the generic relay of Copy.v; here is
    the copy loop, proved to keep every byte with its address. *)
From stdpp Require Import relations.
From S2P Require Import Prelude Vec MixAddr Io Copy UdpTraits.

Record UdpCopyBuf := mkUdpCopyBuf {
  uc_buf : UdpRelayBuffer;
  uc_addr : option MixAddrType;
  uc_amt : Z;
  uc_conn_id : option nat;
  uc_need_flush : bool;
  uc_read_done : bool;
}.

Definition UdpCopyBuf_new (conn_id : option nat) : UdpCopyBuf :=
  mkUdpCopyBuf UdpRelay.new None 0%Z conn_id false false.

Definition uc_set_buf (b : UdpRelayBuffer) (c : UdpCopyBuf) : UdpCopyBuf :=
  mkUdpCopyBuf b (uc_addr c) (uc_amt c) (uc_conn_id c) (uc_need_flush c) (uc_read_done c).
Definition uc_set_addr (a : MixAddrType) (c : UdpCopyBuf) : UdpCopyBuf :=
  mkUdpCopyBuf (uc_buf c) (Some a) (uc_amt c) (uc_conn_id c) (uc_need_flush c) (uc_read_done c).
Definition uc_clear_need_flush (c : UdpCopyBuf) : UdpCopyBuf :=
  mkUdpCopyBuf (uc_buf c) (uc_addr c) (uc_amt c) (uc_conn_id c) false (uc_read_done c).
Definition uc_set_read_done (c : UdpCopyBuf) : UdpCopyBuf :=
  mkUdpCopyBuf (uc_buf c) (uc_addr c) (uc_amt c) (uc_conn_id c) (uc_need_flush c) true.

(** [amt += x; need_flush = true]. *)
Definition uc_sent (x : nat) (c : UdpCopyBuf) : UdpCopyBuf :=
  mkUdpCopyBuf (uc_buf c) (uc_addr c) (u64_wrap (uc_amt c + Z.of_nat x)) (uc_conn_id c) true
    (uc_read_done c).

(** [if new_addr.is_none() { read_done } else if addr changed { addr = new_addr }]. *)
Definition uc_note_addr (new_addr : MixAddrType) (c : UdpCopyBuf) : UdpCopyBuf :=
  if Mix.is_none new_addr then uc_set_read_done c
  else if match uc_addr c with None => true | Some prev => negb (Mix.eqb prev new_addr) end
  then uc_set_addr new_addr c else c.

Section copy.
Context {R W : Type} `{UdpRead R, UdpWrite W}.

(** A call of the reader on the copy's own buffer. *)
Definition on_reader {A} (m : ST (R * UdpRelayBuffer) io_error A)
    : ST (CopySt UdpCopyBuf R W) io_error A :=
  st_zoom (λ s, (cs_rd s, uc_buf (cs_buf s)))
    (λ '(r, b) s, mkCopySt (uc_set_buf b (cs_buf s)) r (cs_wr s)) m.

Definition on_relay_buf {A} (m : ST UdpRelayBuffer io_error A)
    : ST (CopySt UdpCopyBuf R W) io_error A :=
  st_zoom (λ s, uc_buf (cs_buf s))
    (λ b s, mkCopySt (uc_set_buf b (cs_buf s)) (cs_rd s) (cs_wr s)) m.

Definition udp_read_step (inner_fuel : nat) : ST (CopySt UdpCopyBuf R W) io_error unit :=
  on_buf (λ c, uc_set_buf (UdpRelay.reset (uc_buf c)) c);;
  res ← st_try (on_reader (poll_proxy_stream_read inner_fuel));
  match res with
  | Ok new_addr => on_buf (uc_note_addr new_addr)
  | Pending =>
      s ← st_get;
      (if uc_need_flush (cs_buf s) then on_wr udp_poll_flush;; on_buf uc_clear_need_flush
       else mret tt);;
      st_lift Pending
  | Err err => throw err
  | Panic msg => panic msg
  | OutOfFuel => st_lift OutOfFuel
  end.

(** [while self.buf.has_remaining() { .. }]. *)
Fixpoint udp_write_out (fuel : nat) : ST (CopySt UdpCopyBuf R W) io_error unit :=
  s ← st_get;
  let c := cs_buf s in
  if UdpRelay.has_remaining (uc_buf c) then
    match fuel with
    | 0 => st_lift OutOfFuel
    | S fuel' =>
        piece ← st_lift (chunk (uc_buf c));
        addr ← st_lift (match uc_addr c with
          | Some a => Ok a
          | None => Panic "called `Option::unwrap()` on a `None` value" end);
        x ← on_wr (poll_proxy_stream_write piece addr);
        if decide (x = 0) then throw WriteZero else
        on_relay_buf (advance x);;
        on_buf (uc_sent x);;
        udp_write_out fuel'
    end
  else mret tt.

(** Every pass sends at least one byte of the buffer. *)
Definition udp_write_all : ST (CopySt UdpCopyBuf R W) io_error unit :=
  s ← st_get;
  udp_write_out (vec_len (ub_inner (uc_buf (cs_buf s)))).

(** [UdpCopyBuf::poll_copy]; [inner_fuel] is for the reads inside the reader. *)
Fixpoint udp_poll_copy (inner_fuel fuel : nat) : ST (CopySt UdpCopyBuf R W) io_error Z :=
  match fuel with
  | 0 => st_lift OutOfFuel
  | S fuel' =>
      s ← st_get;
      (if negb (UdpRelay.has_remaining (uc_buf (cs_buf s))) && negb (uc_read_done (cs_buf s))
       then udp_read_step inner_fuel else mret tt);;
      udp_write_all;;
      s ← st_get;
      if negb (UdpRelay.has_remaining (uc_buf (cs_buf s))) && uc_read_done (cs_buf s)
      then on_wr udp_poll_flush;; mret (uc_amt (cs_buf s))
      else udp_poll_copy inner_fuel fuel'
  end.
End copy.

(** [copy_udp]: one direction alone, which nothing in the program calls. The fields of
    [CopyUdp] are those of [CopySt], its [poll] is [poll_copy]. *)
Definition copy_udp {R W : Type} (reader : R) (writer : W) (conn_id : option nat) : CopySt UdpCopyBuf R W :=
  mkCopySt (UdpCopyBuf_new conn_id) reader writer.

Definition CopyUdp_poll {R W : Type} `{UdpRead R, UdpWrite W} (inner_fuel fuel : nat)
    : ST (CopySt UdpCopyBuf R W) io_error Z :=
  udp_poll_copy inner_fuel fuel.

(** [CopyBidirectional::poll] and [udp_copy_bidirectional]. *)
Definition udp_bidi_poll {I O : Type} `{UdpRead I, UdpWrite I, UdpRead O, UdpWrite O}
    (inner_fuel fuel : nat)
    : ST (CopyBidirectional UdpCopyBuf I O) io_error (Z * Z * StreamStopReasons) :=
  bidi_poll (udp_poll_copy inner_fuel fuel) (udp_poll_copy inner_fuel fuel)
    udp_poll_shutdown udp_poll_shutdown
    id id (λ upload download reason, (upload, download, reason)).

Definition udp_copy_bidirectional {I O : Type} (conn_id : nat) (inbound : I) (outbound : O)
    : CopyBidirectional UdpCopyBuf I O :=
  bidi_new (UdpCopyBuf_new (Some conn_id)) (UdpCopyBuf_new None) inbound outbound.

(** ** What one direction keeps *)

(** The bytes read and not yet sent, with the address they go to. *)
Definition uc_held (c : UdpCopyBuf) : list (MixAddrType * Z) :=
  addressed (default MNone (uc_addr c)) (UdpRelay.queue (uc_buf c)).

(** They are the rest of one datagram: they all go to one address. *)
Lemma one_datagram (st : TransferState UdpCopyBuf) :
  ∃ addr bs, (match st with Running c => uc_held c | _ => [] end) = addressed addr bs.
Proof. destruct st as [c| |]; [by eexists _, _|by exists MNone, []..]. Qed.

Definition uc_wf (c : UdpCopyBuf) : Prop :=
  UdpRelay.wf (uc_buf c) ∧ uc_addr c ≠ Some MNone ∧
  (UdpRelay.queue (uc_buf c) ≠ [] → is_Some (uc_addr c)).

Lemma mix_eqb_eq a b : Mix.eqb a b = true → a = b.
Proof.
  destruct a, b; cbn; try done; intros [?%bool_decide_eq_true ?%bool_decide_eq_true]%andb_true_iff;
    by subst.
Qed.

Lemma uc_note_addr_spec a c :
  uc_addr c ≠ Some MNone →
  (a = MNone ∧ uc_note_addr a c = uc_set_read_done c) ∨
  (a ≠ MNone ∧ uc_note_addr a c = uc_set_addr a c).
Proof.
  intros Hc. unfold uc_note_addr. destruct (decide (a = MNone)) as [->|Ha]; [by left|right].
  split; [done|]. destruct (Mix.is_none a) eqn:Hn; [by destruct a|].
  destruct c as [b [prev|] amt id nf rd]; cbn; [|done].
  destruct (Mix.eqb prev a) eqn:He; cbn; [|done]. apply mix_eqb_eq in He as ->. done.
Qed.

Section one_copy.
Context {R W : Type} `{UdpReadOk R, UdpWrite W}.
Implicit Types (s : CopySt UdpCopyBuf R W) (c : UdpCopyBuf).

Definition udp_relayed s s' : Prop :=
  uc_wf (cs_buf s) → uc_wf (cs_buf s') ∧
  ∃ ins outs, udp_read_trace (cs_rd s) ins (cs_rd s') ∧ udp_write_trace (cs_wr s) outs (cs_wr s') ∧
    uc_held (cs_buf s) ++ ins = outs ++ uc_held (cs_buf s').

#[export] Instance udp_relayed_preorder : PreOrder udp_relayed.
Proof.
  split.
  - intros s Hwf. split; [done|]. exists [], []. rewrite app_nil_r. auto with oxide.
  - intros s1 s2 s3 H12 H23 Hwf. apply H12 in Hwf as [Hwf (i1 & o1 & Ha1 & Hb1 & E1)].
    apply H23 in Hwf as [Hwf (i2 & o2 & Ha2 & Hb2 & E2)]. split; [done|].
    exists (i1 ++ i2), (o1 ++ o2).
    split_and!; [by eapply udp_read_trace_trans|by eapply udp_write_trace_trans|].
    rewrite app_assoc, E1, <- !app_assoc. by f_equal.
Qed.

Lemma udp_relayed_writer s (c : UdpCopyBuf) w' :
  uc_buf c = uc_buf (cs_buf s) → uc_addr c = uc_addr (cs_buf s) →
  udp_write_trace (cs_wr s) [] w' → udp_relayed s (mkCopySt c (cs_rd s) w').
Proof.
  intros Hb Ha Hw Hwf. unfold uc_wf, uc_held in *. cbn. rewrite Hb, Ha. split; [done|].
  exists [], []. rewrite app_nil_r. auto with oxide.
Qed.

#[local] Abbreviation tracked := (tracked false).

Lemma udp_sent_spec s a n w' :
  uc_addr (cs_buf s) = Some a →
  poll_proxy_stream_write (UdpRelay.queue (uc_buf (cs_buf s))) a (cs_wr s) = (Ok n, w') →
  uc_wf (cs_buf s) → n ≤ length (UdpRelay.queue (uc_buf (cs_buf s))) →
  ∃ b', UdpRelay.udp_advance (E:=io_error) n (uc_buf (cs_buf s)) = (Ok tt, b') ∧
    length (UdpRelay.queue b') = length (UdpRelay.queue (uc_buf (cs_buf s))) - n ∧
    udp_relayed s (mkCopySt (uc_sent n (uc_set_buf b' (cs_buf s))) (cs_rd s) w').
Proof.
  intros Ha Hw (Hb & Hn & Hq) Hfit.
  destruct (UdpRelay.advance_queue (E:=io_error) n _ Hb Hfit) as (b' & Hadv & Hb' & Hq').
  exists b'. split_and!; [done|by rewrite Hq', length_drop|]. intros _.
  split; [unfold uc_wf; cbn; split_and!; [done..|rewrite Ha; eauto]|].
  exists [], (addressed a (take n (UdpRelay.queue (uc_buf (cs_buf s))))). cbn. split_and!; [auto with oxide| |].
  - pose proof (udp_write_trace_1 (UdpRelay.queue (uc_buf (cs_buf s))) a (cs_wr s)) as Ht.
    by rewrite Hw in Ht.
  - unfold uc_held, addressed. cbn. rewrite Ha, Hq', app_nil_r. cbn.
    by rewrite <- map_app, take_drop.
Qed.

Lemma udp_write_out_spec fuel s :
  uc_wf (cs_buf s) →
  post (udp_write_out fuel) s (λ r s',
    (tracked r → udp_relayed s s') ∧ (r = Ok tt → UdpRelay.queue (uc_buf (cs_buf s')) = [])).
Proof.
  revert s. induction fuel as [|fuel IH]; intros s Hwf; unfold post; cbn [udp_write_out]; st_simpl;
    rewrite UdpRelay.has_remaining_queue; case_bool_decide as Hne; try done;
    try (split; [reflexivity|intros _; by apply dec_stable]).
  pose proof Hwf as (Hb & Hn & [a Ha]%(λ f, f Hne)).
  rewrite UdpRelay.chunk_queue by done. rewrite Ha. st_simpl.
  unfold on_wr. rewrite st_zoom_bind.
  pose proof (udp_write_trace_1 (UdpRelay.queue (uc_buf (cs_buf s))) a (cs_wr s)) as Hwt.
  destruct (poll_proxy_stream_write (UdpRelay.queue (uc_buf (cs_buf s))) a (cs_wr s)) as [res w'] eqn:Ew.
  pose proof (udp_relayed_writer s (cs_buf s) w' eq_refl eq_refl) as Hidle.
  destruct res as [n|e| |msg|]; cbn in Hwt |- *; try by split; auto.
  case_decide as Hn0; [subst n; by split|].
  unfold on_relay_buf, on_buf. rewrite st_zoom_bind. cbn [cs_buf cs_rd cs_wr advance].
  destruct (decide (n ≤ length (UdpRelay.queue (uc_buf (cs_buf s))))) as [Hfit|Hfit].
  - destruct (udp_sent_spec s a n w' Ha Ew Hwf Hfit) as (b' & Hadv & Hlen & Hrel).
    cbn [advance UdpRelay.UdpRelayBuffer_CursoredBuffer]. rewrite Hadv. st_simpl. cbn [cs_buf cs_rd cs_wr].
    destruct (Hrel Hwf) as [Hwf' _]. apply (IH _) in Hwf' as (Hr & Hok).
    split; [|done]. intros Ht. etrans; [done|by apply Hr].
  - destruct (UdpRelay.advance_past_queue (E:=io_error) n _ Hb ltac:(lia)) as [msg Hadv].
    cbn [advance UdpRelay.UdpRelayBuffer_CursoredBuffer]. by rewrite Hadv.
Qed.

(** Reading happens only into a drained buffer, which [reset] empties. *)
Lemma udp_read_step_spec inner_fuel s :
  uc_wf (cs_buf s) → UdpRelay.queue (uc_buf (cs_buf s)) = [] →
  post (udp_read_step inner_fuel) s (λ r s', tracked r → udp_relayed s s').
Proof.
  intros (Hb & Hn & Hq) Hempty. unfold post, udp_read_step, on_buf, on_reader. st_simpl.
  rewrite st_zoom_run. cbn [cs_rd cs_buf cs_wr uc_buf uc_set_buf].
  destruct (UdpRelay.wf_reset (uc_buf (cs_buf s))) as [Hbr Hqr].
  destruct (poll_proxy_stream_read inner_fuel (cs_rd s, UdpRelay.reset (uc_buf (cs_buf s))))
    as [res [r' b']] eqn:Er. cbn [fst snd].
  destruct (udp_read_whole _ _ _ _ _ _ Hbr Hqr Er) as [Hb' Hres].
  pose proof (udp_read_trace_1 _ _ _ _ _ _ Hbr Hqr Er) as Ht.
  assert (∀ c w', uc_wf c → udp_write_trace (cs_wr s) [] w' →
    udp_bytes_read res b' = uc_held c → udp_relayed s (mkCopySt c r' w')) as Hto.
  { intros c w' Hc Hw Heq Hwf. split; [done|]. exists (udp_bytes_read res b'), []. cbn.
    split_and!; [done..|]. unfold uc_held at 1. by rewrite Hempty. }
  destruct res as [a|e| |msg|]; [| |cbn in Hres|..]; cbn; try done.
  - intros _. cbn in Hto.
    destruct (uc_note_addr_spec a (uc_set_buf b' (uc_set_buf (UdpRelay.reset (uc_buf (cs_buf s))) (cs_buf s))) Hn)
      as [[-> ->]|[Ha ->]]; apply Hto; auto with oxide; unfold uc_wf, uc_held; cbn.
    + by rewrite Hres.
    + by rewrite Hres.
    + split_and!; [done|congruence|by eexists].
    + by destruct a.
  - assert (uc_wf (uc_set_buf b' (uc_set_buf (UdpRelay.reset (uc_buf (cs_buf s))) (cs_buf s)))) as Hwf'
      by (unfold uc_wf; cbn; by rewrite Hres).
    unfold on_wr. st_simpl. cbn [cs_buf uc_set_buf uc_need_flush].
    destruct (uc_need_flush (cs_buf s)).
    + rewrite st_bind_assoc, st_zoom_bind. cbn [cs_wr].
      pose proof (udp_write_trace_flush (cs_wr s)) as Hw.
      destruct (udp_poll_flush (cs_wr s)) as [[[]|e| |msg|] w']; try done; intros _;
        (apply Hto; [done..|unfold uc_held; cbn; by rewrite Hres]).
    + intros _. apply Hto; [done|auto with oxide|]. unfold uc_held. cbn. by rewrite Hres.
Qed.

Lemma udp_poll_copy_spec inner_fuel fuel s :
  uc_wf (cs_buf s) →
  post (udp_poll_copy inner_fuel fuel) s (λ r s', tracked r →
    udp_relayed s s' ∧ (∀ n, r = Ok n → UdpRelay.queue (uc_buf (cs_buf s')) = [])).
Proof.
  revert s. induction fuel as [|fuel IH]; intros s Hwf; [done|].
  cbn [udp_poll_copy]. apply post_bind, post_get, post_bind.
  eapply (post_mono _ _ (λ r s', tracked r → udp_relayed s s')).
  { case_match eqn:Hc; [|by intros _].
    apply andb_true_iff in Hc as [Hc _]. rewrite UdpRelay.has_remaining_queue in Hc.
    apply udp_read_step_spec; [done|].
    apply negb_true_iff, bool_decide_eq_false in Hc. by apply dec_stable. }
  intros r1 s1 Hr1. destruct r1 as [[]|e| |msg|]; try done;
    [|intros _; split; [by apply Hr1|done]].
  specialize (Hr1 Logic.I). destruct (Hr1 Hwf) as [Hwf1 _].
  apply post_bind. eapply post_mono.
  { unfold udp_write_all. apply post_bind, post_get. by apply udp_write_out_spec. }
  intros r2 s2 (Hr2 & Hq). assert (tracked r2 → udp_relayed s s2) as H12
    by (intros Ht; etrans; [done|by apply Hr2]).
  destruct r2 as [[]|e| |msg|]; try done; [|intros _; by split; [apply H12|]].
  specialize (H12 Logic.I). specialize (Hr2 Logic.I).
  destruct (Hr2 Hwf1) as [Hwf2 _].
  apply post_bind, post_get. case_match.
  - unfold post, on_wr. rewrite st_zoom_bind.
    pose proof (udp_write_trace_flush (cs_wr s2)) as Hw.
    destruct (udp_poll_flush (cs_wr s2)) as [[[]|e| |msg|] w']; cbn; try done; intros _;
      (split; [etrans; [done|by apply udp_relayed_writer]|]); [|done].
    intros _ _. by apply Hq.
  - eapply post_mono; [by apply IH|]. intros r3 s3 Hr3 Ht. destruct (Hr3 Ht) as [Hr3' Hok].
    split; [by etrans|done].
Qed.
End one_copy.

Lemma udp_poll_copy_copies {A B} `{UdpReadOk A, !UdpWrite A, UdpWrite B, !UdpRead B} inner_fuel fuel :
  copies uc_held uc_wf false udp_trace udp_trace
    (udp_poll_copy (R:=A) (W:=B) inner_fuel fuel).
Proof.
  intros s Hwf. eapply post_mono; [by apply udp_poll_copy_spec|]. intros r s' Hr Ht.
  destruct (Hr Ht) as [Hrel Hok]. destruct (Hrel Hwf) as (Hwf' & ins & outs & Ha & Hb & E).
  split_and!; [done| |exists ins, outs; auto with oxide].
  intros n Hn. unfold uc_held. by rewrite (Hok n Hn).
Qed.

Lemma udp_is_relay {I O : Type} `{UdpReadOk I, !UdpWrite I, UdpReadOk O, !UdpWrite O} inner_fuel fuel :
  poll_is_relay (udp_trace (S:=I)) (udp_trace (S:=O)) uc_held uc_wf false
    (λ up down reason, (up, down, reason)) (udp_bidi_poll inner_fuel fuel).
Proof.
  intros s Hwf. apply bidi_poll_spec; eauto using udp_trace_trans, udp_trace with oxide;
    apply udp_poll_copy_copies.
Qed.

Lemma uc_new_wf conn_id : uc_wf (UdpCopyBuf_new conn_id).
Proof. split_and!; [apply UdpRelay.wf_new|done|done]. Qed.

(** One direction alone: over any number of polls the writer was sent every byte the
    reader delivered, at its address; all of them once it is done. *)
Lemma copy_udp_carried {R W : Type} `{UdpReadOk R, UdpWrite W} inner_fuel fuel (r0 : R) (w0 : W) conn_id s r s' :
  rtc (λ t t', CopyUdp_poll inner_fuel fuel t = (Pending, t')) (copy_udp r0 w0 conn_id) s →
  CopyUdp_poll inner_fuel fuel s = (r, s') → match r with Ok _ | Pending => True | _ => False end →
  ∃ ins outs, udp_read_trace r0 ins (cs_rd s') ∧ udp_write_trace w0 outs (cs_wr s') ∧
    ins = outs ++ uc_held (cs_buf s') ∧ ∀ n, r = Ok n → ins = outs.
Proof.
  intros Hrun Hlast Ht.
  assert (∀ t t' (q : outcome io_error Z), uc_wf (cs_buf t) → CopyUdp_poll inner_fuel fuel t = (q, t') →
    match q with Ok _ | Pending => True | _ => False end →
    udp_relayed t t' ∧ ∀ n, q = Ok n → UdpRelay.queue (uc_buf (cs_buf t')) = []) as Hpoll.
  { intros t t' q Hwf Hp Hq. eapply post_run in Hp; [|by apply udp_poll_copy_spec]. apply Hp. by destruct q. }
  assert (udp_relayed (copy_udp r0 w0 conn_id) s ∧ uc_wf (cs_buf s)) as [Hs Hwf].
  { assert (uc_wf (cs_buf (copy_udp r0 w0 conn_id))) as Hwf by apply uc_new_wf. revert Hwf. clear Hlast.
    induction Hrun as [t|t1 t2 t3 Hstep _ IH]; intros Hwf; [by split|].
    destruct (Hpoll _ _ _ Hwf Hstep Logic.I) as [Hrel _]. destruct (Hrel Hwf) as [Hwf2 _].
    destruct (IH Hwf2) as [Hrel3 Hwf3]. split; [by etrans|done]. }
  destruct (Hpoll _ _ _ Hwf Hlast Ht) as [Hrel Hok].
  destruct ((transitivity Hs Hrel) (uc_new_wf conn_id)) as (_ & ins & outs & Hi & Ho & E).
  exists ins, outs. split; [done|]. split; [done|]. split; [exact E|].
  intros n Hn. rewrite <- (app_nil_r outs). rewrite (E : ins = _). unfold uc_held. by rewrite (Hok n Hn).
Qed.

(** The datagram relay keeps every byte with its address: after any number of
    polls, each end was sent exactly the bytes the other delivered, in order and
    each to the address it was delivered with, less the packet in flight; when the
    relay ends well nothing is in flight and the reason is the direction that ended
    first. (A poll that ends in an error or a panic is excluded: the reader may have
    failed with part of a packet in the buffer.) *)
Theorem udp_relay_integrity {I O : Type} `{UdpReadOk I, !UdpWrite I, UdpReadOk O, !UdpWrite O} inner_fuel fuel conn_id (i : I) (o : O) s r s' :
  rtc (pending_step (udp_bidi_poll inner_fuel fuel)) (udp_copy_bidirectional conn_id i o) s →
  udp_bidi_poll inner_fuel fuel s = (r, s') →
  match r with Ok _ | Pending => True | _ => False end →
  ∃ iin iout oin oout,
    udp_trace i iin iout (bi_i s') ∧ udp_trace o oin oout (bi_o s') ∧
    iin = oout ++ in_flight uc_held (bi_upload s') ∧
    oin = iout ++ in_flight uc_held (bi_download s') ∧
    ∀ up down reason, r = Ok (up, down, reason) →
      iin = oout ∧ oin = iout ∧ reason = if is_done (bi_upload s) then Upload else Download.
Proof.
  intros Hrun Hlast Ht.
  destruct (relay_integrity udp_trace udp_trace udp_refl udp_refl udp_trace_trans udp_trace_trans
    uc_held uc_wf false (λ up down reason, (up, down, reason)) (udp_bidi_poll inner_fuel fuel)
    (UdpCopyBuf_new (Some conn_id)) (UdpCopyBuf_new None) (uc_new_wf _) (uc_new_wf _) eq_refl eq_refl
    i o s r s' (udp_is_relay inner_fuel fuel) Hrun Hlast)
    as (iin & iout & oin & oout & Hi & Ho & _ & E1 & E2 & Hok); [by destruct r|].
  exists iin, iout, oin, oout. split_and!; [done..|].
  intros u d reason Hr. destruct (Hok _ Hr) as (? & ? & ? & ? & [= _ _ ?]). done.
Qed.

Definition ex_client : UdpScript :=
  mkUdpScript [Gives (V4 [8; 8; 8; 8]%Z 53%Z, [1; 2]%Z); Waits; Gives (V4 [1; 1; 1; 1]%Z 53%Z, [3]%Z);
    Gives (MNone, [])] [].
Definition ex_server : UdpScript := mkUdpScript [Gives (V4 [8; 8; 8; 8]%Z 53%Z, [9]%Z); Waits; Gives (MNone, [])] [].

Lemma udp_relay_integrity_witness :
  let s0 := udp_copy_bidirectional 1 ex_client ex_server in
  let s1 := (udp_bidi_poll 5 10 s0).2 in
  let s2 := (udp_bidi_poll 5 10 s1).2 in
  (udp_bidi_poll 5 10 s0).1 = Pending ∧ (udp_bidi_poll 5 10 s1).1 = Ok (3%Z, 1%Z, Download) ∧
  ∃ iin iout oin oout,
    udp_trace ex_client iin iout (bi_i s2) ∧ udp_trace ex_server oin oout (bi_o s2) ∧
    iin = oout ++ in_flight uc_held (bi_upload s2) ∧
    oin = iout ++ in_flight uc_held (bi_download s2) ∧
    ∀ up down reason, Ok (E:=io_error) (3%Z, 1%Z, Download) = Ok (up, down, reason) →
      iin = oout ∧ oin = iout ∧ reason = if is_done (bi_upload s1) then Upload else Download.
Proof.
  intros s0 s1 s2. split; [vm_compute; reflexivity|]. split; [vm_compute; reflexivity|].
  apply (udp_relay_integrity 5 10 1 ex_client ex_server s1 (Ok (3%Z, 1%Z, Download)) s2);
    [eapply rtc_l; [|apply rtc_refl]| |exact Logic.I]; vm_compute; reflexivity.
Defined.
