(* ===== verification/TrojanUdp.v ===== *)
(** Datagrams over a stream: [TrojanUdpStream] of
    src/src/utils/udp/trojan_udp_stream.rs.

    The sending half frames each datagram as address, length, CRLF, payload; the
    receiving half cuts the byte stream back into datagrams. *)
From S2P Require Import Prelude Vec MixAddr Io UdpTraits.

Record TrojanUdpStream (IO : Type) := mkTrojanUdpStream {
  tu_inner : BufferedRecv IO;
  tu_recv_buffer : UdpRelayBuffer;
  tu_expecting : option nat;
  tu_addr_buf : MixAddrType;
  tu_want_to_extract : bool;
  tu_send_buffer : UdpRelayBuffer;
  tu_data_len : nat;
}.
Arguments mkTrojanUdpStream {IO}.
Arguments tu_inner {IO}.
Arguments tu_recv_buffer {IO}.
Arguments tu_expecting {IO}.
Arguments tu_addr_buf {IO}.
Arguments tu_want_to_extract {IO}.
Arguments tu_send_buffer {IO}.
Arguments tu_data_len {IO}.

Definition TrojanUdpStream_new {IO} (inner : IO) (buffered_request : option (nat * list Z))
    : TrojanUdpStream IO :=
  mkTrojanUdpStream (BufferedRecv_new inner buffered_request) UdpRelay.new None MNone false
    UdpRelay.new 0.

Section fields.
Context {IO : Type}.
Definition tu_set_inner x (s : TrojanUdpStream IO) : TrojanUdpStream IO :=
  mkTrojanUdpStream x (tu_recv_buffer s) (tu_expecting s) (tu_addr_buf s)
  (tu_want_to_extract s) (tu_send_buffer s) (tu_data_len s).
Definition tu_set_recv x (s : TrojanUdpStream IO) : TrojanUdpStream IO :=
  mkTrojanUdpStream (tu_inner s) x (tu_expecting s) (tu_addr_buf s)
  (tu_want_to_extract s) (tu_send_buffer s) (tu_data_len s).
Definition tu_set_expecting x (s : TrojanUdpStream IO) : TrojanUdpStream IO :=
  mkTrojanUdpStream (tu_inner s) (tu_recv_buffer s) x (tu_addr_buf s)
  (tu_want_to_extract s) (tu_send_buffer s) (tu_data_len s).
Definition tu_set_addr x (s : TrojanUdpStream IO) : TrojanUdpStream IO :=
  mkTrojanUdpStream (tu_inner s) (tu_recv_buffer s) (tu_expecting s) x
  (tu_want_to_extract s) (tu_send_buffer s) (tu_data_len s).
Definition tu_set_want x (s : TrojanUdpStream IO) : TrojanUdpStream IO :=
  mkTrojanUdpStream (tu_inner s) (tu_recv_buffer s) (tu_expecting s)
  (tu_addr_buf s) x (tu_send_buffer s) (tu_data_len s).
Definition tu_set_send x (s : TrojanUdpStream IO) : TrojanUdpStream IO :=
  mkTrojanUdpStream (tu_inner s) (tu_recv_buffer s) (tu_expecting s)
  (tu_addr_buf s) (tu_want_to_extract s) x (tu_data_len s).
Definition tu_set_data_len x (s : TrojanUdpStream IO) : TrojanUdpStream IO :=
  mkTrojanUdpStream (tu_inner s) (tu_recv_buffer s) (tu_expecting s)
  (tu_addr_buf s) (tu_want_to_extract s) (tu_send_buffer s) x.
Definition on_inner {E A} (m : ST (BufferedRecv IO) E A) : ST (TrojanUdpStream IO) E A :=
  st_zoom tu_inner tu_set_inner m.
Definition on_recv {E A} (m : ST UdpRelayBuffer E A) : ST (TrojanUdpStream IO) E A :=
  st_zoom tu_recv_buffer tu_set_recv m.
Definition on_send {E A} (m : ST UdpRelayBuffer E A) : ST (TrojanUdpStream IO) E A :=
  st_zoom tu_send_buffer tu_set_send m.
End fields.

(** ** The sending half *)
Section send.
Context {W : Type} `{AsyncWrite W}.

Definition copy_into_inner (buf : list Z) (addr : MixAddrType)
    : ST (TrojanUdpStream W) io_error unit :=
  st_modify (tu_set_data_len (length buf));;
  len ← st_lift (Mix.encoded_len addr);
  on_send (UdpRelay.reserve_by_cursor (len + 4 + length buf));;
  on_send (Mix.write_buf addr);;
  on_send (st_modify (extend_from_slice (u16_to_be (u16_wrap (Z.of_nat (length buf))))));;
  on_send (st_modify (extend_from_slice [13; 10]%Z));;
  on_send (st_modify (extend_from_slice buf)).

(** The sending loop: every pass but the last one sends part of the buffer. *)
Fixpoint send_loop (fuel : nat) : ST (TrojanUdpStream W) io_error nat :=
  match fuel with
  | 0 => st_lift OutOfFuel
  | S fuel' =>
      s ← st_get;
      c ← st_lift (chunk (tu_send_buffer s));
      x ← on_inner (poll_write c);
      if decide (x = 0) then mret 0 else
      if decide (x < length c) then on_send (advance x);; send_loop fuel'
      else on_send (st_modify UdpRelay.reset);; mret (tu_data_len s)
  end.

Definition trojan_udp_write (buf : list Z) (addr : MixAddrType) : ST (TrojanUdpStream W) io_error nat :=
  s ← st_get;
  (if UdpRelay.is_empty (tu_send_buffer s) then copy_into_inner buf addr else mret tt);;
  s ← st_get;
  n ← st_lift (remaining (tu_send_buffer s));
  send_loop (S n).
End send.

#[export] Instance TrojanUdpStream_UdpWrite `{AsyncWrite W} : UdpWrite (TrojanUdpStream W) := {
  poll_proxy_stream_write := trojan_udp_write;
  udp_poll_flush := on_inner poll_flush;
  udp_poll_shutdown := on_inner poll_shutdown;
}.

(** ** The receiving half *)
Section recv.
Context {R : Type} `{AsyncRead R}.

Definition try_update_addr_buf : ST (TrojanUdpStream R) ParserError unit :=
  s ← st_get;
  if Mix.is_none (tu_addr_buf s) then
    addr ← on_recv Mix.from_encoded;
    st_modify (tu_set_addr addr)
  else mret tt.

Definition try_update_expecting : ST (TrojanUdpStream R) ParserError unit :=
  s ← st_get;
  match tu_expecting s with
  | Some _ => mret tt
  | None =>
      n ← st_lift (remaining (tu_recv_buffer s));
      if decide (n < 2) then throw (Incomplete "") else
      c ← st_lift (chunk (tu_recv_buffer s));
      hi ← st_lift (index c 0); lo ← st_lift (index c 1);
      let expecting := Z.to_nat (u16_from_be hi lo) in
      st_modify (tu_set_expecting (Some expecting));;
      on_recv (advance (2 + 2));;
      on_recv (UdpRelay.reserve_by_cursor expecting)
  end.

(** The two halves of a read: the stream and the caller's buffer. *)
Definition with_outer {E A} (m : ST (TrojanUdpStream R) E A)
    : ST (TrojanUdpStream R * UdpRelayBuffer) E A :=
  st_zoom fst (λ s p, (s, snd p)) m.

Definition unwrap_expecting (s : TrojanUdpStream R) : outcome io_error nat :=
  match tu_expecting s with
  | Some n => Ok n
  | None => Panic "called `Option::unwrap()` on a `None` value"
  end.

Definition copy_into_outer : ST (TrojanUdpStream R * UdpRelayBuffer) io_error unit :=
  '(s, _) ← st_get;
  expecting ← st_lift (unwrap_expecting s);
  c ← st_lift (chunk (tu_recv_buffer s));
  piece ← st_lift (slice c 0 expecting);
  st_modify (λ '(s, outer), (s, extend_from_slice piece outer));;
  with_outer (on_recv (advance expecting));;
  with_outer (on_recv UdpRelay.compact);;
  with_outer (st_modify (tu_set_expecting None)).

(** [Option<io::Result<MixAddrType>>]. *)
Definition try_extract_packet
    : ST (TrojanUdpStream R * UdpRelayBuffer) io_error (option (outcome io_error MixAddrType)) :=
  res ← st_try (with_outer (try_update_addr_buf;; try_update_expecting));
  match res with
  | Ok _ =>
      '(s, _) ← st_get;
      expecting ← st_lift (unwrap_expecting s);
      n ← st_lift (remaining (tu_recv_buffer s));
      if decide (expecting ≤ n) then
        copy_into_outer;;
        '(s, _) ← st_get;
        with_outer (st_modify (tu_set_addr MNone));;
        mret (Some (Ok (tu_addr_buf s)))
      else mret None
  | Err (Incomplete _) => mret None
  | Err (Invalid _) => mret (Some (Err OtherKind))
  | Pending => st_lift Pending
  | Panic msg => panic msg
  | OutOfFuel => st_lift OutOfFuel
  end.

Fixpoint trojan_udp_read (fuel : nat) : ST (TrojanUdpStream R * UdpRelayBuffer) io_error MixAddrType :=
  match fuel with
  | 0 => st_lift OutOfFuel
  | S fuel' =>
      '(s, _) ← st_get;
      extracted ← (if tu_want_to_extract s then try_extract_packet else mret None);
      match extracted with
      | Some res => st_lift res
      | None =>
          with_outer (st_modify (tu_set_want false));;
          with_outer (on_recv (st_modify UdpRelay.as_read_buf));;
          '(s, _) ← st_get;
          bs ← with_outer (on_inner (poll_read (UdpRelay.room (tu_recv_buffer s))));
          if decide (length bs = 0) then mret MNone else
          with_outer (on_recv (st_modify (UdpRelay.advance_mut bs)));;
          with_outer (st_modify (tu_set_want true));;
          trojan_udp_read fuel'
      end
  end.
End recv.

#[export] Instance TrojanUdpStream_UdpRead `{AsyncRead R} : UdpRead (TrojanUdpStream R) :=
  trojan_udp_read.

(** ** Frames *)
Definition frame (p : MixAddrType * list Z) : list Z :=
  Mix.encoded p.1 ++ u16_to_be (Z.of_nat (length p.2)) ++ [13; 10]%Z ++ p.2.

(** The datagrams the framing carries. *)
Definition framable (p : MixAddrType * list Z) : Prop :=
  wf_addr p.1 ∧ (Z.of_nat (length p.2) < 65536)%Z ∧
  Mix.encodable p.1.

(** What the other end makes of a datagram. *)
Definition received_as (p : MixAddrType * list Z) : MixAddrType * list Z := (Mix.as_decoded p.1, p.2).

Definition ex_datagrams : list (MixAddrType * list Z) :=
  [(V4 [8; 8; 8; 8] 53, [1; 2; 3]); (Hostname (bytes_of_string "a.b") 80, [4; 5])]%Z.

Definition ex_frames : list Z := concat (map frame ex_datagrams).

Definition frames (ps : list (MixAddrType * list Z)) : list Z := concat (map frame ps).

(** What is written, whatever the datagram. *)
Definition raw_frame (p : MixAddrType * list Z) : list Z :=
  Mix.written p.1 ++ u16_to_be (u16_wrap (Z.of_nat (length p.2))) ++ [13; 10]%Z ++ p.2.

Lemma raw_frame_frame p : framable p → raw_frame p = frame p.
Proof.
  intros (Hwf & Hlen & _). unfold raw_frame, frame.
  by rewrite Mix.written_encoded, u16_wrap_id by (done || (unfold is_u16; lia)).
Qed.

(** ** Receiving *)
Section receiving.
Context {R : Type} `{AsyncRead R}.
Implicit Types (s : TrojanUdpStream R) (outer : UdpRelayBuffer).

(** [fut] still holds part of the first datagram. *)
Definition incomplete (ps : list (MixAddrType * list Z)) (fut : list Z) : Prop :=
  match ps with [] => True | _ :: ps' => length (frames ps') < length fut end.

(** The parsed fields and the queue of [s], followed by the bytes [fut] still to
    come, are the frames of [ps]. *)
Definition awaits s (ps : list (MixAddrType * list Z)) (fut : list Z) : Prop :=
  UdpRelay.wf (tu_recv_buffer s) ∧
  (tu_want_to_extract s = false → incomplete ps fut) ∧
  let q := UdpRelay.queue (tu_recv_buffer s) in
  match tu_expecting s with
  | None =>
      (tu_addr_buf s = MNone ∧ q ++ fut = frames ps) ∨
      (∃ a p ps', ps = (a, p) :: ps' ∧ tu_addr_buf s = Mix.as_decoded a ∧
        q ++ fut = u16_to_be (Z.of_nat (length p)) ++ [13; 10]%Z ++ p ++ frames ps')
  | Some n =>
      ∃ a p ps', ps = (a, p) :: ps' ∧ tu_addr_buf s = Mix.as_decoded a ∧ n = length p ∧ q ++ fut = p ++ frames ps'
  end.

(** The stream broke inside the length and CRLF of the next datagram, after two
    or three of their four bytes. *)
Definition splits_crlf (ps : list (MixAddrType * list Z)) (fut : list Z) : Prop :=
  match ps with
  | [] => False
  | (_, p) :: ps' => length fut = length (p ++ frames ps') + 1 ∨ length fut = length (p ++ frames ps') + 2
  end.

(** What is needed next has not arrived, and nothing is cut inside the CRLF. *)
Definition starved ps fut : Prop := incomplete ps fut ∧ ¬ splits_crlf ps fut.

Lemma decode_prefix a rest q fut :
  wf_addr a → Mix.encodable a →
  q ++ fut = Mix.encoded a ++ rest →
  (length q < length (Mix.encoded a) ∧ ∃ msg, Mix.from_encoded_bytes q = Err (Incomplete msg)) ∨
  (∃ q', q = Mix.encoded a ++ q' ∧ q' ++ fut = rest ∧
     Mix.from_encoded_bytes q = Ok (Mix.as_decoded a, length (Mix.encoded a))).
Proof.
  intros Hwf Hok Hq. destruct (decide (length q < length (Mix.encoded a))) as [Hlt|Hge].
  - left. split; [done|]. pose proof (Mix.from_encoded_bytes_total q) as Ht.
    assert (Mix.settled (Mix.from_encoded_bytes q) →
      Mix.from_encoded_bytes q = Ok (Mix.as_decoded a, length (Mix.encoded a))) as Hs.
    { intros Hs%(Mix.from_encoded_bytes_app _ fut). rewrite <- Hs, Hq. by apply Mix.decode_encodable. }
    destruct (Mix.from_encoded_bytes q) as [[a' n]|[msg|msg]| | |] eqn:E; try done; [|by eauto|].
    + destruct Ht as (Hn & _). specialize (Hs Logic.I). simplify_eq. lia.
    + by specialize (Hs Logic.I).
  - right. exists (drop (length (Mix.encoded a)) q).
    assert (q = Mix.encoded a ++ drop (length (Mix.encoded a)) q) as Hq'.
    { rewrite <- (take_drop (length (Mix.encoded a)) q) at 1. f_equal.
      apply (f_equal (take (length (Mix.encoded a)))) in Hq.
      by rewrite take_app_le, take_app_length in Hq by lia. }
    split_and!; [done| |].
    + rewrite Hq', <- app_assoc in Hq. by apply app_inv_head in Hq.
    + rewrite Hq'. by apply Mix.decode_encodable.
Qed.

Lemma frames_cons p ps : frames (p :: ps) = frame p ++ frames ps.
Proof. done. Qed.

(** The address step. *)
Lemma try_update_addr_spec s ps fut :
  Forall framable ps → awaits s ps fut →
  (∃ msg, try_update_addr_buf s = (Err (Incomplete msg), s) ∧ starved ps fut) ∨
  (∃ s', try_update_addr_buf s = (Ok tt, s') ∧ awaits s' ps fut ∧ tu_addr_buf s' ≠ MNone ∧
     tu_inner s' = tu_inner s ∧ tu_want_to_extract s' = tu_want_to_extract s).
Proof.
  intros Hfr (Hwf & Hwant & Haw). unfold try_update_addr_buf. rewrite st_get_bind.
  assert (∀ a p ps', ps = (a, p) :: ps' → Mix.as_decoded a ≠ MNone) as Hne.
  { intros a p ps' ->. inversion Hfr as [|?? [_ [_ Ha]] _]. by destruct a. }
  destruct (decide (tu_addr_buf s = MNone)) as [HN|HN].
  2: { right. replace (Mix.is_none (tu_addr_buf s)) with false by (by destruct (tu_addr_buf s)).
    by exists s. }
  rewrite HN. cbn [Mix.is_none].
  destruct (tu_expecting s) as [n|] eqn:Hexp.
  { destruct Haw as (a & p & ps' & Hps & Ha & _). exfalso. eapply Hne; [done|congruence]. }
  destruct Haw as [[_ Hq]|(a & p & ps' & Hps & Ha & _)]; [|exfalso; eapply Hne; [done|congruence]].
  unfold on_recv. rewrite st_zoom_bind.
  destruct ps as [|[a p] ps].
  { left. apply app_eq_nil in Hq as [Hq _].
    rewrite (from_encoded_queue_Err _ (Incomplete "MixAddrType::from_encoded_bytes cmd") Hwf) by (by rewrite Hq).
    eexists. split; [by destruct s|split; [done|by intros []]]. }
  rewrite frames_cons in Hq. unfold frame in Hq. cbn [fst snd] in Hq. rewrite <- !app_assoc in Hq.
  pose proof (Forall_inv Hfr) as (Hwfa & Hlen & Hok). cbn [fst snd] in Hwfa, Hlen, Hok.
  destruct (decode_prefix a _ _ _ Hwfa Hok Hq) as [(Hlt & msg & Hd)|(q' & Hq1 & Hq2 & Hd)].
  - left. rewrite (from_encoded_queue_Err _ _ Hwf Hd).
    eexists. split; [by destruct s|]. apply (f_equal length) in Hq.
    rewrite !length_app in Hq. unfold starved. cbn [incomplete splits_crlf].
    rewrite length_app. cbn in Hq. lia.
  - right. destruct (from_encoded_queue_Ok _ _ _ Hwf Hd) as (b' & Hd' & Hwf' & Hq').
    rewrite Hd'. eexists. split; [reflexivity|]. cbn. split_and!; [|by eapply Hne|done|done].
    split; [done|]. split; [done|]. cbn. rewrite Hexp. right. exists a, p, ps.
    split_and!; [done..|]. rewrite Hq', Hq1, drop_app_length. exact Hq2.
Qed.

(** The length step. *)
Lemma try_update_expecting_spec s ps fut :
  Forall framable ps → awaits s ps fut → tu_addr_buf s ≠ MNone →
  (∃ msg, try_update_expecting s = (Err (Incomplete msg), s) ∧ starved ps fut) ∨
  (∃ s', try_update_expecting s = (Ok tt, s') ∧ awaits s' ps fut ∧
     tu_addr_buf s' = tu_addr_buf s ∧ is_Some (tu_expecting s') ∧ tu_inner s' = tu_inner s ∧
     tu_want_to_extract s' = tu_want_to_extract s) ∨
  (∃ msg, (try_update_expecting s).1 = Panic msg ∧ tu_inner (try_update_expecting s).2 = tu_inner s ∧
     splits_crlf ps fut).
Proof.
  intros Hfr Haws Hne. pose proof Haws as (Hwf & Hwant & Haw).
  unfold try_update_expecting. rewrite st_get_bind.
  destruct (tu_expecting s) as [n|] eqn:Hexp; [right; left; by exists s; rewrite Hexp|].
  destruct Haw as [[? _]|(a & p & ps' & -> & Ha & Hq)]; [done|].
  pose proof (Forall_inv Hfr) as (_ & Hlen & _). cbn [fst snd] in Hlen.
  destruct (u16_split (Z.of_nat (length p))) as (hi & lo & _ & _ & Hhl & Hbe); [unfold is_u16; lia|].
  rewrite Hbe in Hq. rewrite (UdpRelay.remaining_queue _ Hwf), (UdpRelay.chunk_queue _ Hwf). st_simpl.
  pose proof (f_equal length Hq) as Hl. rewrite !length_app in Hl. cbn [length] in Hl.
  case_decide as Hn2.
  { left. eexists. split; [done|]. unfold starved. cbn [incomplete splits_crlf].
    rewrite length_app. lia. }
  destruct (UdpRelay.queue (tu_recv_buffer s)) as [|x [|y t]] eqn:Eq; [cbn in Hn2; lia..|].
  cbn [app] in Hq. injection Hq as -> -> Hq. st_simpl. rewrite (index_Ok _ 0 hi) by done.
  st_simpl. rewrite (index_Ok _ 1 lo) by done. st_simpl.
  rewrite <- Hhl, Nat2Z.id. unfold on_recv. rewrite st_zoom_bind.
  cbn [tu_recv_buffer tu_set_expecting advance UdpRelay.UdpRelayBuffer_CursoredBuffer].
  destruct (decide (2 ≤ length t)) as [Ht|Ht].
  - right; left.
    destruct (UdpRelay.advance_queue (E:=ParserError) (2 + 2) _ Hwf) as (b1 & Hadv & Hwf1 & Hq1);
      [rewrite Eq; cbn; lia|]. rewrite Hadv. rewrite st_zoom_run.
    destruct (UdpRelay.reserve_queue (E:=ParserError) (length p) b1 Hwf1) as (b2 & Hres & Hwf2 & Hq2).
    cbn [tu_recv_buffer tu_set_recv]. rewrite Hres. eexists. split; [reflexivity|]. cbn.
    split_and!; [|done|by eexists|done..]. split; [done|]. split; [done|]. cbn.
    exists a, p, ps'. split_and!; [done..|]. rewrite Hq2, Hq1, Eq.
    destruct t as [|c [|d t]]; [cbn in Ht; lia..|]. cbn in Hq |- *. by simplify_eq.
  - right; right.
    destruct (UdpRelay.advance_past_queue (E:=ParserError) (2 + 2) _ Hwf) as (msg & Hadv);
      [rewrite Eq; cbn; lia|]. rewrite Hadv. exists msg. cbn [fst snd splits_crlf]. split_and!; [done..|].
    cbn [length] in *. rewrite !length_app. lia.
Qed.

(** Cutting out the next datagram. *)
Lemma copy_into_outer_spec s outer n p rest :
  UdpRelay.wf (tu_recv_buffer s) → tu_expecting s = Some n → n = length p →
  UdpRelay.queue (tu_recv_buffer s) = p ++ rest →
  ∃ b, copy_into_outer (s, outer) =
    (Ok tt, (tu_set_expecting None (tu_set_recv b s), UdpRelay.udp_extend p outer)) ∧
    UdpRelay.wf b ∧ UdpRelay.queue b = rest.
Proof.
  intros Hwf Hexp -> Hq. unfold copy_into_outer, unwrap_expecting, with_outer, on_recv.
  st_simpl. rewrite Hexp. st_simpl. rewrite (UdpRelay.chunk_queue _ Hwf). st_simpl.
  rewrite Hq, slice_Ok by (rewrite ?length_app; lia). st_simpl.
  rewrite Nat.sub_0_r, drop_0, take_app_length.
  rewrite st_zoom_bind. cbn [fst]. rewrite st_zoom_run. cbn [advance UdpRelay.UdpRelayBuffer_CursoredBuffer].
  destruct (UdpRelay.advance_queue (E:=io_error) (length p) _ Hwf) as (b1 & Hadv & Hwf1 & Hq1);
    [rewrite Hq, length_app; lia|]. rewrite Hadv. cbn [fst snd].
  rewrite st_zoom_bind, st_zoom_run. cbn [fst tu_recv_buffer tu_set_recv].
  destruct (UdpRelay.compact_queue (E:=io_error) b1 Hwf1) as (b2 & Hcomp & Hwf2 & Hq2 & _).
  rewrite Hcomp. exists b2. split_and!; [reflexivity|done|].
  by rewrite Hq2, Hq1, Hq, drop_app_length.
Qed.

Lemma with_outer_run {E A} (m : ST (TrojanUdpStream R) E A) s outer :
  with_outer m (s, outer) = ((m s).1, ((m s).2, outer)).
Proof. unfold with_outer. by rewrite st_zoom_run. Qed.

Lemma try_extract_spec s outer ps fut :
  Forall framable ps → awaits s ps fut → tu_want_to_extract s = true →
  (∃ s', try_extract_packet (s, outer) = (Ok None, (s', outer)) ∧ awaits s' ps fut ∧
     starved ps fut ∧ tu_inner s' = tu_inner s) ∨
  (∃ a p ps' s', ps = (a, p) :: ps' ∧
     try_extract_packet (s, outer) = (Ok (Some (Ok (Mix.as_decoded a))), (s', UdpRelay.udp_extend p outer)) ∧
     awaits s' ps' fut ∧ tu_inner s' = tu_inner s) ∨
  (∃ msg, (try_extract_packet (s, outer)).1 = Panic msg ∧
     tu_inner (try_extract_packet (s, outer)).2.1 = tu_inner s ∧ splits_crlf ps fut).
Proof.
  intros Hfr Haw Hwant. unfold try_extract_packet. rewrite st_try_bind.
  rewrite !with_outer_run. cbn [fst snd].
  destruct (try_update_addr_spec s ps fut Hfr Haw) as [(msg & Ha & Hinc)|(s1 & Ha & Haw1 & Hne & Hi1 & Hw1)].
  { left. exists s. rewrite st_bind_split, Ha. done. }
  rewrite (st_bind_run _ _ _ _ _ Ha).
  destruct (try_update_expecting_spec s1 ps fut Hfr Haw1 Hne)
    as [(msg & -> & Hinc)|[(s2 & -> & Haw2 & Ha2 & [n Hn] & Hi2 & Hw2)|(msg & Hp & Hi2 & Hsp)]].
  - left. exists s1. by rewrite Hi1.
  - cbn [fst snd]. st_simpl. unfold unwrap_expecting. rewrite Hn. st_simpl.
    destruct Haw2 as (Hwf2 & _ & Hq). rewrite (UdpRelay.remaining_queue _ Hwf2). st_simpl.
    rewrite Hn in Hq. destruct Hq as (a & p & ps' & -> & Hap & -> & Hq).
    case_decide as Hlen.
    + right; left. exists a, p, ps'.
      assert (UdpRelay.queue (tu_recv_buffer s2) =
        p ++ drop (length p) (UdpRelay.queue (tu_recv_buffer s2))) as Hqp.
      { rewrite <- (take_drop (length p) (UdpRelay.queue _)) at 1. f_equal.
        apply (f_equal (take (length p))) in Hq. by rewrite take_app_le, take_app_length in Hq by lia. }
      destruct (copy_into_outer_spec s2 outer _ p _ Hwf2 Hn eq_refl Hqp) as (b & Hc & Hwfb & Hqb).
      erewrite st_bind_run by exact Hc. st_simpl. eexists. split; [done|].
      cbn. rewrite Hap. split; [reflexivity|]. cbn. split; [|congruence].
      split; [done|]. split; [cbn; congruence|]. cbn. left. split; [done|].
      rewrite Hqb. rewrite Hqp, <- app_assoc in Hq. by apply app_inv_head in Hq.
    + left. exists s2. split; [done|]. split_and!; [|..|congruence].
      * split; [done|]. split; [congruence|]. rewrite Hn. by exists a, p, ps'.
      * apply (f_equal length) in Hq. rewrite !length_app in Hq. unfold starved.
        cbn [incomplete splits_crlf]. rewrite length_app. lia.
  - right; right. exists msg.
    destruct (try_update_expecting s1) as [res s2]. cbn in Hp, Hi2 |- *. subst res. cbn.
    split_and!; [done|congruence|done].
Qed.

(** Whatever the bytes are: extraction does not touch the inner stream, and the
    caller's buffer only grows, by the datagram returned. *)
Definition extends_outer (p p' : TrojanUdpStream R * UdpRelayBuffer) : Prop :=
  tu_inner p'.1 = tu_inner p.1 ∧
  (UdpRelay.wf p.2 → UdpRelay.wf p'.2 ∧ ∃ pl, UdpRelay.queue p'.2 = UdpRelay.queue p.2 ++ pl).

#[local] Instance extends_outer_preorder : PreOrder extends_outer.
Proof.
  split.
  - intros p. split; [done|]. intros Hw. split; [done|]. exists []. by rewrite app_nil_r.
  - intros p1 p2 p3 [I1 O1] [I2 O2]. split; [congruence|]. intros Hw.
    destruct (O1 Hw) as [Hw2 [pl1 E1]]. destruct (O2 Hw2) as [Hw3 [pl2 E2]].
    split; [done|]. exists (pl1 ++ pl2). by rewrite E2, E1, app_assoc.
Qed.

Lemma with_outer_extends {E A} (m : ST (TrojanUdpStream R) E A) p :
  keeps (λ s s', tu_inner s' = tu_inner s) m p.1 → keeps extends_outer (with_outer m) p.
Proof.
  destruct p as [s outer]. unfold keeps. cbn. intros Hm. rewrite with_outer_run. cbn.
  split; [done|]. cbn. intros Hw. split; [done|]. exists []. by rewrite app_nil_r.
Qed.

Lemma try_update_keeps_inner s :
  keeps (λ s s', tu_inner s' = tu_inner s) (try_update_addr_buf;; try_update_expecting) s.
Proof.
  assert (PreOrder (λ s s' : TrojanUdpStream R, tu_inner s' = tu_inner s)) as Hpre.
  { split; [by intros ?|]. intros s1 s2 s3 H1 H2. congruence. }
  apply (keeps_bind (R:=λ s s', tu_inner s' = tu_inner s)); [|intros _ s1 _].
  - unfold try_update_addr_buf. apply keeps_bind; [done|]. intros x s1 _.
    destruct (Mix.is_none _); [|done]. apply keeps_bind; [by apply keeps_zoom|]. by intros.
  - unfold try_update_expecting. apply keeps_bind; [done|]. intros x s2 _.
    destruct (tu_expecting x); [done|].
    repeat first [apply keeps_bind; [first [done|by apply keeps_zoom]|intros ? ? _]
      | apply keeps_if; intros _ | by apply keeps_zoom | done].
Qed.

Lemma try_update_addr_some s s' :
  (try_update_addr_buf;; try_update_expecting) s = (Ok tt, s') → tu_addr_buf s' ≠ MNone.
Proof.
  intros Hrun. apply st_bind_Ok in Hrun as ([] & s1 & H1 & H2).
  assert (tu_addr_buf s1 ≠ MNone) as Hne.
  { unfold try_update_addr_buf in H1. rewrite st_get_bind in H1.
    destruct (decide (tu_addr_buf s = MNone)) as [HN|HN].
    - rewrite HN in H1. cbn [Mix.is_none] in H1. apply st_bind_Ok in H1 as (a & s2 & Hd & H1).
      cbn in H1. injection H1 as <-. cbn. unfold on_recv in Hd. rewrite st_zoom_run in Hd.
      injection Hd as Hd _. unfold Mix.from_encoded in Hd.
      rewrite st_get_bind, st_bind_split in Hd. cbn in Hd.
      destruct (UdpRelay.udp_chunk (tu_recv_buffer s)) as [c| | | |]; try done.
      rewrite st_bind_split in Hd. cbn in Hd.
      pose proof (Mix.from_encoded_bytes_total c) as Ht.
      destruct (Mix.from_encoded_bytes c) as [[a' n]| | | |]; try done.
      destruct Ht as (_ & _ & Hne & _). rewrite st_bind_split in Hd.
      by destruct (UdpRelay.udp_advance n (tu_recv_buffer s)) as [[] ?]; cbn in Hd; simplify_eq.
    - destruct (tu_addr_buf s) eqn:E; unfold mret, st_ret in H1; cbn in H1; congruence. }
  unfold try_update_expecting in H2. rewrite st_get_bind in H2.
  destruct (tu_expecting s1); [unfold mret, st_ret in H2; congruence|].
  repeat match goal with
  | H : (_ ≫= _) _ = (Ok _, _) |- _ => apply st_bind_Ok in H as (? & ? & ? & ?)
  | H : st_lift _ _ = (Ok _, _) |- _ => unfold st_lift in H; simplify_eq
  | H : (if decide _ then _ else _) _ = _ |- _ => case_decide
  | H : st_modify _ _ = _ |- _ => unfold st_modify in H; simplify_eq
  | H : on_recv _ _ = _ |- _ => unfold on_recv in H; rewrite st_zoom_run in H; simplify_eq
  end; done.
Qed.

Lemma copy_into_outer_extends p : keeps extends_outer copy_into_outer p.
Proof.
  unfold copy_into_outer. apply keeps_bind; [apply keeps_get|]. intros [s o] p1 _.
  apply keeps_bind; [apply keeps_lift|]. intros n p2 _.
  apply keeps_bind; [apply keeps_lift|]. intros c p3 _.
  apply keeps_bind; [apply keeps_lift|]. intros piece p4 _.
  apply keeps_bind.
  { apply keeps_modify. destruct p4 as [s4 o4]. split; [done|]. cbn. intros Hw.
    destruct (UdpRelay.extend_queue piece o4 Hw). split; [done|by exists piece]. }
  intros _ p5 _. apply keeps_bind; [by apply with_outer_extends, keeps_zoom|]. intros _ p6 _.
  apply keeps_bind; [by apply with_outer_extends, keeps_zoom|]. intros _ p7 _.
  by apply with_outer_extends.
Qed.

Lemma try_extract_extends p : keeps extends_outer try_extract_packet p.
Proof.
  unfold try_extract_packet. apply keeps_bind.
  { apply keeps_try, with_outer_extends, try_update_keeps_inner. }
  intros res p1 _. destruct res as [[]|[]| |msg|]; try apply keeps_ret; try apply keeps_lift.
  apply keeps_bind; [apply keeps_get|]. intros [s o] p2 _.
  apply keeps_bind; [apply keeps_lift|]. intros n p3 _.
  apply keeps_bind; [apply keeps_lift|]. intros k p4 _.
  apply keeps_if; intros _; [|apply keeps_ret].
  apply keeps_bind; [apply copy_into_outer_extends|]. intros _ p5 _.
  apply keeps_bind; [apply keeps_get|]. intros [s' o'] p6 _.
  apply keeps_bind; [by apply with_outer_extends|]. intros _ p7 _. apply keeps_ret.
Qed.

(** Without a datagram the caller's buffer is untouched; with one, its address
    is a target. *)
Lemma copy_into_outer_addr s o s' o' :
  copy_into_outer (s, o) = (Ok tt, (s', o')) → tu_addr_buf s' = tu_addr_buf s.
Proof.
  unfold copy_into_outer. intros Hrun.
  repeat match goal with
  | H : (_ ≫= _) _ = (Ok _, _) |- _ => apply st_bind_Ok in H as (? & ? & ? & ?)
  | H : st_get _ = _ |- _ => unfold st_get in H; simplify_eq
  | H : st_lift _ _ = (Ok _, _) |- _ => unfold st_lift in H; simplify_eq
  | H : st_modify _ _ = _ |- _ => unfold st_modify in H; simplify_eq
  | H : with_outer _ _ = _ |- _ => rewrite with_outer_run in H; simplify_eq
  | H : (on_recv _ _).1 = _ |- _ => clear H
  end; cbn.
  unfold on_recv. by rewrite !st_zoom_run.
Qed.

Lemma copy_into_outer_runs (p : TrojanUdpStream R * UdpRelayBuffer) : (copy_into_outer p).1 ≠ Pending.
Proof.
  change (post copy_into_outer p (λ r _, r ≠ Pending)). unfold copy_into_outer.
  apply post_bind, post_get. destruct p as [s o]. unfold unwrap_expecting, slice.
  apply post_bind, post_lift. destruct (tu_expecting s) as [n|]; [|done].
  apply post_bind, post_lift. cbn. unfold UdpRelay.udp_chunk, slice_from. case_decide; [|done].
  apply post_bind, post_lift. case_decide; [|done].
  apply post_bind, post_modify, post_bind. unfold post, with_outer, on_recv. rewrite !st_zoom_run. cbn.
  unfold UdpRelay.udp_advance. case_decide; [|done]. cbn.
  rewrite st_zoom_bind, st_zoom_run. cbn.
  unfold UdpRelay.compact. rewrite st_get_bind. case_decide; [done|]. cbn.
  rewrite st_bind_split. cbn. unfold UdpRelay.udp_chunk, slice_from. case_decide; [|done]. cbn.
  rewrite st_bind_split. unfold st_lift.
  pose proof (copy_down_runs (E:=io_error) (ub_cursor (tu_recv_buffer s) + n)
    (length (drop (ub_cursor (tu_recv_buffer s) + n) (vdata (ub_inner (tu_recv_buffer s)))))
    (vdata (ub_inner (tu_recv_buffer s)))) as Hd.
  unfold copy_down in Hd. by destruct (foldl _ _ _).
Qed.

Lemma try_extract_result s o :
  post try_extract_packet (s, o) (λ r p, match r with
    | Ok None => p.2 = o
    | Ok (Some (Ok a)) => a ≠ MNone
    | Ok (Some (Err _)) => True
    | Ok (Some _) => False
    | Pending => p.2 = o
    | _ => True
    end).
Proof.
  unfold post, try_extract_packet. rewrite st_try_bind, with_outer_run. cbn [fst snd].
  destruct ((try_update_addr_buf;; try_update_expecting) s) as [res s1] eqn:Hm. cbn [fst snd].
  destruct res as [[]|[]| |msg|]; try done.
  apply try_update_addr_some in Hm. rewrite st_get_bind. unfold unwrap_expecting.
  destruct (tu_expecting s1) as [n|]; [|done]. st_simpl. rewrite st_bind_split. unfold st_lift at 1.
  destruct (remaining (E:=io_error) (tu_recv_buffer s1)) as [k| | | |]; try done. cbn.
  destruct (decide (n ≤ k)); [|done].
  rewrite st_bind_split. destruct (copy_into_outer (s1, o)) as [[[]| | | |] [s2 o2]] eqn:Hc; try done;
    [|exfalso; apply (copy_into_outer_runs (s1, o)); by rewrite Hc].
  apply copy_into_outer_addr in Hc. cbn. congruence.
Qed.

End receiving.

Section reading.
Context {R : Type} `{AsyncReadOk R}.
Implicit Types (s : TrojanUdpStream R) (outer : UdpRelayBuffer).

(** One turn of the reading loop when nothing was extracted. *)
Definition read_more (fuel : nat) : ST (TrojanUdpStream R * UdpRelayBuffer) io_error MixAddrType :=
  with_outer (st_modify (tu_set_want false));;
  with_outer (on_recv (st_modify UdpRelay.as_read_buf));;
  '(s, _) ← st_get;
  bs ← with_outer (on_inner (poll_read (UdpRelay.room (tu_recv_buffer s))));
  if decide (length bs = 0) then mret MNone else
  with_outer (on_recv (st_modify (UdpRelay.advance_mut bs)));;
  with_outer (st_modify (tu_set_want true));;
  trojan_udp_read fuel.

Lemma trojan_udp_read_unfold fuel s outer :
  trojan_udp_read (S fuel) (s, outer) =
    (extracted ← (if tu_want_to_extract s then try_extract_packet else mret None);
     match extracted with Some res => st_lift res | None => read_more fuel end) (s, outer).
Proof. done. Qed.

(** The stream after [read_more] read [bs] into it. *)
Definition refilled (bs : list Z) (inner : BufferedRecv R) s : TrojanUdpStream R :=
  tu_set_want true (tu_set_inner inner
    (tu_set_recv (UdpRelay.advance_mut bs (UdpRelay.as_read_buf (tu_recv_buffer s))) s)).

Definition waiting (inner : BufferedRecv R) s : TrojanUdpStream R :=
  tu_set_inner inner (tu_set_recv (UdpRelay.as_read_buf (tu_recv_buffer s)) (tu_set_want false s)).

Lemma read_more_run fuel s outer :
  read_more fuel (s, outer) =
    let '(res, inner) := poll_read (UdpRelay.room (UdpRelay.as_read_buf (tu_recv_buffer s))) (tu_inner s) in
    match res with
    | Ok bs => if decide (length bs = 0) then (Ok MNone, (waiting inner s, outer))
               else trojan_udp_read fuel (refilled bs inner s, outer)
    | Err e => (Err e, (waiting inner s, outer))
    | Pending => (Pending, (waiting inner s, outer))
    | Panic msg => (Panic msg, (waiting inner s, outer))
    | OutOfFuel => (OutOfFuel, (waiting inner s, outer))
    end.
Proof.
  unfold read_more, with_outer, on_recv, on_inner. rewrite !st_zoom_bind. cbn. rewrite st_zoom_bind. cbn.
  rewrite st_get_bind. rewrite st_zoom_bind. cbn.
  rewrite st_zoom_run. cbn. unfold poll_read, BufferedRecv_AsyncRead. cbn.
  destruct (BufferedRecv_poll_read _ _) as [[bs|e| |msg|] inner]; try done. cbn.
  case_decide; [done|]. rewrite st_zoom_bind. cbn. rewrite st_zoom_bind. done.
Qed.

Lemma awaits_waiting inner s ps fut :
  awaits s ps fut → incomplete ps fut → awaits (waiting inner s) ps fut.
Proof.
  intros (Hwf & _ & Haw) Hinc. destruct (UdpRelay.as_read_buf_queue _ Hwf) as (Hw & Hq & _).
  split; [done|]. split; [done|]. unfold waiting.
  cbn [tu_recv_buffer tu_set_inner tu_set_recv tu_set_want tu_expecting tu_addr_buf]. by rewrite Hq.
Qed.

Lemma awaits_refilled bs inner s ps fut :
  length bs ≤ UdpRelay.room (UdpRelay.as_read_buf (tu_recv_buffer s)) →
  awaits s ps (bs ++ fut) → awaits (refilled bs inner s) ps fut.
Proof.
  intros Hfit (Hwf & _ & Haw). destruct (UdpRelay.as_read_buf_queue _ Hwf) as (Hw & Hq & _).
  destruct (UdpRelay.advance_mut_queue bs _ Hw Hfit) as [Hw' Hq'].
  split; [done|]. split; [done|]. unfold refilled.
  cbn [tu_recv_buffer tu_set_inner tu_set_recv tu_set_want tu_expecting tu_addr_buf].
  by rewrite Hq', Hq, <- app_assoc.
Qed.

(** The outcome of a read, given the datagrams [ps] it is in the middle of and the
    bytes [fut] that come after those it read. *)
Definition read_outcome (ps : list (MixAddrType * list Z)) (fut : list Z) outer
    (r : outcome io_error MixAddrType) (p : TrojanUdpStream R * UdpRelayBuffer) : Prop :=
  match r with
  | Ok MNone | Pending => p.2 = outer ∧ awaits p.1 ps fut ∧ incomplete ps fut
  | Ok a => ∃ a0 pl ps', a = Mix.as_decoded a0 ∧ ps = (a0, pl) :: ps' ∧ p.2 = UdpRelay.udp_extend pl outer ∧ awaits p.1 ps' fut
  | Err e => ∃ room inner, poll_read room inner = (Err e, tu_inner p.1)
  | Panic msg => (∃ room inner, poll_read room inner = (Panic msg, tu_inner p.1)) ∨ splits_crlf ps fut
  | OutOfFuel => True
  end.

Lemma trojan_udp_read_spec fuel s outer :
  post (trojan_udp_read fuel) (s, outer) (λ r p,
    ∃ ins, read_trace (tu_inner s) ins (tu_inner p.1) ∧
      ∀ ps fut, Forall framable ps → awaits s ps (ins ++ fut) → read_outcome ps fut outer r p).
Proof.
  revert s. induction fuel as [|fuel IH]; intros s; [exists []; split; [apply rt_refl|done]|].
  unfold post. rewrite trojan_udp_read_unfold.
  assert (∀ s0, tu_inner s0 = tu_inner s →
    (∀ ps fut, Forall framable ps → awaits s ps fut → awaits s0 ps fut ∧ incomplete ps fut) →
    post (read_more fuel) (s0, outer) (λ r p, ∃ ins, read_trace (tu_inner s) ins (tu_inner p.1) ∧
      ∀ ps fut, Forall framable ps → awaits s ps (ins ++ fut) → read_outcome ps fut outer r p)) as Hmore.
  { intros s0 Hi Haw. unfold post. rewrite read_more_run, Hi.
    pose proof (read_trace_1 (UdpRelay.room (UdpRelay.as_read_buf (tu_recv_buffer s0))) (tu_inner s)) as Ht.
    destruct (poll_read _ (tu_inner s)) as [res inner] eqn:Er. cbn [fst snd bytes_read] in Ht.
    destruct res as [bs|e| |msg|]; [case_decide as Hlen|..].
    - apply nil_length_inv in Hlen as ->. exists []. split; [done|]. intros ps fut Hfr H1.
      destruct (Haw ps fut Hfr H1) as [H2 H3]. split_and!; [done| |done]. by apply awaits_waiting.
    - destruct (IH (refilled bs inner s0)) as (ins & Htr & Hout).
      exists (bs ++ ins). split; [by eapply read_trace_trans|].
      intros ps fut Hfr H1. apply Hout; [done|]. apply awaits_refilled; [exact (poll_read_fits _ _ _ _ Er)|].
      rewrite app_assoc. by apply Haw.
    - exists []. split; [done|]. intros ps fut Hfr H1. by eexists _, _.
    - exists []. split; [done|]. intros ps fut Hfr H1.
      destruct (Haw ps fut Hfr H1) as [H2 H3]. split_and!; [done| |done]. by apply awaits_waiting.
    - exists []. split; [done|]. intros ps fut Hfr H1. left. by eexists _, _.
    - by exists []. }
  destruct (tu_want_to_extract s) eqn:Hw; [|apply (Hmore s); [done|intros ps fut _ Ha; pose proof Ha as (_ & Hi & _); auto]].
  rewrite st_bind_split. pose proof (try_extract_extends (s, outer)) as [Hin _].
  pose proof (try_extract_result s outer) as Hres. unfold post in Hres.
  pose proof (λ ps fut Hfr Haw, try_extract_spec s outer ps fut Hfr Haw Hw) as Hspec.
  destruct (try_extract_packet (s, outer)) as [res [s1 o1]] eqn:Ex. cbn [fst snd] in *.
  destruct res as [[res|]|e| |msg|].
  - exists []. split; [cbn; rewrite Hin; auto with oxide|]. intros ps fut Hfr Haw.
    destruct (Hspec ps fut Hfr Haw) as [(s' & [=] & _)|[(a & p & ps' & s' & Hps & [= Hr Hs Ho] & Haw' & _)|(msg & [=] & _)]].
    subst. unfold read_outcome. cbn in Hres |- *.
    destruct (Mix.as_decoded a) eqn:Ea; [by (eexists _, _, _; split; [exact (eq_sym Ea)|])..|done].
  - cbn in Hres. subst o1. apply Hmore; [done|]. intros ps fut Hfr Haw.
    destruct (Hspec ps fut Hfr Haw) as [(s' & [= ->] & ? & [? _] & _)|[(? & ? & ? & ? & _ & [=] & _)|(? & [=] & _)]].
    done.
  - exists []. split; [cbn; rewrite Hin; auto with oxide|]. intros ps fut Hfr Haw.
    destruct (Hspec ps fut Hfr Haw) as [(? & [=] & _)|[(? & ? & ? & ? & _ & [=] & _)|(? & [=] & _)]].
  - exists []. split; [cbn; rewrite Hin; auto with oxide|]. intros ps fut Hfr Haw.
    destruct (Hspec ps fut Hfr Haw) as [(? & [=] & _)|[(? & ? & ? & ? & _ & [=] & _)|(? & [=] & _)]].
  - exists []. split; [cbn; rewrite Hin; auto with oxide|]. intros ps fut Hfr Haw.
    destruct (Hspec ps fut Hfr Haw) as [(? & [=] & _)|[(? & ? & ? & ? & _ & [=] & _)|(? & [=] & _ & Hsp)]].
    by right.
  - exists []. split; [cbn; rewrite Hin; auto with oxide|]. intros ps fut Hfr Haw.
    destruct (Hspec ps fut Hfr Haw) as [(? & [=] & _)|[(? & ? & ? & ? & _ & [=] & _)|(? & [=] & _)]].
Qed.
End reading.

(** The stream is a datagram reader in the sense of the relay. *)
#[export] Instance TrojanUdpStream_UdpReadOk `{AsyncReadOk R} : UdpReadOk (TrojanUdpStream R).
Proof.
  intros fuel. unfold poll_proxy_stream_read, TrojanUdpStream_UdpRead.
  induction fuel as [|fuel IH]; intros s b res s' b' Hb Hq; [by intros [= <- <- <-]|].
  rewrite trojan_udp_read_unfold.
  assert (∀ s0, read_more fuel (s0, b) = (res, (s', b')) → UdpRelay.wf b' ∧
    match res with
    | Ok MNone | Pending => UdpRelay.queue b' = []
    | _ => True
    end) as Hmore.
  { intros s0. rewrite read_more_run. destruct (poll_read _ _) as [[bs|e| |msg|] inner];
      [case_decide; [by intros [= <- <- <-]|by apply IH]|by intros [= <- <- <-]..]. }
  destruct (tu_want_to_extract s); [|by apply Hmore].
  rewrite st_bind_split. pose proof (try_extract_extends (s, b)) as [_ Hout].
  pose proof (try_extract_result s b) as Hres. unfold post in Hres.
  destruct (try_extract_packet (s, b)) as [r1 [s1 b1]] eqn:Ex. cbn [fst snd] in *.
  destruct (Hout Hb) as [Hb1 Hpl].
  destruct r1 as [[r2|]|e| |msg|].
  - intros [= -> -> ->]. split; [done|].
    destruct res as [[]| | | |]; cbn in *; try done; by rewrite ?Hpl, ?Hres.
  - cbn in Hres. subst b1. apply Hmore.
  - by intros [= <- <- <-].
  - intros [= <- <- <-]. cbn in Hres. by subst b1.
  - by intros [= <- <- <-].
  - by intros [= <- <- <-].
Qed.

(** ** Sending *)
Section sending.
Context {W : Type} `{AsyncWriteOk W}.
Implicit Types (s : TrojanUdpStream W).

Definition idle s : Prop := UdpRelay.is_empty (tu_send_buffer s) = true.

(** What a write of [p] still has to put on the stream, and the count it reports
    in the end. *)
Definition due s (p : MixAddrType * list Z) : list Z :=
  if UdpRelay.is_empty (tu_send_buffer s) then raw_frame p else UdpRelay.queue (tu_send_buffer s).
Definition due_len s (buf : list Z) : nat :=
  if UdpRelay.is_empty (tu_send_buffer s) then length buf else tu_data_len s.

(** The same for a datagram the framing carries. *)
Definition remaining_frame s (p : MixAddrType * list Z) : list Z :=
  if UdpRelay.is_empty (tu_send_buffer s) then frame p else UdpRelay.queue (tu_send_buffer s).

(** Between writes the send buffer is empty or holds the rest of a frame. *)
Definition send_wf s : Prop :=
  UdpRelay.wf (tu_send_buffer s) ∧ (¬ idle s → UdpRelay.queue (tu_send_buffer s) ≠ []).

Lemma copy_into_inner_spec s a buf :
  UdpRelay.wf (tu_send_buffer s) → idle s → a ≠ MNone →
  ∃ s', copy_into_inner buf a s = (Ok tt, s') ∧ UdpRelay.wf (tu_send_buffer s') ∧
    UdpRelay.queue (tu_send_buffer s') = raw_frame (a, buf) ∧ tu_data_len s' = length buf ∧
    tu_inner s' = tu_inner s.
Proof.
  intros Hwf Hidle Hne. unfold copy_into_inner, on_send. st_simpl.
  assert (∃ n, Mix.encoded_len (E:=io_error) a = Ok n) as [n ->] by (destruct a; [by eexists..|done]). st_simpl.
  rewrite st_zoom_bind. cbn [tu_send_buffer tu_set_data_len].
  destruct (UdpRelay.reserve_queue (E:=io_error) (n + 4 + length buf) _ Hwf)
    as (b1 & -> & Hwf1 & Hq1).
  rewrite st_zoom_bind. cbn [tu_send_buffer tu_set_send].
  destruct (write_buf_queue (E:=io_error) a b1 Hne Hwf1) as (b2 & -> & Hwf2 & Hq2).
  do 3 (rewrite ?st_zoom_bind, ?st_zoom_run; cbn [st_modify tu_send_buffer tu_set_send fst snd]).
  destruct (UdpRelay.extend_queue (u16_to_be (u16_wrap (Z.of_nat (length buf)))) b2 Hwf2) as [Hwf3 Hq3].
  destruct (UdpRelay.extend_queue [13; 10]%Z _ Hwf3) as [Hwf4 Hq4].
  destruct (UdpRelay.extend_queue buf _ Hwf4) as [Hwf5 Hq5].
  eexists. split; [reflexivity|].
  cbn [tu_send_buffer tu_set_send tu_data_len tu_set_data_len tu_inner]. split_and!; [done| |done..].
  etrans; [exact Hq5|]. rewrite Hq4, Hq3, Hq2, Hq1. unfold raw_frame. cbn [fst snd].
  replace (UdpRelay.queue (tu_send_buffer s)) with (@nil Z); [by rewrite <- !app_assoc|].
  unfold idle, UdpRelay.is_empty in Hidle. apply bool_decide_eq_true in Hidle.
  unfold UdpRelay.queue, vec_len in *. by apply nil_length_inv in Hidle as ->; rewrite drop_nil.
Qed.

Lemma not_idle_queue s : UdpRelay.queue (tu_send_buffer s) ≠ [] → UdpRelay.is_empty (tu_send_buffer s) = false.
Proof.
  unfold UdpRelay.is_empty, UdpRelay.queue, vec_len. intros Hq. apply bool_decide_eq_false.
  intros He%nil_length_inv. by rewrite He, drop_nil in Hq.
Qed.

(** The sending loop ends within its fuel and puts the queue on the stream. *)
Lemma send_loop_spec fuel s :
  UdpRelay.wf (tu_send_buffer s) → UdpRelay.queue (tu_send_buffer s) ≠ [] →
  length (UdpRelay.queue (tu_send_buffer s)) < fuel →
  post (send_loop fuel) s (λ r s', send_wf s' ∧ tu_data_len s' = tu_data_len s ∧ ∃ outs,
    write_trace (br_inner (tu_inner s)) outs (br_inner (tu_inner s')) ∧
    match r with
    | Ok n =>
        (outs = UdpRelay.queue (tu_send_buffer s) ∧ idle s' ∧ n = tu_data_len s) ∨
        (n = 0 ∧ ∃ b w, poll_write b w = (Ok 0, br_inner (tu_inner s')))
    | OutOfFuel => False
    | _ => UdpRelay.queue (tu_send_buffer s) = outs ++ UdpRelay.queue (tu_send_buffer s') ∧ ¬ idle s'
    end).
Proof.
  revert s. induction fuel as [|fuel IH]; intros s Hwf Hne Hfuel; [lia|].
  unfold post. cbn [send_loop]. rewrite st_get_bind, (UdpRelay.chunk_queue _ Hwf). st_simpl.
  unfold on_inner. rewrite st_zoom_bind. cbn [poll_write BufferedRecv_AsyncWrite]. rewrite st_zoom_run.
  pose proof (write_trace_1 (UdpRelay.queue (tu_send_buffer s)) (br_inner (tu_inner s))) as Ht.
  pose proof (poll_write_returns (UdpRelay.queue (tu_send_buffer s)) (br_inner (tu_inner s))) as Hret.
  destruct (poll_write (UdpRelay.queue (tu_send_buffer s)) (br_inner (tu_inner s))) as [res w'] eqn:Ew.
  cbn [fst snd] in *. pose proof (not_idle_queue s Hne) as Hni.
  assert (∀ inner, send_wf (tu_set_inner inner s) ∧ ¬ idle (tu_set_inner inner s)) as Hkeep.
  { intros inner. split; [by split|]. unfold idle. cbn. by rewrite Hni. }
  destruct res as [x|e| |msg|]; cbn [bytes_accepted] in Ht;
    [|split; [apply Hkeep|]; split; [done|]; exists []; split; [done|]; split; [done|apply Hkeep]..|done].
  pose proof (poll_write_fits _ _ _ _ Ew) as Hfit.
  case_decide as Hx0.
  { subst x. cbn. split; [apply Hkeep|]. split; [done|]. exists []. split; [done|]. right. by eauto. }
  case_decide as Hx.
  - unfold on_send. rewrite st_zoom_bind. cbn [tu_send_buffer tu_set_inner].
    cbn [advance UdpRelay.UdpRelayBuffer_CursoredBuffer].
    destruct (UdpRelay.advance_queue (E:=io_error) x _ Hwf Hfit) as (b' & -> & Hwf' & Hq').
    assert (length (UdpRelay.queue b') = length (UdpRelay.queue (tu_send_buffer s)) - x) as Hl'
      by (by rewrite Hq', length_drop).
    destruct (IH (tu_set_send b' (tu_set_inner (br_set_inner w' (tu_inner s)) s))) as (Hw & Hdl & outs & Hto & Hr);
      [done|by intros Hnil; cbn in Hnil; rewrite Hnil in Hl'; cbn in Hl'; lia|cbn; lia|].
    split; [done|]. split; [exact Hdl|]. exists (take x (UdpRelay.queue (tu_send_buffer s)) ++ outs).
    split; [by eapply write_trace_trans|]. cbn [tu_send_buffer tu_set_send tu_set_inner tu_data_len] in Hr.
    rewrite Hq' in Hr. destruct (send_loop fuel _) as [[n|e| |msg|] s']; cbn [fst snd] in *; [|..|done].
    + destruct Hr as [(Ho & ? & ?)|?]; [left|by right]. by rewrite Ho, take_drop.
    + destruct Hr as [Hr ?]. by rewrite <- app_assoc, <- Hr, take_drop.
    + destruct Hr as [Hr ?]. by rewrite <- app_assoc, <- Hr, take_drop.
    + destruct Hr as [Hr ?]. by rewrite <- app_assoc, <- Hr, take_drop.
  - unfold on_send. rewrite st_zoom_bind. cbn [st_modify tu_send_buffer tu_set_inner].
    destruct (UdpRelay.wf_reset (tu_send_buffer s)) as [Hwr Hqr].
    assert (idle (tu_set_send (UdpRelay.reset (tu_send_buffer s))
      (tu_set_inner (br_set_inner w' (tu_inner s)) s))) as Hid.
    { unfold idle, UdpRelay.is_empty. cbn. rewrite bool_decide_eq_true. unfold vec_len. cbn. by rewrite take_0. }
    split; [split; [done|by intros []]|]. split; [done|]. exists (UdpRelay.queue (tu_send_buffer s)).
    rewrite take_ge in Ht by lia. split; [done|]. by left.
Qed.

(** One write: it puts a prefix of what is due on the stream and keeps the rest. *)
Lemma trojan_udp_write_spec s a buf :
  send_wf s → a ≠ MNone →
  post (trojan_udp_write buf a) s (λ r s', send_wf s' ∧ ∃ outs,
    write_trace (br_inner (tu_inner s)) outs (br_inner (tu_inner s')) ∧
    match r with
    | Ok n =>
        (outs = due s (a, buf) ∧ idle s' ∧ n = due_len s buf) ∨
        (n = 0 ∧ ∃ b w, poll_write b w = (Ok 0, br_inner (tu_inner s')))
    | OutOfFuel => False
    | _ => due s (a, buf) = outs ++ UdpRelay.queue (tu_send_buffer s') ∧ ¬ idle s' ∧
        tu_data_len s' = due_len s buf
    end).
Proof.
  intros Hwf Hne. unfold trojan_udp_write, due, due_len, post. rewrite st_get_bind.
  assert (∀ s0, UdpRelay.wf (tu_send_buffer s0) → UdpRelay.queue (tu_send_buffer s0) ≠ [] →
    post (n ← st_lift (remaining (tu_send_buffer s0)); send_loop (S n)) s0 (λ r s', send_wf s' ∧
    ∃ outs, write_trace (br_inner (tu_inner s0)) outs (br_inner (tu_inner s')) ∧
    match r with
    | Ok n =>
        (outs = UdpRelay.queue (tu_send_buffer s0) ∧ idle s' ∧ n = tu_data_len s0) ∨
        (n = 0 ∧ ∃ b w, poll_write b w = (Ok 0, br_inner (tu_inner s')))
    | OutOfFuel => False
    | _ => UdpRelay.queue (tu_send_buffer s0) = outs ++ UdpRelay.queue (tu_send_buffer s') ∧ ¬ idle s' ∧
        tu_data_len s' = tu_data_len s0
    end)) as Hloop.
  { intros s0 Hw0 Hq0. unfold post. rewrite (UdpRelay.remaining_queue _ Hw0), st_lift_Ok_bind.
    destruct (send_loop_spec _ s0 Hw0 Hq0 (Nat.lt_succ_diag_r _)) as (? & ? & outs & ? & Hr).
    split; [done|]. exists outs. split; [done|].
    destruct (send_loop _ s0) as [[] ?]; cbn [fst snd] in *; naive_solver. }
  destruct (UdpRelay.is_empty (tu_send_buffer s)) eqn:Hi.
  - destruct (copy_into_inner_spec s a buf (proj1 Hwf) Hi Hne) as (s1 & Hc & Hw1 & Hq1 & Hd1 & Hi1).
    rewrite (st_bind_run _ _ _ _ _ Hc), st_get_bind, <- Hi1, <- Hq1, <- Hd1. apply Hloop; [done|].
    rewrite Hq1. unfold raw_frame. pose proof (Mix.written_nonempty a Hne) as Hn. cbn [fst].
    by destruct (Mix.written a); [cbn in Hn; lia|].
  - rewrite st_ret_bind, st_get_bind. apply Hloop; [apply Hwf|]. apply Hwf. unfold idle. by rewrite Hi.
Qed.
End sending.

(** ** The two halves leave each other alone *)
Section halves.
Context {IO : Type}.
Implicit Types s : TrojanUdpStream IO.

Definition recv_half s :=
  (buffered_request (tu_inner s), tu_recv_buffer s, tu_expecting s, tu_addr_buf s, tu_want_to_extract s).
Definition send_half s := (tu_send_buffer s, tu_data_len s).

#[local] Instance same_recv_preorder : PreOrder (λ s s', recv_half s' = recv_half s).
Proof. split; [done|]. intros s1 s2 s3 H1 H2. congruence. Qed.
#[local] Instance same_send_preorder :
  PreOrder (λ p p' : TrojanUdpStream IO * UdpRelayBuffer, send_half p'.1 = send_half p.1).
Proof. split; [done|]. intros s1 s2 s3 H1 H2. congruence. Qed.

Lemma on_send_keeps_recv {E A} (m : ST UdpRelayBuffer E A) :
  respects (λ s s', recv_half s' = recv_half s) (on_send m).
Proof. by apply respects_zoom. Qed.

Lemma with_outer_keeps_send {E A} (m : ST (TrojanUdpStream IO) E A) :
  respects (λ s s', send_half s' = send_half s) m →
  respects (λ p p', send_half p'.1 = send_half p.1) (with_outer m).
Proof. intros Hm. apply respects_zoom. intros p. apply Hm. Qed.

Lemma on_recv_keeps_send {E A} (m : ST UdpRelayBuffer E A) :
  respects (λ s s', send_half s' = send_half s) (on_recv m).
Proof. by apply respects_zoom. Qed.

Lemma modify_keeps_send {E} f :
  (∀ s, send_half (f s) = send_half s) → respects (E:=E) (λ s s', send_half s' = send_half s) (st_modify f).
Proof. intros Hf s. apply Hf. Qed.

#[local] Hint Resolve on_send_keeps_recv with_outer_keeps_send on_recv_keeps_send modify_keeps_send : respects.

Section write.
Context `{AsyncWrite IO}.

Lemma inner_write_keeps_recv b : respects (λ s s', recv_half s' = recv_half s) (on_inner (poll_write b)).
Proof. apply respects_zoom. intros s. cbn [poll_write BufferedRecv_AsyncWrite]. by rewrite st_zoom_run. Qed.
#[local] Hint Resolve inner_write_keeps_recv : respects.

Lemma send_loop_keeps_recv fuel : respects (λ s s', recv_half s' = recv_half s) (send_loop fuel).
Proof. induction fuel as [|fuel IH]; cbn [send_loop]; respect. Qed.
#[local] Hint Resolve send_loop_keeps_recv : respects.

Lemma write_keeps_recv buf a : respects (λ s s', recv_half s' = recv_half s) (trojan_udp_write buf a).
Proof. unfold trojan_udp_write, copy_into_inner. respect. by intros s. Qed.
End write.

Section read.
Context `{AsyncRead IO}.

Lemma inner_read_keeps_send room : respects (λ s s', send_half s' = send_half s) (on_inner (poll_read room)).
Proof. by apply respects_zoom. Qed.
#[local] Hint Resolve inner_read_keeps_send : respects.

#[local] Instance same_send_half_preorder : PreOrder (λ s s', send_half s' = send_half s).
Proof. split; [done|]. intros s1 s2 s3 H1 H2. congruence. Qed.

Lemma try_update_keeps_send :
  respects (λ s s', send_half s' = send_half s) (try_update_addr_buf;; try_update_expecting).
Proof. unfold try_update_addr_buf, try_update_expecting. cbn zeta. respect. Qed.
#[local] Hint Resolve try_update_keeps_send : respects.

Lemma try_extract_keeps_send : respects (λ p p', send_half p'.1 = send_half p.1) try_extract_packet.
Proof.
  unfold try_extract_packet, copy_into_outer. respect. by intros [].
Qed.
#[local] Hint Resolve try_extract_keeps_send : respects.

Lemma read_keeps_send fuel :
  respects (λ p p', send_half p'.1 = send_half p.1) (trojan_udp_read fuel).
Proof. induction fuel as [|fuel IH]; cbn [trojan_udp_read]; respect. Qed.
End read.

(** What a reader waits for depends on its own half. *)
Lemma awaits_recv_half s s' ps fut : recv_half s' = recv_half s → awaits s ps fut → awaits s' ps fut.
Proof. unfold recv_half, awaits. by intros [= _ -> -> -> ->]. Qed.
End halves.

(** ** Properties *)

(** A sequence of polls, each into a drained buffer, and the datagrams they
    returned. *)
Inductive received {R} `{AsyncRead R}
    : TrojanUdpStream R → list (MixAddrType * list Z) → TrojanUdpStream R → Prop :=
| rcv_none s : received s [] s
| rcv_packet fuel s b a s1 b1 ps s' :
    UdpRelay.queue b = [] → UdpRelay.wf b → a ≠ MNone →
    poll_proxy_stream_read fuel (s, b) = (Ok a, (s1, b1)) →
    received s1 ps s' → received s ((a, UdpRelay.queue b1) :: ps) s'
| rcv_pending fuel s b s1 b1 ps s' :
    UdpRelay.queue b = [] → UdpRelay.wf b →
    poll_proxy_stream_read fuel (s, b) = (Pending, (s1, b1)) →
    received s1 ps s' → received s ps s'.

Lemma received_awaits {R} `{AsyncReadOk R} (s : TrojanUdpStream R) pkts s' :
  received s pkts s' →
  ∃ ins, read_trace (tu_inner s) ins (tu_inner s') ∧
    ∀ ps fut, Forall framable ps → awaits s ps (ins ++ fut) →
      ∃ ps1 ps', ps = ps1 ++ ps' ∧ pkts = map received_as ps1 ∧ awaits s' ps' fut.
Proof.
  induction 1 as [s|fuel s b a s1 b1 pkts s' Hq Hwf Ha Hp _ (ins2 & Ht2 & IH)
    |fuel s b s1 b1 pkts s' Hq Hwf Hp _ (ins2 & Ht2 & IH)].
  - exists []. split; [apply rt_refl|]. intros ps fut _ Haw. by exists [], ps.
  - destruct (post_run _ _ _ _ _ (trojan_udp_read_spec fuel s b) Hp) as (ins1 & Ht1 & Hout).
    exists (ins1 ++ ins2). split; [by eapply read_trace_trans|]. intros ps fut Hfr Haw.
    rewrite <- app_assoc in Haw. specialize (Hout _ _ Hfr Haw).
    assert (∃ a0 pl ps', a = Mix.as_decoded a0 ∧ ps = (a0, pl) :: ps' ∧ b1 = UdpRelay.udp_extend pl b ∧
      awaits s1 ps' (ins2 ++ fut)) as (a0 & pl & ps' & -> & -> & -> & Haw1) by by destruct a.
    destruct (IH ps' fut) as (ps1 & ps'' & -> & -> & Haw2); [by inversion Hfr|done|].
    destruct (UdpRelay.extend_queue pl b Hwf) as [_ ->]. rewrite Hq. by exists ((a0, pl) :: ps1), ps''.
  - destruct (post_run _ _ _ _ _ (trojan_udp_read_spec fuel s b) Hp) as (ins1 & Ht1 & Hout).
    exists (ins1 ++ ins2). split; [by eapply read_trace_trans|]. intros ps fut Hfr Haw.
    rewrite <- app_assoc in Haw. destruct (Hout _ _ Hfr Haw) as (_ & Haw1 & _). by apply IH.
Qed.

Lemma length_u16_to_be x : length (u16_to_be x) = 2.
Proof. done. Qed.

Lemma awaits_new {R} (inner : R) br ps : awaits (TrojanUdpStream_new inner br) ps (frames ps).
Proof.
  split; [apply UdpRelay.wf_new|]. split; [|left; done]. intros _.
  destruct ps as [|[a p] ps]; [done|]. cbn [incomplete]. rewrite frames_cons, length_app.
  unfold frame. rewrite !length_app, length_u16_to_be. cbn [length]. lia.
Qed.

(** C9: datagrams survive the byte stream. However the stream is cut into reads
    (and whatever part of it arrived with the request), the datagrams the reader
    returns are, in order, a prefix of those whose frames are on the stream (an IPv6
    address as the decoder reads it); and
    when a poll returns [Pending] or the end of the stream, every datagram whose
    frame has arrived in full has been returned. *)
Theorem trojan_udp_receives_in_order {R} `{AsyncReadOk R} (inner : R) br pkts s' :
  received (TrojanUdpStream_new inner br) pkts s' →
  ∃ ins, read_trace (BufferedRecv_new inner br) ins (tu_inner s') ∧
    ∀ ps fut, Forall framable ps → concat (map frame ps) = ins ++ fut →
    ∃ ps1 ps', ps = ps1 ++ ps' ∧ pkts = map received_as ps1 ∧
      ∀ fuel b r s'' b', UdpRelay.wf b → poll_proxy_stream_read fuel (s', b) = (r, (s'', b')) →
      r = Pending ∨ r = Ok MNone →
      ∃ ins', read_trace (tu_inner s') ins' (tu_inner s'') ∧
        ∀ fut', fut = ins' ++ fut' →
        match ps' with [] => True | _ :: rest => length (concat (map frame rest)) < length fut' end.
Proof.
  intros Hrcv. destruct (received_awaits _ _ _ Hrcv) as (ins & Htr & Hout).
  exists ins. split; [done|]. intros ps fut Hfr Hps.
  pose proof (awaits_new inner br ps) as Hnew. unfold frames in Hnew. rewrite Hps in Hnew.
  destruct (Hout ps fut Hfr Hnew) as (ps1 & ps' & -> & -> & Haw). exists ps1, ps'. do 2 (split; [done|]).
  intros fuel b r s'' b' Hwf Hp Hr.
  destruct (post_run _ _ _ _ _ (trojan_udp_read_spec fuel s' b) Hp) as (ins' & Ht' & Hout').
  exists ins'. split; [done|]. intros fut' ->. apply Forall_app in Hfr as [_ Hfr].
  specialize (Hout' ps' fut' Hfr Haw). destruct Hr as [-> | ->]; apply Hout'.
Qed.

Lemma trojan_udp_receives_in_order_witness :
  let chunks := [take 5 ex_frames; take 10 (drop 5 ex_frames); drop 15 ex_frames] in
  let s0 := TrojanUdpStream_new (script_of chunks) None in
  let s1 := (poll_proxy_stream_read 9 (s0, UdpRelay.new)).2.1 in
  let s2 := (poll_proxy_stream_read 9 (s1, UdpRelay.new)).2.1 in
  ∃ ins, read_trace (BufferedRecv_new (script_of chunks) None) ins (tu_inner s2) ∧
    ∀ ps fut, Forall framable ps → concat (map frame ps) = ins ++ fut →
    ∃ ps1 ps', ps = ps1 ++ ps' ∧ ex_datagrams = map received_as ps1 ∧
      ∀ fuel b r s'' b', UdpRelay.wf b → poll_proxy_stream_read fuel (s2, b) = (r, (s'', b')) →
      r = Pending ∨ r = Ok MNone →
      ∃ ins', read_trace (tu_inner s2) ins' (tu_inner s'') ∧
        ∀ fut', fut = ins' ++ fut' →
        match ps' with [] => True | _ :: rest => length (concat (map frame rest)) < length fut' end.
Proof.
  intros chunks s0 s1 s2.
  apply (trojan_udp_receives_in_order (script_of chunks) None ex_datagrams s2).
  assert (ex_datagrams =
    [(V4 [8; 8; 8; 8]%Z 53%Z, UdpRelay.queue (poll_proxy_stream_read 9 (s0, UdpRelay.new)).2.2);
     (Hostname (bytes_of_string "a.b") 80%Z, UdpRelay.queue (poll_proxy_stream_read 9 (s1, UdpRelay.new)).2.2)])
    as -> by (vm_compute; reflexivity).
  apply (rcv_packet 9 s0 UdpRelay.new _ s1 _); [done|apply UdpRelay.wf_new|done| |].
  { vm_compute; reflexivity. }
  apply (rcv_packet 9 s1 UdpRelay.new _ s2 _); [done|apply UdpRelay.wf_new|done| |apply rcv_none].
  vm_compute; reflexivity.
Defined.

(** A datagram whose length and CRLF straddle two reads after their second or
    third byte brings the reader down: only two bytes are checked for before four
    are consumed. *)
Theorem trojan_udp_split_crlf_panics {R} `{AsyncReadOk R} (inner inner' : R) p k fuel b :
  framable p → k = 2 ∨ k = 3 →
  poll_read (UdpRelay.room UdpRelay.new) inner =
    (Ok (take (length (Mix.encoded p.1) + k) (frame p)), inner') →
  ∃ msg, (poll_proxy_stream_read (S (S fuel)) (TrojanUdpStream_new inner None, b)).1 = Panic msg.
Proof.
  intros Hfr Hk Hread. unfold poll_proxy_stream_read, TrojanUdpStream_UdpRead.
  set (bs := take (length (Mix.encoded p.1) + k) (frame p)) in *.
  set (fut := drop (length (Mix.encoded p.1) + k) (frame p)).
  assert (frame p = bs ++ fut) as Hcut by (symmetry; apply take_drop).
  assert (length (frame p) = length (Mix.encoded p.1) + 4 + length p.2) as Hlf
    by (unfold frame; rewrite !length_app, length_u16_to_be; cbn; lia).
  assert (length fut = 4 + length p.2 - k) as Hfut by (unfold fut; rewrite length_drop; lia).
  assert (length bs = length (Mix.encoded p.1) + k) as Hbs by (unfold bs; rewrite length_take; lia).
  rewrite trojan_udp_read_unfold. cbn [tu_want_to_extract TrojanUdpStream_new]. rewrite st_ret_bind.
  rewrite read_more_run. pose proof (poll_read_buffered (UdpRelay.room (UdpRelay.as_read_buf UdpRelay.new))
    (BufferedRecv_new inner None)) as Hb. cbn [buffered_request br_inner BufferedRecv_new] in Hb.
  change (mkBufferedRecv None inner) with (BufferedRecv_new inner None) in Hb.
  destruct (UdpRelay.as_read_buf_queue _ UdpRelay.wf_new) as (_ & _ & Hroom). rewrite Hroom, Hread in Hb.
  cbn [tu_recv_buffer tu_inner TrojanUdpStream_new]. rewrite Hroom, Hb. cbn [fst snd].
  rewrite decide_False by lia.
  assert (awaits (refilled bs (mkBufferedRecv None inner') (TrojanUdpStream_new inner None)) [p] fut) as Haw.
  { apply awaits_refilled.
    - cbn [tu_recv_buffer TrojanUdpStream_new]. rewrite Hroom. exact (poll_read_fits _ _ _ _ Hread).
    - rewrite <- Hcut, <- (app_nil_r (frame p)). apply awaits_new. }
  rewrite trojan_udp_read_unfold. cbn [tu_want_to_extract refilled tu_set_want].
  destruct (try_extract_spec _ b [p] fut (Forall_cons_2 _ _ _ Hfr (Forall_nil_2 _)) Haw eq_refl)
    as [(s' & _ & _ & [_ Hns] & _)|[(a & pl & ps' & s' & [= _ <-] & _ & Haw' & _)|(msg & Hp & _)]].
  - exfalso. apply Hns. destruct p as [a pl]. cbn [splits_crlf snd] in *. rewrite length_app. cbn. lia.
  - exfalso. destruct Haw' as (_ & _ & Haw'). destruct (tu_expecting s') as [n|].
    + destruct Haw' as (? & ? & ? & [=] & _).
    + destruct Haw' as [[_ Hnil]|(? & ? & ? & [=] & _)].
      apply app_eq_nil in Hnil as [_ Hnil]. rewrite Hnil in Hfut. cbn in Hfut. lia.
  - exists msg. rewrite st_bind_split.
    destruct (try_extract_packet _) as [res s2]. cbn [fst] in Hp. by subst res.
Qed.

Lemma trojan_udp_split_crlf_panics_witness :
  let p := (V4 [8; 8; 8; 8]%Z 53%Z, [1; 2; 3]%Z) in
  ∃ msg, (poll_proxy_stream_read 2
    (TrojanUdpStream_new (script_of [take 9 (frame p); drop 9 (frame p)]) None, UdpRelay.new)).1 = Panic msg.
Proof.
  intros p. apply (trojan_udp_split_crlf_panics _ (script_of [drop 9 (frame p)]) p 2 0 UdpRelay.new).
  - unfold framable, wf_addr. cbn. split_and!; [done| |unfold is_u16; lia|lia|done].
    repeat constructor; unfold is_u8; lia.
  - by left.
  - vm_compute. reflexivity.
Defined.

(** C29: sending a datagram puts exactly its frame on the stream, however many
    polls and short writes it takes: a poll accepts a prefix of what is due and
    keeps the rest, and it reports the datagram sent only when nothing is left.
    The sending loop ends on its own. *)
Theorem trojan_udp_send_exact {W} `{AsyncWriteOk W} (s : TrojanUdpStream W) a buf r s' :
  send_wf s → framable (a, buf) → poll_proxy_stream_write buf a s = (r, s') →
  send_wf s' ∧ ∃ outs, write_trace (br_inner (tu_inner s)) outs (br_inner (tu_inner s')) ∧
    match r with
    | Ok n =>
        (outs = remaining_frame s (a, buf) ∧ idle s' ∧ (idle s → n = length buf)) ∨
        (n = 0 ∧ ∃ b w, poll_write b w = (Ok 0, br_inner (tu_inner s')))
    | OutOfFuel => False
    | _ => remaining_frame s (a, buf) = outs ++ remaining_frame s' (a, buf) ∧ ¬ idle s'
    end.
Proof.
  intros Hwf Hfr Hrun.
  assert (a ≠ MNone) as Hne by (destruct Hfr as (_ & _ & ?); by apply Mix.encodable_MNone).
  destruct (post_run _ _ _ _ _ (trojan_udp_write_spec s a buf Hwf Hne) Hrun) as (Hw' & outs & Ht & Hr).
  split; [done|]. exists outs. split; [done|]. unfold remaining_frame, due, due_len, idle in *. rewrite <- raw_frame_frame by done.
  destruct r as [n|e| |msg|]; try done.
  - destruct Hr as [(-> & Hi & ->)|?]; [left|by right]. split_and!; [done..|]. by intros ->.
  - destruct Hr as (-> & Hni & _). by destruct (UdpRelay.is_empty (tu_send_buffer s')); [destruct Hni|].
  - destruct Hr as (-> & Hni & _). by destruct (UdpRelay.is_empty (tu_send_buffer s')); [destruct Hni|].
  - destruct Hr as (-> & Hni & _). by destruct (UdpRelay.is_empty (tu_send_buffer s')); [destruct Hni|].
Qed.

Lemma trojan_udp_send_exact_witness :
  let p := (V4 [8; 8; 8; 8]%Z 53%Z, [1; 2; 3]%Z) in
  let s := TrojanUdpStream_new (mkScript [] [Gives 4; Waits] [] false) None in
  let s' := (poll_proxy_stream_write p.2 p.1 s).2 in
  send_wf s' ∧ ∃ outs, write_trace (br_inner (tu_inner s)) outs (br_inner (tu_inner s')) ∧
    remaining_frame s p = outs ++ remaining_frame s' p ∧ ¬ idle s'.
Proof.
  intros p s s'. apply (trojan_udp_send_exact s p.1 p.2 Pending s').
  - split; [apply UdpRelay.wf_new|]. intros Hni. by destruct Hni.
  - unfold framable, wf_addr. cbn. split_and!; [done| |unfold is_u16; lia|lia|done].
    repeat constructor; unfold is_u8; lia.
  - vm_compute. reflexivity.
Defined.
