(* ===== verification/Acceptor.v ===== *)
(** Authentication and request parsing: [TrojanAcceptor] of
    src/src/server/inbound/acceptor.rs on the server, [send_trojan_auth] and
    [get_cmd] of src/src/client/outbound on the client.

    [parse] is incremental: it is run again on a longer buffer after each read.
    [parse_spec] is what it decides as a function of the bytes alone. *)
From S2P Require Import Prelude Vec MixAddr Io UdpTraits TrojanUdp.

(** ** Constants (src/src/protocol.rs) *)
Definition HASH_LEN : nat := 56.
Definition TCP_REQUEST_CMD : Z := 1.
Definition UDP_REQUEST_CMD : Z := 3.
Definition ECHO_REQUEST_CMD : Z := 255.
Definition LITE_TLS_REQUEST_CMD : Z := 17.

(** ** Requests *)

(** [ConnectionRequest] (src/src/utils/mod.rs) and [TcpOption]
    (src/src/server/utils/lite_tls.rs). *)
Inductive ConnectionRequest (T U E : Type) : Type :=
| TCP (t : T)
| UDP (u : U)
| ECHO (e : E)
| PHANTOM (p : T * U * E).
Arguments TCP {T U E}.
Arguments UDP {T U E}.
Arguments ECHO {T U E}.
Arguments PHANTOM {T U E}.

Inductive TcpOption (I : Type) : Type :=
| TLS (i : I)
| LiteTLS (i : I).
Arguments TLS {I}.
Arguments LiteTLS {I}.

Definition ServerConnectionRequest (I : Type) : Type :=
  ConnectionRequest (TcpOption (BufferedRecv I)) (TrojanUdpStream I) (BufferedRecv I).

(** ** The acceptor *)
Record TrojanAcceptor := mkTrojanAcceptor {
  ta_host : MixAddrType;
  ta_cursor : nat;
  ta_password_hash : list Z;
  ta_buf : Vec;
  ta_cmd_code : Z;
  ta_fallback_port : Z;
}.

Definition TrojanAcceptor_new (password_hash : list Z) (fallback_port : Z) : TrojanAcceptor :=
  mkTrojanAcceptor MNone 0 password_hash (vec_with_capacity 1024) 0%Z fallback_port.

Definition ta_set_host h s := mkTrojanAcceptor h (ta_cursor s) (ta_password_hash s) (ta_buf s)
  (ta_cmd_code s) (ta_fallback_port s).
Definition ta_set_cursor c s := mkTrojanAcceptor (ta_host s) c (ta_password_hash s) (ta_buf s)
  (ta_cmd_code s) (ta_fallback_port s).
Definition ta_set_buf b s := mkTrojanAcceptor (ta_host s) (ta_cursor s) (ta_password_hash s) b
  (ta_cmd_code s) (ta_fallback_port s).
Definition ta_set_cmd c s := mkTrojanAcceptor (ta_host s) (ta_cursor s) (ta_password_hash s)
  (ta_buf s) c (ta_fallback_port s).

Definition ta_bytes (s : TrojanAcceptor) : list Z := vdata (ta_buf s).

Definition verify : ST TrojanAcceptor ParserError unit :=
  s ← st_get;
  if decide (length (ta_bytes s) < HASH_LEN) then
    throw (Incomplete "Target::verify self.buf.len() < HASH_LEN")
  else
    hash ← st_lift (slice (ta_bytes s) 0 HASH_LEN);
    if decide (hash = ta_password_hash s) then st_modify (ta_set_cursor (HASH_LEN + 2))
    else throw (Invalid "Target::verify hash invalid").

(** [&mut (&mut self.cursor, &self.buf)]. *)
Definition on_cursor_buf {A} (m : ST CursorVec ParserError A) : ST TrojanAcceptor ParserError A :=
  st_zoom (λ s, mkCursorVec (ta_cursor s) (ta_bytes s)) (λ cv, ta_set_cursor (cv_cursor cv)) m.

Definition set_host_and_port : ST TrojanAcceptor ParserError unit :=
  s ← st_get;
  st_lift (expect_buf_len (ta_bytes s) (HASH_LEN + 5) "TrojanAcceptor::set_host_and_port cmd");;
  st_modify (ta_set_cursor (HASH_LEN + 3));;
  cmd ← st_lift (index (ta_bytes s) (HASH_LEN + 2));
  st_modify (ta_set_cmd cmd);;
  if decide (cmd = TCP_REQUEST_CMD ∨ cmd = UDP_REQUEST_CMD ∨ cmd = LITE_TLS_REQUEST_CMD) then
    host ← on_cursor_buf Mix.from_encoded;
    st_modify (ta_set_host host)
  else if decide (cmd = ECHO_REQUEST_CMD) then mret tt
  else throw (Invalid "Target::verify invalid connection type").

Definition parse : ST TrojanAcceptor ParserError unit :=
  s ← st_get;
  (if decide (ta_cursor s = 0) then verify else mret tt);;
  s ← st_get;
  (if Mix.is_none (ta_host s) then set_host_and_port else mret tt);;
  s ← st_get;
  st_lift (expect_buf_len (ta_bytes s) (ta_cursor s + 2) "TrojanAcceptor::parse CRLF");;
  crlf ← st_lift (slice (ta_bytes s) (ta_cursor s) (ta_cursor s + 2));
  if decide (crlf = [13; 10]%Z) then st_modify (ta_set_cursor (ta_cursor s + 2))
  else throw (Invalid "Target::accept expecting CRLF").

(** ** [accept]

    Its state: the acceptor, the inbound stream, and the fallback task it spawned
    (the bytes read so far, the port and the stream, which moves into it). *)
Record AcceptSt (I : Type) := mkAcceptSt {
  ac_acceptor : TrojanAcceptor;
  ac_inbound : I;
  ac_fallback : option (list Z * Z * I);
}.
Arguments mkAcceptSt {I}.
Arguments ac_acceptor {I}.
Arguments ac_inbound {I}.
Arguments ac_fallback {I}.

Section accept.
Context {I : Type} `{AsyncRead I}.

Definition on_acceptor {E A} (m : ST TrojanAcceptor E A) : ST (AcceptSt I) E A :=
  st_zoom ac_acceptor (λ a s, mkAcceptSt a (ac_inbound s) (ac_fallback s)) m.

Definition on_inbound {E A} (m : ST I E A) : ST (AcceptSt I) E A :=
  st_zoom ac_inbound (λ i s, mkAcceptSt (ac_acceptor s) i (ac_fallback s)) m.

(** [tokio::spawn(fallback(mem::take(&mut self.buf), self.fallback_port, inbound))]. *)
Definition spawn_fallback : ST (AcceptSt I) ParserError unit :=
  st_modify (λ s, mkAcceptSt (ta_set_buf (mkVec [] 0) (ac_acceptor s)) (ac_inbound s)
    (Some (ta_bytes (ac_acceptor s), ta_fallback_port (ac_acceptor s), ac_inbound s))).

(** After the loop: what was read past the request goes along. *)
Definition accepted : ST (AcceptSt I) ParserError (ServerConnectionRequest I) :=
  s ← st_get;
  let a := ac_acceptor s in
  buffered_request ←
    (if decide (length (ta_bytes a) = ta_cursor a) then mret None
     else on_acceptor (st_modify (ta_set_buf (mkVec [] 0)));; mret (Some (ta_cursor a, ta_bytes a)));
  let inbound := ac_inbound s in
  if decide (ta_cmd_code a = UDP_REQUEST_CMD) then
    mret (UDP (TrojanUdpStream_new inbound buffered_request))
  else if decide (ta_cmd_code a = TCP_REQUEST_CMD) then
    mret (TCP (TLS (BufferedRecv_new inbound buffered_request)))
  else if decide (ta_cmd_code a = LITE_TLS_REQUEST_CMD) then
    mret (TCP (LiteTLS (BufferedRecv_new inbound buffered_request)))
  else if decide (ta_cmd_code a = ECHO_REQUEST_CMD) then
    mret (ECHO (BufferedRecv_new inbound buffered_request))
  else panic "internal error: entered unreachable code".

(** The loop; [fuel] bounds its reads. An [accept] that returned [Pending] is
    resumed by running it again: its only state is [self] and [inbound]. *)
Fixpoint accept (fuel : nat) : ST (AcceptSt I) ParserError (ServerConnectionRequest I) :=
  match fuel with
  | 0 => st_lift OutOfFuel
  | S fuel' =>
      s ← st_get;
      bs ← on_inbound (st_map_err (λ _, Invalid "Target::accept failed to read")
             (poll_read (vec_room (ta_buf (ac_acceptor s)))));
      on_acceptor (st_modify (λ a, ta_set_buf (vec_filled bs (ta_buf a)) a));;
      if decide (length bs ≠ 0) then
        res ← st_try (on_acceptor parse);
        match res with
        | Err (Invalid msg) => spawn_fallback;; throw (Invalid msg)
        | Err (Incomplete _) => accept fuel'
        | Ok _ => accepted
        | Pending => st_lift Pending
        | Panic msg => panic msg
        | OutOfFuel => st_lift OutOfFuel
        end
      else throw (Incomplete "Target::accept EOF")
  end.
End accept.

(** ** The client *)

(** [ClientRequestCMD::get_cmd], by the shapes it matches on: the request and the
    kind of connection to the server. *)
Inductive ConnectionMode : Type := TcpTLS | Quic | LiteTLSMode.

Definition get_cmd {E T U V} (req : ConnectionRequest T U V) (conn : ConnectionMode) : outcome E Z :=
  match req, conn with
  | UDP _, _ => Ok UDP_REQUEST_CMD
  | ECHO _, _ => Ok ECHO_REQUEST_CMD
  | TCP _, LiteTLSMode => Ok LITE_TLS_REQUEST_CMD
  | TCP _, _ => Ok TCP_REQUEST_CMD
  | _, _ => Panic "internal error: entered unreachable code"
  end.

(** The packet [send_trojan_auth] builds. *)
Definition auth_packet {E} (mode : Z) (addr : MixAddrType) (password : list Z) : outcome E (list Z) :=
  n ← Mix.encoded_len addr;
  let buf := vec_extend_from_slice [13; 10; mode]%Z
    (vec_extend_from_slice password (vec_with_capacity (HASH_LEN + 2 + 1 + n + 2))) in
  let '(r, buf) := Mix.write_buf addr buf in
  _ ← r;
  Ok (vdata (vec_extend_from_slice [13; 10]%Z buf)).

Definition send_trojan_auth `{AsyncWrite W} (mode : Z) (addr : MixAddrType) (password : list Z)
    : ST W io_error unit :=
  buf ← st_lift (auth_packet mode addr password);
  write_all buf.

(** ** What [parse] decides *)

Definition addressed_cmd (cmd : Z) : Prop :=
  cmd = TCP_REQUEST_CMD ∨ cmd = UDP_REQUEST_CMD ∨ cmd = LITE_TLS_REQUEST_CMD.

#[export] Instance addressed_cmd_dec cmd : Decision (addressed_cmd cmd).
Proof. unfold addressed_cmd. apply _. Defined.

(** The target and where it ends, as soon as the bytes determine them. *)
Definition target_spec (hash buf : list Z) : outcome ParserError (Z * MixAddrType * nat) :=
  if decide (length buf < HASH_LEN) then Err (Incomplete "") else
  if decide (take HASH_LEN buf ≠ hash) then Err (Invalid "") else
  if decide (length buf < HASH_LEN + 5) then Err (Incomplete "") else
  let cmd := nth (HASH_LEN + 2) buf 0%Z in
  if decide (addressed_cmd cmd) then
    match Mix.from_encoded_bytes (drop (HASH_LEN + 3) buf) with
    | Ok (a, n) => Ok (cmd, a, HASH_LEN + 3 + n)
    | Err (Incomplete _) => Err (Incomplete "")
    | _ => Err (Invalid "")
    end
  else if decide (cmd = ECHO_REQUEST_CMD) then Ok (cmd, MNone, HASH_LEN + 3)
  else Err (Invalid "").

(** The command, the target and the length of the request. *)
Definition parse_spec (hash buf : list Z) : outcome ParserError (Z * MixAddrType * nat) :=
  '(cmd, a, c) ← target_spec hash buf;
  if decide (length buf < c + 2) then Err (Incomplete "") else
  if decide (take 2 (drop c buf) = [13; 10]%Z) then Ok (cmd, a, c + 2) else Err (Invalid "").

(** Errors up to their text. *)
Definition same_error (e e' : ParserError) : Prop :=
  match e, e' with
  | Incomplete _, Incomplete _ | Invalid _, Invalid _ => True
  | _, _ => False
  end.

(** An acceptor between two calls of [parse]: what it keeps of the target is what
    the bytes say. *)
Definition resumable (s : TrojanAcceptor) : Prop :=
  match ta_host s with
  | MNone =>
      ta_cursor s = 0 ∨
      (HASH_LEN ≤ length (ta_bytes s) ∧ take HASH_LEN (ta_bytes s) = ta_password_hash s ∧
       ta_cursor s ≠ 0)
  | a => target_spec (ta_password_hash s) (ta_bytes s) = Ok (ta_cmd_code s, a, ta_cursor s) ∧
         ta_cursor s ≠ 0
  end.

Lemma target_spec_settled hash buf more r :
  target_spec hash buf = r → (match r with Err (Incomplete _) => False | _ => True end) →
  target_spec hash (buf ++ more) = r.
Proof.
  intros <-. unfold target_spec. rewrite !length_app.
  case_decide as H1; [done|]. rewrite (decide_False (P:=length buf + length more < HASH_LEN)) by lia.
  rewrite take_app_le by (unfold HASH_LEN in *; lia). case_decide as H2; [done|].
  case_decide as H3; [done|]. rewrite (decide_False (P:=length buf + length more < HASH_LEN + 5)) by lia.
  rewrite app_nth1 by lia. case_decide as H4; [|done].
  rewrite drop_app_le by lia. intros Hset.
  pose proof (Mix.from_encoded_bytes_total (drop (HASH_LEN + 3) buf)) as Ht.
  rewrite Mix.from_encoded_bytes_app; [done|].
  by destruct (Mix.from_encoded_bytes (drop (HASH_LEN + 3) buf)) as [[]|[]| | |].
Qed.

Lemma target_spec_bounds hash buf cmd a c :
  target_spec hash buf = Ok (cmd, a, c) → c ≤ length buf ∧ HASH_LEN + 3 ≤ c ∧
    (addressed_cmd cmd ∧ a ≠ MNone ∨ cmd = ECHO_REQUEST_CMD ∧ a = MNone).
Proof.
  unfold target_spec. case_decide; [done|]. case_decide; [done|]. case_decide as Hl; [done|].
  case_decide as Hc.
  - pose proof (Mix.from_encoded_bytes_total (drop (HASH_LEN + 3) buf)) as Ht.
    destruct (Mix.from_encoded_bytes _) as [[a' n]|[]| | |]; try done.
    intros [= <- <- <-]. destruct Ht as (Hn & _ & Hne & _). rewrite length_drop in Hn. split_and!; [unfold HASH_LEN in *; lia..|by left].
  - case_decide; [|done]. intros [= <- <- <-]. split_and!; [unfold HASH_LEN in *; lia..|by right].
Qed.

Lemma target_spec_hash hash buf v :
  target_spec hash buf = Ok v → HASH_LEN ≤ length buf ∧ take HASH_LEN buf = hash.
Proof.
  unfold target_spec. case_decide; [done|]. case_decide as Hh; [done|]. intros _.
  split; [lia|]. done.
Qed.

(** A decision stands whatever follows. *)
Lemma parse_spec_settled hash buf more r :
  parse_spec hash buf = r → (match r with Err (Incomplete _) => False | _ => True end) →
  parse_spec hash (buf ++ more) = r.
Proof.
  intros <-. unfold parse_spec.
  destruct (target_spec hash buf) as [[[cmd a] c]|[msg|msg]| | |] eqn:E; cbn -[take drop]; try done;
    intros Hs; rewrite (target_spec_settled _ _ _ _ E) by done; cbn -[take drop]; try done.
  rewrite length_app. case_decide as H1; [done|].
  rewrite (decide_False (P:=length buf + length more < c + 2)) by lia.
  rewrite drop_app_le, take_app_le by (rewrite ?length_drop; lia). done.
Qed.

(** *** [parse] against its specification *)

(** The target part of [parse]. *)
Definition parse_target : ST TrojanAcceptor ParserError unit :=
  s ← st_get;
  (if decide (ta_cursor s = 0) then verify else mret tt);;
  s ← st_get;
  (if Mix.is_none (ta_host s) then set_host_and_port else mret tt).

Lemma verify_run s :
  verify s =
    if decide (length (ta_bytes s) < HASH_LEN) then
      (Err (Incomplete "Target::verify self.buf.len() < HASH_LEN"), s)
    else if decide (take HASH_LEN (ta_bytes s) = ta_password_hash s)
    then (Ok tt, ta_set_cursor (HASH_LEN + 2) s)
    else (Err (Invalid "Target::verify hash invalid"), s).
Proof.
  unfold verify. rewrite st_get_bind. case_decide as H1; [done|].
  rewrite slice_Ok by (unfold HASH_LEN in *; lia). rewrite st_lift_Ok_bind, Nat.sub_0_r, drop_0.
  by case_decide.
Qed.

Lemma cursor_from_encoded (cv : CursorVec) :
  cv_cursor cv ≤ length (cv_vec cv) →
  Mix.from_encoded cv =
    match Mix.from_encoded_bytes (drop (cv_cursor cv) (cv_vec cv)) with
    | Ok (a, n) => (Ok a, mkCursorVec (cv_cursor cv + n) (cv_vec cv))
    | Err e => (Err e, cv)
    | _ => (Pending, cv)
    end.
Proof.
  intros Hc. unfold Mix.from_encoded. rewrite st_get_bind. cbn [chunk CursorVec_CursoredBuffer].
  unfold cursor_vec_chunk. rewrite slice_from_Ok, st_lift_Ok_bind by done.
  pose proof (Mix.from_encoded_bytes_total (drop (cv_cursor cv) (cv_vec cv))) as Ht.
  rewrite st_bind_split. unfold st_lift at 1.
  destruct (Mix.from_encoded_bytes _) as [[a n]|e| | |]; try done.
  destruct Ht as (Hn & _). rewrite length_drop in Hn. rewrite st_bind_split. cbn.
  unfold cursor_vec_advance. by rewrite decide_True by lia.
Qed.

(** The state in which [set_host_and_port] decides about the command. *)
Definition ta_at_cmd (s : TrojanAcceptor) : TrojanAcceptor :=
  ta_set_cmd (nth (HASH_LEN + 2) (ta_bytes s) 0%Z) (ta_set_cursor (HASH_LEN + 3) s).

Lemma set_host_and_port_run s :
  set_host_and_port s =
    if decide (length (ta_bytes s) < HASH_LEN + 5) then
      (Err (Incomplete "TrojanAcceptor::set_host_and_port cmd"), s)
    else if decide (addressed_cmd (nth (HASH_LEN + 2) (ta_bytes s) 0%Z)) then
      match Mix.from_encoded_bytes (drop (HASH_LEN + 3) (ta_bytes s)) with
      | Ok (a, n) => (Ok tt, ta_set_host a (ta_set_cursor (HASH_LEN + 3 + n) (ta_at_cmd s)))
      | Err e => (Err e, ta_at_cmd s)
      | _ => (Pending, ta_at_cmd s)
      end
    else if decide (nth (HASH_LEN + 2) (ta_bytes s) 0%Z = ECHO_REQUEST_CMD) then (Ok tt, ta_at_cmd s)
    else (Err (Invalid "Target::verify invalid connection type"), ta_at_cmd s).
Proof.
  unfold set_host_and_port, expect_buf_len. rewrite st_get_bind. case_decide as H1; [done|].
  rewrite st_lift_Ok_bind, st_modify_bind.
  destruct (lookup_lt_is_Some_2 (ta_bytes s) (HASH_LEN + 2)) as [cmd Hcmd]; [unfold HASH_LEN in *; lia|].
  rewrite (index_Ok _ _ cmd Hcmd), st_lift_Ok_bind, st_modify_bind.
  unfold ta_at_cmd. rewrite (nth_lookup_Some _ _ _ _ Hcmd). case_decide as H2.
  - rewrite (decide_True (P:=addressed_cmd cmd)) by exact H2. unfold on_cursor_buf. rewrite st_zoom_bind. cbn [ta_cursor ta_set_cmd ta_set_cursor].
    rewrite cursor_from_encoded by (cbn [cv_cursor cv_vec]; unfold ta_bytes in *; cbn [ta_buf ta_set_cmd ta_set_cursor]; lia).
    cbn [cv_cursor cv_vec]. unfold ta_bytes. cbn [ta_buf ta_set_cmd ta_set_cursor].
    by destruct (Mix.from_encoded_bytes _) as [[a n]| | | |].
  - rewrite (decide_False (P:=addressed_cmd cmd)) by exact H2. by case_decide.
Qed.

Definition same_request (s s' : TrojanAcceptor) : Prop :=
  ta_buf s' = ta_buf s ∧ ta_password_hash s' = ta_password_hash s ∧
  ta_fallback_port s' = ta_fallback_port s.

(** How a run agrees with the verdict on the bytes. *)
Definition agrees (s : TrojanAcceptor) (v : outcome ParserError (Z * MixAddrType * nat))
    (r : outcome ParserError unit) (s' : TrojanAcceptor) : Prop :=
  same_request s s' ∧
  match r, v with
  | Ok _, Ok (cmd, a, c) => ta_host s' = a ∧ ta_cmd_code s' = cmd ∧ ta_cursor s' = c
  | Err e, Err e' => same_error e e' ∧ (match e with Incomplete _ => resumable s' | _ => True end)
  | _, _ => False
  end.

Lemma resumable_none s :
  ta_host s = MNone →
  HASH_LEN ≤ length (ta_bytes s) → take HASH_LEN (ta_bytes s) = ta_password_hash s →
  ta_cursor s ≠ 0 → resumable s.
Proof. unfold resumable. intros ->. by right. Qed.

Lemma set_host_agrees s :
  HASH_LEN ≤ length (ta_bytes s) → take HASH_LEN (ta_bytes s) = ta_password_hash s →
  ta_host s = MNone → ta_cursor s ≠ 0 →
  agrees s (target_spec (ta_password_hash s) (ta_bytes s)) (set_host_and_port s).1 (set_host_and_port s).2.
Proof.
  intros Hlen Hhash Hhost Hc. rewrite set_host_and_port_run. unfold target_spec, agrees.
  rewrite (decide_False (P:=length _ < HASH_LEN)) by lia. rewrite (decide_False (P:=take _ _ ≠ _)) by auto.
  pose proof (resumable_none s Hhost Hlen Hhash Hc) as Hres.
  assert (resumable (ta_at_cmd s)) as Hat by (by apply resumable_none).
  case_decide as H1; [by split_and!|].
  case_decide as H2.
  - pose proof (Mix.from_encoded_bytes_total (drop (HASH_LEN + 3) (ta_bytes s))) as Ht.
    destruct (Mix.from_encoded_bytes _) as [[a n]|[msg|msg]| | |]; by split_and!.
  - case_decide as H3; by split_and!.
Qed.

Lemma parse_target_agrees s :
  resumable s →
  agrees s (target_spec (ta_password_hash s) (ta_bytes s)) (parse_target s).1 (parse_target s).2.
Proof.
  intros Hres. unfold parse_target. rewrite st_get_bind.
  destruct (decide (ta_host s = MNone)) as [HN|HN].
  - assert (ta_cursor s = 0 ∨ HASH_LEN ≤ length (ta_bytes s) ∧
      take HASH_LEN (ta_bytes s) = ta_password_hash s ∧ ta_cursor s ≠ 0) as Hr
      by (unfold resumable in Hres; by rewrite HN in Hres).
    case_decide as Hc0.
    + rewrite st_bind_split, verify_run. case_decide as H1.
      { unfold agrees, target_spec. rewrite decide_True by done. by split_and!. }
      case_decide as H2.
      * rewrite st_get_bind. cbn [ta_host ta_set_cursor]. rewrite HN. cbn [Mix.is_none].
        refine (set_host_agrees (ta_set_cursor (HASH_LEN + 2) s) _ H2 HN _); [|done].
        unfold ta_bytes in *; cbn; lia.
      * unfold agrees, target_spec. rewrite decide_False by done. rewrite decide_True by done. by split_and!.
    + destruct Hr as [|(Hl & Hh & _)]; [done|]. rewrite st_ret_bind, st_get_bind, HN. cbn [Mix.is_none].
      by apply set_host_agrees.
  - assert (target_spec (ta_password_hash s) (ta_bytes s) = Ok (ta_cmd_code s, ta_host s, ta_cursor s) ∧
      ta_cursor s ≠ 0) as [Hs Hc] by (unfold resumable in Hres; by destruct (ta_host s)).
    rewrite decide_False by done. rewrite st_ret_bind, st_get_bind.
    replace (Mix.is_none (ta_host s)) with false by (by destruct (ta_host s)).
    rewrite Hs. by split_and!.
Qed.

Lemma parse_unfold s :
  parse s =
    (parse_target;;
     s ← st_get;
     st_lift (expect_buf_len (ta_bytes s) (ta_cursor s + 2) "TrojanAcceptor::parse CRLF");;
     crlf ← st_lift (slice (ta_bytes s) (ta_cursor s) (ta_cursor s + 2));
     if decide (crlf = [13; 10]%Z) then st_modify (ta_set_cursor (ta_cursor s + 2))
     else throw (Invalid "Target::accept expecting CRLF")) s.
Proof. unfold parse, parse_target. by rewrite !st_bind_assoc, !st_get_bind, st_bind_assoc. Qed.

Lemma parse_agrees s :
  resumable s →
  agrees s (parse_spec (ta_password_hash s) (ta_bytes s)) (parse s).1 (parse s).2.
Proof.
  intros Hres. pose proof (parse_target_agrees s Hres) as [Hsame Ha].
  rewrite parse_unfold, st_bind_split. unfold parse_spec.
  destruct (parse_target s) as [r s1]. cbn [fst snd] in Hsame, Ha.
  destruct Hsame as (Hb & Hh & Hp).
  destruct (target_spec (ta_password_hash s) (ta_bytes s)) as [[[cmd a] c]|e'| | |] eqn:Es;
    destruct r as [[]|e| | |]; try done.
  destruct Ha as (Ha & Hcmd & Hcur).
  pose proof (target_spec_bounds _ _ _ _ _ Es) as (Hcl & Hcm & Hkind).
  assert (ta_bytes s1 = ta_bytes s) as Hbytes by (unfold ta_bytes; by rewrite Hb).
  rewrite st_get_bind, Hbytes, Hcur. cbn -[take drop Nat.add HASH_LEN].
  unfold expect_buf_len. case_decide as H1.
  - split; [done|]. split; [done|]. change (resumable s1). unfold resumable.
    rewrite Ha, Hcmd, Hcur, Hbytes, Hh.
    destruct a; try (split; [done|unfold HASH_LEN in *; lia]).
    right. apply target_spec_hash in Es as [? ?]. split_and!; [done|done|unfold HASH_LEN in *; lia].
  - rewrite st_lift_Ok_bind, slice_Ok by lia. rewrite st_lift_Ok_bind.
    replace (c + 2 - c) with 2 by lia. case_decide as H2; [|by split_and!].
    by split_and!.
Qed.

(** ** What [accept] does *)
Definition request_for {I} (cmd : Z) (inbound : I) (br : option (nat * list Z))
    : ServerConnectionRequest I :=
  if decide (cmd = UDP_REQUEST_CMD) then UDP (TrojanUdpStream_new inbound br)
  else if decide (cmd = TCP_REQUEST_CMD) then TCP (TLS (BufferedRecv_new inbound br))
  else if decide (cmd = LITE_TLS_REQUEST_CMD) then TCP (LiteTLS (BufferedRecv_new inbound br))
  else ECHO (BufferedRecv_new inbound br).

(** The bytes of [T] past the request of length [c]. *)
Definition leftover (c : nat) (T : list Z) : option (nat * list Z) :=
  if decide (length T = c) then None else Some (c, T).

Definition undecided (hash T : list Z) : Prop := ∃ msg, parse_spec hash T = Err (Incomplete msg).

(** The bytes of an undecided request are few: the longest is a command with a
    255-byte host name. *)
Lemma from_encoded_incomplete_short buf msg :
  Forall is_u8 buf → Mix.from_encoded_bytes buf = Err (Incomplete msg) → length buf < 259.
Proof.
  intros HF. unfold Mix.from_encoded_bytes.
  destruct (Mix.expect_buf_len_cases buf 2 "MixAddrType::from_encoded_bytes cmd") as [[Hl ->]|[H2 ->]];
    [intros _; lia|].
  destruct buf as [|b0 [|b1 t]]; [cbn in H2; lia..|].
  cbn -[expect_buf_len slice u16_from_be utf8_valid Mix.read_v6u16 length].
  destruct (b0 =? 1)%Z; [|destruct (b0 =? 3)%Z; [|destruct (b0 =? 4)%Z; [|done]]].
  - destruct (Mix.expect_buf_len_cases (b0 :: b1 :: t) 7 "MixAddrType::from_encoded_bytes IPv4")
      as [[Hl ->]|[H7 ->]]; [intros _; lia|].
    do 5 (destruct t as [|? t]; [cbn in H7; lia|]). done.
  - destruct (Mix.expect_buf_len_cases (b0 :: b1 :: t) (S (S (Z.to_nat b1 + 2)))
      "MixAddrType::from_encoded_bytes Domain Name") as [[Hl ->]|[Hl ->]].
    + intros _. rewrite !Forall_cons_iff in HF. unfold is_u8 in HF. lia.
    + cbn -[slice u16_from_be utf8_valid index length]. cbn [length] in Hl.
      rewrite slice_Ok by (cbn [length]; lia). cbn -[u16_from_be utf8_valid index length].
      destruct (utf8_valid _); [|done].
      destruct (index_lt (E:=ParserError) (b0 :: b1 :: t) (S (S (Z.to_nat b1)))) as (hi & -> & _);
        [cbn [length]; lia|].
      destruct (index_lt (E:=ParserError) (b0 :: b1 :: t) (S (S (Z.to_nat b1 + 1)))) as (lo & -> & _);
        [cbn [length]; lia|]. done.
  - destruct (Mix.expect_buf_len_cases (b0 :: b1 :: t) 19 "MixAddrType::from_encoded_bytes IPv6")
      as [[Hl ->]|[Hl ->]]; [intros _; lia|]. cbn -[slice u16_from_be index Mix.read_v6u16 length].
    rewrite slice_Ok by lia. cbn -[u16_from_be index Mix.read_v6u16 length].
    destruct (Mix.read_v6u16_Ok (b1 :: take 15 t)) as (segs & -> & _);
      [cbn; rewrite length_take; cbn in Hl; lia|].
    destruct (index_lt (E:=ParserError) (b0 :: b1 :: t) 17) as (hi & -> & _); [lia|].
    destruct (index_lt (E:=ParserError) (b0 :: b1 :: t) 18) as (lo & -> & _); [lia|]. done.
Qed.

Lemma decoded_len_short buf a n :
  Forall is_u8 buf → Mix.from_encoded_bytes buf = Ok (a, n) → n ≤ 259.
Proof.
  intros HF Hd. destruct (decide (length buf < 259)) as [Hl|Hl].
  { pose proof (Mix.from_encoded_bytes_total buf) as Ht. rewrite Hd in Ht. destruct Ht as (? & _). lia. }
  assert (Mix.from_encoded_bytes (take 259 buf) = Ok (a, n)) as Ht.
  { rewrite <- (take_drop 259 buf) in Hd at 1. rewrite Mix.from_encoded_bytes_app in Hd; [done|].
    destruct (Mix.from_encoded_bytes (take 259 buf)) as [|[msg|]| | |] eqn:E; try done.
    apply from_encoded_incomplete_short in E; [|by apply Forall_take]. rewrite length_take in E. lia. }
  pose proof (Mix.from_encoded_bytes_total (take 259 buf)) as Hb. rewrite Ht in Hb.
  destruct Hb as (Hn & _). rewrite length_take in Hn. lia.
Qed.

Lemma undecided_short hash T : Forall is_u8 T → undecided hash T → length T < 321.
Proof.
  intros HF [msg Hp]. unfold parse_spec, target_spec in Hp.
  case_decide as H1; [unfold HASH_LEN in *; lia|]. case_decide as H2; [done|].
  case_decide as H3; [unfold HASH_LEN in *; lia|]. case_decide as H4.
  - pose proof (Forall_drop _ (HASH_LEN + 3) T HF) as HFd.
    destruct (Mix.from_encoded_bytes (drop (HASH_LEN + 3) T)) as [[a n]|[m|m]| | |] eqn:Ed; try done.
    + cbn -[take drop Nat.add HASH_LEN] in Hp. apply decoded_len_short in Ed; [|done].
      case_decide; [|by case_decide]. unfold HASH_LEN in *. lia.
    + apply from_encoded_incomplete_short in Ed; [|done]. rewrite length_drop in Ed. unfold HASH_LEN in *. lia.
  - case_decide; [|done]. cbn -[take drop Nat.add HASH_LEN] in Hp.
    case_decide; [|by case_decide]. unfold HASH_LEN in *. lia.
Qed.

(** More bytes do not disturb an acceptor between two calls. *)
Lemma resumable_more a bs :
  resumable a → resumable (ta_set_buf (vec_filled bs (ta_buf a)) a).
Proof.
  unfold resumable, ta_bytes. cbn [ta_host ta_set_buf ta_cursor ta_buf ta_password_hash ta_cmd_code].
  rewrite vec_filled_data.
  destruct (ta_host a); try (intros [Hs ?]; split; [by apply target_spec_settled with (r:=Ok _)|done]).
  intros [?|(Hl & Hh & ?)]; [by left|right]. rewrite length_app.
  split_and!; [lia|by rewrite take_app_le by (unfold HASH_LEN in *; lia)|done].
Qed.

Lemma ta_bytes_more a bs :
  ta_bytes (ta_set_buf (vec_filled bs (ta_buf a)) a) = ta_bytes a ++ bs.
Proof. unfold ta_bytes. cbn [ta_buf ta_set_buf]. by rewrite vec_filled_data. Qed.

Section accept_spec.
Context {I : Type} `{AsyncReadOk I}.
Implicit Types (s : AcceptSt I) (a : TrojanAcceptor).

(** Between two reads: no decision yet, and the buffer never needed to grow. *)
Definition waiting_request s : Prop :=
  let a := ac_acceptor s in
  resumable a ∧ undecided (ta_password_hash a) (ta_bytes a) ∧ vec_wf (ta_buf a) ∧
  ac_fallback s = None ∧ vcap (ta_buf a) ≥ 1024 ∧
  (Forall is_u8 (ta_bytes a) → vcap (ta_buf a) = 1024).

Definition accept_exit (hash : list Z) (port : Z) (T : list Z)
    (r : outcome ParserError (ServerConnectionRequest I)) s : Prop :=
  match r with
  | Ok req => ∃ cmd host c,
      parse_spec hash T = Ok (cmd, host, c) ∧ ta_host (ac_acceptor s) = host ∧
      req = request_for cmd (ac_inbound s) (leftover c T) ∧ ac_fallback s = None
  | Err (Invalid _) =>
      (ac_fallback s = Some (T, port, ac_inbound s) ∧ ∃ msg, parse_spec hash T = Err (Invalid msg)) ∨
      (ac_fallback s = None ∧ ∃ room r e, poll_read room r = (Err e, ac_inbound s))
  | Err (Incomplete _) =>
      ac_fallback s = None ∧ undecided hash T ∧
      ∃ room r, 0 < room ∧ poll_read room r = (Ok [], ac_inbound s)
  | Pending =>
      waiting_request s ∧ ta_bytes (ac_acceptor s) = T ∧ undecided hash T ∧
      ∃ room r, poll_read room r = (Pending, ac_inbound s)
  | Panic msg => ac_fallback s = None ∧ ∃ room r, poll_read room r = (Panic msg, ac_inbound s)
  | OutOfFuel => ac_fallback s = None ∧ undecided hash T
  end.

Lemma accepted_run s :
  accepted s =
    (match ta_cmd_code (ac_acceptor s) with
     | cmd => if decide (addressed_cmd cmd ∨ cmd = ECHO_REQUEST_CMD) then
         Ok (request_for cmd (ac_inbound s) (leftover (ta_cursor (ac_acceptor s)) (ta_bytes (ac_acceptor s))))
       else Panic "internal error: entered unreachable code"
     end,
     if decide (length (ta_bytes (ac_acceptor s)) = ta_cursor (ac_acceptor s)) then s
     else mkAcceptSt (ta_set_buf (mkVec [] 0) (ac_acceptor s)) (ac_inbound s) (ac_fallback s)).
Proof.
  unfold accepted, request_for, leftover, on_acceptor, addressed_cmd. rewrite st_get_bind.
  destruct (decide (length (ta_bytes (ac_acceptor s)) = ta_cursor (ac_acceptor s)));
    unfold mbind, st_bind, mret, st_ret, st_zoom, st_modify; cbn [fst snd];
    repeat case_decide; try done; tauto.
Qed.

Lemma buf_bound a :
  undecided (ta_password_hash a) (ta_bytes a) → vec_wf (ta_buf a) →
  (Forall is_u8 (ta_bytes a) → vcap (ta_buf a) = 1024) →
  Forall is_u8 (ta_bytes a) → length (ta_bytes a) ≤ 1024.
Proof. intros _ Hwf Hc H8. specialize (Hc H8). unfold vec_wf, vec_len, ta_bytes in *. lia. Qed.

(** The acceptor after a read of [bs]. *)
Definition ta_read (bs : list Z) a : TrojanAcceptor := ta_set_buf (vec_filled bs (ta_buf a)) a.

Lemma accept_step fuel s :
  accept (S fuel) s =
    let a := ac_acceptor s in
    let '(res, i) := poll_read (vec_room (ta_buf a)) (ac_inbound s) in
    match res with
    | Ok bs =>
        if decide (length bs ≠ 0) then
          let '(r, a') := parse (ta_read bs a) in
          match r with
          | Ok _ => accepted (mkAcceptSt a' i (ac_fallback s))
          | Err (Invalid msg) =>
              (Err (Invalid msg), mkAcceptSt (ta_set_buf (mkVec [] 0) a') i
                 (Some (ta_bytes a', ta_fallback_port a', i)))
          | Err (Incomplete _) => accept fuel (mkAcceptSt a' i (ac_fallback s))
          | Pending => (Pending, mkAcceptSt a' i (ac_fallback s))
          | Panic msg => (Panic msg, mkAcceptSt a' i (ac_fallback s))
          | OutOfFuel => (OutOfFuel, mkAcceptSt a' i (ac_fallback s))
          end
        else (Err (Incomplete "Target::accept EOF"), mkAcceptSt (ta_read bs a) i (ac_fallback s))
    | Err _ => (Err (Invalid "Target::accept failed to read"), mkAcceptSt a i (ac_fallback s))
    | Pending => (Pending, mkAcceptSt a i (ac_fallback s))
    | Panic msg => (Panic msg, mkAcceptSt a i (ac_fallback s))
    | OutOfFuel => (OutOfFuel, mkAcceptSt a i (ac_fallback s))
    end.
Proof.
  cbn [accept]. rewrite st_get_bind. unfold on_inbound, on_acceptor. rewrite st_zoom_bind.
  unfold st_map_err. cbn zeta.
  destruct (poll_read (vec_room (ta_buf (ac_acceptor s))) (ac_inbound s)) as [[bs|e| |msg|] i]; try done.
  cbn [map_err]. rewrite st_zoom_bind. cbn [st_modify ac_acceptor ac_inbound ac_fallback].
  destruct (decide (length bs ≠ 0)); [|done]. rewrite st_try_bind, st_zoom_run.
  cbn [fst snd ac_acceptor ac_inbound ac_fallback]. fold (ta_read bs (ac_acceptor s)).
  by destruct (parse (ta_read bs (ac_acceptor s))) as [[[]|[]| | |] a'].
Qed.

Lemma waiting_read s bs a' i :
  waiting_request s → length bs ≤ vec_room (ta_buf (ac_acceptor s)) →
  same_request (ta_read bs (ac_acceptor s)) a' → resumable a' →
  undecided (ta_password_hash (ac_acceptor s)) (ta_bytes (ac_acceptor s) ++ bs) →
  waiting_request (mkAcceptSt a' i (ac_fallback s)).
Proof.
  intros (Hres & Hund & Hwf & Hfb & Hcap & Hcap8) Hfit (Hb & Hh & Hp) Hres' Hund'.
  assert (ta_bytes a' = ta_bytes (ac_acceptor s) ++ bs) as Hbytes
    by (unfold ta_bytes at 1; rewrite Hb; apply ta_bytes_more).
  split_and!; cbn [ac_acceptor ac_inbound ac_fallback]; [done| |..|done| |].
  - by rewrite Hbytes, Hh.
  - rewrite Hb. by apply vec_filled_wf.
  - rewrite Hb. unfold ta_read, vec_filled, vec_chunk_mut, vec_reserve. cbn [ta_buf ta_set_buf vcap].
    repeat case_decide; cbn [vcap]; lia.
  - rewrite Hbytes, Hb. intros [H8 _]%Forall_app. specialize (Hcap8 H8).
    pose proof (undecided_short _ _ H8 Hund) as Hs. unfold ta_bytes in Hs.
    unfold ta_read, vec_filled, vec_chunk_mut. cbn [ta_buf ta_set_buf vcap]. unfold vec_len.
    rewrite decide_False by lia. done.
Qed.

Lemma accept_spec fuel s :
  waiting_request s →
  post (accept fuel) s (λ r s', ∃ ins,
    read_trace (ac_inbound s) ins (ac_inbound s') ∧
    (Forall is_u8 (ta_bytes (ac_acceptor s) ++ ins) → length (ta_bytes (ac_acceptor s) ++ ins) ≤ 1024) ∧
    accept_exit (ta_password_hash (ac_acceptor s)) (ta_fallback_port (ac_acceptor s))
      (ta_bytes (ac_acceptor s) ++ ins) r s').
Proof.
  revert s. induction fuel as [|fuel IH]; intros s Hwait; pose proof Hwait as (Hres & Hund & Hwf & Hfb & Hcap & Hcap8).
  { exists []. rewrite app_nil_r. split_and!; [apply rt_refl|by apply buf_bound|done]. }
  unfold post. rewrite accept_step. cbn zeta.
  pose proof (read_trace_1 (vec_room (ta_buf (ac_acceptor s))) (ac_inbound s)) as Ht.
  pose proof (poll_read_returns (vec_room (ta_buf (ac_acceptor s))) (ac_inbound s)) as Hret.
  pose proof (buf_bound _ Hund Hwf Hcap8) as Hbound.
  destruct (poll_read (vec_room (ta_buf (ac_acceptor s))) (ac_inbound s)) as [res i'] eqn:Er.
  cbn [fst snd bytes_read] in Ht, Hret.
  destruct res as [bs|e| |msg|]; cbn [fst snd];
    [|exists []; rewrite app_nil_r; split_and!; [done|done|]..|done].
  2: { right. split; [done|]. eexists _, _, _. exact Er. }
  2: { split; [by split_and!|]. split; [done|]. split; [done|]. eexists _, _. exact Er. }
  2: { split; [done|]. eexists _, _. exact Er. }
  pose proof (poll_read_fits _ _ _ _ Er) as Hfit. case_decide as Hlen.
  2: { exists []. rewrite app_nil_r. apply nil_length_inv in Hlen. subst bs.
    split_and!; [done|done|]. split; [done|]. split; [done|].
    eexists _, _. split; [|exact Er]. by apply vec_room_pos. }
  pose proof (parse_agrees (ta_read bs (ac_acceptor s)) (resumable_more _ bs Hres)) as [Hsame Ha].
  assert (ta_bytes (ta_read bs (ac_acceptor s)) = ta_bytes (ac_acceptor s) ++ bs) as Hbr
    by apply ta_bytes_more. rewrite Hbr in Ha.
  change (ta_password_hash (ta_read bs (ac_acceptor s))) with (ta_password_hash (ac_acceptor s)) in Ha.
  assert (Forall is_u8 (ta_bytes (ac_acceptor s) ++ bs) →
    length (ta_bytes (ac_acceptor s) ++ bs) ≤ 1024) as Hbound'.
  { intros [H8 _]%Forall_app. specialize (Hcap8 H8). pose proof (undecided_short _ _ H8 Hund) as Hs.
    rewrite length_app. unfold vec_room, vec_chunk_mut, vec_len, ta_bytes in *.
    rewrite decide_False in Hfit by lia. lia. }
  destruct (parse (ta_read bs (ac_acceptor s))) as [r a'] eqn:Ep. cbn [fst snd] in Hsame, Ha.
  pose proof Hsame as (Hb' & Hh' & Hp').
  assert (ta_bytes a' = ta_bytes (ac_acceptor s) ++ bs) as Hbytes
    by (unfold ta_bytes at 1; rewrite Hb'; apply ta_bytes_more).
  destruct r as [[]|[msg|msg]| | |]; [| | |done..].
  - exists bs. destruct (parse_spec _ _) as [[[cmd host] c]| | | |] eqn:Espec; try done.
    destruct Ha as (<- & <- & <-). rewrite accepted_run. cbn [fst snd ac_acceptor ac_inbound].
    rewrite (decide_True (P:=addressed_cmd (ta_cmd_code a') ∨ _)).
    2: { unfold parse_spec in Espec. destruct (target_spec _ _) as [[[cmd host] c]| | | |] eqn:Et; try done.
      apply target_spec_bounds in Et. cbn -[take drop] in Espec. case_decide; [done|].
      case_decide; [|done]. injection Espec as -> _ _.
      destruct Et as (_ & _ & [[? _]|[? _]]); [by left|by right]. }
    split_and!; [by case_decide|done|]. exists (ta_cmd_code a'), (ta_host a'), (ta_cursor a').
    rewrite Hbytes. split; [done|]. by case_decide.
  - destruct (parse_spec (ta_password_hash (ac_acceptor s)) (ta_bytes (ac_acceptor s) ++ bs))
      as [|[m|m]| | |] eqn:Espec; try done; [|by destruct Ha]. destruct Ha as [_ Hra].
    destruct (IH (mkAcceptSt a' i' (ac_fallback s))) as (ins & Ht2 & Hb2 & He2).
    { eapply waiting_read; try done. by exists m. }
    exists (bs ++ ins). cbn [ac_acceptor ac_inbound] in *. rewrite Hbytes, <- app_assoc in Hb2, He2.
    rewrite Hh', Hp' in He2. split_and!; [by eapply read_trace_trans|done|done].
  - exists bs. destruct (parse_spec _ _) as [|[m|m]| | |] eqn:Espec; try done; [by destruct Ha|].
    split_and!; [done|done|]. left. cbn [ac_fallback ac_inbound snd]. rewrite Hbytes, Hp'. eauto.
Qed.
End accept_spec.

(** ** The client's packet *)
Definition packet (cmd : Z) (a : MixAddrType) (hash : list Z) : list Z :=
  hash ++ [13; 10; cmd]%Z ++ Mix.encoded a ++ [13; 10]%Z.

Lemma auth_packet_spec {E} cmd a hash :
  a ≠ MNone → wf_addr a → auth_packet (E:=E) cmd a hash = Ok (packet cmd a hash).
Proof.
  intros Hne Hwf. unfold auth_packet. rewrite Mix.encoded_len_length by done. cbn [mbind outcome_bind].
  set (b0 := vec_extend_from_slice [13; 10; cmd]%Z _).
  destruct (Mix.write_buf_encoded (E:=E) a b0 Hne Hwf) as (b & -> & Hb). cbn [mbind outcome_bind].
  rewrite vec_extend_data. change (vdata b) with (contents b). rewrite Hb. unfold b0. cbn [contents Vec_ExtendableFromSlice].
  rewrite !vec_extend_data. cbn [vdata vec_with_capacity app]. unfold packet. by rewrite <- !app_assoc.
Qed.

Definition carried_addr (a : MixAddrType) : Prop :=
  wf_addr a ∧ match a with V4 _ _ => True | Hostname h _ => length h ≤ 255 | _ => False end.

Lemma parse_spec_packet hash cmd a :
  length hash = HASH_LEN → addressed_cmd cmd → carried_addr a →
  parse_spec hash (packet cmd a hash) = Ok (cmd, a, length (packet cmd a hash)).
Proof.
  intros Hh Hc [Hwf Ha]. unfold packet.
  assert (4 ≤ length (Mix.encoded a)) as Hel.
  { pose proof (Mix.decode_encoded a [] Hwf Ha) as Hd. rewrite app_nil_r in Hd.
    pose proof (Mix.from_encoded_bytes_total (Mix.encoded a)) as Ht. rewrite Hd in Ht. by destruct Ht as (_ & ? & _). }
  unfold parse_spec, target_spec. rewrite !length_app. cbn [length].
  rewrite decide_False by (unfold HASH_LEN in *; lia).
  rewrite take_app_le, take_ge by (rewrite ?Hh; done). rewrite decide_False by auto.
  rewrite decide_False by (unfold HASH_LEN in *; lia).
  replace (nth (HASH_LEN + 2) _ 0%Z) with cmd
    by (rewrite app_nth2 by (rewrite Hh; lia); rewrite Hh; by replace (HASH_LEN + 2 - HASH_LEN) with 2 by lia).
  rewrite decide_True by done.
  replace (drop (HASH_LEN + 3) (hash ++ [13; 10; cmd]%Z ++ Mix.encoded a ++ [13; 10]%Z))
    with (Mix.encoded a ++ [13; 10]%Z)
    by (rewrite <- Hh, drop_app_add; done).
  rewrite Mix.decode_encoded by done. cbn [mbind outcome_bind].
  rewrite decide_False by (rewrite Hh; unfold HASH_LEN in *; lia).
  replace (drop (HASH_LEN + 3 + length (Mix.encoded a)) _) with [13; 10]%Z.
  2: { rewrite <- Hh, <- Nat.add_assoc, drop_app_add. cbn [drop app Nat.add]. by rewrite drop_app_length. }
  rewrite decide_True by done. do 2 f_equal. rewrite Hh. lia.
Qed.

(** A prefix of the request and what follows it is undecided until the request is
    complete, and then decided the same way whatever of the rest has arrived. *)
Lemma packet_prefix hash cmd a T rest payload :
  length hash = HASH_LEN → addressed_cmd cmd → carried_addr a →
  T ++ rest = packet cmd a hash ++ payload →
  (length T < length (packet cmd a hash) ∧ undecided hash T) ∨
  (∃ x, T = packet cmd a hash ++ x ∧ x ++ rest = payload ∧
    parse_spec hash T = Ok (cmd, a, length (packet cmd a hash))).
Proof.
  intros Hh Hc Ha HT. pose proof (parse_spec_packet hash cmd a Hh Hc Ha) as Hp.
  destruct (decide (length T < length (packet cmd a hash))) as [Hlt|Hge].
  - left. split; [done|].
    assert (∀ r, parse_spec hash T = r → (match r with Err (Incomplete _) => False | _ => True end) →
      r = Ok (cmd, a, length (packet cmd a hash))) as Hset.
    { intros r Hr Hs. rewrite <- (parse_spec_settled hash T rest r Hr Hs), HT.
      exact (parse_spec_settled hash _ payload _ Hp Logic.I). }
    destruct (parse_spec hash T) as [[[cmd' a'] c]|[m|m]| | |] eqn:E;
      try (by specialize (Hset _ eq_refl Logic.I)); [|by exists m].
    specialize (Hset _ eq_refl Logic.I). injection Hset as -> -> ->. exfalso.
    unfold parse_spec in E. destruct (target_spec hash T) as [[[? ?] c']| | | |]; try done.
    cbn [mbind outcome_bind] in E. case_decide; [done|]. case_decide; [|done]. injection E as _ _ E. lia.
  - right. exists (drop (length (packet cmd a hash)) T).
    assert (T = packet cmd a hash ++ drop (length (packet cmd a hash)) T) as HT'.
    { rewrite <- (take_drop (length (packet cmd a hash)) T) at 1. f_equal.
      apply (f_equal (take (length (packet cmd a hash)))) in HT.
      by rewrite take_app_le, take_app_length in HT by lia. }
    split_and!; [done| |].
    + rewrite HT', <- app_assoc in HT. by apply app_inv_head in HT.
    + rewrite HT'. exact (parse_spec_settled hash _ _ _ Hp Logic.I).
Qed.

Definition accept_new {I} (hash : list Z) (port : Z) (inbound : I) : AcceptSt I :=
  mkAcceptSt (TrojanAcceptor_new hash port) inbound None.

Lemma waiting_new {I : Type} `{AsyncRead I} hash port (inbound : I) : waiting_request (accept_new hash port inbound).
Proof.
  split_and!; cbn [ac_acceptor accept_new ac_fallback]; [by left|by eexists| |done| |done].
  - unfold vec_wf, vec_len. cbn [ta_buf TrojanAcceptor_new vec_with_capacity vdata vcap length]. lia.
  - cbn [ta_buf TrojanAcceptor_new vec_with_capacity vcap]. lia.
Qed.

(** ** Properties *)

(** C7: [parse] may be interrupted anywhere. Run on whatever state earlier
    incomplete runs left, it takes the decision that the bytes alone determine
    ([parse_spec]), stores the target, the command and where the request ends, and
    stays resumable when it needs more bytes; the decision never changes when more
    bytes arrive. *)
Theorem acceptor_parse_refines (s : TrojanAcceptor) r s' more :
  resumable s → parse s = (r, s') →
  agrees s (parse_spec (ta_password_hash s) (ta_bytes s)) r s' ∧
  (match r with Err (Incomplete _) => False | _ => True end →
   parse_spec (ta_password_hash s) (ta_bytes s ++ more) = parse_spec (ta_password_hash s) (ta_bytes s)).
Proof.
  intros Hres Hp. pose proof (parse_agrees s Hres) as Ha. rewrite Hp in Ha. split; [done|].
  intros Hr. destruct Ha as [_ Ha]. cbn [fst snd] in Ha. by apply parse_spec_settled;
    destruct r as [|[]| | |], (parse_spec _ _) as [[[? ?] ?]|[]| | |]; try done; destruct Ha.
Qed.

Definition ex_hash : list Z := replicate 56 97%Z.
Definition ex_target : MixAddrType := Hostname (bytes_of_string "a.b") 443%Z.

Lemma acceptor_parse_refines_witness :
  let s := ta_read (take 60 (packet 1%Z ex_target ex_hash)) (TrojanAcceptor_new ex_hash 80%Z) in
  let s' := (parse s).2 in
  agrees s (parse_spec (ta_password_hash s) (ta_bytes s)) (parse s).1 s' ∧
  (False → parse_spec (ta_password_hash s) (ta_bytes s ++ [1%Z]) = parse_spec (ta_password_hash s) (ta_bytes s)).
Proof.
  intros s s'.
  apply (acceptor_parse_refines s (Err (Incomplete "TrojanAcceptor::set_host_and_port cmd")) s' [1%Z]).
  - by left.
  - vm_compute. reflexivity.
Defined.

(** The packet as the acceptor takes it. *)
Lemma accept_packet {I : Type} `{AsyncReadOk I} (inbound : I)
    hash port cmd a p payload fuel r s' :
  length hash = HASH_LEN → addressed_cmd cmd → carried_addr a →
  auth_packet (E:=io_error) cmd a hash = Ok p →
  accept fuel (accept_new hash port inbound) = (r, s') →
  ∃ ins, read_trace inbound ins (ac_inbound s') ∧
    ∀ rest, ins ++ rest = p ++ payload →
    match r with
    | Ok req => ∃ held, ta_host (ac_acceptor s') = a ∧ req = request_for cmd (ac_inbound s') held ∧
        match held with None => [] | Some (i, v) => drop i v end ++ rest = payload
    | Err (Invalid _) => ∃ room i e, poll_read room i = (Err e, ac_inbound s')
    | Err (Incomplete _) => ∃ room i, 0 < room ∧ poll_read room i = (Ok [], ac_inbound s')
    | Pending => length ins < length p
    | Panic msg => ∃ room i, poll_read room i = (Panic msg, ac_inbound s')
    | OutOfFuel => length ins < length p
    end.
Proof.
  intros Hh Hc Ha Hp Hrun. pose proof (waiting_new hash port inbound) as Hw.
  assert (a ≠ MNone) as Hne by (destruct Ha as [_ Ha]; by destruct a).
  rewrite auth_packet_spec in Hp by (done || apply Ha). injection Hp as <-.
  destruct (post_run _ _ _ _ _ (accept_spec fuel _ Hw) Hrun) as (ins & Ht & _ & He).
  exists ins. split; [done|]. intros rest HT.
  cbn [ac_acceptor accept_new TrojanAcceptor_new ta_bytes ta_buf vec_with_capacity vdata app
    ta_password_hash ta_fallback_port] in He.
  pose proof (packet_prefix hash cmd a ins rest payload Hh Hc Ha HT) as Hcase.
  destruct r as [req|[msg|msg]| |msg|]; cbn [accept_exit] in He.
  - destruct He as (cmd' & host & c & Hps & Hhost & Hreq & _).
    destruct Hcase as [[_ [m Hu]]|(x & -> & Hx & Hdec)]; [congruence|].
    rewrite Hdec in Hps. injection Hps as <- <- <-. eexists. split; [done|]. split; [done|].
    unfold leftover. case_decide as Hl; [|by rewrite drop_app_length].
    rewrite length_app in Hl. destruct x; [done|cbn in Hl; lia].
  - by destruct He as (_ & _ & ?).
  - destruct He as [(_ & m & Hinv)|[_ ?]]; [|done].
    destruct Hcase as [[_ [m' Hu]]|(x & _ & _ & Hdec)]; congruence.
  - destruct He as (_ & _ & [m Hu] & _). destruct Hcase as [[? _]|(x & _ & _ & Hdec)]; [done|congruence].
  - by destruct He.
  - destruct He as [_ [m Hu]]. destruct Hcase as [[? _]|(x & _ & _ & Hdec)]; [done|congruence].
Qed.

(** C6: the server understands the client. Let [p] be the packet the client sends
    for a TCP, UDP or Lite TLS request to an IPv4 address or a host name of at most 255
    bytes ([carried_addr]), and let the
    stream carry it followed by [payload], cut into reads in any way. Then the
    acceptor never rejects it; when it accepts, target and command are the
    client's and the accepted stream still delivers the payload in full: what it
    holds back from its reads followed by what has not arrived. Until then it
    waits only for bytes of the packet. *)
Theorem trojan_request_accepted {I : Type} `{AsyncReadOk I} (inbound : I)
    hash port cmd a p payload fuel r s' :
  length hash = HASH_LEN → addressed_cmd cmd → carried_addr a →
  auth_packet (E:=io_error) cmd a hash = Ok p →
  accept fuel (accept_new hash port inbound) = (r, s') →
  ∃ ins, read_trace inbound ins (ac_inbound s') ∧
    ∀ rest, ins ++ rest = p ++ payload →
    match r with
    | Ok req => ∃ held, ta_host (ac_acceptor s') = a ∧ req = request_for cmd (ac_inbound s') held ∧
        match held with None => [] | Some (i, v) => drop i v end ++ rest = payload
    | Err (Invalid _) => ∃ room i e, poll_read room i = (Err e, ac_inbound s')
    | Err (Incomplete _) => ∃ room i, 0 < room ∧ poll_read room i = (Ok [], ac_inbound s')
    | Pending => length ins < length p
    | Panic msg => ∃ room i, poll_read room i = (Panic msg, ac_inbound s')
    | OutOfFuel => length ins < length p
    end.
Proof. apply accept_packet. Qed.

Lemma ex_hash_length : length ex_hash = HASH_LEN.
Proof. done. Qed.

Lemma ex_target_carried : carried_addr ex_target.
Proof.
  unfold carried_addr, wf_addr. cbn. split_and!; [|done|unfold is_u16; lia|lia].
  repeat constructor; unfold is_u8; lia.
Qed.

Definition ex_stream : Script :=
  script_of [take 60 (packet 1 ex_target ex_hash); drop 60 (packet 1 ex_target ex_hash) ++ [5; 6]]%Z.

Lemma trojan_request_accepted_witness :
  let s' := (accept 5 (accept_new ex_hash 80%Z ex_stream)).2 in
  (accept 5 (accept_new ex_hash 80%Z ex_stream)).1 =
    Ok (TCP (TLS (BufferedRecv_new (ac_inbound s')
      (Some (68, packet 1%Z ex_target ex_hash ++ [5; 6]%Z))))) ∧
  ∃ ins, read_trace ex_stream ins (ac_inbound s') ∧
    ∀ rest, ins ++ rest = packet 1%Z ex_target ex_hash ++ [5; 6; 7]%Z →
    ∃ held, ta_host (ac_acceptor s') = ex_target ∧
      TCP (TLS (BufferedRecv_new (ac_inbound s') (Some (68, packet 1%Z ex_target ex_hash ++ [5; 6]%Z)))) =
        request_for 1%Z (ac_inbound s') held ∧
      match held with None => [] | Some (i, v) => drop i v end ++ rest = [5; 6; 7]%Z.
Proof.
  intros s'. split; [vm_compute; reflexivity|].
  apply (trojan_request_accepted ex_stream ex_hash 80%Z 1%Z ex_target (packet 1%Z ex_target ex_hash)
    [5; 6; 7]%Z 5 (Ok _) s').
  - apply ex_hash_length.
  - by left.
  - apply ex_target_carried.
  - vm_compute. reflexivity.
  - vm_compute. reflexivity.
Defined.

(** C30: nothing is lost to the fallback. When the acceptor rejects what it read,
    the fallback task gets every byte read so far, in order, together with the
    stream at exactly that point, so that what the fallback service sees is the
    client's byte stream; this is the only case in which a task is spawned, and the
    bytes do not form a request. Whatever happens, a byte stream makes the acceptor
    hold at most 1024 bytes. *)
Theorem trojan_fallback_transparent {I : Type} `{AsyncReadOk I} (inbound : I) hash port fuel r s' :
  accept fuel (accept_new hash port inbound) = (r, s') →
  ∃ ins, read_trace inbound ins (ac_inbound s') ∧
    (Forall is_u8 ins → length ins ≤ 1024) ∧
    match ac_fallback s' with
    | Some (buf, fport, stream) =>
        buf = ins ∧ fport = port ∧ stream = ac_inbound s' ∧ (∃ msg, r = Err (Invalid msg)) ∧
        ∃ msg, parse_spec hash ins = Err (Invalid msg)
    | None => ∀ msg, r = Err (Invalid msg) → ∃ room i e, poll_read room i = (Err e, ac_inbound s')
    end.
Proof.
  intros Hrun. pose proof (waiting_new hash port inbound) as Hw.
  destruct (post_run _ _ _ _ _ (accept_spec fuel _ Hw) Hrun) as (ins & Ht & Hb & He).
  exists ins. split; [done|]. split; [done|].
  cbn [ac_acceptor accept_new TrojanAcceptor_new ta_bytes ta_buf vec_with_capacity vdata app
    ta_password_hash ta_fallback_port] in He.
  destruct r as [req|[msg|msg]| |msg|]; cbn [accept_exit] in He.
  - by destruct He as (? & ? & ? & _ & _ & _ & ->).
  - by destruct He as (-> & _).
  - destruct He as [(-> & Hm)|[-> ?]]; [split_and!; eauto|by intros _ _].
  - destruct He as ((_ & _ & _ & -> & _) & _). done.
  - by destruct He as [-> _].
  - by destruct He as [-> _].
Qed.

Lemma trojan_fallback_transparent_witness :
  let get := bytes_of_string "GET / HTTP/1.1 Host: localhost; an ordinary request, not ours" in
  let inbound := script_of [take 30 get; drop 30 get; [7]%Z] in
  let s' := (accept 5 (accept_new ex_hash 80%Z inbound)).2 in
  ac_fallback s' = Some (get, 80%Z, script_of [[7]%Z]) ∧
  ∃ ins, read_trace inbound ins (ac_inbound s') ∧ (Forall is_u8 ins → length ins ≤ 1024) ∧
    match ac_fallback s' with
    | Some (buf, fport, stream) =>
        buf = ins ∧ fport = 80%Z ∧ stream = ac_inbound s' ∧
        (∃ msg, (accept 5 (accept_new ex_hash 80%Z inbound)).1 = Err (Invalid msg)) ∧
        ∃ msg, parse_spec ex_hash ins = Err (Invalid msg)
    | None => ∀ msg, (accept 5 (accept_new ex_hash 80%Z inbound)).1 = Err (Invalid msg) →
        ∃ room i e, poll_read room i = (Err e, ac_inbound s')
    end.
Proof.
  intros get inbound s'. split; [vm_compute; reflexivity|].
  apply (trojan_fallback_transparent inbound ex_hash 80%Z 5 _ s'). apply surjective_pairing.
Defined.

(** The client's echo request is always refused: the client sends the null
    address after the command ([EndpointManager::echo] passes it on), the
    server expects the CRLF right there, and takes it for an invalid request. *)
Theorem trojan_echo_refused hash port p more r s' :
  length hash = HASH_LEN →
  auth_packet (E:=io_error) ECHO_REQUEST_CMD Mix.new_null hash = Ok p →
  parse (ta_read (p ++ more) (TrojanAcceptor_new hash port)) = (r, s') →
  ∃ msg, r = Err (Invalid msg).
Proof.
  intros Hh Hp Hrun. rewrite auth_packet_spec in Hp; [|done|].
  2: { unfold wf_addr, Mix.new_null. split_and!; [done| |unfold is_u16; lia].
    repeat constructor; unfold is_u8; lia. }
  injection Hp as <-.
  assert (resumable (ta_read (packet ECHO_REQUEST_CMD Mix.new_null hash ++ more) (TrojanAcceptor_new hash port)))
    as Hres by (apply resumable_more; by left).
  pose proof (parse_agrees _ Hres) as [_ Ha]. rewrite Hrun in Ha. cbn [fst snd] in Ha.
  assert (parse_spec hash (packet ECHO_REQUEST_CMD Mix.new_null hash ++ more) = Err (Invalid "")) as Hspec.
  { apply parse_spec_settled; [|done]. unfold parse_spec, target_spec, packet. rewrite !length_app. cbn [length].
    rewrite decide_False by (unfold HASH_LEN in *; lia).
    rewrite take_app_le, take_ge by (rewrite ?Hh; done). rewrite decide_False by auto.
    rewrite decide_False by (unfold HASH_LEN in *; cbn; lia).
    replace (nth (HASH_LEN + 2) _ 0%Z) with ECHO_REQUEST_CMD
      by (rewrite app_nth2 by (rewrite Hh; lia); rewrite Hh; by replace (HASH_LEN + 2 - HASH_LEN) with 2 by lia).
    rewrite decide_False by (unfold addressed_cmd; by intros [|[|]]). rewrite decide_True by done.
    cbn [mbind outcome_bind]. rewrite decide_False by (rewrite Hh; cbn; unfold HASH_LEN in *; lia).
    rewrite <- Hh, drop_app_add. by rewrite decide_False by done. }
  change (ta_password_hash (ta_read (packet ECHO_REQUEST_CMD Mix.new_null hash ++ more) (TrojanAcceptor_new hash port)))
    with hash in Ha.
  assert (ta_bytes (ta_read (packet ECHO_REQUEST_CMD Mix.new_null hash ++ more) (TrojanAcceptor_new hash port)) =
    packet ECHO_REQUEST_CMD Mix.new_null hash ++ more) as Hb by apply ta_bytes_more.
  rewrite Hb, Hspec in Ha. destruct r as [|[m|m]| | |]; try done; [by destruct Ha|by exists m].
Qed.

Lemma trojan_echo_refused_witness :
  ∃ msg, (parse (ta_read (packet 255%Z Mix.new_null ex_hash ++ []) (TrojanAcceptor_new ex_hash 80%Z))).1 =
    Err (Invalid msg).
Proof.
  apply (trojan_echo_refused ex_hash 80%Z (packet 255%Z Mix.new_null ex_hash) [] _
    (parse (ta_read (packet 255%Z Mix.new_null ex_hash ++ []) (TrojanAcceptor_new ex_hash 80%Z))).2).
  - apply ex_hash_length.
  - vm_compute. reflexivity.
  - apply surjective_pairing.
Defined.

(** The client puts its packet on the stream in full: when sending succeeds
    exactly the packet was written, and otherwise a prefix of it. Sending ends. *)
Theorem send_trojan_auth_exact {W : Type} `{AsyncWriteOk W} cmd a hash (w : W) r w' :
  a ≠ MNone → wf_addr a → send_trojan_auth cmd a hash w = (r, w') →
  r ≠ OutOfFuel ∧ ∃ outs rest, write_trace w outs w' ∧ packet cmd a hash = outs ++ rest ∧
    (r = Ok tt → rest = []).
Proof.
  intros Hne Hwf. unfold send_trojan_auth. rewrite auth_packet_spec, st_lift_Ok_bind by done.
  intros Hrun. exact (post_run _ _ _ _ _ (write_all_spec (packet cmd a hash) w) Hrun).
Qed.

Lemma send_trojan_auth_exact_witness :
  let w := mkScript [] [Gives 10; Gives 30] [] false in
  let w' := (send_trojan_auth 1%Z ex_target ex_hash w).2 in
  sc_log w' = packet 1%Z ex_target ex_hash ∧
  Ok (E:=io_error) tt ≠ OutOfFuel ∧ ∃ outs rest, write_trace w outs w' ∧
    packet 1%Z ex_target ex_hash = outs ++ rest ∧ (Ok (E:=io_error) tt = Ok tt → rest = []).
Proof.
  intros w w'. split; [vm_compute; reflexivity|].
  apply (send_trojan_auth_exact 1%Z ex_target ex_hash w (Ok tt) w').
  - done.
  - apply ex_target_carried.
  - vm_compute. reflexivity.
Defined.
