(* ===== verification/UdpSockets.v ===== *)
(** The two datagram ends that own a UDP socket: [Socks5UdpStream] of
    src/src/client/utils/client_udp_stream.rs and [ServerUdpStream] of
    src/src/server/utils/server_udp_stream.rs.

    The socket, the reset signal and the resolver task are parameters, reached
    through the classes [UdpSocket], [Signal] and [Dns]; what is sent is read off
    the history [send_trace] of the socket. *)
From stdpp Require Import relations.
From S2P Require Import Prelude Vec MixAddr Io UdpTraits.

(** ** What the streams use of tokio *)

(** [poll_recv_from room]: a datagram, cut to [room] bytes, and its source. *)
Class UdpSocket (K : Type) := {
  poll_recv_from : nat → ST K io_error (list Z * SocketAddr);
  poll_send_to : list Z → SocketAddr → ST K io_error nat;
}.

(** A datagram fits the buffer it is received into and is sent whole; a poll
    returns. *)
Class UdpSocketOk (K : Type) `{UdpSocket K} := {
  recv_fits : ∀ room (s : K) bs a s', poll_recv_from room s = (Ok (bs, a), s') → length bs ≤ room;
  send_whole : ∀ b a (s : K) n s', poll_send_to b a s = (Ok n, s') → n = length b;
  send_returns : ∀ b a (s : K) r s', poll_send_to b a s = (r, s') → r ≠ OutOfFuel ∧ is_panic r = false;
}.

(** [oneshot::Receiver::try_recv], as [try_recv!] reads it: anything but
    [Empty] counts as received. *)
Class Signal (X : Type) := try_recv : X → bool * X.

(** The resolver: [dns_send] asks it for a name through [DNS_TX], [task_poll]
    polls the answer ([Err] when the resolver dropped the request). *)
Class Dns (D T : Type) := {
  dns_send : list Z → D → T * D;
  task_poll : ST T unit IpAddr;
}.

(** The datagrams a socket accepted. *)
Section send_trace.
Context {K : Type} `{UdpSocket K}.

Definition sent_of (b : list Z) (a : SocketAddr) (r : outcome io_error nat)
    : list (SocketAddr * list Z) :=
  match r with Ok n => [(a, take n b)] | _ => [] end.

Inductive send_trace : K → list (SocketAddr * list Z) → K → Prop :=
| send_refl s : send_trace s [] s
| send_recv s room ds s' : send_trace (poll_recv_from room s).2 ds s' → send_trace s ds s'
| send_send s b a ds s' :
    send_trace (poll_send_to b a s).2 ds s' →
    send_trace s (sent_of b a (poll_send_to b a s).1 ++ ds) s'.

Lemma send_trace_trans s1 d1 s2 d2 s3 :
  send_trace s1 d1 s2 → send_trace s2 d2 s3 → send_trace s1 (d1 ++ d2) s3.
Proof. intros H1 H2. induction H1; rewrite <- ?app_assoc; eauto using send_trace. Qed.

Lemma send_trace_recv room s : send_trace s [] (poll_recv_from room s).2.
Proof. eauto using send_trace. Qed.

Lemma send_trace_send b a s :
  send_trace s (sent_of b a (poll_send_to b a s).1) (poll_send_to b a s).2.
Proof. rewrite <- (app_nil_r (sent_of _ _ _)). eauto using send_trace. Qed.
End send_trace.

#[export] Hint Resolve send_refl send_trace_recv send_trace_send : oxide.

(** ** [Socks5UdpStream]: the client's end towards the SOCKS5 application *)
Record Socks5UdpSpecifiedBuffer := mkSpecifiedBuffer { sb_inner : Vec }.

Definition SpecifiedBuffer_new (capacity : nat) : Socks5UdpSpecifiedBuffer :=
  mkSpecifiedBuffer (vec_extend_from_slice [0; 0; 0]%Z (vec_with_capacity capacity)).

Definition SpecifiedBuffer_reset (b : Socks5UdpSpecifiedBuffer) : Socks5UdpSpecifiedBuffer :=
  mkSpecifiedBuffer (vec_set_len 3 (sb_inner b)).

Definition SpecifiedBuffer_is_empty {E} (b : Socks5UdpSpecifiedBuffer) : outcome E bool :=
  if decide (3 ≤ vec_len (sb_inner b)) then Ok (bool_decide (vec_len (sb_inner b) = 3))
  else Panic "Socks5UdpSpecifiedBuffer unexpected len".

#[export] Instance SpecifiedBuffer_Extendable : ExtendableFromSlice Socks5UdpSpecifiedBuffer := {
  extend_from_slice src b := mkSpecifiedBuffer (vec_extend_from_slice src (sb_inner b));
  contents b := vdata (sb_inner b);
}.

#[export] Instance SpecifiedBuffer_ExtendableOk : ExtendableFromSliceOk Socks5UdpSpecifiedBuffer.
Proof. constructor. intros. apply vec_extend_data. Qed.

Record Socks5UdpStream (K X : Type) := mkSocks5UdpStream {
  server_udp_socket : K;
  client_udp_addr : option SocketAddr;
  signal_reset : X;
  sbuffer : Socks5UdpSpecifiedBuffer;
}.
Arguments mkSocks5UdpStream {K X}.
Arguments server_udp_socket {K X}.
Arguments client_udp_addr {K X}.
Arguments signal_reset {K X}.
Arguments sbuffer {K X}.

Definition Socks5UdpStream_new {K X} (socket : K) (stream_reset_signal_rx : X) : Socks5UdpStream K X :=
  mkSocks5UdpStream socket None stream_reset_signal_rx (SpecifiedBuffer_new UDP_BUFFER_SIZE).

Section socks5_udp.
Context {K X : Type} `{UdpSocket K} `{Signal X}.
Abbreviation St := (Socks5UdpStream K X).

Definition s5_on_socket {A} (m : ST K io_error A) : ST St io_error A :=
  st_zoom server_udp_socket
    (λ k s, mkSocks5UdpStream k (client_udp_addr s) (signal_reset s) (sbuffer s)) m.
Definition s5_on_buffer {A} (m : ST Socks5UdpSpecifiedBuffer io_error A) : ST St io_error A :=
  st_zoom sbuffer
    (λ b s, mkSocks5UdpStream (server_udp_socket s) (client_udp_addr s) (signal_reset s) b) m.
Definition s5_pin (a : SocketAddr) (s : St) : St :=
  mkSocks5UdpStream (server_udp_socket s) (Some a) (signal_reset s) (sbuffer s).

(** [try_recv!(oneshot, self.signal_reset, ..)]. *)
Definition s5_reset_received : ST St io_error bool := λ s,
  let '(r, x) := try_recv (signal_reset s) in
  (Ok r, mkSocks5UdpStream (server_udp_socket s) (client_udp_addr s) x (sbuffer s)).

(** The first datagram decides who the client is. *)
Definition socks5_poll_read (room : nat) : ST St io_error (list Z) :=
  '(bs, addr) ← s5_on_socket (poll_recv_from room);
  s ← st_get;
  match client_udp_addr s with
  | None => st_modify (s5_pin addr);; mret bs
  | Some c => if decide (c ≠ addr) then throw Interrupted else mret bs
  end.

Definition socks5_poll_write : ST St io_error nat :=
  s ← st_get;
  match client_udp_addr s with
  | None => throw OtherKind
  | Some c => s5_on_socket (poll_send_to (vdata (sb_inner (sbuffer s))) c)
  end.

Definition s5_stream {A} (m : ST St io_error A) : ST (St * UdpRelayBuffer) io_error A :=
  st_zoom fst (λ s p, (s, p.2)) m.
Definition s5_outer {E A} (m : ST UdpRelayBuffer E A) : ST (St * UdpRelayBuffer) E A :=
  st_zoom snd (λ b p, (p.1, b)) m.

Definition socks5_udp_read : ST (St * UdpRelayBuffer) io_error MixAddrType :=
  s5_outer (st_modify UdpRelay.as_read_buf);;
  reset ← s5_stream s5_reset_received;
  if (reset : bool) then mret MNone else
  '(_, buf) ← st_get;
  bs ← s5_stream (socks5_poll_read (UdpRelay.room buf));
  if decide (length bs < 3) then mret MNone else
  s5_outer (st_modify (UdpRelay.advance_mut bs));;
  s5_outer (advance 3);;
  st_map_err (λ _, OtherKind) (s5_outer Mix.from_encoded).

#[export] Instance Socks5UdpStream_UdpRead : UdpRead St := λ _, socks5_udp_read.

Definition socks5_udp_write (buf : list Z) (addr : MixAddrType) : ST St io_error nat :=
  s ← st_get;
  just_filled_buf ← st_lift (SpecifiedBuffer_is_empty (sbuffer s));
  (if (just_filled_buf : bool) then
     s5_on_buffer (Mix.write_buf addr);;
     s5_on_buffer (st_modify (extend_from_slice buf))
   else mret tt);;
  res ← st_try socks5_poll_write;
  (match res with
   | Ok real_written_amt =>
       s ← st_get;
       if decide (real_written_amt = vec_len (sb_inner (sbuffer s)))
       then s5_on_buffer (st_modify SpecifiedBuffer_reset) else mret tt
   | Pending => mret tt
   | Err e => throw e
   | Panic msg => panic msg
   | OutOfFuel => st_lift OutOfFuel
   end);;
  if (just_filled_buf : bool) then mret (length buf) else st_lift Pending.

#[export] Instance Socks5UdpStream_UdpWrite : UdpWrite St := {
  poll_proxy_stream_write := socks5_udp_write;
  udp_poll_flush := mret tt;
  udp_poll_shutdown := mret tt;
}.
End socks5_udp.

(** ** [ServerUdpStream]: the server's end towards the targets *)
Inductive ResolveAddr (T : Type) : Type :=
| ResolvePending (task : T) (missed_wakeup : bool)
| ResolveReady (a : SocketAddr)
| ResolveNone.
Arguments ResolvePending {T}.
Arguments ResolveReady {T}.
Arguments ResolveNone {T}.

(** The stream with its surroundings: the resolver's channel, and the number of
    times a poll woke its own task. *)
Record ServerUdpStream (K D T : Type) := mkServerUdpStream {
  su_inner : K;
  addr_task : ResolveAddr T;
  su_dns : D;
  su_wakes : nat;
}.
Arguments mkServerUdpStream {K D T}.
Arguments su_inner {K D T}.
Arguments addr_task {K D T}.
Arguments su_dns {K D T}.
Arguments su_wakes {K D T}.

Definition ServerUdpStream_new {K D T} (inner : K) (dns : D) : ServerUdpStream K D T :=
  mkServerUdpStream inner ResolveNone dns 0.

Section server_udp.
Context {K D T : Type} `{UdpSocket K} `{Dns D T}.
Abbreviation St := (ServerUdpStream K D T).

Definition su_on_socket {A} (m : ST K io_error A) : ST St io_error A :=
  st_zoom su_inner (λ k s, mkServerUdpStream k (addr_task s) (su_dns s) (su_wakes s)) m.
Definition su_set_task (t : ResolveAddr T) (s : St) : St :=
  mkServerUdpStream (su_inner s) t (su_dns s) (su_wakes s).

(** [cx.waker().wake_by_ref()]. *)
Definition su_wake (s : St) : St :=
  mkServerUdpStream (su_inner s) (addr_task s) (su_dns s) (su_wakes s + 1).

(** The arm [ResolveAddr::None]. *)
Definition start_resolving (addr : MixAddrType) : ST St io_error unit :=
  match addr with
  | V4 _ _ | V6 _ _ => a ← st_lift (Mix.to_socket_addrs addr); st_modify (su_set_task (ResolveReady a))
  | Hostname name _ =>
      st_modify (λ s, let '(task_rx, d) := dns_send name (su_dns s) in
        mkServerUdpStream (su_inner s) (ResolvePending task_rx false) d (su_wakes s))
  | MNone => panic "unprecedented MixAddrType variant"
  end.

(** The loop of [poll_proxy_stream_write]: at most three passes. *)
Fixpoint server_write_loop (fuel : nat) (buf : list Z) (addr : MixAddrType) : ST St io_error nat :=
  match fuel with
  | 0 => st_lift OutOfFuel
  | S fuel' =>
      s ← st_get;
      match addr_task s with
      | ResolvePending task missed_wakeup =>
          let '(res, task') := task_poll task in
          st_modify (su_set_task (ResolvePending task' missed_wakeup));;
          match res with
          | Pending => st_modify (su_set_task (ResolvePending task' true));; st_lift Pending
          | Ok ip =>
              (if (missed_wakeup : bool) then st_modify su_wake else mret tt);;
              port ← st_lift (Mix.port addr);
              st_modify (su_set_task (ResolveReady (socket_addr_of ip port)));;
              server_write_loop fuel' buf addr
          | Err _ => mret 0
          | Panic msg => panic msg
          | OutOfFuel => st_lift OutOfFuel
          end
      | ResolveReady s_addr =>
          res ← st_try (su_on_socket (poll_send_to buf s_addr));
          (match res with
           | Ok val => if decide (val = length buf) then st_modify (su_set_task ResolveNone) else mret tt
           | _ => mret tt
           end);;
          st_lift res
      | ResolveNone => start_resolving addr;; server_write_loop fuel' buf addr
      end
  end.

Definition server_udp_write (buf : list Z) (addr : MixAddrType) : ST St io_error nat :=
  server_write_loop 3 buf addr.

#[export] Instance ServerUdpStream_UdpWrite : UdpWrite St := {
  poll_proxy_stream_write := server_udp_write;
  udp_poll_flush := mret tt;
  udp_poll_shutdown := mret tt;
}.

Definition server_udp_read : ST (St * UdpRelayBuffer) io_error MixAddrType :=
  st_modify (λ '(s, b), (s, UdpRelay.as_read_buf b));;
  '(_, buf) ← st_get;
  '(bs, addr) ← st_zoom fst (λ s p, (s, p.2)) (su_on_socket (poll_recv_from (UdpRelay.room buf)));
  if decide (length bs = 0) then mret MNone else
  st_modify (λ '(s, b), (s, UdpRelay.advance_mut bs b));;
  mret (Mix.from_socket_addr addr).

#[export] Instance ServerUdpStream_UdpRead : UdpRead St := λ _, server_udp_read.
End server_udp.

(** ** Reading as a SOCKS5 client end *)
Section socks5_reading.
Context {K X : Type} `{UdpSocket K} `{Signal X}.
Implicit Types (s : Socks5UdpStream K X) (b : UdpRelayBuffer).

(** Whether a datagram comes from another source than the client. *)
Definition foreign s (src : SocketAddr) : bool :=
  match client_udp_addr s with Some c => bool_decide (c ≠ src) | None => false end.

(** What becomes of a datagram that was received. *)
Definition socks5_received s b (bs : list Z) (src : SocketAddr)
    : outcome io_error MixAddrType * (Socks5UdpStream K X * UdpRelayBuffer) :=
  if foreign s src then (Err Interrupted, (s, b))
  else let s' := s5_pin src s in
    if decide (length bs < 3) then (Ok MNone, (s', b))
    else (s5_outer (advance 3);; st_map_err (λ _, OtherKind) (s5_outer Mix.from_encoded))
           (s', UdpRelay.advance_mut bs b).

Lemma s5_outer_bind {E A B} (m : ST UdpRelayBuffer E A)
    (f : A → ST (Socks5UdpStream K X * UdpRelayBuffer) E B) s b :
  (s5_outer m ≫= f) (s, b) = let '(r, b') := m b in
    match r with
    | Ok a => f a (s, b')
    | Err e => (Err e, (s, b'))
    | Pending => (Pending, (s, b'))
    | Panic msg => (Panic msg, (s, b'))
    | OutOfFuel => (OutOfFuel, (s, b'))
    end.
Proof. unfold s5_outer. rewrite st_zoom_bind. cbn. by destruct (m b). Qed.

Lemma s5_stream_bind {A B} (m : ST (Socks5UdpStream K X) io_error A)
    (f : A → ST (Socks5UdpStream K X * UdpRelayBuffer) io_error B) s b :
  (s5_stream m ≫= f) (s, b) = let '(r, s') := m s in
    match r with
    | Ok a => f a (s', b)
    | Err e => (Err e, (s', b))
    | Pending => (Pending, (s', b))
    | Panic msg => (Panic msg, (s', b))
    | OutOfFuel => (OutOfFuel, (s', b))
    end.
Proof. unfold s5_stream. rewrite st_zoom_bind. cbn. by destruct (m s). Qed.

Lemma socks5_udp_read_run s b :
  socks5_udp_read (s, b) =
    (let b0 := UdpRelay.as_read_buf b in
     let '(reset, x) := try_recv (signal_reset s) in
     let '(res, k) := poll_recv_from (UdpRelay.room b0) (server_udp_socket s) in
     if (reset : bool) then
       (Ok MNone, (mkSocks5UdpStream (server_udp_socket s) (client_udp_addr s) x (sbuffer s), b0)) else
     let s1 := mkSocks5UdpStream k (client_udp_addr s) x (sbuffer s) in
     match res with
     | Ok (bs, src) => socks5_received s1 b0 bs src
     | Err e => (Err e, (s1, b0))
     | Pending => (Pending, (s1, b0))
     | Panic msg => (Panic msg, (s1, b0))
     | OutOfFuel => (OutOfFuel, (s1, b0))
     end).
Proof.
  unfold socks5_udp_read. rewrite s5_outer_bind. unfold st_modify at 1. rewrite s5_stream_bind.
  unfold s5_reset_received. cbv zeta.
  destruct (try_recv (signal_reset s)) as [reset x].
  destruct (poll_recv_from _ _) as [res k] eqn:Er.
  destruct reset; [done|]. rewrite st_get_bind, s5_stream_bind.
  unfold socks5_poll_read, s5_on_socket. rewrite st_zoom_bind. cbn [server_udp_socket]. rewrite Er.
  destruct res as [[bs src]|e| |msg|]; [|done..]. st_simpl. unfold socks5_received.
  unfold foreign, s5_pin. cbn [client_udp_addr server_udp_socket signal_reset sbuffer].
  destruct (client_udp_addr s) as [c|].
  - destruct (decide (c ≠ src)) as [Hne|Heq].
    { by rewrite bool_decide_eq_true_2 by done. }
    rewrite bool_decide_eq_false_2 by done. assert (c = src) as -> by (by apply dec_stable).
    unfold mret at 1, st_ret at 1. case_decide; [done|]. by rewrite s5_outer_bind.
  - rewrite st_modify_bind. unfold mret at 1, st_ret at 1, s5_pin. case_decide; [done|].
    by rewrite s5_outer_bind.
Qed.

(** A received datagram that is long enough is its header and what
    [from_encoded] makes of the rest. *)
Lemma socks5_received_decodes s b bs src :
  UdpRelay.wf b → UdpRelay.queue b = [] → length bs ≤ UdpRelay.room b → 3 ≤ length bs →
  foreign s src = false →
  ∃ b', socks5_received s b bs src =
          (match Mix.from_encoded_bytes (drop 3 bs) with
           | Ok (a, _) => Ok a
           | Err _ => Err OtherKind
           | Pending => Pending | Panic msg => Panic msg | OutOfFuel => OutOfFuel
           end, (s5_pin src s, b')) ∧
    UdpRelay.wf b' ∧
    (∀ a n, Mix.from_encoded_bytes (drop 3 bs) = Ok (a, n) →
       UdpRelay.queue b' = drop n (drop 3 bs)).
Proof.
  intros Hwf Hq Hroom H3 Hc. unfold socks5_received.
  rewrite Hc, decide_False by lia.
  destruct (UdpRelay.advance_mut_queue bs b Hwf Hroom) as [Hw1 Hq1]. rewrite Hq, app_nil_l in Hq1.
  destruct (UdpRelay.advance_queue (E:=io_error) 3 _ Hw1) as (b2 & Ha & Hw2 & Hq2); [by rewrite Hq1|].
  rewrite Hq1 in Hq2. cbv zeta. rewrite s5_outer_bind.
  change (advance (E:=io_error) 3) with (UdpRelay.udp_advance (E:=io_error) 3). rewrite Ha.
  unfold st_map_err, s5_outer. rewrite st_zoom_run. cbn [snd fst].
  pose proof (Mix.from_encoded_bytes_total (drop 3 bs)) as Ht. rewrite <- Hq2 in *.
  destruct (Mix.from_encoded_bytes (UdpRelay.queue b2)) as [[a n]|e| |msg|] eqn:Ed; try done.
  - destruct (from_encoded_queue_Ok b2 a n Hw2 Ed) as (b' & -> & Hw' & Hq'). exists b'.
    split; [done|]. split; [done|]. by intros ?? [= <- <-].
  - rewrite (from_encoded_queue_Err b2 e Hw2 Ed). exists b2. done.
Qed.
End socks5_reading.

Section socks5_contracts.
Context {K X : Type} `{UdpSocketOk K} `{Signal X}.
Implicit Types (s : Socks5UdpStream K X) (b : UdpRelayBuffer).

#[export] Instance Socks5UdpStream_UdpReadOk : UdpReadOk (Socks5UdpStream K X).
Proof.
  intros fuel s b res s' b' Hb Hq. unfold poll_proxy_stream_read, Socks5UdpStream_UdpRead.
  rewrite socks5_udp_read_run. cbv zeta.
  destruct (UdpRelay.as_read_buf_queue b Hb) as (Hb0 & Hq0 & _). rewrite Hq in Hq0.
  destruct (try_recv (signal_reset s)) as [reset x].
  destruct (poll_recv_from _ _) as [r k] eqn:Er.
  destruct reset; [by intros [= <- <- <-]|].
  destruct r as [[bs src]|e| |msg|]; [|by intros [= <- <- <-]..].
  set (s1 := mkSocks5UdpStream _ _ _ _). intros Hrec.
  destruct (foreign s1 src) eqn:Ef.
  { unfold socks5_received in Hrec. rewrite Ef in Hrec. by simplify_eq. }
  destruct (decide (length bs < 3)) as [H3|H3].
  { unfold socks5_received in Hrec. rewrite Ef, decide_True in Hrec by done. by simplify_eq. }
  destruct (socks5_received_decodes s1 _ bs src Hb0 Hq0) as (b2 & Hr & Hw2 & _);
    [by eapply recv_fits|lia|done|].
  rewrite Hr in Hrec. injection Hrec as <- <- <-. split; [done|].
  pose proof (Mix.from_encoded_bytes_total (drop 3 bs)) as Ht.
  destruct (Mix.from_encoded_bytes _) as [[[] ?]| | | |]; try done. by destruct Ht as (_&_&?&_).
Qed.
End socks5_contracts.

(** ** Writing as a SOCKS5 client end *)

(** The datagram for the application: reserved bytes, fragment, address, data. *)
Definition socks5_frame (addr : MixAddrType) (buf : list Z) : list Z :=
  [0; 0; 0]%Z ++ Mix.written addr ++ buf.

Section socks5_writing.
Context {K X : Type} `{UdpSocketOk K} `{Signal X}.
Implicit Types (s : Socks5UdpStream K X) (b : UdpRelayBuffer).

Definition sb_data s : list Z := vdata (sb_inner (sbuffer s)).

(** The buffer holds the three header bytes and, when a datagram is waiting to
    be sent, its rest. *)
Definition sb_ok s : Prop := take 3 (sb_data s) = [0; 0; 0]%Z.
Definition waiting s : list (list Z) :=
  if decide (length (sb_data s) = 3) then [] else [sb_data s].

(** The datagram a write takes: none while one is waiting. *)
Definition taken s (buf : list Z) (addr : MixAddrType) : list (list Z) :=
  if decide (length (sb_data s) = 3) then [socks5_frame addr buf] else [].

Lemma sb_ok_length s : sb_ok s → 3 ≤ length (sb_data s).
Proof.
  unfold sb_ok. intros Ht. apply (f_equal length) in Ht. rewrite length_take in Ht.
  change (length [0; 0; 0]%Z) with 3 in Ht. lia.
Qed.

Lemma sb_ok_data s : sb_ok s → length (sb_data s) = 3 → sb_data s = [0; 0; 0]%Z.
Proof. unfold sb_ok. intros <- Hl. by rewrite take_ge by lia. Qed.

Lemma waiting_taken s buf addr :
  sb_ok s → ∃ d, waiting s ++ taken s buf addr = [d] ∧
    (length (sb_data s) = 3 → d = socks5_frame addr buf) ∧
    (length (sb_data s) ≠ 3 → d = sb_data s).
Proof. unfold waiting, taken. intros Hs. case_decide; eexists; (split; [done|]); done. Qed.

(** The first half of a write: afterwards the buffer holds the datagram that was
    waiting or the new one. *)
Definition socks5_fill (fresh : bool) (buf : list Z) (addr : MixAddrType)
    : ST (Socks5UdpStream K X) io_error unit :=
  if fresh then
    s5_on_buffer (Mix.write_buf addr);;
    s5_on_buffer (st_modify (extend_from_slice buf))
  else mret tt.

Lemma socks5_fill_run s buf addr :
  addr ≠ MNone → sb_ok s →
  ∃ s1, socks5_fill (bool_decide (length (sb_data s) = 3)) buf addr s = (Ok tt, s1) ∧
    server_udp_socket s1 = server_udp_socket s ∧ client_udp_addr s1 = client_udp_addr s ∧
    signal_reset s1 = signal_reset s ∧
    waiting s ++ taken s buf addr = [sb_data s1] ∧ sb_ok s1 ∧ length (sb_data s1) ≠ 3.
Proof.
  intros Hne Hs. unfold waiting, taken, socks5_fill.
  destruct (decide (length (sb_data s) = 3)) as [H3|H3].
  2: { rewrite bool_decide_eq_false_2 by done. by exists s. }
  rewrite bool_decide_eq_true_2 by done. unfold s5_on_buffer. rewrite st_zoom_bind.
  destruct (Mix.write_buf_written (E:=io_error) addr (sbuffer s) Hne) as (sb & -> & Hc).
  rewrite st_zoom_run. cbn [fst snd st_modify].
  assert (sb_data s = [0; 0; 0]%Z) as Hd by by apply sb_ok_data.
  eexists. split; [reflexivity|]. cbn [server_udp_socket client_udp_addr signal_reset].
  assert (sb_data (mkSocks5UdpStream (server_udp_socket s) (client_udp_addr s) (signal_reset s)
      (extend_from_slice buf sb)) = socks5_frame addr buf) as Hf.
  { change (contents (extend_from_slice buf sb) = socks5_frame addr buf).
    rewrite contents_extend, Hc. change (contents (sbuffer s)) with (sb_data s).
    by rewrite Hd, <- app_assoc. }
  unfold sb_data in Hf |- *. cbn [sbuffer] in *. rewrite Hf. split_and!; [done..| |].
  - unfold sb_ok, sb_data. cbn [sbuffer]. by rewrite Hf.
  - pose proof (Mix.written_nonempty addr Hne). unfold socks5_frame. cbn. rewrite length_app. lia.
Qed.

(** The second half of a write: the buffer's datagram is sent, or stays. *)
Definition socks5_settle (fresh : bool) (buf : list Z) : ST (Socks5UdpStream K X) io_error nat :=
  res ← st_try socks5_poll_write;
  (match res with
   | Ok real_written_amt =>
       s ← st_get;
       if decide (real_written_amt = vec_len (sb_inner (sbuffer s)))
       then s5_on_buffer (st_modify SpecifiedBuffer_reset) else mret tt
   | Pending => mret tt
   | Err e => throw e
   | Panic msg => panic msg
   | OutOfFuel => st_lift OutOfFuel
   end);;
  if (fresh : bool) then mret (length buf) else st_lift Pending.

Lemma socks5_udp_write_split s buf addr :
  sb_ok s →
  socks5_udp_write buf addr s =
    (let fresh := bool_decide (length (sb_data s) = 3) in
     (socks5_fill fresh buf addr;; socks5_settle fresh buf) s).
Proof.
  intros Hs%sb_ok_length. unfold socks5_udp_write. st_simpl. unfold SpecifiedBuffer_is_empty.
  unfold sb_data in *. unfold vec_len. rewrite decide_True by done. st_simpl. done.
Qed.

Lemma socks5_settle_run s fresh buf :
  sb_ok s → length (sb_data s) ≠ 3 →
  post (socks5_settle fresh buf) s (λ r s', sb_ok s' ∧ client_udp_addr s' = client_udp_addr s ∧
    ∃ ds, send_trace (server_udp_socket s) ds (server_udp_socket s') ∧
      [sb_data s] = map snd ds ++ waiting s' ∧
      Forall (λ d, client_udp_addr s = Some d.1) ds ∧
      r ≠ OutOfFuel ∧ is_panic r = false ∧
      (r = Pending → fresh = false) ∧ (∀ n, r = Ok n → fresh = true ∧ n = length buf)).
Proof.
  intros Hs H3. unfold post, socks5_settle. st_simpl. unfold socks5_poll_write. st_simpl.
  assert (waiting s = [sb_data s]) as Hw by (unfold waiting; by rewrite decide_False by done).
  destruct (client_udp_addr s) as [c|] eqn:Ec; cbn [fst snd].
  2: { split_and!; [done..|]. exists []. split_and!; [apply send_refl|exact (eq_sym Hw)|done..]. }
  unfold s5_on_socket. rewrite st_zoom_run. cbn [fst snd].
  pose proof (send_trace_send (sb_data s) c (server_udp_socket s)) as Ht. unfold sb_data in *.
  destruct (poll_send_to _ c (server_udp_socket s)) as [r k] eqn:Es. cbn [fst snd] in *.
  pose proof (send_returns _ _ _ _ _ Es) as [Hf Hp].
  destruct r as [n|e| |msg|]; cbn [sent_of] in Ht; try done.
  - pose proof (send_whole _ _ _ _ _ Es) as ->.
    rewrite st_bind_assoc, st_get_bind, decide_True by done. unfold s5_on_buffer. rewrite st_zoom_bind. cbn [st_modify fst snd].
    rewrite firstn_all in Ht. unfold sb_ok, sb_data in Hs.
    assert (∀ r, r = (if fresh then Ok (E:=io_error) (length buf) else Pending) →
      r ≠ OutOfFuel ∧ is_panic r = false ∧
      (r = Pending → fresh = false) ∧ (∀ n, r = Ok n → fresh = true ∧ n = length buf)) as Hr.
    { intros r ->. destruct fresh; split_and!; try done. by intros n [= <-]. }
    destruct fresh; (split_and!; [unfold sb_ok, sb_data; cbn; by rewrite take_take|done|]);
      exists [(c, vdata (sb_inner (sbuffer s)))];
      (split_and!; [exact Ht| |by constructor|by apply Hr..]);
      unfold waiting, sb_data; cbn; by rewrite Hs.
  - split_and!; [done..|]. exists []. split_and!; [exact Ht|exact (eq_sym Hw)|done..].
  - destruct fresh; (split_and!; [done..|]); exists [];
      (split_and!; [exact Ht|exact (eq_sym Hw)|try done..]); by intros n [= <-].
Qed.

Lemma socks5_udp_write_spec s buf addr :
  addr ≠ MNone → sb_ok s →
  post (socks5_udp_write buf addr) s (λ r s',
    sb_ok s' ∧ client_udp_addr s' = client_udp_addr s ∧
    ∃ ds, send_trace (server_udp_socket s) ds (server_udp_socket s') ∧
      waiting s ++ taken s buf addr = map snd ds ++ waiting s' ∧
      Forall (λ d, client_udp_addr s = Some d.1) ds ∧
      r ≠ OutOfFuel ∧ is_panic r = false ∧
      (r = Pending → taken s buf addr = []) ∧
      (∀ n, r = Ok n → taken s buf addr = [socks5_frame addr buf] ∧ n = length buf)).
Proof.
  intros Hne Hs. eapply post_eq; [by apply socks5_udp_write_split|]. cbv zeta.
  destruct (socks5_fill_run s buf addr Hne Hs) as (s1 & Hf & Hk & Hc & _ & Hd & Hs1 & H3).
  apply post_bind. unfold post. rewrite Hf. cbn [fst snd].
  eapply post_mono; [exact (socks5_settle_run s1 _ buf Hs1 H3)|].
  intros r s' (? & Hc' & ds & Ht & Hds & HF & ? & ? & Hp & Ho). rewrite Hk in Ht. rewrite Hc in Hc', HF.
  unfold taken in *. split_and!; [done..|]. exists ds. rewrite Hd. split_and!; try done.
  - intros ->. specialize (Hp eq_refl). apply bool_decide_eq_false in Hp. by rewrite decide_False by done.
  - intros n ->. destruct (Ho n eq_refl) as [Hb ->]. apply bool_decide_eq_true in Hb.
    by rewrite decide_True by done.
Qed.
End socks5_writing.

(** ** A whole session of a SOCKS5 end *)
Section socks5_session.
Context {K X : Type} `{UdpSocketOk K} `{Signal X}.
Implicit Types (s : Socks5UdpStream K X) (b : UdpRelayBuffer).

(** The source of the datagram a read delivered. *)
Definition delivered_from s b (res : outcome io_error MixAddrType) : list SocketAddr :=
  match res, poll_recv_from (UdpRelay.room (UdpRelay.as_read_buf b)) (server_udp_socket s) with
  | Ok MNone, _ => []
  | Ok _, (Ok (_, src), _) => [src]
  | _, _ => []
  end.

(** Any interleaving of reads and writes: the sources of the datagrams delivered
    and the frames of the datagrams taken for sending. *)
Inductive socks5_run : Socks5UdpStream K X → list SocketAddr → list (list Z) → Socks5UdpStream K X → Prop :=
| s5r_refl s : socks5_run s [] [] s
| s5r_read s fuel b res s1 b1 srcs fs s' :
    poll_proxy_stream_read fuel (s, b) = (res, (s1, b1)) →
    socks5_run s1 srcs fs s' → socks5_run s (delivered_from s b res ++ srcs) fs s'
| s5r_write s buf addr srcs fs s' :
    addr ≠ MNone →
    socks5_run (poll_proxy_stream_write buf addr s).2 srcs fs s' →
    socks5_run s srcs (taken s buf addr ++ fs) s'.

(** A read pins the client, and sends nothing. *)
Lemma socks5_read_pins s b res s1 b1 :
  socks5_udp_read (s, b) = (res, (s1, b1)) →
  sbuffer s1 = sbuffer s ∧ send_trace (server_udp_socket s) [] (server_udp_socket s1) ∧
  (∀ c, client_udp_addr s = Some c → client_udp_addr s1 = Some c) ∧
  Forall (λ src, client_udp_addr s1 = Some src) (delivered_from s b res).
Proof.
  rewrite socks5_udp_read_run. cbv zeta. unfold delivered_from.
  set (room := UdpRelay.room _). pose proof (send_trace_recv room (server_udp_socket s)) as Ht.
  destruct (try_recv (signal_reset s)) as [reset x].
  destruct (poll_recv_from room (server_udp_socket s)) as [r k]. cbn [snd] in Ht.
  destruct reset; [intros [= <- <- _]; split_and!; auto with oxide|].
  destruct r as [[bs src]|e| |msg|]; [|intros [= <- <- _]; split_and!; auto with oxide..].
  set (s0 := mkSocks5UdpStream _ _ _ _). unfold socks5_received.
  destruct (foreign s0 src) eqn:Ef; [intros [= <- <- _]; split_and!; auto with oxide|].
  assert (∀ c, client_udp_addr s = Some c → Some src = Some c) as Hc.
  { unfold foreign in Ef. cbn in Ef. intros c Hc. rewrite Hc in Ef.
    by apply bool_decide_eq_false, dec_stable in Ef as ->. }
  cbv zeta. case_decide; [intros [= <- <- _]; split_and!; auto with oxide|].
  rewrite s5_outer_bind. intros E.
  assert (s1 = s5_pin src s0) as ->.
  { destruct (advance 3 _) as [[] b2]; try (by injection E).
    unfold st_map_err, s5_outer in E. rewrite st_zoom_run in E. by injection E. }
  cbn. split_and!; [done..|]. destruct res as [[]| | | |]; auto.
Qed.

Lemma socks5_run_exact s srcs fs s' :
  socks5_run s srcs fs s' → sb_ok s →
  sb_ok s' ∧ (∀ c, client_udp_addr s = Some c → client_udp_addr s' = Some c) ∧
  Forall (λ src, client_udp_addr s' = Some src) srcs ∧
  ∃ ds, send_trace (server_udp_socket s) ds (server_udp_socket s') ∧
    waiting s ++ fs = map snd ds ++ waiting s' ∧
    Forall (λ d, client_udp_addr s' = Some d.1) ds.
Proof.
  induction 1 as [s|s fuel b res s1 b1 srcs fs s' Hr _ IH|s buf addr srcs fs s' Hne _ IH]; intros Hs.
  - split_and!; [done..|]. exists []. rewrite app_nil_r. auto with oxide.
  - apply socks5_read_pins in Hr as (Hb & Ht & Hc & Hd).
    assert (waiting s1 = waiting s) as Hw by (unfold waiting, sb_data; by rewrite Hb).
    destruct IH as (? & Hc' & ? & ds & Hts & Heq & ?); [by unfold sb_ok, sb_data in *; rewrite Hb|].
    split_and!; [done|auto| |].
    + apply Forall_app. split; [|done]. eapply Forall_impl; [|exact Hd]. cbn. auto.
    + exists ds. rewrite <- Hw. split_and!; [|done..]. exact (send_trace_trans _ [] _ _ _ Ht Hts).
  - pose proof (socks5_udp_write_spec s buf addr Hne Hs) as Hpost. unfold post in Hpost.
    cbn [poll_proxy_stream_write Socks5UdpStream_UdpWrite] in IH |- *.
    destruct (socks5_udp_write buf addr s) as [r s1]. cbn [fst snd] in *.
    destruct Hpost as (Hs1 & Hc1 & d1 & Ht1 & Heq1 & HF1 & _).
    destruct (IH Hs1) as (? & Hc' & ? & ds & Hts & Heq & ?).
    rewrite Hc1 in Hc'. split_and!; [done..|]. exists (d1 ++ ds). split_and!.
    + by eapply send_trace_trans.
    + by rewrite app_assoc, Heq1, <- app_assoc, Heq, map_app, app_assoc.
    + apply Forall_app. split; [|done]. eapply Forall_impl; [|exact HF1]. cbn. auto.
Qed.
End socks5_session.

(** ** A send that the socket defers *)
Section socks5_deferred.
Context {K X : Type} `{UdpSocketOk K} `{Signal X}.
Implicit Types (s : Socks5UdpStream K X).

Lemma socks5_settle_pending s fresh buf c k :
  client_udp_addr s = Some c →
  poll_send_to (sb_data s) c (server_udp_socket s) = (Pending, k) →
  socks5_settle fresh buf s =
    (if (fresh : bool) then Ok (length buf) else Pending,
     mkSocks5UdpStream k (Some c) (signal_reset s) (sbuffer s)).
Proof.
  intros Hc Hs. unfold socks5_settle, socks5_poll_write. st_simpl. rewrite Hc.
  unfold s5_on_socket. rewrite st_zoom_run. unfold sb_data in Hs. rewrite Hs. cbn. rewrite Hc.
  by destruct fresh.
Qed.

Lemma socks5_settle_sent s fresh buf c n k :
  client_udp_addr s = Some c →
  poll_send_to (sb_data s) c (server_udp_socket s) = (Ok n, k) →
  socks5_settle fresh buf s =
    (if (fresh : bool) then Ok (length buf) else Pending,
     mkSocks5UdpStream k (Some c) (signal_reset s) (SpecifiedBuffer_reset (sbuffer s))).
Proof.
  intros Hc Hs. pose proof (send_whole _ _ _ _ _ Hs) as ->.
  unfold socks5_settle, socks5_poll_write. st_simpl. rewrite Hc.
  unfold s5_on_socket. rewrite st_zoom_run. unfold sb_data in Hs. rewrite Hs. cbn [fst snd].
  rewrite st_bind_assoc, st_get_bind, decide_True by done. unfold s5_on_buffer.
  rewrite st_zoom_bind. cbn. rewrite Hc. by destruct fresh.
Qed.
End socks5_deferred.

(** ** Sending as a server end *)
Section server_sending.
Context {K D T : Type} `{UdpSocketOk K} `{Dns D T}.
Implicit Types (s : ServerUdpStream K D T).

(** The answer the resolver gave to a request for [name]. *)
Definition answered (name : list Z) (ip : IpAddr) : Prop :=
  ∃ d t, rtc (λ t1 t2 : T, t2 = (task_poll t1).2) (dns_send name d).1 t ∧ (task_poll t).1 = Ok ip.

(** The socket address a datagram for [addr] has to go to. *)
Definition destination (addr : MixAddrType) (d : SocketAddr) : Prop :=
  match addr with
  | V4 ip p => d = SocketV4 ip p
  | V6 ip p => d = SocketV6 ip p
  | Hostname name p => ∃ ip, answered name ip ∧ d = socket_addr_of ip p
  | MNone => False
  end.

(** The resolving state belongs to the address of the datagram being sent. *)
Definition task_for (addr : MixAddrType) (t : ResolveAddr T) : Prop :=
  match t with
  | ResolveNone => True
  | ResolveReady d => destination addr d
  | ResolvePending task _ =>
      ∃ name p d, addr = Hostname name p ∧
        rtc (λ t1 t2 : T, t2 = (task_poll t1).2) (dns_send name d).1 task
  end.

(** The resolver's tasks do not panic, and answer or wait. *)
Definition resolver_ok : Prop :=
  ∀ t : T, (task_poll t).1 ≠ OutOfFuel ∧ is_panic (task_poll t).1 = false.

(** How many passes a loop still needs in a state. *)
Definition passes_left s : nat :=
  match addr_task s with ResolveNone => 3 | ResolvePending _ _ => 2 | ResolveReady _ => 1 end.

Lemma server_write_loop_spec fuel buf addr s :
  resolver_ok → addr ≠ MNone → passes_left s ≤ fuel → task_for addr (addr_task s) →
  post (server_write_loop fuel buf addr) s (λ r s', r ≠ OutOfFuel ∧ is_panic r = false ∧
    ∃ ds, send_trace (su_inner s) ds (su_inner s') ∧
      match r with
      | Ok n => (ds = [] ∧ n = 0) ∨
          (∃ d, destination addr d ∧ ds = [(d, buf)] ∧ n = length buf ∧ addr_task s' = ResolveNone)
      | Pending => ds = [] ∧ task_for addr (addr_task s') ∧ addr_task s' ≠ ResolveNone
      | _ => ds = []
      end).
Proof.
  intros Hres Hne. revert s. induction fuel as [|fuel IH]; intros s Hfuel Htask.
  { unfold passes_left in Hfuel. destruct (addr_task s); lia. }
  unfold post. cbn [server_write_loop]. rewrite st_get_bind. unfold passes_left in Hfuel.
  destruct (addr_task s) as [task missed|d|] eqn:Ea.
  - destruct (Hres task) as [Hf Hp]. destruct (task_poll task) as [res task'] eqn:Et. cbn in Hf, Hp.
    destruct Htask as (name & p & d0 & -> & Hrtc). st_simpl.
    assert (task' = (task_poll task).2) as Ht' by by rewrite Et.
    destruct res as [ip|e| |msg|]; try done.
    + assert (∀ s0, su_inner s0 = su_inner s → post (server_write_loop fuel buf (Hostname name p))
        (su_set_task (ResolveReady (socket_addr_of ip p)) s0) (λ r s', r ≠ OutOfFuel ∧ is_panic r = false ∧
        ∃ ds, send_trace (su_inner s) ds (su_inner s') ∧
        match r with
        | Ok n => (ds = [] ∧ n = 0) ∨ (∃ d, destination (Hostname name p) d ∧ ds = [(d, buf)] ∧
            n = length buf ∧ addr_task s' = ResolveNone)
        | Pending => ds = [] ∧ task_for (Hostname name p) (addr_task s') ∧ addr_task s' ≠ ResolveNone
        | _ => ds = []
        end)) as Hgo.
      { intros s0 <-. apply (IH (su_set_task (ResolveReady (socket_addr_of ip p)) s0)); [cbn; lia|].
        exists ip. split; [|done]. exists d0, task. by rewrite Et. }
      destruct missed; cbn; st_simpl; by apply Hgo.
    + cbn. split_and!; [done..|]. exists []. auto with oxide.
    + st_simpl. cbn. split_and!; [done..|]. exists []. split_and!; [apply send_refl|done| |done].
      exists name, p, d0. split; [done|]. subst task'. by eapply rtc_r.
  - st_simpl. unfold su_on_socket. rewrite st_zoom_run. cbn [fst snd].
    pose proof (send_trace_send buf d (su_inner s)) as Ht.
    destruct (poll_send_to buf d (su_inner s)) as [r k] eqn:Es. cbn [fst snd] in *.
    pose proof (send_returns _ _ _ _ _ Es) as [Hf Hp].
    destruct r as [n|e| |msg|]; try done.
    + pose proof (send_whole _ _ _ _ _ Es) as ->. rewrite decide_True by done. cbn in Ht |- *.
      rewrite firstn_all in Ht. split_and!; [done..|]. exists [(d, buf)]. split; [done|]. right.
      by exists d.
    + cbn. split_and!; [done..|]. by exists [].
    + cbn. split_and!; [done..|]. exists []. split_and!; [done..| |]; by rewrite Ea.
  - assert (∀ s1, su_inner s1 = su_inner s → passes_left s1 ≤ fuel → task_for addr (addr_task s1) →
      post (server_write_loop fuel buf addr) s1 (λ r s', r ≠ OutOfFuel ∧ is_panic r = false ∧
        ∃ ds, send_trace (su_inner s) ds (su_inner s') ∧
        match r with
        | Ok n => (ds = [] ∧ n = 0) ∨
            (∃ d, destination addr d ∧ ds = [(d, buf)] ∧ n = length buf ∧ addr_task s' = ResolveNone)
        | Pending => ds = [] ∧ task_for addr (addr_task s') ∧ addr_task s' ≠ ResolveNone
        | _ => ds = []
        end)) as Hgo by (intros s1 <- ??; by apply IH).
    unfold start_resolving. destruct addr as [ip p|ip p|name p|]; [..|done]; st_simpl; cbn.
    + apply Hgo; [done|cbn; lia|done].
    + apply Hgo; [done|cbn; lia|done].
    + destruct (dns_send name (su_dns s)) as [t d1] eqn:Ed.
      apply Hgo; [done|cbn; lia|]. exists name, p, (su_dns s). rewrite Ed. split; [done|apply rtc_refl].
Qed.

(** The polls of one datagram, as the relay makes them: again with the same
    arguments after [Pending], reads of the other direction in between. *)
Inductive send_attempts (buf : list Z) (addr : MixAddrType)
    : ServerUdpStream K D T → outcome io_error nat → ServerUdpStream K D T → Prop :=
| sa_last s r s' :
    poll_proxy_stream_write buf addr s = (r, s') → send_attempts buf addr s r s'
| sa_again s s1 r s' :
    poll_proxy_stream_write buf addr s = (Pending, s1) → send_attempts buf addr s1 r s' →
    send_attempts buf addr s r s'
| sa_read s fuel b res s1 b1 r s' :
    poll_proxy_stream_read fuel (s, b) = (res, (s1, b1)) → send_attempts buf addr s1 r s' →
    send_attempts buf addr s r s'.

Lemma server_udp_read_run s b :
  server_udp_read (s, b) =
    (let b0 := UdpRelay.as_read_buf b in
     let '(res, k) := poll_recv_from (UdpRelay.room b0) (su_inner s) in
     let s1 := mkServerUdpStream k (addr_task s) (su_dns s) (su_wakes s) in
     match res with
     | Ok (bs, addr) =>
         if decide (length bs = 0) then (Ok MNone, (s1, b0))
         else (Ok (Mix.from_socket_addr addr), (s1, UdpRelay.advance_mut bs b0))
     | Err e => (Err e, (s1, b0))
     | Pending => (Pending, (s1, b0))
     | Panic msg => (Panic msg, (s1, b0))
     | OutOfFuel => (OutOfFuel, (s1, b0))
     end).
Proof.
  unfold server_udp_read. st_simpl. rewrite st_zoom_bind. cbn [fst snd]. unfold su_on_socket.
  rewrite st_zoom_run. cbv zeta.
  destruct (poll_recv_from _ _) as [[[bs addr]|e| |msg|] k]; cbn [fst snd]; [|done..].
  case_decide; [done|]. by st_simpl.
Qed.

Lemma server_udp_read_sends s b res s1 b1 :
  server_udp_read (s, b) = (res, (s1, b1)) →
  addr_task s1 = addr_task s ∧ send_trace (su_inner s) [] (su_inner s1).
Proof.
  rewrite server_udp_read_run. cbv zeta. set (room := UdpRelay.room _).
  pose proof (send_trace_recv room (su_inner s)) as Ht.
  destruct (poll_recv_from room (su_inner s)) as [[[bs addr]|e| |msg|] k]; cbn in Ht;
    [case_decide|..]; by intros [= <- <- _].
Qed.

Lemma send_attempts_exact buf addr s r s' :
  resolver_ok → addr ≠ MNone → send_attempts buf addr s r s' → task_for addr (addr_task s) →
  r ≠ OutOfFuel ∧ is_panic r = false ∧
  ∃ ds, send_trace (su_inner s) ds (su_inner s') ∧
    match r with
    | Ok n => (ds = [] ∧ n = 0) ∨
        (∃ d, destination addr d ∧ ds = [(d, buf)] ∧ n = length buf ∧ addr_task s' = ResolveNone)
    | _ => ds = []
    end.
Proof.
  intros Hres Hne. induction 1 as [s r s' Hw|s s1 r s' Hw _ IH|s fuel b res s1 b1 r s' Hr _ IH]; intros Ht.
  - assert (passes_left s ≤ 3) as H3 by (unfold passes_left; destruct (addr_task s); lia).
    pose proof (server_write_loop_spec 3 buf addr s Hres Hne H3 Ht) as Hp. unfold post in Hp.
    change (server_write_loop 3 buf addr s) with (poll_proxy_stream_write buf addr s) in Hp.
    rewrite Hw in Hp. destruct Hp as (? & ? & ds & Htr & Hds). split_and!; [done..|].
    exists ds. split; [done|]. destruct r; try done. by destruct Hds.
  - assert (passes_left s ≤ 3) as H3 by (unfold passes_left; destruct (addr_task s); lia).
    pose proof (server_write_loop_spec 3 buf addr s Hres Hne H3 Ht) as Hp. unfold post in Hp.
    change (server_write_loop 3 buf addr s) with (poll_proxy_stream_write buf addr s) in Hp.
    rewrite Hw in Hp. destruct Hp as (_ & _ & d0 & Htr & -> & Ht1 & _).
    destruct (IH Ht1) as (? & ? & ds & Htr' & Hds). split_and!; [done..|]. exists ds.
    split; [exact (send_trace_trans _ [] _ _ _ Htr Htr')|done].
  - apply server_udp_read_sends in Hr as [Ha Htr]. rewrite <- Ha in Ht.
    destruct (IH Ht) as (? & ? & ds & Htr' & Hds). split_and!; [done..|]. exists ds.
    split; [exact (send_trace_trans _ [] _ _ _ Htr Htr')|done].
Qed.

#[export] Instance ServerUdpStream_UdpReadOk : UdpReadOk (ServerUdpStream K D T).
Proof.
  intros fuel s b res s' b' Hb Hq. unfold poll_proxy_stream_read, ServerUdpStream_UdpRead.
  rewrite server_udp_read_run. cbv zeta.
  destruct (UdpRelay.as_read_buf_queue b Hb) as (Hb0 & Hq0 & _). rewrite Hq in Hq0.
  destruct (poll_recv_from _ _) as [[[bs addr]|e| |msg|] k] eqn:Er; [|by intros [= <- <- <-]..].
  case_decide; [by intros [= <- <- <-]|]. intros [= <- <- <-].
  split; [by eapply UdpRelay.advance_mut_queue, recv_fits|]. by destruct addr.
Qed.
End server_sending.

(** ** A scripted socket, signal and resolver *)
Record SockScript := mkSockScript {
  ss_rx : list (answer (list Z * SocketAddr));
  ss_tx : list (answer unit);
  ss_sent : list (SocketAddr * list Z);
}.

#[export] Instance SockScript_UdpSocket : UdpSocket SockScript := {
  poll_recv_from room s := match ss_rx s with
    | [] => (Pending, s)
    | Gives (bs, a) :: rest => (Ok (take room bs, a), mkSockScript rest (ss_tx s) (ss_sent s))
    | Fails e :: rest => (Err e, mkSockScript rest (ss_tx s) (ss_sent s))
    | Waits :: rest => (Pending, mkSockScript rest (ss_tx s) (ss_sent s))
    end;
  poll_send_to b a s := match ss_tx s with
    | [] | Gives _ :: _ => (Ok (length b), mkSockScript (ss_rx s) (tail (ss_tx s)) (ss_sent s ++ [(a, b)]))
    | Fails e :: rest => (Err e, mkSockScript (ss_rx s) rest (ss_sent s))
    | Waits :: rest => (Pending, mkSockScript (ss_rx s) rest (ss_sent s))
    end;
}.

#[export] Instance SockScript_UdpSocketOk : UdpSocketOk SockScript.
Proof.
  split.
  - intros room [[|[[bs' a']|e|] rest] tx sent] bs a s'; cbn; try done. intros [= <- _ _].
    rewrite length_take. lia.
  - intros b a [rx [|[[]|e|] rest] sent] n s'; cbn; congruence.
  - intros b a [rx [|[[]|e|] rest] sent] r s'; cbn; by intros [= <- _].
Qed.

#[export] Instance bool_Signal : Signal bool := λ received, (received, received).

#[export] Instance script_Dns : Dns (list (answer IpAddr)) (list (answer IpAddr)) := {
  dns_send _ d := (d, d);
  task_poll t := match t with
    | [] => (Pending, t)
    | Gives ip :: rest => (Ok ip, rest)
    | Fails _ :: rest => (Err tt, rest)
    | Waits :: rest => (Pending, rest)
    end;
}.

Lemma script_resolver_ok : resolver_ok (T:=list (answer IpAddr)).
Proof. by intros [|[] ?]. Qed.

(** * Properties *)

(** C31: over any interleaving of reads and writes from a fresh SOCKS5 end, every
    datagram delivered came from one source, every datagram sent goes to that
    source, and what the socket accepted is, in order, exactly the SOCKS5 frames
    of the datagrams taken, less at most the one still waiting in the buffer. *)
Theorem socks5_udp_session_exact {K X} `{UdpSocketOk K} `{Signal X} (sock : K) (rx : X) srcs fs s' :
  socks5_run (Socks5UdpStream_new sock rx) srcs fs s' →
  ∃ ds, send_trace sock ds (server_udp_socket s') ∧ fs = map snd ds ++ waiting s' ∧
    Forall (λ a, client_udp_addr s' = Some a) (srcs ++ map fst ds).
Proof.
  intros Hrun. apply socks5_run_exact in Hrun as (_ & _ & Hsrc & ds & Ht & Heq & Hds); [|done].
  exists ds. split_and!; [done..|]. apply Forall_app. split; [done|]. by apply Forall_map.
Qed.

Definition example_client : SocketAddr := SocketV4 [127; 0; 0; 1]%Z 5000.
Definition example_request : list Z := [0; 0; 0; 1; 8; 8; 8; 8; 0; 53; 1; 2; 3]%Z.

(** One request is read and one answer written back. *)
Lemma socks5_udp_session_exact_witness :
  ∃ s' ds, send_trace (mkSockScript [Gives (example_request, example_client)] [] []) ds
      (server_udp_socket s') ∧
    [socks5_frame (V4 [8; 8; 8; 8] 53) [7; 7]]%Z = map snd ds ++ waiting (X:=bool) s' ∧
    Forall (λ a, client_udp_addr s' = Some a) ([example_client] ++ map fst ds).
Proof.
  set (s0 := Socks5UdpStream_new (mkSockScript [Gives (example_request, example_client)] [] []) false).
  assert (delivered_from s0 UdpRelay.new (Ok (V4 [8; 8; 8; 8] 53)%Z) = [example_client]) as Hd
    by (vm_compute; reflexivity).
  destruct (poll_proxy_stream_read 0 (s0, UdpRelay.new)) as [res [s1 b1]] eqn:Er.
  assert (res = Ok (V4 [8; 8; 8; 8] 53)%Z ∧ taken s1 [7; 7]%Z (V4 [8; 8; 8; 8] 53)%Z =
    [socks5_frame (V4 [8; 8; 8; 8] 53) [7; 7]]%Z) as [-> Ht]
    by (vm_compute in Er; injection Er as <- <- _; split; vm_compute; reflexivity).
  eexists. apply (socks5_udp_session_exact (X:=bool) _ false [example_client]
    [socks5_frame (V4 [8; 8; 8; 8] 53) [7; 7]]%Z).
  rewrite <- Hd, <- (app_nil_r (delivered_from _ _ _)), <- Ht, <- (app_nil_r (taken _ _ _)).
  eapply s5r_read; [exact Er|]. apply s5r_write; [done|apply s5r_refl].
Defined.

(** A datagram from the client, three header bytes followed by an encoded
    IPv4 or host-name target and a payload, is delivered as that target and
    exactly the payload, and its source becomes the client; from any other source
    it is an error, delivers nothing and leaves the client as it was. *)
Theorem socks5_udp_reads_request {K X} `{UdpSocketOk K} `{Signal X} fuel
    (s : Socks5UdpStream K X) b x hdr a payload src k :
  UdpRelay.wf b → UdpRelay.queue b = [] → try_recv (signal_reset s) = (false, x) →
  length hdr = 3 → wf_addr a →
  match a with V4 _ _ => True | Hostname h _ => length h ≤ 255 | _ => False end →
  poll_recv_from (UdpRelay.room (UdpRelay.as_read_buf b)) (server_udp_socket s) =
    (Ok (hdr ++ Mix.encoded a ++ payload, src), k) →
  ∃ b', UdpRelay.wf b' ∧
    if foreign s src then
      poll_proxy_stream_read fuel (s, b) =
        (Err Interrupted, (mkSocks5UdpStream k (client_udp_addr s) x (sbuffer s), b')) ∧
      UdpRelay.queue b' = []
    else
      poll_proxy_stream_read fuel (s, b) =
        (Ok a, (mkSocks5UdpStream k (Some src) x (sbuffer s), b')) ∧
      UdpRelay.queue b' = payload.
Proof.
  intros Hb Hq Hx Hh Hwf Hok Hr. destruct (UdpRelay.as_read_buf_queue b Hb) as (Hb0 & Hq0 & _).
  rewrite Hq in Hq0. unfold poll_proxy_stream_read, Socks5UdpStream_UdpRead.
  rewrite socks5_udp_read_run. cbv zeta. rewrite Hx, Hr.
  set (s1 := mkSocks5UdpStream _ _ _ _). change (foreign s src) with (foreign s1 src).
  destruct (foreign s1 src) eqn:Ef.
  { exists (UdpRelay.as_read_buf b). unfold socks5_received. by rewrite Ef. }
  destruct (socks5_received_decodes s1 _ _ src Hb0 Hq0 (recv_fits _ _ _ _ _ Hr)) as (b' & -> & Hw & Hd);
    [rewrite length_app; lia|done|].
  assert (drop 3 (hdr ++ Mix.encoded a ++ payload) = Mix.encoded a ++ payload) as Hdrop
    by (rewrite <- Hh; apply drop_app_length).
  rewrite Hdrop, Mix.decode_encoded in Hd |- * by done. exists b'. split; [done|]. split; [done|].
  rewrite (Hd a _ eq_refl). apply drop_app_length.
Qed.

Lemma socks5_udp_reads_request_witness :
  ∃ b', UdpRelay.wf b' ∧
    poll_proxy_stream_read 0
      (Socks5UdpStream_new (mkSockScript [Gives (example_request, example_client)] [] []) false,
       UdpRelay.new) =
    (Ok (V4 [8; 8; 8; 8] 53)%Z,
     (mkSocks5UdpStream (mkSockScript [] [] []) (Some example_client) false
       (SpecifiedBuffer_new UDP_BUFFER_SIZE), b')) ∧ UdpRelay.queue b' = [1; 2; 3]%Z.
Proof.
  apply (socks5_udp_reads_request 0
    (Socks5UdpStream_new (mkSockScript [Gives (example_request, example_client)] [] []) false)
    UdpRelay.new false [0; 0; 0]%Z (V4 [8; 8; 8; 8] 53)%Z [1; 2; 3]%Z example_client);
    try done; [apply UdpRelay.wf_new|]. repeat constructor; unfold is_u8, is_u16; lia.
Defined.

(** When the socket defers a datagram, the end keeps it and reports it sent;
    the next datagram is then refused with [Pending] although that same poll sent
    the kept one and no wake-up is registered, and only a third poll, which
    nothing has asked for, would take it. *)
Theorem socks5_udp_deferred_send_stalls {K X} `{UdpSocketOk K} `{Signal X}
    (s : Socks5UdpStream K X) c addr buf addr' buf' k1 n k2 :
  sb_ok s → waiting s = [] → client_udp_addr s = Some c →
  addr ≠ MNone →
  poll_send_to (socks5_frame addr buf) c (server_udp_socket s) = (Pending, k1) →
  poll_send_to (socks5_frame addr buf) c k1 = (Ok n, k2) →
  ∃ s1 s2,
    poll_proxy_stream_write buf addr s = (Ok (length buf), s1) ∧ waiting s1 = [socks5_frame addr buf] ∧
    poll_proxy_stream_write buf' addr' s1 = (Pending, s2) ∧
    server_udp_socket s2 = k2 ∧ waiting s2 = [] ∧ taken s2 buf' addr' = [socks5_frame addr' buf'].
Proof.
  intros Hs Hw Hc Hne Hp1 Hp2.
  assert (length (sb_data s) = 3) as H3 by (unfold waiting in Hw; by case_decide).
  destruct (socks5_fill_run s buf addr Hne Hs) as (s1 & Hf & Hk & Hc1 & _ & Hd & Hs1 & Hn1).
  rewrite Hw in Hd. unfold taken in Hd. rewrite decide_True in Hd by done. injection Hd as Hd.
  rewrite Hd in Hp1, Hp2. rewrite bool_decide_eq_true_2 in Hf by done. rewrite <- Hk in Hp1.
  rewrite Hc in Hc1.
  exists (mkSocks5UdpStream k1 (Some c) (signal_reset s1) (sbuffer s1)).
  exists (mkSocks5UdpStream k2 (Some c) (signal_reset s1) (SpecifiedBuffer_reset (sbuffer s1))).
  cbn [poll_proxy_stream_write Socks5UdpStream_UdpWrite]. split_and!.
  - rewrite socks5_udp_write_split by done. cbv zeta. rewrite bool_decide_eq_true_2 by done.
    erewrite st_bind_run by exact Hf. by erewrite socks5_settle_pending.
  - rewrite Hd. unfold waiting, sb_data in *. cbn. by rewrite decide_False.
  - rewrite socks5_udp_write_split by done. cbv zeta. unfold sb_data in Hn1 |- *. cbn [sbuffer].
    rewrite bool_decide_eq_false_2 by done. cbn [socks5_fill]. rewrite st_ret_bind.
    by erewrite socks5_settle_sent.
  - done.
  - unfold waiting, sb_ok, sb_data in *. cbn. by rewrite Hs1.
  - unfold taken, sb_ok, sb_data in *. cbn. by rewrite Hs1.
Qed.

Lemma socks5_udp_deferred_send_stalls_witness :
  let s := mkSocks5UdpStream (mkSockScript [] [Waits] []) (Some example_client) false
             (SpecifiedBuffer_new UDP_BUFFER_SIZE) in
  let a := V4 [8; 8; 8; 8]%Z 53 in
  ∃ s1 s2,
    poll_proxy_stream_write [1]%Z a s = (Ok 1, s1) ∧ waiting s1 = [socks5_frame a [1]%Z] ∧
    poll_proxy_stream_write [2]%Z a s1 = (Pending, s2) ∧
    server_udp_socket s2 = mkSockScript [] [] [(example_client, socks5_frame a [1]%Z)] ∧
    waiting s2 = [] ∧ taken s2 [2]%Z a = [socks5_frame a [2]%Z].
Proof.
  intros s a. apply (socks5_udp_deferred_send_stalls s example_client a [1]%Z a [2]%Z
    (mkSockScript [] [] []) 11 (mkSockScript [] [] [(example_client, socks5_frame a [1]%Z)]));
    try reflexivity. done.
Defined.

(** Whichever way a datagram's sending is polled, the server end hands the
    socket at most one datagram: on success the whole payload, once, to the
    target's own address, or to the address the resolver answered for the target's
    name with the target's port; a failed resolution is a success of 0 bytes and
    every other exit sends nothing. *)
Theorem server_udp_send_exact {K D T} `{UdpSocketOk K} `{Dns D T}
    (s : ServerUdpStream K D T) buf addr r s' :
  resolver_ok (D:=D) (T:=T) → addr ≠ MNone → addr_task s = ResolveNone → send_attempts buf addr s r s' →
  r ≠ OutOfFuel ∧ is_panic r = false ∧
  ∃ ds, send_trace (su_inner s) ds (su_inner s') ∧
    match r with
    | Ok n => (ds = [] ∧ n = 0) ∨
        (∃ d, destination (D:=D) (T:=T) addr d ∧ ds = [(d, buf)] ∧ n = length buf ∧
          addr_task s' = ResolveNone)
    | _ => ds = []
    end.
Proof. intros Hres Hne Ha Hrun. eapply send_attempts_exact; try done. by rewrite Ha. Qed.

(** The resolver answers at the second poll; the socket defers once. *)
Definition example_server_end : ServerUdpStream SockScript (list (answer IpAddr)) (list (answer IpAddr)) :=
  ServerUdpStream_new (mkSockScript [] [Waits] []) [Waits; Gives (IpV4 [1; 1; 1; 1]%Z)].

Lemma server_udp_send_exact_witness :
  ∃ s' : ServerUdpStream SockScript (list (answer IpAddr)) (list (answer IpAddr)), Ok (E:=io_error) 2 ≠ OutOfFuel ∧ is_panic (Ok (E:=io_error) 2) = false ∧
  ∃ ds, send_trace (su_inner example_server_end) ds (su_inner s') ∧
    ((ds = [] ∧ 2 = 0) ∨
     (∃ d, destination (D:=list (answer IpAddr)) (T:=list (answer IpAddr)) example_host d ∧
       ds = [(d, [5; 6]%Z)] ∧ 2 = 2 ∧ addr_task s' = ResolveNone (T:=list (answer IpAddr)))).
Proof.
  eexists. apply (server_udp_send_exact example_server_end [5; 6]%Z example_host (Ok 2));
    [apply script_resolver_ok|done|done|].
  eapply sa_again; [vm_compute; reflexivity|]. eapply sa_again; [vm_compute; reflexivity|].
  eapply sa_last. vm_compute. reflexivity.
Defined.

(** The server end delivers exactly the datagram received, with its source
    as the address; an empty datagram, from any source, is reported as the end of
    the stream. *)
Theorem server_udp_receives {K D T} `{UdpSocketOk K} `{Dns D T} fuel
    (s : ServerUdpStream K D T) b bs src k :
  UdpRelay.wf b → UdpRelay.queue b = [] →
  poll_recv_from (UdpRelay.room (UdpRelay.as_read_buf b)) (su_inner s) = (Ok (bs, src), k) →
  ∃ b', UdpRelay.wf b' ∧ UdpRelay.queue b' = bs ∧
    poll_proxy_stream_read fuel (s, b) =
      (Ok (if decide (bs = []) then MNone else Mix.from_socket_addr src),
       (mkServerUdpStream k (addr_task s) (su_dns s) (su_wakes s), b')).
Proof.
  intros Hb Hq Hr. destruct (UdpRelay.as_read_buf_queue b Hb) as (Hb0 & Hq0 & _). rewrite Hq in Hq0.
  unfold poll_proxy_stream_read, ServerUdpStream_UdpRead. rewrite server_udp_read_run. cbv zeta.
  rewrite Hr. destruct bs as [|x bs]; [by eexists|]. rewrite decide_False by done.
  eexists. split_and!; [| |rewrite (decide_False (P:=_ = [])) by done; reflexivity].
  - by eapply UdpRelay.advance_mut_queue, recv_fits.
  - destruct (UdpRelay.advance_mut_queue (x :: bs) _ Hb0) as [_ ->]; [by eapply recv_fits|].
    by rewrite Hq0.
Qed.

Lemma server_udp_receives_witness :
  let s : ServerUdpStream SockScript (list (answer IpAddr)) (list (answer IpAddr)) :=
    ServerUdpStream_new (mkSockScript [Gives ([9]%Z, example_client)] [] []) [] in
  ∃ b', UdpRelay.wf b' ∧ UdpRelay.queue b' = [9]%Z ∧
    poll_proxy_stream_read 0 (s, UdpRelay.new) =
      (Ok (V4 [127; 0; 0; 1]%Z 5000), (ServerUdpStream_new (mkSockScript [] [] []) [], b')).
Proof.
  intros s. apply (server_udp_receives 0 s UdpRelay.new [9]%Z example_client (mkSockScript [] [] []));
    [apply UdpRelay.wf_new|done|done].
Defined.
