(* ===== verification/Quic.v ===== *)
(** The client's QUIC connection manager: [QuicConnectionWrapper],
    [EndpointManager], the echo task [send_echo] and the daemon of
    src/src/client/outbound/quic.rs.

    The daemon and the echo tasks share [IS_CONNECTION_OPENED] and the echo
    channels, so they are one state, [Quic]; every [await] of [connect] is a place
    where echo tasks may take steps. The QUIC library is the environment: what a
    dial and the opening of a stream answer are arguments. *)
From S2P Require Import Prelude.

Definition MAX_CONCURRENT_BIDI_STREAMS : nat := 30.

Inductive quic_error : Type :=
| FailedToOpenBiConn
| SetupFailed
| QuicError (code : Z).

#[export] Instance quic_error_eq_dec : EqDecision quic_error.
Proof. solve_decision. Defined.

(** ** [QuicConnectionWrapper]; a connection is known by its number *)
Record QuicConnectionWrapper := mkWrapper {
  connection : option nat;
  concurrent_streams_counter : nat;
}.

Definition Wrapper_default : QuicConnectionWrapper := mkWrapper None 0.

Definition refresh (conn : nat) (w : QuicConnectionWrapper) : QuicConnectionWrapper :=
  mkWrapper (Some conn) 0.

Definition has_remaining (w : QuicConnectionWrapper) : bool :=
  bool_decide (concurrent_streams_counter w < MAX_CONCURRENT_BIDI_STREAMS).

(** The [OpenBi] future is the connection it opens a stream on. *)
Definition open_bi : ST QuicConnectionWrapper quic_error (option nat) :=
  w ← st_get;
  if has_remaining w then
    st_put (mkWrapper (connection w) (concurrent_streams_counter w + 1));;
    match connection w with
    | Some c => mret (Some c)
    | None => panic "called `Option::unwrap()` on a `None` value"
    end
  else mret None.

(** ** The echo task: where [forward] and then [send_echo] stand *)
Inductive EchoState : Type :=
| EchoConnecting
| EchoWaiting
| EchoWriting
| EchoReading
| EchoSleeping
| EchoGone.

#[export] Instance EchoState_eq_dec : EqDecision EchoState.
Proof. solve_decision. Defined.

(** The task with its channel of one message; the channel is closed when the task
    is gone. *)
Record EchoTask := mkEchoTask {
  et_conn : nat;
  et_state : EchoState;
  et_message : bool;
}.

(** ** The shared state *)
Record Quic := mkQuic {
  em_connection : QuicConnectionWrapper;
  em_echo_tx : option nat;
  IS_CONNECTION_OPENED : bool;
  echo_tasks : list EchoTask;
  dialed : nat;
  streams : list nat;
}.

Definition on_connection {A} (m : ST QuicConnectionWrapper quic_error A) : ST Quic quic_error A :=
  st_zoom em_connection (λ w q, mkQuic w (em_echo_tx q) (IS_CONNECTION_OPENED q) (echo_tasks q)
    (dialed q) (streams q)) m.
Definition set_opened (b : bool) (q : Quic) : Quic :=
  mkQuic (em_connection q) (em_echo_tx q) b (echo_tasks q) (dialed q) (streams q).
Definition set_echo_tx (i : nat) (q : Quic) : Quic :=
  mkQuic (em_connection q) (Some i) (IS_CONNECTION_OPENED q) (echo_tasks q) (dialed q) (streams q).
Definition set_tasks (ts : list EchoTask) (q : Quic) : Quic :=
  mkQuic (em_connection q) (em_echo_tx q) (IS_CONNECTION_OPENED q) ts (dialed q) (streams q).
Definition count_dial (q : Quic) : Quic :=
  mkQuic (em_connection q) (em_echo_tx q) (IS_CONNECTION_OPENED q) (echo_tasks q)
    (S (dialed q)) (streams q).
Definition log_stream (c : nat) (q : Quic) : Quic :=
  mkQuic (em_connection q) (em_echo_tx q) (IS_CONNECTION_OPENED q) (echo_tasks q)
    (dialed q) (streams q ++ [c]).

(** What happens to an echo task: the outcome of [forward] up to [send_echo], of
    a [recv], of the write and the read of the phrase (each under its timeout),
    and the end of the sleep. *)
Inductive EchoEvent : Type :=
| EchoAuthed (ok : bool)
| EchoReceived
| EchoWritten (ok : bool)
| EchoAnswered (ok : bool)
| EchoSlept.

(** One step of a task: its next state, and whether it declares the connection
    lost. [recv] also returns when the sender is gone. *)
Definition send_echo (sender_alive : bool) (e : EchoEvent) (t : EchoTask) : EchoTask * bool :=
  match et_state t, e with
  | EchoConnecting, EchoAuthed true => (mkEchoTask (et_conn t) EchoWaiting (et_message t), false)
  | EchoConnecting, EchoAuthed false => (mkEchoTask (et_conn t) EchoGone (et_message t), false)
  | EchoWaiting, EchoReceived =>
      if et_message t || negb sender_alive
      then (mkEchoTask (et_conn t) EchoWriting false, false) else (t, false)
  | EchoWriting, EchoWritten true => (mkEchoTask (et_conn t) EchoReading (et_message t), false)
  | EchoReading, EchoAnswered true => (mkEchoTask (et_conn t) EchoSleeping (et_message t), false)
  | EchoWriting, EchoWritten false | EchoReading, EchoAnswered false =>
      (mkEchoTask (et_conn t) EchoGone (et_message t), true)
  | EchoSleeping, EchoSlept => (mkEchoTask (et_conn t) EchoWaiting (et_message t), false)
  | _, _ => (t, false)
  end.

Definition echo_step (ev : nat * EchoEvent) (q : Quic) : Quic :=
  match echo_tasks q !! ev.1 with
  | None => q
  | Some t =>
      let '(t', lost) := send_echo (bool_decide (em_echo_tx q = Some ev.1)) ev.2 t in
      let q' := set_tasks (<[ev.1:=t']> (echo_tasks q)) q in
      if (lost : bool) then set_opened false q' else q'
  end.

Definition echo_steps (evs : list (nat * EchoEvent)) (q : Quic) : Quic :=
  foldl (λ q e, echo_step e q) q evs.

(** ** [EndpointManager] *)

(** What the environment does during one [connect]: the dial's answer, the
    answer to opening the tunnel, and the echo events while each is awaited. *)
Record Env (T : Type) := mkEnv {
  dial_result : outcome quic_error unit;
  dial_events : list (nat * EchoEvent);
  open_result : outcome quic_error T;
  open_events : list (nat * EchoEvent);
}.
Arguments mkEnv {T}.
Arguments dial_result {T}.
Arguments dial_events {T}.
Arguments open_result {T}.
Arguments open_events {T}.

Definition echo_task_status (q : Quic) : bool :=
  match em_echo_tx q with
  | Some tx =>
      match echo_tasks q !! tx with
      | Some t => negb (bool_decide (et_state t = EchoGone))
      | None => false
      end
  | None => false
  end.

(** [try_send(())] on a channel of one message. *)
Definition try_send_echo (tx : nat) (q : Quic) : Quic :=
  match echo_tasks q !! tx with
  | Some t => set_tasks (<[tx:=mkEchoTask (et_conn t) (et_state t) true]> (echo_tasks q)) q
  | None => q
  end.

(** The spawned [forward] owns the stream and the receiving end. *)
Definition spawn_echo (c : nat) (q : Quic) : Quic :=
  set_echo_tx (length (echo_tasks q))
    (set_tasks (echo_tasks q ++ [mkEchoTask c EchoConnecting false]) q).

Definition echo : ST Quic quic_error bool :=
  q ← st_get;
  (if negb (echo_task_status q) then
     ob ← on_connection open_bi;
     match ob with
     | None => throw FailedToOpenBiConn
     | Some c => st_modify (log_stream c);; st_modify (spawn_echo c)
     end
   else mret tt);;
  q ← st_get;
  (match em_echo_tx q with
   | Some tx => st_modify (try_send_echo tx)
   | None => panic "called `Option::unwrap()` on a `None` value"
   end);;
  st_gets IS_CONNECTION_OPENED.

(** [new_connection]: a dial under its timeout. *)
Definition new_connection {T} (env : Env T) : ST Quic quic_error unit :=
  st_modify (echo_steps (dial_events env));;
  st_lift (dial_result env);;
  q ← st_get;
  on_connection (st_modify (refresh (dialed q)));;
  st_modify count_dial;;
  st_modify (set_opened true).

Definition connect {T} (env : Env T) : ST Quic quic_error T :=
  q ← st_get;
  reconnect ← (if has_remaining (em_connection q) then alive ← echo; mret (negb alive)
               else mret true);
  (if (reconnect : bool) then new_connection env else mret tt);;
  ob ← on_connection open_bi;
  match ob with
  | None => panic "called `Option::unwrap()` on a `None` value"
  | Some c =>
      st_modify (log_stream c);;
      st_modify (echo_steps (open_events env));;
      st_lift (open_result env)
  end.

(** [EndpointManager::new], from the process's initial state: the endpoint and its
    configuration ([setup], see [endpoint_setup] of TlsConfig.v), then a dial. *)
Definition Quic_initial : Quic := mkQuic Wrapper_default None false [] 0 [].
Definition EndpointManager_new {T} (setup : outcome quic_error unit) (env : Env T) : outcome quic_error unit * Quic :=
  (st_lift setup;; new_connection env) Quic_initial.

(** ** [quic_connection_daemon] *)
Inductive DaemonEvent (T : Type) : Type :=
| TaskRequested (env : Env T)
| TasksClosed
| ShutdownReceived
| EchoStep (ev : nat * EchoEvent).
Arguments TaskRequested {T}.
Arguments TasksClosed {T}.
Arguments ShutdownReceived {T}.
Arguments EchoStep {T}.

(** Serving requests; left; stopped by a panic; or suspended for ever in a
    [connect]. *)
Inductive DaemonState : Type := Serving | Left | Crashed (msg : string) | Suspended.

#[export] Instance DaemonState_eq_dec : EqDecision DaemonState.
Proof. solve_decision. Defined.

(** One event: the replies are what [ret_tx.send] was given. *)
Definition daemon_step {T} (st : DaemonState * Quic * list (outcome quic_error T))
    (e : DaemonEvent T) : DaemonState * Quic * list (outcome quic_error T) :=
  let '(s, q, replies) := st in
  match s, e with
  | Serving, TaskRequested env =>
      let '(r, q') := connect env q in
      match r with
      | Panic msg => (Crashed msg, q', replies)
      | Pending | OutOfFuel => (Suspended, q', replies)
      | _ => (Serving, q', replies ++ [r])
      end
  | Serving, TasksClosed | Serving, ShutdownReceived => (Left, q, replies)
  | _, EchoStep ev => (s, echo_step ev q, replies)
  | _, _ => (s, q, replies)
  end.

Definition quic_connection_daemon {T} (setup : outcome quic_error unit) (env : Env T) (es : list (DaemonEvent T))
    : DaemonState * Quic * list (outcome quic_error T) :=
  match EndpointManager_new setup env with
  | (Ok _, q) => foldl daemon_step (Serving, q, []) es
  | (Pending, q) | (OutOfFuel, q) => (Suspended, q, [])
  | (_, q) => (Crashed "EndpointManager::new", q, [])
  end.

(** ** The invariant *)

(** Streams opened on connection [c] so far. *)
Definition opened_on (c : nat) (q : Quic) : nat := count_occ Nat.eq_dec (streams q) c.

(** Every echo task but the one whose sender the manager holds is gone. *)
Definition tasks_ok (q : Quic) : Prop :=
  match em_echo_tx q with
  | None => echo_tasks q = []
  | Some i => i < length (echo_tasks q) ∧
      ∀ j t, echo_tasks q !! j = Some t → j ≠ i → et_state t = EchoGone
  end.

Definition log_ok (q : Quic) : Prop :=
  Forall (λ c, c < dialed q) (streams q) ∧
  (∀ c, opened_on c q ≤ MAX_CONCURRENT_BIDI_STREAMS) ∧ tasks_ok q.

(** The counter counts the streams of the current connection. *)
Definition quic_wf (q : Quic) : Prop :=
  log_ok q ∧ ∃ c, connection (em_connection q) = Some c ∧ c < dialed q ∧
    opened_on c q = concurrent_streams_counter (em_connection q).

(** Two states that differ only in what echo tasks change. *)
Definition same_manager (q q' : Quic) : Prop :=
  em_connection q' = em_connection q ∧ em_echo_tx q' = em_echo_tx q ∧
  dialed q' = dialed q ∧ streams q' = streams q ∧ (tasks_ok q → tasks_ok q').

#[export] Instance same_manager_preorder : PreOrder same_manager.
Proof.
  split; [by intros q; unfold same_manager|].
  intros q1 q2 q3 (?&?&?&?&?) (?&?&?&?&?). split_and!; [congruence..|auto].
Qed.

Lemma send_echo_gone alive e t : et_state t = EchoGone → et_state (send_echo alive e t).1 = EchoGone.
Proof. unfold send_echo. intros Hg. rewrite Hg. by destruct e as [[]| |[]|[]|]. Qed.

Lemma tasks_ok_update q i t t' :
  echo_tasks q !! i = Some t → (et_state t = EchoGone → et_state t' = EchoGone) →
  tasks_ok q → tasks_ok (set_tasks (<[i:=t']> (echo_tasks q)) q).
Proof.
  unfold tasks_ok. cbn. intros Hi Hg. destruct (em_echo_tx q) as [k|].
  - intros [Hk Hall]. rewrite length_insert. split; [done|]. intros j u Hj Hne.
    destruct (decide (j = i)) as [->|Hji].
    + rewrite list_lookup_insert_eq in Hj by (by eapply lookup_lt_Some). simplify_eq. eauto.
    + rewrite list_lookup_insert_ne in Hj by done. eauto.
  - intros Hn. rewrite Hn in Hi. done.
Qed.

Lemma echo_step_same ev q : same_manager q (echo_step ev q).
Proof.
  unfold echo_step. destruct (echo_tasks q !! ev.1) as [t|] eqn:Et; [|reflexivity].
  pose proof (send_echo_gone (bool_decide (em_echo_tx q = Some ev.1)) ev.2 t) as Hg.
  destruct (send_echo _ _ _) as [t' lost]. cbn in Hg.
  pose proof (tasks_ok_update q ev.1 t t' Et Hg) as Hok. by destruct lost.
Qed.

Lemma echo_steps_same evs q : same_manager q (echo_steps evs q).
Proof.
  revert q. induction evs as [|ev evs IH]; intros q; [reflexivity|]. cbn.
  etrans; [apply echo_step_same|apply IH].
Qed.

Lemma log_ok_same q q' : same_manager q q' → log_ok q → log_ok q'.
Proof.
  intros (Hc & Ht & Hd & Hs & Hok) (HF & Hn & Htk). unfold log_ok, opened_on in *.
  rewrite Hd, Hs. auto.
Qed.

Lemma quic_wf_same q q' : same_manager q q' → quic_wf q → quic_wf q'.
Proof.
  intros Hsame [Hlog (c & Hc)]. split; [by eapply log_ok_same|]. exists c.
  destruct Hsame as (-> & _ & -> & Hs & _). unfold opened_on in *. by rewrite Hs.
Qed.

Lemma log_ok_same_log q q' :
  dialed q' = dialed q → streams q' = streams q → tasks_ok q' → log_ok q → log_ok q'.
Proof. unfold log_ok, opened_on. by intros -> -> ? (?&?&_). Qed.

(** *** Opening a stream *)
Definition counted (c : nat) (q : Quic) : Quic :=
  mkQuic (mkWrapper (connection (em_connection q)) (concurrent_streams_counter (em_connection q) + 1))
    (em_echo_tx q) (IS_CONNECTION_OPENED q) (echo_tasks q) (dialed q) (streams q ++ [c]).

Lemma open_bi_run q c :
  connection (em_connection q) = Some c →
  on_connection open_bi q =
    if has_remaining (em_connection q) then
      (Ok (Some c), mkQuic (mkWrapper (Some c) (concurrent_streams_counter (em_connection q) + 1))
        (em_echo_tx q) (IS_CONNECTION_OPENED q) (echo_tasks q) (dialed q) (streams q))
    else (Ok None, q).
Proof.
  intros Hc. unfold on_connection. rewrite st_zoom_run. unfold open_bi. st_simpl.
  destruct (has_remaining (em_connection q)); [|by destruct q].
  st_simpl. by rewrite Hc.
Qed.

Lemma opened_on_counted c c' q :
  opened_on c' (counted c q) = if decide (c = c') then opened_on c' q + 1 else opened_on c' q.
Proof.
  unfold opened_on, counted. cbn. rewrite count_occ_app. cbn.
  destruct (Nat.eq_dec c c'); case_decide; try done; lia.
Qed.

Lemma counted_wf c q :
  quic_wf q → connection (em_connection q) = Some c → has_remaining (em_connection q) = true →
  quic_wf (counted c q).
Proof.
  intros [(HF & Hn & Htk) (c0 & Hc0 & Hlt & Hcount)] Hc Hr. rewrite Hc in Hc0. injection Hc0 as <-.
  unfold has_remaining in Hr. apply bool_decide_eq_true in Hr.
  split; [split_and!|]; [|intros c'|done|].
  - cbn. apply Forall_app. by rewrite Forall_singleton.
  - rewrite opened_on_counted. case_decide; [subst c'; lia|apply Hn].
  - exists c. rewrite opened_on_counted, decide_True by done. split_and!; [done..|]. by rewrite Hcount.
Qed.

(** *** [echo], [new_connection] and [connect] *)

(** The manager after the echo task was restarted, if it had to be. *)
Definition echo_restarted (c : nat) (q : Quic) : Quic :=
  if echo_task_status q then q else spawn_echo c (counted c q).

Lemma spawn_echo_wf c q :
  quic_wf q → echo_task_status q = false → quic_wf (spawn_echo c q).
Proof.
  intros [Hlog Hc] Hs. split; [|done]. apply (log_ok_same_log q); [done..| |exact Hlog].
  destruct Hlog as (_ & _ & Htk). unfold tasks_ok in *. cbn. rewrite length_app. cbn. split; [lia|].
  intros j t Hj Hne. rewrite lookup_app_l in Hj.
  2: { apply lookup_lt_Some in Hj. rewrite length_app in Hj. cbn in Hj. lia. }
  unfold echo_task_status in Hs. destruct (em_echo_tx q) as [i|]; [|by rewrite Htk in Hj].
  destruct Htk as [_ Hall]. destruct (decide (j = i)) as [->|Hji]; [|by eauto].
  rewrite Hj in Hs. by apply negb_false_iff, bool_decide_eq_true in Hs.
Qed.

Lemma try_send_same tx q : same_manager q (try_send_echo tx q).
Proof.
  unfold try_send_echo. destruct (echo_tasks q !! tx) as [t|] eqn:Et; [|reflexivity].
  split_and!; [done..|]. by eapply tasks_ok_update.
Qed.

Lemma try_send_opened tx q : IS_CONNECTION_OPENED (try_send_echo tx q) = IS_CONNECTION_OPENED q.
Proof. unfold try_send_echo. by destruct (echo_tasks q !! tx). Qed.

(** With room for a stream, [echo] restarts the task if it is gone, and answers
    with the flag. *)
Lemma echo_run q c :
  quic_wf q → connection (em_connection q) = Some c → has_remaining (em_connection q) = true →
  ∃ q', echo q = (Ok (IS_CONNECTION_OPENED q), q') ∧ quic_wf q' ∧
    same_manager (echo_restarted c q) q'.
Proof.
  intros Hwf Hc Hr. unfold echo. st_simpl.
  assert (∀ q1, quic_wf q1 → (∃ i, em_echo_tx q1 = Some i) →
    ∃ q', (q2 ← st_get (E:=quic_error); (match em_echo_tx q2 with
      | Some tx => st_modify (try_send_echo tx)
      | None => panic "called `Option::unwrap()` on a `None` value"
      end : ST Quic quic_error unit);; st_gets IS_CONNECTION_OPENED) q1 = (Ok (IS_CONNECTION_OPENED q1), q') ∧
      quic_wf q' ∧ same_manager q1 q') as Hrest.
  { intros q1 Hw [i Hi]. st_simpl. rewrite Hi. st_simpl. eexists. split_and!.
    - unfold st_gets. by rewrite try_send_opened.
    - eapply quic_wf_same; [apply try_send_same|done].
    - apply try_send_same. }
  unfold echo_restarted. destruct (echo_task_status q) eqn:Es; cbn [negb].
  - rewrite st_ret_bind. apply Hrest; [done|]. unfold echo_task_status in Es.
    destruct (em_echo_tx q); [by eexists|done].
  - rewrite st_bind_assoc. erewrite st_bind_run by (by erewrite open_bi_run, Hr).
    cbv beta iota. rewrite st_bind_assoc, st_modify_bind, st_modify_bind.
    change (log_stream c _) with (mkQuic (mkWrapper (Some c)
      (concurrent_streams_counter (em_connection q) + 1)) (em_echo_tx q) (IS_CONNECTION_OPENED q)
      (echo_tasks q) (dialed q) (streams q ++ [c])).
    rewrite <- Hc. fold (counted c q).
    apply (Hrest (spawn_echo c (counted c q))); [|by eexists].
    apply spawn_echo_wf; [by apply counted_wf|done].
Qed.

(** The manager right after a successful dial. *)
Definition redialed (q : Quic) : Quic :=
  mkQuic (mkWrapper (Some (dialed q)) 0) (em_echo_tx q) true (echo_tasks q) (S (dialed q)) (streams q).

Lemma redialed_wf q : log_ok q → quic_wf (redialed q).
Proof.
  intros (HF & Hn & Htk). split; [split_and!|]; [|done..|].
  - eapply Forall_impl; [|exact HF]. cbn. lia.
  - exists (dialed q). split_and!; [done|cbn; lia|]. unfold opened_on. cbn.
    apply count_occ_not_In. intros Hin.
    rewrite Forall_forall in HF. specialize (HF _ Hin). lia.
Qed.

Lemma new_connection_run {T} (env : Env T) q :
  new_connection env q =
    let q1 := echo_steps (dial_events env) q in
    match dial_result env with
    | Ok _ => (Ok tt, redialed q1)
    | Err e => (Err e, q1)
    | Pending => (Pending, q1)
    | Panic msg => (Panic msg, q1)
    | OutOfFuel => (OutOfFuel, q1)
    end.
Proof. unfold new_connection. st_simpl. by destruct (dial_result env). Qed.

Lemma open_tunnel_run {T} (env : Env T) c q :
  connection (em_connection q) = Some c →
  (ob ← on_connection open_bi;
   match ob with
   | None => panic "called `Option::unwrap()` on a `None` value"
   | Some c =>
       st_modify (log_stream c);;
       st_modify (echo_steps (open_events env));;
       st_lift (open_result env)
   end) q =
  if has_remaining (em_connection q) then
    (open_result env, echo_steps (open_events env) (counted c q))
  else (Panic "called `Option::unwrap()` on a `None` value", q).
Proof.
  intros Hc. destruct (has_remaining (em_connection q)) eqn:Hr.
  - erewrite st_bind_run by (by erewrite open_bi_run, Hr). cbv beta iota. st_simpl.
    unfold st_lift, counted. by rewrite Hc.
  - erewrite st_bind_run by (by erewrite open_bi_run, Hr). done.
Qed.

(** Whether [connect] dials: the connection is used up, or an echo task declared
    it lost. *)
Definition reconnects (q : Quic) : bool :=
  negb (has_remaining (em_connection q)) || negb (IS_CONNECTION_OPENED q).

(** The manager when [connect] has asked the echo task for its opinion. *)
Definition consulted (c : nat) (q : Quic) : Quic :=
  if has_remaining (em_connection q) then echo_restarted c q else q.

Lemma consulted_keeps c q :
  connection (em_connection (consulted c q)) = connection (em_connection q) ∧
  dialed (consulted c q) = dialed q.
Proof.
  unfold consulted, echo_restarted. by destruct (has_remaining (em_connection q)), (echo_task_status q).
Qed.

(** [connect] on every branch: with a dial or without, and the panic when the
    echo task's restart took the connection's last stream. *)
Lemma connect_run {T} (env : Env T) q c :
  quic_wf q → connection (em_connection q) = Some c →
  ∃ q1, same_manager (consulted c q) q1 ∧ quic_wf q1 ∧
    connect env q =
      if reconnects q then
        let q2 := echo_steps (dial_events env) q1 in
        match dial_result env with
        | Ok _ =>
            (open_result env, echo_steps (open_events env) (counted (dialed q) (redialed q2)))
        | Err e => (Err e, q2)
        | Pending => (Pending, q2)
        | Panic msg => (Panic msg, q2)
        | OutOfFuel => (OutOfFuel, q2)
        end
      else if has_remaining (em_connection q1) then
        (open_result env, echo_steps (open_events env) (counted c q1))
      else (Panic "called `Option::unwrap()` on a `None` value", q1).
Proof.
  intros Hwf Hc. unfold connect, reconnects, consulted. rewrite st_get_bind.
  assert (∀ q1, dialed q1 = dialed q →
    (new_connection env;;
     ob ← on_connection open_bi;
     match ob with
     | None => panic "called `Option::unwrap()` on a `None` value"
     | Some c => st_modify (log_stream c);; st_modify (echo_steps (open_events env));;
         st_lift (open_result env)
     end) q1 =
    let q2 := echo_steps (dial_events env) q1 in
    match dial_result env with
    | Ok _ => (open_result env, echo_steps (open_events env) (counted (dialed q) (redialed q2)))
    | Err e => (Err e, q2)
    | Pending => (Pending, q2)
    | Panic msg => (Panic msg, q2)
    | OutOfFuel => (OutOfFuel, q2)
    end) as Hdial.
  { intros q1 Hd. rewrite st_bind_split, new_connection_run. cbv zeta.
    pose proof (echo_steps_same (dial_events env) q1) as (_ & _ & Hd2 & _).
    destruct (dial_result env); try done. rewrite (open_tunnel_run env (dialed q1)); [|by rewrite <- Hd2].
    by rewrite Hd. }
  destruct (has_remaining (em_connection q)) eqn:Hr; cbn [negb orb].
  - destruct (echo_run q c Hwf Hc Hr) as (q1 & He & Hw1 & Hs1). exists q1. split_and!; [done..|].
    rewrite st_bind_assoc. erewrite st_bind_run by exact He. rewrite st_ret_bind.
    assert (dialed q1 = dialed q ∧ connection (em_connection q1) = Some c) as [Hd1 Hc1].
    { destruct Hs1 as (E1 & _ & E2 & _). rewrite E1, E2. unfold echo_restarted.
      by destruct (echo_task_status q). }
    destruct (IS_CONNECTION_OPENED q); cbn [negb]; [|by apply Hdial].
    rewrite st_ret_bind. by rewrite (open_tunnel_run env c).
  - exists q. split_and!; [reflexivity|done|]. rewrite st_ret_bind. by apply Hdial.
Qed.

Lemma connect_wf {T} (env : Env T) q r q' :
  quic_wf q → connect env q = (r, q') → quic_wf q'.
Proof.
  intros Hwf. pose proof Hwf as [_ (c & Hc & _)].
  destruct (connect_run env q c Hwf Hc) as (q1 & Hs & Hw1 & ->).
  assert (∀ evs qx, quic_wf qx → quic_wf (echo_steps evs qx)) as Hev
    by (intros; eapply quic_wf_same; [apply echo_steps_same|done]).
  destruct (reconnects q); cbv zeta.
  - set (q2 := echo_steps (dial_events env) q1).
    assert (quic_wf q2) as Hw2 by by apply Hev.
    assert (dialed q2 = dialed q) as Hd2.
    { unfold q2. destruct (echo_steps_same (dial_events env) q1) as (_ & _ & -> & _). destruct Hs as (_ & _ & -> & _).
      apply consulted_keeps. }
    destruct (dial_result env); intros [= <- <-]; try done. apply Hev, counted_wf; [|cbn; by rewrite Hd2|done].
    apply redialed_wf, Hw2.
  - destruct (has_remaining (em_connection q1)) eqn:Hr1; intros [= <- <-]; [|done].
    apply Hev, counted_wf; [done| |done]. destruct Hs as (-> & _).
    by destruct (consulted_keeps c q) as [-> _].
Qed.

(** *** The daemon *)
Definition daemon_ok {T} (st : DaemonState * Quic * list (outcome quic_error T)) : Prop :=
  quic_wf st.1.2.

Lemma daemon_step_ok {T} st (e : DaemonEvent T) : daemon_ok st → daemon_ok (daemon_step st e).
Proof.
  destruct st as [[s q] replies]. unfold daemon_ok. cbn [fst snd]. intros Hwf.
  assert (∀ ev, quic_wf (echo_step ev q)) as Hecho
    by (intros; eapply quic_wf_same; [apply echo_step_same|done]).
  destruct e as [env| | |ev]; destruct s; cbn [daemon_step fst snd]; auto.
  destruct (connect env q) as [r q'] eqn:Ec. pose proof (connect_wf env q r q' Hwf Ec).
  by destruct r.
Qed.

Lemma daemon_steps_ok {T} (es : list (DaemonEvent T)) st :
  daemon_ok st → daemon_ok (foldl daemon_step st es).
Proof. revert st. induction es as [|e es IH]; intros st Hst; [done|]. by apply IH, daemon_step_ok. Qed.

Lemma log_ok_initial : log_ok Quic_initial.
Proof. split_and!; [done| |done]. intros c. cbn. lia. Qed.

Lemma daemon_log {T} setup (env : Env T) es : log_ok (quic_connection_daemon setup env es).1.2.
Proof.
  unfold quic_connection_daemon, EndpointManager_new.
  destruct setup; try apply log_ok_initial. rewrite st_lift_Ok_bind, new_connection_run. cbv zeta.
  assert (log_ok (echo_steps (dial_events env) Quic_initial)) as Hlog
    by (eapply log_ok_same; [apply echo_steps_same|apply log_ok_initial]).
  destruct (dial_result env); try exact Hlog.
  apply (daemon_steps_ok es (Serving, _, [])), redialed_wf, Hlog.
Qed.

(** * Properties *)

(** C21: whatever the dials, streams and echo tasks do, the daemon never opens
    more than [MAX_CONCURRENT_BIDI_STREAMS] streams on a connection, every stream
    is opened on a connection that was dialed, and at most one echo task, the one
    whose sender the manager holds, is alive. *)
Theorem quic_stream_limit {T} setup (env : Env T) es :
  let q := (quic_connection_daemon setup env es).1.2 in
  (∀ c, opened_on c q ≤ MAX_CONCURRENT_BIDI_STREAMS) ∧
  Forall (λ c, c < dialed q) (streams q) ∧
  (∀ i j ti tj, echo_tasks q !! i = Some ti → echo_tasks q !! j = Some tj →
     et_state ti ≠ EchoGone → et_state tj ≠ EchoGone → i = j).
Proof.
  destruct (daemon_log setup env es) as (HF & Hn & Htk). split_and!; [done..|].
  intros i j ti tj Hi Hj Hgi Hgj. unfold tasks_ok in Htk.
  destruct (em_echo_tx _) as [k|]; [|by rewrite Htk in Hi].
  destruct Htk as [_ Hall]. destruct (decide (i = k)) as [->|Hik].
  - destruct (decide (j = k)) as [->|Hjk]; [done|]. by destruct (Hgj (Hall _ _ Hj Hjk)).
  - by destruct (Hgi (Hall _ _ Hi Hik)).
Qed.

(** The streams one [connect] opens: the echo task's, when it is restarted, and
    the tunnel's. *)
Definition echo_streams (c : nat) (q : Quic) : list nat :=
  if has_remaining (em_connection q) && negb (echo_task_status q) then [c] else [].

(** C32: what [connect] does from any state the daemon can be in. It dials exactly
    when the connection is used up or was declared lost, opens its tunnel on the
    new connection then and on the current one otherwise, after at most one
    stream for a new echo task; it fails only as the dial or the stream fails;
    and the [unwrap] of the tunnel panics exactly when the echo task has to be
    restarted while one stream is left on a connection believed open. *)
Theorem quic_connect_exact {T} (env : Env T) q c :
  quic_wf q → connection (em_connection q) = Some c →
  is_panic (dial_result env) = false → is_panic (open_result env) = false →
  let used := concurrent_streams_counter (em_connection q) in
  let '(r, q') := connect env q in
  quic_wf q' ∧
  if reconnects q then
    match dial_result env with
    | Ok _ => r = open_result env ∧ connection (em_connection q') = Some (dialed q) ∧
        concurrent_streams_counter (em_connection q') = 1 ∧
        streams q' = streams q ++ echo_streams c q ++ [dialed q]
    | Err e => r = Err e
    | Pending => r = Pending
    | Panic _ => False
    | OutOfFuel => r = OutOfFuel
    end
  else if decide (used = 29 ∧ echo_task_status q = false) then is_panic r = true
  else r = open_result env ∧ connection (em_connection q') = Some c ∧
    concurrent_streams_counter (em_connection q') = used + length (echo_streams c q) + 1 ∧
    streams q' = streams q ++ echo_streams c q ++ [c].
Proof.
  intros Hwf Hc Hpd Hpo used. destruct (connect env q) as [r q'] eqn:E.
  split; [by eapply connect_wf|].
  destruct (connect_run env q c Hwf Hc) as (q1 & Hs & Hw1 & E'). rewrite E in E'.
  assert (streams q1 = streams q ++ echo_streams c q ∧
    concurrent_streams_counter (em_connection q1) = used + length (echo_streams c q) ∧
    connection (em_connection q1) = Some c) as (Hst & Hcnt & Hc1).
  { destruct Hs as (-> & _ & _ & -> & _). unfold consulted, echo_restarted, echo_streams, used.
    destruct (has_remaining (em_connection q)), (echo_task_status q); cbn;
      rewrite ?app_nil_r, ?Nat.add_0_r; done. }
  destruct (reconnects q) eqn:Hrec; cbv zeta in E'.
  - destruct (dial_result env) as [u|e| |msg|]; try done; injection E' as -> ->; try done.
    destruct (echo_steps_same (open_events env) (counted (dialed q)
      (redialed (echo_steps (dial_events env) q1)))) as (-> & _ & _ & -> & _).
    destruct (echo_steps_same (dial_events env) q1) as (_ & _ & Hd & Hs2 & _). cbn.
    rewrite Hs2, Hst, app_assoc. destruct Hs as (_ & _ & Hd1 & _).
    rewrite Hd, Hd1. by destruct (consulted_keeps c q) as [_ ->].
  - assert (has_remaining (em_connection q) = true) as Hr.
    { unfold reconnects in Hrec. by destruct (has_remaining (em_connection q)). }
    assert (used < 30) as Hlt by (unfold has_remaining in Hr; by apply bool_decide_eq_true in Hr).
    unfold echo_streams in *. rewrite Hr in *. cbn [andb] in *.
    unfold has_remaining in E' at 1. rewrite Hcnt in E'. clearbody used.
    destruct (echo_task_status q); cbn [negb length] in *.
    + rewrite decide_False by (intros [_ [=]]).
      rewrite bool_decide_eq_true_2 in E' by (unfold MAX_CONCURRENT_BIDI_STREAMS; lia).
      injection E' as -> ->.
      destruct (echo_steps_same (open_events env) (counted c q1)) as (-> & _ & _ & -> & _). cbn.
      rewrite Hst, Hcnt, Hc1, app_nil_r. split_and!; [done..|lia|done].
    + destruct (decide (used = 29)) as [->|H29].
      * rewrite decide_True by done. rewrite bool_decide_eq_false_2 in E' by (cbv; lia).
        by injection E' as -> ->.
      * rewrite decide_False by (by intros [? _]).
        rewrite bool_decide_eq_true_2 in E' by (unfold MAX_CONCURRENT_BIDI_STREAMS; lia).
        injection E' as -> ->.
        destruct (echo_steps_same (open_events env) (counted c q1)) as (-> & _ & _ & -> & _). cbn.
        rewrite Hst, Hcnt, Hc1, <- app_assoc. split_and!; [done..|lia|done].
Qed.

Definition example_env : Env unit := mkEnv (Ok tt) [] (Ok tt) [].

(** The first [connect] after the first dial. *)
Lemma quic_connect_exact_witness :
  let q := redialed Quic_initial in
  let '(r, q') := connect example_env q in
  quic_wf q' ∧ r = Ok tt ∧ connection (em_connection q') = Some 0 ∧
  concurrent_streams_counter (em_connection q') = 2 ∧ streams q' = [0; 0].
Proof.
  pose proof (quic_connect_exact example_env (redialed Quic_initial) 0
    (redialed_wf _ log_ok_initial) eq_refl eq_refl eq_refl) as H.
  vm_compute in H |- *. exact H.
Defined.

(** The daemon can be brought to that panic: the echo task's authentication
    is pending while 28 tunnels are opened and then fails, which closes its
    channel without declaring the connection lost, and the next request
    panics. *)
Theorem quic_daemon_can_panic :
  let es := repeat (TaskRequested example_env) 28 ++
    [EchoStep (0, EchoAuthed false); TaskRequested example_env] in
  let '(s, q, replies) := quic_connection_daemon (Ok tt) example_env es in
  s = Crashed "called `Option::unwrap()` on a `None` value" ∧
  opened_on 0 q = 30 ∧ IS_CONNECTION_OPENED q = true ∧ length replies = 28.
Proof. vm_compute. done. Qed.
