(* ===== verification/Timeout.v ===== *)
(** Idle timeouts: [TimeoutMonitor] and [TimedoutIO] of
    src/src/utils/timedout_duplex_io.rs.

    An instant is a number of nanoseconds. The clock is a function from the
    number of times it was read to the instant read; the properties assume it
    never goes back. The timer of the monitor is reached through [Sleep]. The
    atomic the monitor and the wrapped stream share is part of [Shared]. *)
From stdpp Require Import relations.
From S2P Require Import Prelude Vec MixAddr Io UdpTraits.

(** ** Time *)
Definition SECOND : Z := 1000000000.
Definition as_secs (duration : Z) : Z := (duration / SECOND)%Z.

(** [tokio::time::Sleep]: [sleep_poll now] tells whether it has elapsed. *)
Class Sleep (T : Type) := {
  sleep_until : Z → T;
  sleep_reset : Z → T → T;
  sleep_poll : Z → T → bool * T;
}.

(** A sleep never elapses early, and has elapsed at most [granularity] after it
    is due. *)
Class SleepOk (T : Type) `{Sleep T} (granularity : Z) := {
  sleep_due : T → Z;
  granularity_nonneg : (0 ≤ granularity)%Z;
  due_until : ∀ z, sleep_due (sleep_until z) = z;
  due_reset : ∀ z t, sleep_due (sleep_reset z t) = z;
  due_poll : ∀ now t, sleep_due (sleep_poll now t).2 = sleep_due t;
  never_early : ∀ now t, (sleep_poll now t).1 = true → (sleep_due t ≤ now)%Z;
  never_late : ∀ now t, (sleep_due t + granularity ≤ now)%Z → (sleep_poll now t).1 = true;
}.

(** The shared cell [last_active], and the clock with its reads so far. *)
Record Shared := mkShared {
  sh_last_active : Z;
  sh_clock : nat → Z;
  sh_reads : nat;
}.

(** [Instant::now()]. *)
Definition instant_now {E} : ST Shared E Z := λ w,
  (Ok (sh_clock w (sh_reads w)), mkShared (sh_last_active w) (sh_clock w) (S (sh_reads w))).

Definition store_last_active {E} (v : Z) : ST Shared E unit :=
  st_modify (λ w, mkShared v (sh_clock w) (sh_reads w)).

(** ** [TimeoutMonitor] *)
Record TimeoutMonitor (T : Type) := mkMonitor {
  tm_created : Z;
  tm_deadline : Z;
  tm_sleep : T;
}.
Arguments mkMonitor {T}.
Arguments tm_created {T}.
Arguments tm_deadline {T}.
Arguments tm_sleep {T}.

Record TimedoutIO (R : Type) := mkTimedoutIO {
  ti_inner : R;
  ti_created : Z;
  ti_shared : Shared;
}.
Arguments mkTimedoutIO {R}.
Arguments ti_inner {R}.
Arguments ti_created {R}.
Arguments ti_shared {R}.

Section monitor.
Context {T : Type} `{Sleep T}.
(** Whether the build checks integer overflow. *)
Context (overflow_checks : bool).

(** [TimeoutMonitor::new] of a deadline in seconds: two reads of the clock. *)
Definition TimeoutMonitor_new (deadline : Z) : ST Shared io_error (TimeoutMonitor T) :=
  now ← instant_now;
  let sleep := (now + deadline * SECOND)%Z in
  created ← instant_now;
  store_last_active 0;;
  mret (mkMonitor created (u32_wrap deadline) (sleep_until sleep)).

Definition watch {R} (m : TimeoutMonitor T) (w : Shared) (inner : R) : TimedoutIO R :=
  mkTimedoutIO inner (tm_created m) w.

Definition u32_sub (x y : Z) : outcome io_error Z :=
  if decide (y ≤ x)%Z then Ok (x - y)%Z
  else if overflow_checks then Panic "attempt to subtract with overflow"
  else Ok (u32_wrap (x - y)).

Definition on_shared {A} (m : ST Shared io_error A) : ST (TimeoutMonitor T * Shared) io_error A :=
  st_zoom snd (λ w p, (p.1, w)) m.

(** [me.sleep.as_mut().poll(cx)]: the timer reads the clock. *)
Definition poll_sleep : ST (TimeoutMonitor T * Shared) io_error bool :=
  now ← on_shared instant_now;
  '(m, w) ← st_get;
  let '(ready, sleep) := sleep_poll now (tm_sleep m) in
  st_put (mkMonitor (tm_created m) (tm_deadline m) sleep, w);;
  mret ready.

(** [impl Future for TimeoutMonitor]. *)
Definition monitor_poll : ST (TimeoutMonitor T * Shared) io_error unit :=
  ready ← poll_sleep;
  if (ready : bool) then
    instant ← on_shared instant_now;
    '(m, w) ← st_get;
    let time_elapsed := u32_wrap (as_secs (instant - tm_created m)) in
    let last_active := sh_last_active w in
    inactive_time ← st_lift (u32_sub time_elapsed last_active);
    if decide (tm_deadline m < inactive_time)%Z then mret tt
    else
      st_put (mkMonitor (tm_created m) (tm_deadline m)
        (sleep_reset (instant + tm_deadline m * SECOND) (tm_sleep m)), w);;
      st_lift Pending
  else st_lift Pending.
End monitor.

(** ** [TimedoutIO] *)
Definition ti_on_inner {R A} (m : ST R io_error A) : ST (TimedoutIO R) io_error A :=
  st_zoom ti_inner (λ r s, mkTimedoutIO r (ti_created s) (ti_shared s)) m.

(** The store of the macro [poll_timeout!]. *)
Definition note_active {R} : ST (TimedoutIO R) io_error unit :=
  s ← st_get;
  st_zoom ti_shared (λ w s, mkTimedoutIO (ti_inner s) (ti_created s) w)
    (now ← instant_now; store_last_active (u32_wrap (as_secs (now - ti_created s)))).

(** [poll_timeout! { With self, .. }]: readiness is noted. *)
Definition poll_timeout {R A} (m : ST R io_error A) : ST (TimedoutIO R) io_error A :=
  res ← st_try (ti_on_inner m);
  (match res with Ok _ | Err _ => note_active | _ => mret tt end);;
  st_lift res.

#[export] Instance TimedoutIO_AsyncRead `{AsyncRead R} : AsyncRead (TimedoutIO R) :=
  λ room, poll_timeout (poll_read room).

#[export] Instance TimedoutIO_AsyncWrite `{AsyncWrite R} : AsyncWrite (TimedoutIO R) := {
  poll_write b := poll_timeout (poll_write b);
  poll_flush := ti_on_inner poll_flush;
  poll_shutdown := ti_on_inner poll_shutdown;
}.

#[export] Instance TimedoutIO_UdpRead `{UdpRead R} : UdpRead (TimedoutIO R) := λ fuel '(s, buf),
  let '(res, s') :=
    poll_timeout (R:=R * UdpRelayBuffer) (poll_proxy_stream_read fuel)
      (mkTimedoutIO (ti_inner s, buf) (ti_created s) (ti_shared s)) in
  (res, (mkTimedoutIO (ti_inner s').1 (ti_created s') (ti_shared s'), (ti_inner s').2)).

#[export] Instance TimedoutIO_UdpWrite `{UdpWrite R} : UdpWrite (TimedoutIO R) := {
  poll_proxy_stream_write b a := poll_timeout (poll_proxy_stream_write b a);
  udp_poll_flush := ti_on_inner udp_poll_flush;
  udp_poll_shutdown := ti_on_inner udp_poll_shutdown;
}.

(** ** The wrapper is transparent *)
Definition is_ready {E A} (r : outcome E A) : bool :=
  match r with Ok _ | Err _ => true | _ => false end.

(** The shared cell after a poll that ended in [r]. *)
Definition touched {E A} (r : outcome E A) (created : Z) (w : Shared) : Shared :=
  if is_ready r then
    mkShared (u32_wrap (as_secs (sh_clock w (sh_reads w) - created))) (sh_clock w) (S (sh_reads w))
  else w.

Lemma poll_timeout_run {R A} (m : ST R io_error A) (s : TimedoutIO R) :
  poll_timeout m s =
    ((m (ti_inner s)).1,
     mkTimedoutIO (m (ti_inner s)).2 (ti_created s)
       (touched (m (ti_inner s)).1 (ti_created s) (ti_shared s))).
Proof.
  unfold poll_timeout. st_simpl. unfold ti_on_inner. rewrite st_zoom_run. cbn [fst snd].
  destruct (m (ti_inner s)) as [[a|e| |msg|] r]; cbn [fst snd]; try done;
    unfold note_active; rewrite st_bind_assoc, st_get_bind, st_zoom_bind; done.
Qed.

Lemma ti_on_inner_run {R A} (m : ST R io_error A) (s : TimedoutIO R) :
  ti_on_inner m s = ((m (ti_inner s)).1, mkTimedoutIO (m (ti_inner s)).2 (ti_created s) (ti_shared s)).
Proof. unfold ti_on_inner. by rewrite st_zoom_run. Qed.

#[export] Instance TimedoutIO_AsyncReadOk `{AsyncReadOk R} : AsyncReadOk (TimedoutIO R).
Proof.
  split; intros room s; unfold poll_read, TimedoutIO_AsyncRead; rewrite poll_timeout_run.
  - intros bs s' [= Hr _]. exact (read_fits_fst room _ bs Hr).
  - exact (poll_read_returns room (ti_inner s)).
Qed.

#[export] Instance TimedoutIO_AsyncWriteOk `{AsyncWriteOk R} : AsyncWriteOk (TimedoutIO R).
Proof.
  split; cbn [poll_write poll_flush poll_shutdown TimedoutIO_AsyncWrite]; intros;
    rewrite ?poll_timeout_run, ?ti_on_inner_run in *; simplify_eq/=; eauto using write_fits_fst with oxide.
Qed.

Lemma timedout_udp_read_run `{UdpRead R} fuel (s : TimedoutIO R) b :
  poll_proxy_stream_read fuel (s, b) =
    let '(r, (i, b')) := poll_proxy_stream_read fuel (ti_inner s, b) in
    (r, (mkTimedoutIO i (ti_created s) (touched r (ti_created s) (ti_shared s)), b')).
Proof.
  unfold poll_proxy_stream_read at 1, TimedoutIO_UdpRead. rewrite poll_timeout_run. cbn [ti_inner ti_created ti_shared].
  by destruct (poll_proxy_stream_read fuel (ti_inner s, b)) as [r [i b']].
Qed.

#[export] Instance TimedoutIO_UdpReadOk `{UdpReadOk R} : UdpReadOk (TimedoutIO R).
Proof.
  intros fuel s b res s' b' Hb Hq. rewrite timedout_udp_read_run.
  destruct (poll_proxy_stream_read fuel (ti_inner s, b)) as [r [i b1]] eqn:E. intros [= <- _ <-].
  exact (udp_read_whole _ _ _ _ _ _ Hb Hq E).
Qed.

(** What passes through the wrapper passes through the wrapped stream. *)
Lemma timedout_io_trace {R : Type} `{AsyncRead R, AsyncWrite R} (s : TimedoutIO R) ins outs s' :
  io_trace s ins outs s' → io_trace (ti_inner s) ins outs (ti_inner s').
Proof.
  induction 1 as [s|s room ins outs s'' Ht IH|s b ins outs s'' Ht IH|s ins outs s'' Ht IH|s ins outs s'' Ht IH].
  - apply io_refl.
  - unfold poll_read, TimedoutIO_AsyncRead in IH |- *. rewrite poll_timeout_run in IH |- *.
    by apply (io_read (ti_inner s)).
  - cbn [poll_write TimedoutIO_AsyncWrite] in IH |- *. rewrite poll_timeout_run in IH |- *.
    by apply (io_write (ti_inner s)).
  - cbn [poll_flush TimedoutIO_AsyncWrite] in IH. rewrite ti_on_inner_run in IH. by apply io_flush.
  - cbn [poll_shutdown TimedoutIO_AsyncWrite] in IH. rewrite ti_on_inner_run in IH. by apply io_shutdown.
Qed.

Lemma timedout_udp_trace {R : Type} `{UdpRead R, UdpWrite R} (s : TimedoutIO R) ins outs s' :
  udp_trace s ins outs s' → udp_trace (ti_inner s) ins outs (ti_inner s').
Proof.
  induction 1 as [s|s fuel b res s1 b1 ins outs s' Hb Hq Hr Ht IH|s b a ins outs s' Ht IH
    |s ins outs s' Ht IH|s ins outs s' Ht IH].
  - apply udp_refl.
  - rewrite timedout_udp_read_run in Hr.
    destruct (poll_proxy_stream_read fuel (ti_inner s, b)) as [r [i b2]] eqn:E.
    injection Hr as <- <- <-. by eapply udp_read.
  - cbn [poll_proxy_stream_write TimedoutIO_UdpWrite] in IH |- *. rewrite poll_timeout_run in IH |- *.
    by apply (udp_write (ti_inner s)).
  - cbn [udp_poll_flush TimedoutIO_UdpWrite] in IH. rewrite ti_on_inner_run in IH. by apply udp_flush.
  - cbn [udp_poll_shutdown TimedoutIO_UdpWrite] in IH. rewrite ti_on_inner_run in IH. by apply udp_shut.
Qed.

(** ** When the monitor fires *)
Section timing.
Context {T : Type} `{SleepOk T granularity} {R : Type}.
Context (overflow_checks : bool).

(** The clock never goes back, and a connection lives less than 2^32 seconds. *)
Definition clock_ok (created : Z) (w : Shared) : Prop :=
  (∀ i j, i ≤ j → (sh_clock w i ≤ sh_clock w j)%Z) ∧
  (∀ i, (sh_clock w i - created < 2 ^ 32 * SECOND)%Z).

(** The last instant read. *)
Definition last_read (w : Shared) : Z := sh_clock w (sh_reads w - 1).

(** What holds between two polls, with [act] the last activity (the creation, at
    first): the cell holds its second, and the sleep is due before twice the
    deadline and a second after it. *)
Definition timed_ok (act : Z) (m : TimeoutMonitor T) (s : TimedoutIO R) : Prop :=
  let w := ti_shared s in
  clock_ok (tm_created m) w ∧ ti_created s = tm_created m ∧ (0 ≤ tm_deadline m < 2 ^ 32)%Z ∧
  (tm_created m ≤ act)%Z ∧ (act ≤ sh_clock w (sh_reads w))%Z ∧
  sh_last_active w = u32_wrap (as_secs (act - tm_created m)) ∧
  (sleep_due (tm_sleep m) < act + (2 * tm_deadline m + 1) * SECOND)%Z.

(** The polls of a watched stream: any method, by its effect on the stream; the
    ones that note activity; and the polls of the monitor that stay pending. *)
Inductive timed_run : Z * TimeoutMonitor T * TimedoutIO R → Z * TimeoutMonitor T * TimedoutIO R → Prop :=
| tr_refl x : timed_run x x
| tr_io {A} act m s (poll : ST R io_error A) x :
    timed_run (if is_ready (poll_timeout poll s).1 then last_read (ti_shared (poll_timeout poll s).2) else act,
               m, (poll_timeout poll s).2) x →
    timed_run (act, m, s) x
| tr_other {A} act m s (poll : ST R io_error A) x :
    timed_run (act, m, (ti_on_inner poll s).2) x → timed_run (act, m, s) x
| tr_monitor act m s m' w x :
    monitor_poll overflow_checks (m, ti_shared s) = (Pending, (m', w)) →
    timed_run (act, m', mkTimedoutIO (ti_inner s) (ti_created s) w) x →
    timed_run (act, m, s) x.

Lemma monitor_poll_run m w :
  monitor_poll overflow_checks (m, w) =
    (let now := sh_clock w (sh_reads w) in
     let instant := sh_clock w (S (sh_reads w)) in
     let w1 := mkShared (sh_last_active w) (sh_clock w) (S (sh_reads w)) in
     let w2 := mkShared (sh_last_active w) (sh_clock w) (S (S (sh_reads w))) in
     let '(ready, sleep) := sleep_poll now (tm_sleep m) in
     let m1 := mkMonitor (tm_created m) (tm_deadline m) sleep in
     if (ready : bool) then
       match u32_sub overflow_checks (u32_wrap (as_secs (instant - tm_created m))) (sh_last_active w) with
       | Ok inactive =>
           if decide (tm_deadline m < inactive)%Z then (Ok tt, (m1, w2))
           else (Pending, (mkMonitor (tm_created m) (tm_deadline m)
             (sleep_reset (instant + tm_deadline m * SECOND) sleep), w2))
       | Err e => (Err e, (m1, w2))
       | Pending => (Pending, (m1, w2))
       | Panic msg => (Panic msg, (m1, w2))
       | OutOfFuel => (OutOfFuel, (m1, w2))
       end
     else (Pending, (m1, w1))).
Proof.
  unfold monitor_poll, poll_sleep, on_shared. rewrite st_bind_assoc, st_zoom_bind.
  unfold instant_now at 1. cbn [snd fst]. rewrite st_bind_assoc, st_get_bind. cbv zeta.
  destruct (sleep_poll _ _) as [[] sleep]; rewrite st_bind_assoc, st_put_bind, st_ret_bind; [|done].
  rewrite st_zoom_bind. unfold instant_now. cbn [snd fst sh_clock sh_reads sh_last_active].
  rewrite st_get_bind. cbv zeta. cbn [tm_created tm_deadline tm_sleep sh_last_active].
  destruct (u32_sub _ _ _) as [inactive|e| |msg|]; try done. st_simpl. by case_decide.
Qed.

Lemma as_secs_bounds d :
  (as_secs d * SECOND ≤ d)%Z ∧ (d < (as_secs d + 1) * SECOND)%Z.
Proof.
  unfold as_secs, SECOND. pose proof (Z.div_mod d 1000000000). pose proof (Z.mod_pos_bound d 1000000000). lia.
Qed.

Lemma u32_secs d : (0 ≤ d)%Z → (d < 2 ^ 32 * SECOND)%Z → u32_wrap (as_secs d) = as_secs d.
Proof.
  intros Hd0 Hlt. pose proof (as_secs_bounds d). unfold u32_wrap, SECOND in *. apply Z.mod_small. lia.
Qed.

Lemma timed_ok_io {A} act m s (poll : ST R io_error A) :
  timed_ok act m s →
  timed_ok (if is_ready (poll_timeout poll s).1 then last_read (ti_shared (poll_timeout poll s).2) else act)
    m (poll_timeout poll s).2.
Proof.
  intros Hok. pose proof Hok as ([Hmono Hup] & Hcr & HD & Hca & Hac & Hl & Hdue).
  rewrite poll_timeout_run. cbn [fst snd ti_shared].
  unfold touched. destruct (is_ready _); [|exact Hok].
  unfold last_read. cbn [sh_reads sh_clock]. rewrite Nat.sub_1_r. cbn [Nat.pred].
  set (w := ti_shared s) in *. pose proof (Hmono (sh_reads w) (S (sh_reads w)) ltac:(lia)).
  unfold timed_ok. cbn [ti_shared ti_created sh_clock sh_reads sh_last_active]. rewrite Hcr.
  split_and!; try done; lia.
Qed.

Lemma timed_ok_other {A} act m s (poll : ST R io_error A) :
  timed_ok act m s → timed_ok act m (ti_on_inner poll s).2.
Proof. by rewrite ti_on_inner_run. Qed.

(** One poll of the monitor. *)
Lemma monitor_poll_spec act m s r m' w :
  timed_ok act m s → monitor_poll overflow_checks (m, ti_shared s) = (r, (m', w)) →
  (r = Ok tt ∨ r = Pending) ∧
  (r = Ok tt → (act + tm_deadline m * SECOND < last_read w)%Z) ∧
  (r = Pending → timed_ok act m' (mkTimedoutIO (ti_inner s) (ti_created s) w) ∧ tm_deadline m' = tm_deadline m ∧
     (sh_clock (ti_shared s) (sh_reads (ti_shared s)) <
        act + (2 * tm_deadline m + 1) * SECOND + granularity)%Z).
Proof.
  intros ([Hmono Hup] & Hcr & HD & Hca & Hac & Hl & Hdue). rewrite monitor_poll_run. cbv zeta.
  set (w0 := ti_shared s) in *. set (now := sh_clock w0 (sh_reads w0)) in *.
  pose proof (never_late now (tm_sleep m)) as Hlate.
  pose proof (due_poll now (tm_sleep m)) as Hdp.
  destruct (sleep_poll now (tm_sleep m)) as [ready sleep]. cbn in Hlate, Hdp.
  set (n1 := S (sh_reads w0)) in *. set (instant := sh_clock w0 n1).
  assert (now ≤ instant)%Z as Hni by (apply Hmono; lia).
  assert (instant ≤ sh_clock w0 (S n1))%Z as Hni2 by (apply Hmono; lia).
  pose proof (as_secs_bounds (instant - tm_created m)) as He.
  pose proof (as_secs_bounds (act - tm_created m)) as Ha.
  pose proof (Hup n1) as Hup1. pose proof (Hup (sh_reads w0)) as Hup2. fold instant in Hup1. fold now in Hup2.
  rewrite Hl. rewrite (u32_secs (instant - _)), (u32_secs (act - _)) by lia.
  assert (as_secs (act - tm_created m) ≤ as_secs (instant - tm_created m))%Z as Hle
    by (unfold as_secs; apply Z.div_le_mono; unfold SECOND; lia).
  unfold u32_sub. rewrite decide_True by done.
  pose proof granularity_nonneg as Hg.
  destruct ready.
  - destruct (decide (tm_deadline m < _)%Z) as [Hf|Hf]; intros [= <- <- <-].
    + split_and!; [by left| |done]. intros _. unfold last_read. cbn [sh_reads sh_clock].
      rewrite Nat.sub_1_r. cbn [Nat.pred]. fold n1 instant. unfold SECOND in *. lia.
    + split_and!; [by right|done|]. intros _. split_and!; [|done|unfold SECOND in *; lia].
      unfold timed_ok. cbn [ti_shared ti_created sh_clock sh_reads sh_last_active tm_created tm_deadline tm_sleep].
      rewrite due_reset. fold n1. rewrite (u32_secs (act - _)) by lia. split_and!; try done; unfold SECOND in *; lia.
  - intros [= <- <- <-]. split_and!; [by right|done|]. intros _. split_and!; [|done|].
    + unfold timed_ok. cbn [ti_shared ti_created sh_clock sh_reads sh_last_active tm_created tm_deadline tm_sleep].
      fold n1 instant. rewrite Hdp, (u32_secs (act - _)) by lia. split_and!; try done; lia.
    + destruct (decide (sleep_due (tm_sleep m) + granularity ≤ now)%Z) as [Hd|Hd]; [by apply Hlate in Hd|lia].
Qed.

Lemma timed_run_ok x y :
  timed_run x y → timed_ok x.1.1 x.1.2 x.2 →
  timed_ok y.1.1 y.1.2 y.2 ∧ tm_deadline y.1.2 = tm_deadline x.1.2.
Proof.
  induction 1 as [x|A act m s poll x _ IH|A act m s poll x _ IH|act m s m' w x Hm _ IH]; cbn [fst snd] in *.
  - done.
  - intros Hok. apply IH, timed_ok_io, Hok.
  - intros Hok. apply IH, timed_ok_other, Hok.
  - intros Hok. destruct (monitor_poll_spec _ _ _ _ _ _ Hok Hm) as (_ & _ & Hp).
    destruct (Hp eq_refl) as (Hok' & Hd & _). rewrite <- Hd. by apply IH.
Qed.

(** [TimeoutMonitor::new(deadline)] and [watch(inner)]. *)
Definition monitored (deadline : Z) (clock : nat → Z) (inner : R) : TimeoutMonitor T * TimedoutIO R :=
  let w := mkShared 0 clock 0 in
  match TimeoutMonitor_new deadline w with
  | (Ok m, w') => (m, watch m w' inner)
  | (_, w') => (mkMonitor 0 0 (sleep_until 0), mkTimedoutIO inner 0 w')
  end.

Lemma monitored_run deadline clock inner :
  monitored deadline clock inner =
    (mkMonitor (clock 1) (u32_wrap deadline) (sleep_until (clock 0%nat + deadline * SECOND)%Z),
     mkTimedoutIO inner (clock 1) (mkShared 0 clock 2)).
Proof. done. Qed.

Lemma monitored_ok deadline clock inner :
  (0 ≤ deadline < 2 ^ 32)%Z → (∀ i j, i ≤ j → (clock i ≤ clock j)%Z) →
  (∀ i, (clock i - clock 1%nat < 2 ^ 32 * SECOND)%Z) →
  timed_ok (clock 1) (monitored deadline clock inner).1 (monitored deadline clock inner).2 ∧
  tm_deadline (monitored deadline clock inner).1 = deadline.
Proof.
  intros HD Hmono Hup. rewrite monitored_run. unfold u32_wrap. rewrite Z.mod_small by lia.
  split; [|done]. unfold timed_ok.
  cbn [fst snd ti_shared ti_created sh_clock sh_reads sh_last_active tm_created tm_deadline tm_sleep].
  rewrite due_until, Z.sub_diag. pose proof (Hmono 0 1 ltac:(lia)).
  pose proof (Hmono 1 2 ltac:(lia)). split_and!; try done; try lia. unfold SECOND. lia.
Qed.
End timing.

(** ** A concrete sleep: the instant it is due *)
#[export] Instance due_Sleep : Sleep Z := {
  sleep_until z := z;
  sleep_reset z _ := z;
  sleep_poll now t := (bool_decide (t ≤ now)%Z, t);
}.

#[export] Instance due_SleepOk : SleepOk Z 0.
Proof.
  refine {| sleep_due z := z |}.
  - lia.
  - done.
  - done.
  - done.
  - intros now t Hd. by apply bool_decide_eq_true in Hd.
  - intros now t Hd. apply bool_decide_eq_true. lia.
Defined.

(** * Properties *)

(** C22: the timeout never comes early and always comes: over any interleaving of
    polls of a watched stream and of its monitor, with [act] the last instant the
    stream was ready (at first the creation), a poll of the monitor either
    completes, and then more than the deadline has passed since [act]; or it stays
    pending, and then it happened less than twice the deadline, one second and the
    timer's granularity after [act]. It never fails, and the subtraction of the
    two times never overflows, checked or not. *)
Theorem timeout_window {T} `{SleepOk T granularity} {R} overflow_checks deadline clock (inner : R)
    act (m : TimeoutMonitor T) (s : TimedoutIO R) r m' w :
  (0 ≤ deadline < 2 ^ 32)%Z → (∀ i j, i ≤ j → (clock i ≤ clock j)%Z) →
  (∀ i, (clock i - clock 1%nat < 2 ^ 32 * SECOND)%Z) →
  timed_run overflow_checks
    (clock 1, (monitored deadline clock inner).1, (monitored deadline clock inner).2) (act, m, s) →
  monitor_poll overflow_checks (m, ti_shared s) = (r, (m', w)) →
  (r = Ok tt ∧ (act + deadline * SECOND < last_read w)%Z) ∨
  (r = Pending ∧
     (sh_clock (ti_shared s) (sh_reads (ti_shared s)) <
        act + (2 * deadline + 1) * SECOND + granularity)%Z).
Proof.
  intros HD Hmono Hup Hrun Hpoll.
  destruct (monitored_ok deadline clock inner HD Hmono Hup) as [Hok Hd].
  apply timed_run_ok in Hrun as [Hok' Hd']; [|done]. cbn [fst snd] in Hok', Hd'. rewrite Hd in Hd'.
  destruct (monitor_poll_spec _ _ _ _ _ _ _ Hok' Hpoll) as (Hr & Hready & Hpend). rewrite Hd' in *.
  destruct Hr as [->| ->]; [left|right]; (split; [done|]); [by apply Hready|by apply Hpend].
Qed.

(** A clock that ticks a second at each of its first reads; a deadline of 3
    seconds. *)
Definition ticking (n : nat) : Z := (Z.of_nat (Nat.min n 1000) * SECOND)%Z.

(** Nothing happens: the fifth poll of the monitor fires, 7 seconds after the
    creation. *)
Lemma timeout_window_witness :
  ∃ m (s : TimedoutIO unit) m' w,
    monitor_poll (T:=Z) true (m, ti_shared s) = (Ok tt, (m', w)) ∧
    ((Ok (E:=io_error) tt = Ok tt ∧ (ticking 1 + 3 * SECOND < last_read w)%Z) ∨
     (Ok (E:=io_error) tt = Pending ∧
       (sh_clock (ti_shared s) (sh_reads (ti_shared s)) < ticking 1%nat + (2 * 3 + 1) * SECOND + 0)%Z)).
Proof.
  set (next := λ x : TimeoutMonitor Z * TimedoutIO unit,
    let p := monitor_poll true (x.1, ti_shared x.2) in
    (p.2.1, mkTimedoutIO tt (ti_created x.2) p.2.2)).
  set (x0 := monitored (T:=Z) 3 ticking tt).
  assert (∀ x y, (monitor_poll true (x.1, ti_shared x.2)).1 = Pending →
    timed_run true (ticking 1, (next x).1, (next x).2) y → timed_run true (ticking 1, x.1, x.2) y) as Hnext.
  { intros [m [[] c w]] y Hp Hr. cbn [fst snd ti_shared] in Hp.
    apply (tr_monitor true _ _ _ (monitor_poll true (m, w)).2.1 (monitor_poll true (m, w)).2.2);
      [|exact Hr].
    cbn [ti_shared]. rewrite <- Hp, <- !surjective_pairing. reflexivity. }
  set (x4 := next (next (next (next x0)))).
  set (p := monitor_poll true (x4.1, ti_shared x4.2)).
  assert (p = (Ok tt, (p.2.1, p.2.2))) as Hp.
  { assert (p.1 = Ok tt) as <- by (vm_compute; reflexivity). by rewrite <- !surjective_pairing. }
  exists x4.1, x4.2, p.2.1, p.2.2. split; [exact Hp|].
  eapply (timeout_window (T:=Z) true 3 ticking tt (ticking 1) x4.1 x4.2 (Ok tt)); [| | | |exact Hp].
  - lia.
  - unfold ticking, SECOND. lia.
  - unfold ticking, SECOND. lia.
  - do 4 (apply Hnext; [vm_compute; reflexivity|]). apply tr_refl.
Defined.
