(* ===== verification/Adapter.v ===== *)
(** [Adapter] of src/src/utils/adapter.rs: a relay raced against the idle timeout
    and the shutdown signal.

    One poll of the [select!] goes through its branches in an order the caller
    gives (tokio starts at a random one) and ends at the first that is ready. The
    relays are those of Copy.v and UdpCopy.v over the outbound end wrapped as the
    code wraps it; the TCP relay's errors become stop reasons. *)
From stdpp Require Import relations.
From S2P Require Import Prelude Vec MixAddr Io Copy UdpTraits UdpCopy UdpSockets Timeout.

(** ** [Adapter] *)
Record Adapter := mkAdapter { ad_timeout : option Z }.

Definition Adapter_new : Adapter := mkAdapter None.
Definition set_timeout (timeout : Z) (_ : Adapter) : Adapter := mkAdapter (Some timeout).

(** The outbound end of a relay: watched when there is a timeout. *)
Abbreviation Out O := (EitherIO (TimedoutIO O) O).

Inductive Branch : Type := BDuplex | BTimeout | BShutdown.

#[export] Instance Branch_eq_dec : EqDecision Branch.
Proof. solve_decision. Defined.

Section adapter.
Context {T X I O Buf E : Type} `{Sleep T} `{Signal X}.
Context (overflow_checks : bool).

(** The relay future, the timeout future ([pending()] without a timeout) and the
    shutdown receiver. *)
Record Relay := mkRelay {
  rl_bidi : CopyBidirectional Buf I (Out O);
  rl_monitor : option (TimeoutMonitor T);
  rl_shutdown : X;
}.

(** What [relay_tcp] and [relay_udp] set up before the [select!]. *)
Definition relay_start (a : Adapter) (clock : nat → Z) (up down : Buf) (inbound : I) (outbound : O)
    (shutdown : X) : Relay :=
  match ad_timeout a with
  | Some t =>
      let '(timeout_monitor, watched) := monitored t clock outbound in
      mkRelay (bidi_new up down inbound (EitherLeft watched)) (Some timeout_monitor) shutdown
  | None => mkRelay (bidi_new up down inbound (EitherRight outbound)) None shutdown
  end.

Definition set_outbound (o : Out O) (b : CopyBidirectional Buf I (Out O))
    : CopyBidirectional Buf I (Out O) :=
  mkBidi (bi_i b) o (bi_upload b) (bi_download b) (bi_stop_reason b).

Context (duplex : ST (CopyBidirectional Buf I (Out O)) E StreamStopReasons).

(** The monitor shares the cell and the clock with the stream it watches. *)
Definition poll_timeout_branch : ST Relay E StreamStopReasons := λ s,
  match rl_monitor s, bi_o (rl_bidi s) with
  | Some m, EitherLeft io =>
      let '(r, (m', w)) := monitor_poll overflow_checks (m, ti_shared io) in
      let s' := mkRelay (set_outbound (EitherLeft (mkTimedoutIO (ti_inner io) (ti_created io) w))
        (rl_bidi s)) (Some m') (rl_shutdown s) in
      match r with
      | Ok _ => (Ok Timeout, s')
      | Pending => (Pending, s')
      | Err _ => (Panic "the monitor's output is ()", s')
      | Panic msg => (Panic msg, s')
      | OutOfFuel => (OutOfFuel, s')
      end
  | _, _ => (Pending, s)
  end.

Definition poll_branch (b : Branch) : ST Relay E StreamStopReasons :=
  match b with
  | BDuplex => st_zoom rl_bidi (λ d s, mkRelay d (rl_monitor s) (rl_shutdown s)) duplex
  | BTimeout => poll_timeout_branch
  | BShutdown => λ s,
      let '(received, x) := try_recv (rl_shutdown s) in
      (if received then Ok Shutdown else Pending, mkRelay (rl_bidi s) (rl_monitor s) x)
  end.

(** One poll of the [select!]. *)
Fixpoint select (order : list Branch) : ST Relay E StreamStopReasons :=
  match order with
  | [] => st_lift Pending
  | b :: rest =>
      res ← st_try (poll_branch b);
      match res with
      | Pending => select rest
      | _ => st_lift res
      end
  end.

(** A poll that left the whole pending, in some order of the branches. *)
Definition select_pending (s s' : Relay) : Prop :=
  ∃ order, order ≡ₚ [BDuplex; BTimeout; BShutdown] ∧ select order s = (Pending, s').
End adapter.
Arguments Relay : clear implicits.

(** The relay of [relay_tcp]: a failed direction is a stop reason. *)
Definition tcp_duplex {I O : Type} `{AsyncRead I, AsyncWrite I, AsyncRead O, AsyncWrite O} (fuel : nat)
    : ST (CopyBidirectional CopyBuffer I (Out O)) io_error StreamStopReasons :=
  res ← st_try (forked_poll fuel);
  match res with
  | Err (reason, e) => mret reason
  | Ok res => mret res
  | Pending => st_lift Pending
  | Panic msg => panic msg
  | OutOfFuel => st_lift OutOfFuel
  end.

Definition relay_tcp {T X I O : Type} `{Sleep T, Signal X, AsyncRead I, AsyncWrite I, AsyncRead O, AsyncWrite O}
    (overflow_checks : bool) (fuel : nat) (order : list Branch)
    : ST (Relay T X I O CopyBuffer) io_error StreamStopReasons :=
  select overflow_checks (tcp_duplex fuel) order.

(** The relay of [relay_udp]: an error is the result. *)
Definition udp_duplex {I O : Type} `{UdpRead I, UdpWrite I, UdpRead O, UdpWrite O} (inner_fuel fuel : nat)
    : ST (CopyBidirectional UdpCopyBuf I (Out O)) io_error StreamStopReasons :=
  '(_, _, reason) ← udp_bidi_poll inner_fuel fuel;
  mret reason.

Definition relay_udp {T X I O : Type} `{Sleep T, Signal X, UdpRead I, UdpWrite I, UdpRead O, UdpWrite O}
    (overflow_checks : bool) (inner_fuel fuel : nat) (order : list Branch)
    : ST (Relay T X I O UdpCopyBuf) io_error StreamStopReasons :=
  select overflow_checks (udp_duplex inner_fuel fuel) order.

(** Every order of the branches tries each once. *)
Lemma branches_once order : order ≡ₚ [BDuplex; BTimeout; BShutdown] → NoDup order.
Proof. intros ->. apply (bool_decide_unpack (NoDup _)). vm_compute. exact Logic.I. Qed.

(** ** The wrapped outbound end *)
Section wrapped.
Context {T : Type} `{Sleep T} {O : Type} (overflow_checks : bool).
Context {D : Type} (trace : O → list D → list D → O → Prop).

(** The stream under the wrapper of an outbound end. *)
Definition under (o : Out O) : O :=
  match o with EitherLeft s => ti_inner s | EitherRight s => s end.

(** A watched stream moved by polls of its own. *)
Definition reaches (s s' : TimedoutIO O) : Prop :=
  ∀ act (m : TimeoutMonitor T), ∃ act', timed_run overflow_checks (act, m, s) (act', m, s').

Definition under_trace (o : Out O) (ins outs : list D) (o' : Out O) : Prop :=
  trace (under o) ins outs (under o') ∧
  match o, o' with
  | EitherLeft _, EitherLeft _ | EitherRight _, EitherRight _ => True
  | _, _ => False
  end.

Definition timed_trace (o : Out O) (ins outs : list D) (o' : Out O) : Prop :=
  under_trace o ins outs o' ∧
  match o, o' with
  | EitherLeft s, EitherLeft s' => reaches s s'
  | _, _ => True
  end.
End wrapped.

Lemma timed_run_trans {T R : Type} `{Sleep T} oc (x y z : Z * TimeoutMonitor T * TimedoutIO R) :
  timed_run oc x y → timed_run oc y z → timed_run oc x z.
Proof.
  induction 1; eauto using timed_run.
Qed.

Section reaches.
Context {T : Type} `{Sleep T} {O : Type} (oc : bool).
Abbreviation reach := (reaches (T:=T) (O:=O) oc).

Lemma reaches_refl s : reach s s.
Proof. intros act m. exists act. apply tr_refl. Qed.

Lemma reaches_trans s1 s2 s3 : reach s1 s2 → reach s2 s3 → reach s1 s3.
Proof.
  intros H1 H2 act m. destruct (H1 act m) as [a1 R1]. destruct (H2 a1 m) as [a2 R2].
  exists a2. by eapply timed_run_trans.
Qed.

Lemma reaches_io {A} (poll : ST O io_error A) s : reach s (poll_timeout poll s).2.
Proof. intros act m. eexists. eapply (tr_io oc act m s poll), tr_refl. Qed.

Lemma reaches_other {A} (poll : ST O io_error A) s : reach s (ti_on_inner poll s).2.
Proof. intros act m. exists act. eapply (tr_other oc act m s poll), tr_refl. Qed.

(** A datagram read, as a poll of the stream alone. *)
Lemma reaches_udp_read `{UdpRead O} fuel s b res s1 b1 :
  poll_proxy_stream_read fuel (s, b) = (res, (s1, b1)) → reach s s1.
Proof.
  rewrite timedout_udp_read_run.
  set (poll := λ r : O, let '(res, (r', b')) := poll_proxy_stream_read fuel (r, b) in (res, r')).
  pose proof (reaches_io (A:=MixAddrType) poll s) as Hr. rewrite poll_timeout_run in Hr.
  unfold poll in Hr. destruct (poll_proxy_stream_read fuel (ti_inner s, b)) as [r [i b']].
  by intros [= _ <- _].
Qed.

Lemma io_trace_reaches `{AsyncRead O, AsyncWrite O} (s : TimedoutIO O) ins outs s' :
  io_trace s ins outs s' → reach s s'.
Proof.
  induction 1 as [s|s room ins outs s'' _ IH|s b ins outs s'' _ IH|s ins outs s'' _ IH|s ins outs s'' _ IH].
  - apply reaches_refl.
  - eapply reaches_trans; [|exact IH]. exact (reaches_io (poll_read room) s).
  - eapply reaches_trans; [|exact IH]. exact (reaches_io (poll_write b) s).
  - eapply reaches_trans; [|exact IH]. exact (reaches_other poll_flush s).
  - eapply reaches_trans; [|exact IH]. exact (reaches_other poll_shutdown s).
Qed.

Lemma udp_trace_reaches `{UdpRead O, UdpWrite O} (s : TimedoutIO O) ins outs s' :
  udp_trace s ins outs s' → reach s s'.
Proof.
  induction 1 as [s|s fuel b res s1 b1 ins outs s' _ _ Hr _ IH|s b a ins outs s' _ IH
    |s ins outs s' _ IH|s ins outs s' _ IH].
  - apply reaches_refl.
  - eapply reaches_trans; [|exact IH]. by eapply reaches_udp_read.
  - eapply reaches_trans; [|exact IH]. exact (reaches_io (poll_proxy_stream_write b a) s).
  - eapply reaches_trans; [|exact IH]. exact (reaches_other udp_poll_flush s).
  - eapply reaches_trans; [|exact IH]. exact (reaches_other udp_poll_shutdown s).
Qed.
End reaches.

(** ** Streams behind [EitherIO] *)
Section either.
Context {A B : Type}.

Lemma either_io_trace `{AsyncRead A, AsyncWrite A, AsyncRead B, AsyncWrite B}
    (s : EitherIO A B) ins outs s' :
  io_trace s ins outs s' →
  match s, s' with
  | EitherLeft a, EitherLeft a' => io_trace a ins outs a'
  | EitherRight b, EitherRight b' => io_trace b ins outs b'
  | _, _ => False
  end.
Proof.
  induction 1 as [s|s room ins outs s'' _ IH|s b ins outs s'' _ IH|s ins outs s'' _ IH|s ins outs s'' _ IH].
  - destruct s; apply io_refl.
  - unfold poll_read, EitherIO_AsyncRead in IH |- *. rewrite either_dispatch_run in IH |- *.
    destruct s as [io|io], s'' as [io'|io']; try done; by apply (io_read io).
  - cbn [poll_write EitherIO_AsyncWrite] in IH |- *. rewrite either_dispatch_run in IH |- *.
    destruct s as [io|io], s'' as [io'|io']; try done; by apply (io_write io).
  - cbn [poll_flush EitherIO_AsyncWrite] in IH. rewrite either_dispatch_run in IH.
    destruct s as [io|io], s'' as [io'|io']; try done; by apply (io_flush io).
  - cbn [poll_shutdown EitherIO_AsyncWrite] in IH. rewrite either_dispatch_run in IH.
    destruct s as [io|io], s'' as [io'|io']; try done; by apply (io_shutdown io).
Qed.

Lemma either_udp_trace `{UdpRead A, UdpWrite A, UdpRead B, UdpWrite B}
    (s : EitherIO A B) ins outs s' :
  udp_trace s ins outs s' →
  match s, s' with
  | EitherLeft a, EitherLeft a' => udp_trace a ins outs a'
  | EitherRight b, EitherRight b' => udp_trace b ins outs b'
  | _, _ => False
  end.
Proof.
  induction 1 as [s|s fuel b res s1 b1 ins outs s' Hb Hq Hr _ IH|s b a ins outs s' _ IH
    |s ins outs s' _ IH|s ins outs s' _ IH].
  - destruct s; apply udp_refl.
  - unfold poll_proxy_stream_read, EitherIO_UdpRead in Hr.
    destruct s as [io|io]; destruct (poll_proxy_stream_read fuel (io, b)) as [r [io' b']] eqn:E;
      injection Hr as <- <- <-; destruct s'; try done; by eapply udp_read.
  - cbn [poll_proxy_stream_write EitherIO_UdpWrite] in IH |- *. rewrite either_dispatch_run in IH |- *.
    destruct s as [io|io], s' as [io'|io']; try done; by apply (udp_write io).
  - cbn [udp_poll_flush EitherIO_UdpWrite] in IH. rewrite either_dispatch_run in IH.
    destruct s as [io|io], s' as [io'|io']; try done; by apply (udp_flush io).
  - cbn [udp_poll_shutdown EitherIO_UdpWrite] in IH. rewrite either_dispatch_run in IH.
    destruct s as [io|io], s' as [io'|io']; try done; by apply (udp_shut io).
Qed.
End either.

Lemma io_timed_trace {T O : Type} `{Sleep T, AsyncRead O, AsyncWrite O} oc (o : Out O) ins outs o' :
  io_trace o ins outs o' → timed_trace (T:=T) oc io_trace o ins outs o'.
Proof.
  intros Ht%either_io_trace. unfold timed_trace, under_trace. destruct o, o'; try done; cbn.
  split_and!; [by apply timedout_io_trace|done|by eapply io_trace_reaches].
Qed.

Lemma udp_timed_trace {T O : Type} `{Sleep T, UdpRead O, UdpWrite O} oc (o : Out O) ins outs o' :
  udp_trace o ins outs o' → timed_trace (T:=T) oc udp_trace o ins outs o'.
Proof.
  intros Ht%either_udp_trace. unfold timed_trace, under_trace. destruct o, o'; try done; cbn.
  split_and!; [by apply timedout_udp_trace|done|by eapply udp_trace_reaches].
Qed.

(** ** The race, over any relay *)
Section race.
Context {T X I O Buf E D : Type} `{Sleep T} `{Signal X}.
Context (oc : bool) (duplex : ST (CopyBidirectional Buf I (Out O)) E StreamStopReasons).
Context (trace_i : I → list D → list D → I → Prop) (trace : O → list D → list D → O → Prop).
Context (i_refl : ∀ i, trace_i i [] [] i) (o_refl : ∀ o, trace o [] [] o).
Context (i_trans : ∀ i1 a1 b1 i2 a2 b2 i3,
  trace_i i1 a1 b1 i2 → trace_i i2 a2 b2 i3 → trace_i i1 (a1 ++ a2) (b1 ++ b2) i3).
Context (o_trans : ∀ o1 a1 b1 o2 a2 b2 o3,
  trace o1 a1 b1 o2 → trace o2 a2 b2 o3 → trace o1 (a1 ++ a2) (b1 ++ b2) o3).
Context (held : Buf → list D) (bwf : Buf → Prop) (lossless : bool).
Abbreviation Bidi := (CopyBidirectional Buf I (Out O)).
Abbreviation St := (Relay T X I O Buf).

(** What an end of the relay itself means. *)
Context (ended : StreamStopReasons → Bidi → Bidi → Prop).
Context (Hended : ∀ reason b b', ended reason b b' → reason = Upload ∨ reason = Download).
Context (Hduplex : ∀ b, bidi_wf bwf b → reason_ok b → post duplex b (λ r b',
  (tracked lossless r → bidi_carried trace_i (timed_trace (T:=T) oc trace) held bwf b b') ∧
  (r = Pending → reason_ok b') ∧ (∀ reason, r = Ok reason → ended reason b b'))).

Abbreviation carried := (bidi_carried trace_i (under_trace trace) held bwf).

#[local] Instance carried_preorder : PreOrder carried.
Proof.
  apply bidi_carried_preorder; try done.
  - intros [o|o]; split; done.
  - intros o1 a1 b1 o2 a2 b2 o3 [T1 S1] [T2 S2]. split; [by eapply o_trans|].
    by destruct o1, o2, o3.
Qed.

(** The monitor and the stream it watches, from their creation [x0] on. *)
Definition watched (x0 : option (Z * TimeoutMonitor T * TimedoutIO O)) (s : St) : Prop :=
  match x0, rl_monitor s, bi_o (rl_bidi s) with
  | Some x, Some m, EitherLeft io => ∃ act, timed_run oc x (act, m, io)
  | None, None, EitherRight _ => True
  | _, _, _ => False
  end.

Definition race_ok (x0 : option (Z * TimeoutMonitor T * TimedoutIO O)) (b0 : Bidi) (s : St) : Prop :=
  carried b0 (rl_bidi s) ∧ bidi_wf bwf (rl_bidi s) ∧ reason_ok (rl_bidi s) ∧ watched x0 s.

(** What each way to end means, for a poll from [s] that left [s']. *)
Definition race_end (x0 : option (Z * TimeoutMonitor T * TimedoutIO O)) (s : St) (r : outcome E StreamStopReasons) (s' : St) : Prop :=
  match r with
  | Ok Timeout => ∃ x act m (io : TimedoutIO O) p, x0 = Some x ∧ timed_run oc x (act, m, io) ∧
      monitor_poll oc (m, ti_shared io) = (Ok tt, p)
  | Ok Shutdown => (try_recv (rl_shutdown s)).1 = true
  | Ok reason => ∃ b, ended reason b (rl_bidi s') ∧ bi_upload b = bi_upload (rl_bidi s) ∧
      bi_download b = bi_download (rl_bidi s)
  | _ => True
  end.

Lemma race_branch x0 b0 b s :
  race_ok x0 b0 s →
  post (poll_branch oc duplex b) s (λ r s',
    (tracked lossless r → carried b0 (rl_bidi s')) ∧
    (r = Pending → race_ok x0 b0 s' ∧
       (b ≠ BDuplex → bi_upload (rl_bidi s') = bi_upload (rl_bidi s) ∧
          bi_download (rl_bidi s') = bi_download (rl_bidi s)) ∧
       (b ≠ BShutdown → rl_shutdown s' = rl_shutdown s)) ∧
    race_end x0 s r s' ∧ (r = Ok Shutdown → b = BShutdown) ∧
    (∀ reason, r = Ok reason → reason ≠ Timeout → reason ≠ Shutdown → b = BDuplex)).
Proof.
  intros (Hc & Hwf & Hr & Hw). unfold post. destruct b; cbn [poll_branch].
  - rewrite st_zoom_run. destruct (Hduplex (rl_bidi s) Hwf Hr) as (Hcar & Hpend & Hend).
    destruct (duplex (rl_bidi s)) as [r b']. cbn [fst snd] in *.
    assert (∀ (Ht : tracked lossless r), carried b0 b') as Hcar'.
    { intros Ht. etrans; [exact Hc|]. intros _.
      destruct (Hcar Ht Hwf) as (Hwf' & ? & ? & ii & io & oi & oo & ? & [? _] & ? & ?).
      split_and!; [done..|]. by exists ii, io, oi, oo. }
    split_and!.
    + exact Hcar'.
    + intros ->. split_and!; [|done|done]. split_and!.
      * by apply Hcar'.
      * by apply (Hcar Logic.I Hwf).
      * by apply Hpend.
      * destruct (Hcar Logic.I Hwf) as (_ & _ & _ & ii & io & oi & oo & _ & [[_ Hside] Htm] & _).
        unfold watched in *. cbn [rl_monitor rl_bidi].
        destruct x0 as [x|], (rl_monitor s) as [m|], (bi_o (rl_bidi s)), (bi_o b'); try done.
        destruct Hw as [act Hact]. destruct (Htm act m) as [act' Hact']. exists act'.
        by eapply timed_run_trans.
    + destruct r as [reason| | | |]; try done. specialize (Hend reason eq_refl).
      destruct (Hended _ _ _ Hend) as [->| ->]; cbn; by exists (rl_bidi s).
    + intros ->. by destruct (Hended _ _ _ (Hend _ eq_refl)).
    + done.
  - unfold poll_timeout_branch.
    destruct (rl_monitor s) as [m|] eqn:Em; [|cbn; split_and!; try done; intros _; split_and!; done].
    destruct (bi_o (rl_bidi s)) as [io|o] eqn:Eo; [|cbn; split_and!; try done; intros _; split_and!; done].
    destruct (monitor_poll oc (m, ti_shared io)) as [r [m' w]] eqn:Ep. cbn [fst snd].
    set (io' := mkTimedoutIO (ti_inner io) (ti_created io) w).
    assert (carried b0 (set_outbound (EitherLeft io') (rl_bidi s))) as Hc'.
    { etrans; [exact Hc|]. intros _. split_and!; [done..|]. exists [], [], [], []. unfold bidi_moved, under_trace.
      cbn. rewrite Eo, !app_nil_r. cbn. by split_and!. }
    destruct r as [[]|e| |msg|]; cbn [fst snd rl_bidi rl_monitor rl_shutdown]; (split_and!; try done).
    + unfold watched in Hw. rewrite Em, Eo in Hw. destruct x0 as [x|]; [|done].
      destruct Hw as [act Hact]. cbn. eauto 10.
    + intros reason [= <-]. done.
    + intros _. split_and!; [|done..]. split_and!; [done..|].
      unfold watched in *. rewrite Em, Eo in Hw. cbn. destruct x0 as [x|]; [|done].
      destruct Hw as [act Hact]. exists act. eapply timed_run_trans; [exact Hact|].
      eapply tr_monitor; [exact Ep|]. apply tr_refl.
  - destruct (try_recv (rl_shutdown s)) as [rec x] eqn:Ex. cbn [fst snd].
    destruct rec; (split_and!; try done).
    + cbn. by rewrite Ex.
    + by intros reason [= <-].
Qed.

Lemma race_select x0 b0 order s :
  NoDup order → race_ok x0 b0 s →
  post (select oc duplex order) s (λ r s',
    (tracked lossless r → carried b0 (rl_bidi s')) ∧ (r = Pending → race_ok x0 b0 s') ∧
    race_end x0 s r s' ∧ (r = Ok Shutdown → BShutdown ∈ order) ∧
    (∀ reason, r = Ok reason → reason ≠ Timeout → reason ≠ Shutdown → BDuplex ∈ order)).
Proof.
  revert s. induction order as [|b order IH]; intros s Hnd Hok.
  { apply post_lift. split_and!; try done. intros _. apply Hok. }
  pose proof (NoDup_cons_1_1 _ _ Hnd) as Hnb. apply NoDup_cons_1_2 in Hnd. unfold post. cbn [select]. rewrite st_try_bind.
  pose proof (race_branch x0 b0 b s Hok) as Hb. unfold post in Hb.
  destruct (poll_branch oc duplex b s) as [r s1]. cbn [fst snd] in *.
  destruct Hb as (Hcar & Hpend & Hend & Hsh & Hdu).
  destruct r as [reason|e| |msg|]; try (split_and!; try done; fail).
  - split_and!; [done|done|done| |].
    + intros Hr. rewrite (Hsh Hr). by left.
    + intros reason' Hr H1 H2. rewrite (Hdu reason' Hr H1 H2). by left.
  - destruct (Hpend eq_refl) as (Hok1 & Hsame & Hsig).
    destruct (IH s1 Hnd Hok1) as (Hcar' & Hpend' & Hend' & Hsh' & Hdu').
    destruct (select oc duplex order s1) as [r s']. cbn [fst snd] in *.
    split_and!; [done|done| | |].
    + destruct r as [[]| | | |]; try done; cbn in *.
      * destruct (decide (b = BDuplex)) as [->|Hne]; [by destruct Hnb; eapply Hdu'|].
        destruct (Hsame Hne) as [<- <-]. done.
      * destruct (decide (b = BDuplex)) as [->|Hne]; [by destruct Hnb; eapply Hdu'|].
        destruct (Hsame Hne) as [<- <-]. done.
      * destruct (decide (b = BShutdown)) as [->|Hne]; [by destruct Hnb; apply Hsh'|].
        by rewrite <- (Hsig Hne).
    + intros Hr. right. by apply Hsh'.
    + intros reason Hr H1 H2. right. by eapply Hdu'.
Qed.

Lemma race_run x0 b0 s s' :
  race_ok x0 b0 s → rtc (select_pending oc duplex) s s' → race_ok x0 b0 s'.
Proof.
  intros Hok. apply (rtc_ind_r (race_ok x0 b0)); [done|].
  intros s1 s2 _ (order & Hperm & Hsel) IH.
  pose proof (branches_once order Hperm) as Hnd.
  pose proof (race_select x0 b0 order s1 Hnd IH) as Hp. unfold post in Hp. rewrite Hsel in Hp.
  by apply Hp.
Qed.
End race.

(** The creation of the timeout. *)
Definition created_at {T O} `{Sleep T} (a : Adapter) (clock : nat → Z) (outbound : O)
    : option (Z * TimeoutMonitor T * TimedoutIO O) :=
  match ad_timeout a with
  | Some t => Some (clock 1, (monitored t clock outbound).1, (monitored t clock outbound).2)
  | None => None
  end.

Lemma bidi_carried_mono {D Buf I O} (ti : I → list D → list D → I → Prop)
    (to1 to2 : O → list D → list D → O → Prop) held bwf (b b' : CopyBidirectional Buf I O) :
  (∀ o ins outs o', to1 o ins outs o' → to2 o ins outs o') →
  bidi_carried ti to1 held bwf b b' → bidi_carried ti to2 held bwf b b'.
Proof.
  intros Hto Hc Hwf. destruct (Hc Hwf) as (? & ? & ? & ii & io & oi & oo & ? & ? & ? & ?).
  split_and!; [done..|]. exists ii, io, oi, oo. unfold bidi_moved. auto.
Qed.

Section race_start.
Context {T X I O Buf E D : Type} `{Sleep T} `{Signal X}.
Context (oc : bool) (trace_i : I → list D → list D → I → Prop) (trace : O → list D → list D → O → Prop).
Context (i_refl : ∀ i, trace_i i [] [] i) (o_refl : ∀ o, trace o [] [] o).
Context (held : Buf → list D) (bwf : Buf → Prop) (up down : Buf).
Context (Hup : bwf up) (Hdown : bwf down) (Eup : held up = []) (Edown : held down = []).

Lemma race_start a clock i (o : O) (sh : X) :
  let s0 := relay_start (T:=T) a clock up down i o sh in
  race_ok oc trace_i trace held bwf (created_at a clock o) (rl_bidi s0) s0 ∧
  under (bi_o (rl_bidi s0)) = o ∧ bi_i (rl_bidi s0) = i ∧
  in_flight held (bi_upload (rl_bidi s0)) = [] ∧ in_flight held (bi_download (rl_bidi s0)) = [].
Proof.
  intros s0. subst s0. unfold race_ok, created_at, relay_start.
  destruct (ad_timeout a) as [t|].
  - rewrite monitored_run. cbn. split_and!; try done.
    + intros Hwf. split_and!; [done..|]. exists [], [], [], []. unfold bidi_moved, under_trace.
      cbn. rewrite Eup, Edown. by split_and!.
    + unfold watched. cbn. eexists. apply tr_refl.
  - cbn. split_and!; try done.
    intros Hwf. split_and!; [done..|]. exists [], [], [], []. unfold bidi_moved, under_trace.
    cbn. rewrite Eup, Edown. by split_and!.
Qed.

(** What a state of the race has carried since the start. *)
Lemma race_carried a clock i (o : O) (sh : X) (b' : CopyBidirectional Buf I (Out O)) :
  let s0 := relay_start (T:=T) a clock up down i o sh in
  bidi_carried trace_i (under_trace trace) held bwf (rl_bidi s0) b' →
  ∃ iin iout oin oout, trace_i i iin iout (bi_i b') ∧ trace o oin oout (under (bi_o b')) ∧
    iin = oout ++ in_flight held (bi_upload b') ∧ oin = iout ++ in_flight held (bi_download b') ∧
    bidi_wf bwf b'.
Proof.
  intros s0 Hc. destruct (race_start a clock i o sh) as ((_ & Hwf & _) & Ho & Hi & Eu & Ed).
  fold s0 in Hwf, Ho, Hi, Eu, Ed.
  destruct (Hc Hwf) as (Hwf' & _ & _ & iin & iout & oin & oout & Ti & [To _] & E1 & E2).
  rewrite Hi in Ti. rewrite Ho in To. rewrite Eu in E1. rewrite Ed in E2. cbn in E1, E2.
  by exists iin, iout, oin, oout.
Qed.
End race_start.

(** A timeout happens more than its seconds after the last activity. *)
Lemma fired_late {T O} `{SleepOk T g} oc a clock (outbound : O) t act (m : TimeoutMonitor T) (io : TimedoutIO O) p :
  ad_timeout a = Some t → (0 ≤ t < 65536)%Z →
  (∀ i j, i ≤ j → (clock i ≤ clock j)%Z) → (∀ i, (clock i - clock 1%nat < 2 ^ 32 * SECOND)%Z) →
  timed_run oc (clock 1, (monitored t clock outbound).1, (monitored t clock outbound).2) (act, m, io) →
  monitor_poll oc (m, ti_shared io) = (Ok tt, p) → (act + t * SECOND < last_read p.2)%Z.
Proof.
  intros Ha Ht Hmono Hup Hrun Hpoll. destruct p as [m' w].
  destruct (monitored_ok (T:=T) t clock outbound ltac:(lia) Hmono Hup) as [Hok Hd].
  apply timed_run_ok in Hrun as [Hok' Hd']; [|done]. cbn [fst snd] in Hok', Hd'. rewrite Hd in Hd'.
  destruct (monitor_poll_spec _ _ _ _ _ _ _ Hok' Hpoll) as (_ & Hready & _). rewrite Hd' in Hready. auto.
Qed.

(** *** The TCP relay in the race *)
Section tcp.
Context {I O : Type} `{AsyncReadOk I, !AsyncWrite I, !AsyncWriteOk I}.
Context `{AsyncReadOk O, !AsyncWrite O, !AsyncWriteOk O}.
Abbreviation Bidi := (CopyBidirectional CopyBuffer I (Out O)).

Definition tcp_ended (fuel : nat) (reason : StreamStopReasons) (b b' : Bidi) : Prop :=
  (reason = (if is_done (bi_upload b) then Upload else Download) ∧
     is_done (bi_upload b') = true ∧ is_done (bi_download b') = true) ∨
  ((reason = Upload ∨ reason = Download) ∧ ∃ e, forked_poll fuel b = (Err (reason, e), b')).

Lemma tcp_ended_reason fuel reason b b' :
  tcp_ended fuel reason b b' → reason = Upload ∨ reason = Download.
Proof. intros [[-> _]|[? _]]; [destruct (is_done _); auto|done]. Qed.

Lemma forked_err_reason fuel (b : Bidi) reason e b' :
  forked_poll fuel b = (Err (reason, e), b') → reason = Upload ∨ reason = Download.
Proof.
  unfold forked_poll, bidi_poll, question, st_try, mbind, st_bind.
  destruct (on_upload _ _ b) as [[n|e1| |msg|] b1]; cbn; try done; [|by intros [= <- _ _]; left|];
    destruct (on_download _ _ b1) as [[n2|e2| |msg2|] b2]; cbn; try done; intros [= <- _ _]; auto.
Qed.

Lemma tcp_duplex_ok {T} `{Sleep T} oc fuel (b : Bidi) :
  bidi_wf relay_buf_wf b → reason_ok b → post (tcp_duplex fuel) b (λ r b',
    (tracked true r → bidi_carried io_trace (timed_trace (T:=T) oc io_trace) unsent relay_buf_wf b b') ∧
    (r = Pending → reason_ok b') ∧ (∀ reason, r = Ok reason → tcp_ended fuel reason b b')).
Proof.
  intros Hwf Hr. unfold post, tcp_duplex. rewrite st_try_bind.
  pose proof (forked_is_relay fuel b Hwf) as Hp. unfold post in Hp.
  destruct (forked_poll fuel b) as [r b'] eqn:Ef. cbn [fst snd] in *. destruct Hp as [Hc Hx].
  assert (bidi_carried io_trace (timed_trace (T:=T) oc io_trace) unsent relay_buf_wf b b') as Hc'.
  { eapply bidi_carried_mono; [|exact (Hc (tracked_true r))]. apply io_timed_trace. }
  destruct r as [reason|[reason e]| |msg|]; cbn [fst snd]; (split_and!; try done).
  - intros reason' [= <-]. left. cbn in Hx |- *. destruct Hx as (u & d & -> & -> & ->).
    split; [|done]. unfold reason_ok in Hr. by destruct (is_done (bi_upload b)), (is_done (bi_download b)).
  - intros reason' [= <-]. right. split; [by eapply forked_err_reason|by exists e].
  - intros _. by apply Hx.
Qed.
End tcp.

(** A relay ends at the first poll after the signal. *)
Lemma select_closed {T X I O Buf E} `{Sleep T, Signal X} oc
    (duplex : ST (CopyBidirectional Buf I (Out O)) E StreamStopReasons) order (s : Relay T X I O Buf) :
  BShutdown ∈ order → (try_recv (rl_shutdown s)).1 = true → (select oc duplex order s).1 ≠ Pending.
Proof.
  revert s. induction order as [|b order IH]; intros s Hin Hc; [by apply not_elem_of_nil in Hin|].
  cbn [select]. rewrite st_try_bind.
  destruct (decide (b = BShutdown)) as [->|Hne].
  - cbn [poll_branch]. by destruct (try_recv (rl_shutdown s)) as [[] x].
  - apply elem_of_cons in Hin as [?|Hin]; [done|].
    assert (rl_shutdown (poll_branch oc duplex b s).2 = rl_shutdown s) as Hk.
    { destruct b; cbn [poll_branch]; [by rewrite st_zoom_run| |done].
      unfold poll_timeout_branch. destruct (rl_monitor s); [|done]. destruct (bi_o (rl_bidi s)); [|done].
      by destruct (monitor_poll _ _) as [[] []]. }
    destruct (poll_branch oc duplex b s) as [[] s']; cbn [fst snd] in *; try done. apply IH; [done|by rewrite Hk].
Qed.

(** An error of the race is one of the relay in it, which leaves its two ends as they
    are. *)
Lemma select_err {T X I O Buf E} `{Sleep T, Signal X} oc
    (duplex : ST (CopyBidirectional Buf I (Out O)) E StreamStopReasons) order (s s' : Relay T X I O Buf) e :
  select oc duplex order s = (Err e, s') → ∃ b, duplex b = (Err e, rl_bidi s').
Proof.
  revert s. induction order as [|b order IH]; intros s; [done|].
  cbn [select]. rewrite st_try_bind.
  assert ((poll_branch oc duplex b s).1 = Err e → ∃ d, duplex d = (Err e, rl_bidi (poll_branch oc duplex b s).2)) as Hb.
  { destruct b; cbn [poll_branch].
    - rewrite st_zoom_run. cbn. intros <-. eexists. apply surjective_pairing.
    - unfold poll_timeout_branch. destruct (rl_monitor s); [|done]. destruct (bi_o (rl_bidi s)); [|done].
      by destruct (monitor_poll _ _) as [[] []].
    - by destruct (try_recv (rl_shutdown s)) as [[] ?]. }
  destruct (poll_branch oc duplex b s) as [[] s1]; cbn [fst snd] in *; try done; [|by apply IH].
  intros [= -> <-]. by apply Hb.
Qed.

(** *** The datagram relay in the race *)
Section udp.
Context {I O : Type} `{UdpReadOk I, !UdpWrite I, UdpReadOk O, !UdpWrite O}.
Abbreviation Bidi := (CopyBidirectional UdpCopyBuf I (Out O)).

Definition udp_ended (reason : StreamStopReasons) (b b' : Bidi) : Prop :=
  reason = (if is_done (bi_upload b) then Upload else Download) ∧
  is_done (bi_upload b') = true ∧ is_done (bi_download b') = true.

Lemma udp_ended_reason reason b b' : udp_ended reason b b' → reason = Upload ∨ reason = Download.
Proof. intros [-> _]. destruct (is_done _); auto. Qed.

Lemma udp_duplex_ok {T} `{Sleep T} oc inner_fuel fuel (b : Bidi) :
  bidi_wf uc_wf b → reason_ok b → post (udp_duplex inner_fuel fuel) b (λ r b',
    (tracked false r → bidi_carried udp_trace (timed_trace (T:=T) oc udp_trace) uc_held uc_wf b b') ∧
    (r = Pending → reason_ok b') ∧ (∀ reason, r = Ok reason → udp_ended reason b b')).
Proof.
  intros Hwf Hr. unfold post, udp_duplex. rewrite st_bind_split.
  pose proof (udp_is_relay inner_fuel fuel b Hwf) as Hp. unfold post in Hp.
  destruct (udp_bidi_poll inner_fuel fuel b) as [r b'] eqn:Ef. cbn [fst snd] in *. destruct Hp as [Hc Hx].
  assert (tracked false r → bidi_carried udp_trace (timed_trace (T:=T) oc udp_trace) uc_held uc_wf b b') as Hc'.
  { intros Ht. eapply bidi_carried_mono; [|exact (Hc Ht)]. apply udp_timed_trace. }
  destruct r as [[[u d] reason]|e| |msg|]; cbn [fst snd]; (split_and!; try done).
  - intros reason' [= <-]. cbn in Hx |- *. destruct Hx as (u' & d' & Eu & Ed & [= _ _ ->]).
    split; [|by rewrite Eu, Ed]. unfold reason_ok in Hr.
    by destruct (is_done (bi_upload b)), (is_done (bi_download b)).
  - intros _. by apply Hx.
Qed.
End udp.

(** * Properties *)

(** What the end of a relay under [Adapter] says of the last poll, from [s] to
    [s']: which direction ended first when both are done, a failed direction, the
    timeout more than its seconds after the last activity, or the signal. *)
Definition stop_reason {T X I O Buf} `{Sleep T, Signal X} (oc : bool) (a : Adapter)
    (clock : nat → Z) (outbound : O) (failed : StreamStopReasons → Prop)
    (s : Relay T X I O Buf) (reason : StreamStopReasons) (s' : Relay T X I O Buf) : Prop :=
  match reason with
  | Timeout => ∃ t act m (io : TimedoutIO O) p, ad_timeout a = Some t ∧
      timed_run oc (clock 1, (monitored (T:=T) t clock outbound).1, (monitored t clock outbound).2)
        (act, m, io) ∧
      monitor_poll oc (m, ti_shared io) = (Ok tt, p) ∧ (act + t * SECOND < last_read p.2)%Z
  | Shutdown => (try_recv (rl_shutdown s)).1 = true
  | _ =>
      (reason = (if is_done (bi_upload (rl_bidi s)) then Upload else Download) ∧
        is_done (bi_upload (rl_bidi s')) = true ∧ is_done (bi_download (rl_bidi s')) = true) ∨
      failed reason
  end.

(** The timeout of an adapter is a [u16] of seconds, the clock never goes back and
    the connection lives less than 2^32 seconds. *)
Definition timeout_ok (a : Adapter) (clock : nat → Z) : Prop :=
  match ad_timeout a with Some t => (0 ≤ t < 65536)%Z | None => True end ∧
  (∀ i j, i ≤ j → (clock i ≤ clock j)%Z) ∧
  (∀ i, (clock i - clock 1%nat < 2 ^ 32 * SECOND)%Z).

Lemma race_end_reason {T X I O Buf E} `{SleepOk T g, Signal X} oc a clock (outbound : O)
    ended (failed : StreamStopReasons → Prop) (s : Relay T X I O Buf) reason s' :
  timeout_ok a clock →
  (∀ reason b, ended reason b (rl_bidi s') → bi_upload b = bi_upload (rl_bidi s) →
    (reason = (if is_done (bi_upload b) then Upload else Download) ∧
       is_done (bi_upload (rl_bidi s')) = true ∧ is_done (bi_download (rl_bidi s')) = true) ∨ failed reason) →
  race_end oc ended (created_at a clock outbound) s (Ok (E:=E) reason) s' →
  stop_reason oc a clock outbound failed s reason s'.
Proof.
  intros (Ht & Hmono & Hup) Hended Hend. destruct reason; cbn in Hend |- *.
  - destruct Hend as (b & Hb & Hu & _). rewrite <- Hu. by apply Hended.
  - destruct Hend as (b & Hb & Hu & _). rewrite <- Hu. by apply Hended.
  - destruct Hend as (x & act & m & io & p & Hx & Hrun & Hpoll). unfold created_at in Hx.
    destruct (ad_timeout a) as [t|] eqn:Ea; [|done]. injection Hx as <-.
    exists t, act, m, io, p. split_and!; [done..|].
    exact (fired_late oc a clock outbound t act m io p Ea Ht Hmono Hup Hrun Hpoll).
  - done.
Qed.

Section properties.
Context {T X : Type} `{SleepOk T g} `{Signal X} (oc : bool).

(** What a TCP relay moved, at any moment. *)
Lemma relay_tcp_carried {I O} `{AsyncReadOk I, !AsyncWrite I, !AsyncWriteOk I}
    `{AsyncReadOk O, !AsyncWrite O, !AsyncWriteOk O}
    fuel a clock (inbound : I) (outbound : O) (shutdown : X) order s r s' :
  order ≡ₚ [BDuplex; BTimeout; BShutdown] →
  rtc (select_pending (T:=T) oc (tcp_duplex fuel))
    (relay_start a clock CopyBuffer_new CopyBuffer_new inbound outbound shutdown) s →
  relay_tcp oc fuel order s = (r, s') →
  ∃ iin iout oin oout,
    io_trace inbound iin iout (bi_i (rl_bidi s')) ∧
    io_trace outbound oin oout (under (bi_o (rl_bidi s'))) ∧
    iin = oout ++ in_flight unsent (bi_upload (rl_bidi s')) ∧
    oin = iout ++ in_flight unsent (bi_download (rl_bidi s')) ∧
    state_wf relay_buf_wf (bi_upload (rl_bidi s')) ∧ state_wf relay_buf_wf (bi_download (rl_bidi s')) ∧
    race_end oc (tcp_ended fuel) (created_at a clock outbound) s r s'.
Proof.
  intros Hperm Hrun Hpoll.
  destruct (race_start (X:=X) oc io_trace io_trace io_refl io_refl unsent relay_buf_wf _ _
    relay_buf_new_wf relay_buf_new_wf eq_refl eq_refl a clock inbound outbound shutdown) as (Hok & _).
  pose proof (branches_once order Hperm) as Hnd.
  eapply (race_run (X:=X) oc (tcp_duplex fuel) io_trace io_trace io_refl io_refl io_trace_trans io_trace_trans
    unsent relay_buf_wf true (tcp_ended fuel) (tcp_ended_reason fuel) (tcp_duplex_ok oc fuel)) in Hok; [|exact Hrun].
  pose proof (race_select (X:=X) oc (tcp_duplex fuel) io_trace io_trace io_refl io_refl io_trace_trans io_trace_trans
    unsent relay_buf_wf true (tcp_ended fuel) (tcp_ended_reason fuel) (tcp_duplex_ok oc fuel) _ _ order s Hnd Hok) as Hp.
  unfold post in Hp. unfold relay_tcp in Hpoll. rewrite Hpoll in Hp. cbn [fst snd] in Hp.
  destruct Hp as (Hc & _ & Hend & _).
  destruct (race_carried (X:=X) oc io_trace io_trace io_refl io_refl unsent relay_buf_wf _ _
    relay_buf_new_wf relay_buf_new_wf eq_refl eq_refl a clock inbound outbound shutdown _ (Hc (tracked_true r)))
    as (iin & iout & oin & oout & Ti & To & E1 & E2 & Hwu & Hwd).
  exists iin, iout, oin, oout. done.
Qed.

(** C11: a TCP relay under its timeout and the shutdown signal: whatever the order
    in which each poll tries the branches, at any moment, and at the end for
    whatever reason, each end was sent exactly what the other delivered, less at
    most one buffer in flight each way; the relay never ends in an error; and its
    stop reason is true. *)
Theorem adapter_relay_tcp_exact {I O} `{AsyncReadOk I, !AsyncWrite I, !AsyncWriteOk I}
    `{AsyncReadOk O, !AsyncWrite O, !AsyncWriteOk O}
    fuel a clock (inbound : I) (outbound : O) (shutdown : X) order s r s' :
  timeout_ok a clock → order ≡ₚ [BDuplex; BTimeout; BShutdown] →
  rtc (select_pending (T:=T) oc (tcp_duplex fuel))
    (relay_start a clock CopyBuffer_new CopyBuffer_new inbound outbound shutdown) s →
  relay_tcp oc fuel order s = (r, s') →
  (∀ e, r ≠ Err e) ∧
  ∃ iin iout oin oout,
    io_trace inbound iin iout (bi_i (rl_bidi s')) ∧
    io_trace outbound oin oout (under (bi_o (rl_bidi s'))) ∧
    iin = oout ++ in_flight unsent (bi_upload (rl_bidi s')) ∧
    oin = iout ++ in_flight unsent (bi_download (rl_bidi s')) ∧
    length (in_flight unsent (bi_upload (rl_bidi s'))) ≤ RELAY_BUFFER_SIZE ∧
    length (in_flight unsent (bi_download (rl_bidi s'))) ≤ RELAY_BUFFER_SIZE ∧
    ∀ reason, r = Ok reason →
      stop_reason oc a clock outbound
        (λ reason, ∃ b e, forked_poll fuel b = (Err (reason, e), rl_bidi s')) s reason s'.
Proof.
  intros Ha Hperm Hrun Hpoll. split.
  { intros e ->. apply select_err in Hpoll as [b Hb]. unfold tcp_duplex in Hb. rewrite st_try_bind in Hb.
    by destruct (forked_poll fuel b) as [[?|[]| | |] ?]. }
  destruct (relay_tcp_carried _ _ _ _ _ _ _ _ _ _ Hperm Hrun Hpoll)
    as (iin & iout & oin & oout & Ti & To & E1 & E2 & Hwu & Hwd & Hend).
  exists iin, iout, oin, oout. do 4 (split; [done|]). split_and!; [by apply in_flight_bounded..|].
  intros reason ->. eapply race_end_reason; [done| |exact Hend]. intros reason' b [Hb|[_ [e He]]] _; eauto.
Qed.

End properties.

Lemma surjective_run {S E A} (m : ST S E A) s r : (m s).1 = r → m s = (r, (m s).2).
Proof. intros <-. apply surjective_pairing. Qed.

Definition ex_order : list Branch := [BTimeout; BDuplex; BShutdown].

Lemma ex_order_ok : ex_order ≡ₚ [BDuplex; BTimeout; BShutdown].
Proof. apply (bool_decide_unpack (_ ≡ₚ _)). vm_compute. exact Logic.I. Qed.

Lemma ex_timeout_ok : timeout_ok (set_timeout 3 Adapter_new) ticking.
Proof. unfold timeout_ok, ticking, SECOND. cbn. split_and!; intros; lia. Qed.

(** The relay of Copy.v's example under a timeout of 3 seconds ends by itself at
    its second poll. *)
Lemma adapter_relay_tcp_exact_witness :
  ∃ s1 s2 : Relay Z bool Script Script CopyBuffer,
  relay_tcp true 10 ex_order s1 = (Ok Download, s2) ∧
  (∀ e, Ok (E:=io_error) Download ≠ Err e) ∧
  ∃ iin iout oin oout,
    io_trace ex_inbound iin iout (bi_i (rl_bidi s2)) ∧
    io_trace ex_outbound oin oout (under (bi_o (rl_bidi s2))) ∧
    iin = oout ++ in_flight unsent (bi_upload (rl_bidi s2)) ∧
    oin = iout ++ in_flight unsent (bi_download (rl_bidi s2)) ∧
    length (in_flight unsent (bi_upload (rl_bidi s2))) ≤ RELAY_BUFFER_SIZE ∧
    length (in_flight unsent (bi_download (rl_bidi s2))) ≤ RELAY_BUFFER_SIZE ∧
    ∀ reason, Ok (E:=io_error) Download = Ok reason →
      stop_reason true (set_timeout 3 Adapter_new) ticking ex_outbound
        (λ reason, ∃ b e, forked_poll 10 b = (Err (reason, e), rl_bidi s2)) s1 reason s2.
Proof.
  assert (∃ s0, s0 = relay_start (T:=Z) (set_timeout 3 Adapter_new) ticking CopyBuffer_new
      CopyBuffer_new ex_inbound ex_outbound false ∧
    (relay_tcp true 10 ex_order s0).1 = Pending ∧
    (relay_tcp true 10 ex_order (relay_tcp true 10 ex_order s0).2).1 = Ok Download)
    as (s0 & Hs0 & H1 & H2).
  { eexists. split; [reflexivity|]. split; vm_compute; reflexivity. }
  apply surjective_run in H1, H2. exists (relay_tcp true 10 ex_order s0).2. eexists. split; [exact H2|].
  refine (adapter_relay_tcp_exact (T:=Z) (X:=bool) true 10 (set_timeout 3 Adapter_new) ticking
    ex_inbound ex_outbound false ex_order _ (Ok Download) _ ex_timeout_ok ex_order_ok _ H2).
  rewrite <- Hs0. apply rtc_once. exists ex_order. split; [exact ex_order_ok|exact H1].
Defined.

