(* ===== verification/UdpPackets.v ===== *)
(** The datagram relay, datagram by datagram.

    UdpCopy.v counts bytes with their addresses; here a relay is shown to keep the
    boundaries too: each end gets whole datagrams, in the order the other end gave
    them, less at most one that waits. What an end does with datagrams is the
    specification [datagram_end]; the relay is proved against it, through
    [CopyBidirectional] (UdpCopy.v), the wrappers of the outbound end and the
    [select!] of [Adapter] (Adapter.v). *)
From stdpp Require Import relations.
From S2P Require Import Prelude Vec MixAddr Io Copy UdpTraits UdpCopy UdpSockets Timeout Adapter.

Abbreviation Datagram := (MixAddrType * list Z)%type.

(** A datagram the relay passes on: an empty one is read and dropped. *)
Definition full (p : Datagram) : Prop := p.2 ≠ [].
#[export] Instance full_decision p : Decision (full p) := decide (¬ p.2 = []).

Lemma Forall_full (Q : Datagram → Prop) ds : Forall Q ds → Forall Q (filter full ds).
Proof.
  induction 1 as [|p ds Hp _ IH]; [done|]. rewrite filter_cons. case_decide; [by constructor|done].
Qed.

Lemma filter_full_app ds ds1 ds2 : filter full ds = ds1 ++ ds2 → filter full ds1 = ds1.
Proof.
  intros Hds. assert (Forall full (ds1 ++ ds2)) as Hf.
  { rewrite <- Hds. clear. induction ds as [|p ds IH]; [done|]. rewrite filter_cons.
    case_decide; [by constructor|done]. }
  apply Forall_app in Hf as [Hf _]. clear Hds. induction Hf as [|p ds1 Hp _ IH]; [done|].
  by rewrite filter_cons_True, IH.
Qed.

(** ** What an end promises

    [E ins outs cur s]: the end in state [s] has delivered the datagrams [ins] and
    sent the datagrams [outs], and has begun to send [cur]. A write that is not
    accepted may be made again, with the same datagram. *)
Record datagram_end {S} `{UdpRead S, UdpWrite S}
    (E : list Datagram → list Datagram → option Datagram → S → Prop) : Prop := {
  end_read fuel s b ins outs cur :
    UdpRelay.wf b → UdpRelay.queue b = [] → E ins outs cur s →
    post (poll_proxy_stream_read fuel) (s, b) (λ r p, match r with
      | Ok MNone | Pending => E ins outs cur p.1
      | Ok a => E (ins ++ [(a, UdpRelay.queue p.2)]) outs cur p.1
      | _ => True
      end);
  end_write s (p : Datagram) ins outs cur :
    p.1 ≠ MNone → full p → cur = None ∨ cur = Some p → E ins outs cur s →
    post (poll_proxy_stream_write p.2 p.1) s (λ r s', match r with
      | Ok n => n = 0 ∨ (n = length p.2 ∧ E ins (outs ++ [p]) None s')
      | Pending => ∃ cur', (cur' = None ∨ cur' = Some p) ∧ E ins outs cur' s'
      | _ => True
      end);
  end_flush s ins outs cur :
    E ins outs cur s → post udp_poll_flush s (λ r s', tracked false r → E ins outs cur s');
  end_shutdown s ins outs cur :
    E ins outs cur s → post udp_poll_shutdown s (λ r s', tracked false r → E ins outs cur s');
}.

(** ** One direction *)

(** The datagram in the buffer of a direction. *)
Definition uc_datagram (c : UdpCopyBuf) : list Datagram :=
  let q := UdpRelay.queue (uc_buf c) in
  if decide (q = []) then [] else [(default MNone (uc_addr c), q)].

Definition holds (ins outs : list Datagram) (cur : option Datagram) (c : UdpCopyBuf) : Prop :=
  uc_wf c ∧ filter full ins = outs ++ uc_datagram c ∧
  (cur = None ∨ ∃ p, uc_datagram c = [p] ∧ cur = Some p).

Lemma uc_datagram_empty c : UdpRelay.queue (uc_buf c) = [] → uc_datagram c = [].
Proof. intros Hq. unfold uc_datagram. by rewrite decide_True. Qed.

Lemma uc_datagram_same c c' :
  uc_buf c' = uc_buf c → uc_addr c' = uc_addr c → uc_datagram c' = uc_datagram c.
Proof. unfold uc_datagram. by intros -> ->. Qed.

Lemma holds_same ins outs cur c c' :
  uc_buf c' = uc_buf c → uc_addr c' = uc_addr c → holds ins outs cur c → holds ins outs cur c'.
Proof. intros Hb Ha. unfold holds, uc_wf. by rewrite (uc_datagram_same c c' Hb Ha), Hb, Ha. Qed.

Lemma holds_length ins outs cur c :
  holds ins outs cur c → length outs ≤ length (filter full ins) ≤ S (length outs).
Proof.
  intros (_ & -> & _). rewrite length_app. unfold uc_datagram. destruct (decide _); cbn; lia.
Qed.

Section direction.
Context {A B : Type} `{UdpReadOk A, !UdpWrite A, UdpWrite B, !UdpRead B}.
Context (EA : list Datagram → list Datagram → option Datagram → A → Prop) (HA : datagram_end EA).
Context (EB : list Datagram → list Datagram → option Datagram → B → Prop) (HB : datagram_end EB).
(** The other direction, which this one leaves as it is. *)
Context (aout : list Datagram) (acur : option Datagram) (bin : list Datagram).
Implicit Types (s : CopySt UdpCopyBuf A B).

Definition packets s : Prop := ∃ ain bout bcur,
  holds ain bout bcur (cs_buf s) ∧ EA ain aout acur (cs_rd s) ∧ EB bin bout bcur (cs_wr s).

Lemma udp_write_out_drained fuel s :
  UdpRelay.queue (uc_buf (cs_buf s)) = [] → udp_write_out fuel s = (Ok tt, s).
Proof.
  intros Hq. destruct fuel; cbn [udp_write_out]; rewrite st_get_bind, UdpRelay.has_remaining_queue;
    by rewrite bool_decide_eq_false_2 by (by intros ?).
Qed.

(** A datagram goes out whole or stays. *)
Lemma udp_write_out_packets fuel s :
  packets s → post (udp_write_out fuel) s (λ r s', tracked false r → packets s' ∧
    (r = Ok tt → UdpRelay.queue (uc_buf (cs_buf s')) = [])).
Proof.
  intros Hs. destruct (decide (UdpRelay.queue (uc_buf (cs_buf s)) = [])) as [Hq|Hq].
  { unfold post. by rewrite udp_write_out_drained. }
  unfold post. destruct fuel as [|fuel]; cbn [udp_write_out]; rewrite st_get_bind, UdpRelay.has_remaining_queue,
    bool_decide_eq_true_2 by done; [done|].
  pose proof Hs as (ain & bout & bcur & Hh & HEA & HEB).
  pose proof Hh as ((Hb & Hn & [a Ha]%(λ f, f Hq)) & Hf & Hcur).
  rewrite UdpRelay.chunk_queue by done. rewrite Ha. st_simpl. unfold on_wr. rewrite st_zoom_bind.
  set (p := (a, UdpRelay.queue (uc_buf (cs_buf s)))).
  assert (uc_datagram (cs_buf s) = [p]) as Hd by (unfold uc_datagram; by rewrite decide_False, Ha by done).
  pose proof (end_write _ HB (cs_wr s) p bin bout bcur ltac:(cbn; congruence) Hq) as Hw.
  rewrite Hd in Hf, Hcur. unfold post in Hw. cbn [fst snd p] in Hw.
  destruct (poll_proxy_stream_write _ a (cs_wr s)) as [r w']. cbn [fst snd] in Hw.
  specialize (Hw ltac:(naive_solver) HEB).
  destruct r as [n|e| |msg|]; try done; cycle 1.
  { destruct Hw as (cur' & Hcur' & HE). intros _. split; [|done]. exists ain, bout, cur'. cbn.
    split_and!; [|done..]. split; [apply Hh|]. rewrite Hd. split; [done|]. naive_solver. }
  case_decide as Hn0; [done|]. destruct Hw as [?|[-> HE]]; [done|]. cbn [p snd] in HE.
  unfold on_relay_buf, on_buf. rewrite st_zoom_bind. cbn [cs_buf cs_rd cs_wr advance UdpRelay.UdpRelayBuffer_CursoredBuffer].
  destruct (UdpRelay.advance_queue (E:=io_error) _ _ Hb (le_n (length (UdpRelay.queue (uc_buf (cs_buf s))))))
    as (b' & -> & Hb' & Hq'). rewrite drop_all in Hq'.
  st_simpl. cbn [cs_buf cs_rd cs_wr]. rewrite udp_write_out_drained by exact Hq'. intros _.
  split; [|by intros _]. exists ain, (bout ++ [p]), None. cbn. split_and!; [|done..].
  split; [|split; [rewrite uc_datagram_empty by exact Hq'; by rewrite app_nil_r|by left]].
  split_and!; [done..|]. cbn. by rewrite Ha.
Qed.

(** A read into the drained buffer adds a datagram, or nothing. *)
Lemma udp_read_step_packets inner_fuel s :
  UdpRelay.queue (uc_buf (cs_buf s)) = [] → packets s →
  post (udp_read_step inner_fuel) s (λ r s', tracked false r → packets s').
Proof.
  intros Hempty (ain & bout & bcur & ((Hb & Hn & Hq) & Hf & Hcur) & HEA & HEB).
  rewrite uc_datagram_empty, app_nil_r in Hf by done. assert (bcur = None) as ->.
  { destruct Hcur as [?|(p & Hp & _)]; [done|]. by rewrite uc_datagram_empty in Hp. }
  unfold post, udp_read_step, on_buf, on_reader. st_simpl.
  rewrite st_zoom_run. cbn [cs_rd cs_buf cs_wr uc_buf uc_set_buf].
  destruct (UdpRelay.wf_reset (uc_buf (cs_buf s))) as [Hbr Hqr].
  pose proof (end_read _ HA inner_fuel (cs_rd s) _ ain aout acur Hbr Hqr HEA) as Hr. unfold post in Hr.
  destruct (poll_proxy_stream_read inner_fuel (cs_rd s, UdpRelay.reset (uc_buf (cs_buf s))))
    as [res [r' b']] eqn:Er. cbn [fst snd] in *.
  destruct (udp_read_whole _ _ _ _ _ _ Hbr Hqr Er) as [Hb' Hres].
  set (c := uc_set_buf b' (uc_set_buf (UdpRelay.reset (uc_buf (cs_buf s))) (cs_buf s))).
  assert (∀ c', uc_buf c' = b' → uc_addr c' = uc_addr (cs_buf s) → UdpRelay.queue b' = [] →
    holds ain bout None c') as Hkeep.
  { intros c' Hb1 Ha1 Hq1. unfold holds, uc_wf. rewrite Hb1, Ha1, Hq1, uc_datagram_empty, app_nil_r by congruence.
    split_and!; [done..|by left]. }
  destruct res as [a|e| |msg|]; cbn -[uc_note_addr]; try done.
  - intros _. fold c. destruct (uc_note_addr_spec a c Hn) as [[-> ->]|[Ha ->]].
    { exists ain, bout, None. cbn. split_and!; [by apply Hkeep|done..]. }
    exists (ain ++ [(a, UdpRelay.queue b')]), bout, None. cbn. split_and!; [|by destruct a|done].
    split; [unfold uc_wf; cbn; split_and!; [done|congruence|by eexists]|].
    split; [|by left]. rewrite list.filter_app, Hf. f_equal. unfold uc_datagram, filter. cbn.
    unfold full. cbn. repeat case_decide; done.
  - unfold on_wr. st_simpl. cbn [cs_buf uc_set_buf uc_need_flush].
    destruct (uc_need_flush (cs_buf s)).
    + rewrite st_bind_assoc, st_zoom_bind. cbn [cs_wr].
      pose proof (end_flush _ HB _ _ _ _ HEB) as Hw. unfold post in Hw.
      destruct (udp_poll_flush (cs_wr s)) as [[[]|e| |msg|] w']; try done; intros _;
        (exists ain, bout, None; cbn; split_and!; [by apply Hkeep|done|by apply Hw]).
    + intros _. exists ain, bout, None. cbn. split_and!; [by apply Hkeep|done..].
Qed.

Lemma udp_poll_copy_packets inner_fuel fuel s :
  packets s → post (udp_poll_copy inner_fuel fuel) s (λ r s', tracked false r → packets s' ∧
    (∀ n, r = Ok n → UdpRelay.queue (uc_buf (cs_buf s')) = [])).
Proof.
  revert s. induction fuel as [|fuel IH]; intros s Hs; [done|].
  cbn [udp_poll_copy]. apply post_bind, post_get, post_bind.
  eapply (post_mono _ _ (λ r s', tracked false r → packets s')).
  { case_match eqn:Hc; [|by intros _].
    apply andb_true_iff in Hc as [Hc _]. rewrite UdpRelay.has_remaining_queue in Hc.
    apply udp_read_step_packets; [|done].
    apply negb_true_iff, bool_decide_eq_false in Hc. by apply dec_stable. }
  intros r1 s1 Hr1. destruct r1 as [[]|e| |msg|]; try done; [|by split; [apply Hr1|]].
  apply post_bind. eapply post_mono.
  { unfold udp_write_all. apply post_bind, post_get. by apply udp_write_out_packets, Hr1. }
  intros r2 s2 Hr2. destruct r2 as [[]|e| |msg|]; try done; [|by split; [apply Hr2|]].
  destruct (Hr2 Logic.I) as (Hp & Hq). apply post_bind, post_get. case_match; [|by apply IH].
  destruct Hp as (ain & bout & bcur & Hh & HEA & HEB).
  unfold post, on_wr. rewrite st_zoom_bind. pose proof (end_flush _ HB _ _ _ _ HEB) as Hw. unfold post in Hw.
  destruct (udp_poll_flush (cs_wr s2)) as [[[]|e| |msg|] w']; cbn in Hw |- *; try done; intros _;
    (split; [exists ain, bout, bcur; split_and!; [done..|by apply Hw]|]); [intros _ _; by apply Hq|done].
Qed.

(** The same through the states of a transfer. *)
Definition passes (ins outs : list Datagram) (cur : option Datagram) (st : TransferState UdpCopyBuf) : Prop :=
  match st with
  | Running c => holds ins outs cur c
  | _ => filter full ins = outs ∧ cur = None
  end.

Definition transfers (t : TransferState UdpCopyBuf * A * B) : Prop := ∃ ain bout bcur,
  passes ain bout bcur t.1.1 ∧ EA ain aout acur t.1.2 ∧ EB bin bout bcur t.2.

Lemma transfer_loop_packets inner_fuel n fuel t :
  transfers t →
  post (transfer_loop (udp_poll_copy inner_fuel n) udp_poll_shutdown fuel) t (λ r t', tracked false r → transfers t').
Proof.
  revert t. induction fuel as [|fuel IH]; intros [[st a] b] (ain & bout & bcur & Hst & HEA & HEB);
    unfold post; cbn [transfer_loop]; [done|]. cbn [fst snd] in Hst, HEA, HEB. destruct st as [c|count|count].
  - assert (packets (mkCopySt c a b)) as Hp by (by exists ain, bout, bcur).
    pose proof (udp_poll_copy_packets inner_fuel n _ Hp) as Hc. unfold post in Hc.
    destruct (udp_poll_copy inner_fuel n (mkCopySt c a b)) as [r s']. cbn [fst snd] in *.
    destruct r as [k|e| |msg|]; try done.
    + destruct (Hc Logic.I) as ((ain' & bout' & bcur' & (Hwf & Hf & Hcur) & HEA' & HEB') & Hq).
      rewrite uc_datagram_empty, app_nil_r in Hf by (by eapply Hq).
      apply (IH (ShuttingDown k, cs_rd s', cs_wr s')). exists ain', bout', bcur'. cbn.
      split_and!; [done| |done..]. destruct Hcur as [?|(p & Hp' & _)]; [done|].
      by rewrite uc_datagram_empty in Hp' by (by eapply Hq).
    + intros _. by destruct (Hc Logic.I) as [Hp' _].
  - pose proof (end_shutdown _ HB _ _ _ _ HEB) as Hw. unfold post in Hw.
    destruct (udp_poll_shutdown b) as [[[]|e| |msg|] b']; cbn [fst snd] in *; try done.
    + apply (IH (Done count, a, b')). exists ain, bout, bcur. split_and!; [done..|by apply Hw].
    + intros _. exists ain, bout, bcur. split_and!; [done..|by apply Hw].
  - intros _. by exists ain, bout, bcur.
Qed.
End direction.

Lemma passes_length ins outs cur st :
  passes ins outs cur st → outs `prefix_of` filter full ins ∧ length (filter full ins) ≤ S (length outs).
Proof.
  destruct st as [c|n|n]; cbn; [|intros [-> _]; split; [done|lia]..].
  intros Hh. split; [|by apply (holds_length _ _ _ _ Hh)]. destruct Hh as (_ & -> & _). by apply prefix_app_r.
Qed.

(** ** Both directions *)
Section both.
Context {I O : Type} `{UdpReadOk I, !UdpWrite I, UdpReadOk O, !UdpWrite O}.
Context (EI : list Datagram → list Datagram → option Datagram → I → Prop) (HI : datagram_end EI).
Context (EO : list Datagram → list Datagram → option Datagram → O → Prop) (HO : datagram_end EO).

Definition carries (s : CopyBidirectional UdpCopyBuf I O) : Prop := ∃ iin iout icur oin oout ocur,
  EI iin iout icur (bi_i s) ∧ EO oin oout ocur (bi_o s) ∧
  passes iin oout ocur (bi_upload s) ∧ passes oin iout icur (bi_download s).

Lemma udp_bidi_packets inner_fuel n s :
  carries s → post (udp_bidi_poll inner_fuel n) s (λ r s', tracked false r → carries s').
Proof.
  intros (iin & iout & icur & oin & oout & ocur & HEI & HEO & Hup & Hdown).
  assert (transfers EI EO iout icur oin (bi_upload s, bi_i s, bi_o s)) as Ht by (by exists iin, oout, ocur).
  pose proof (transfer_loop_packets EI HI EO HO iout icur oin inner_fuel n 3 _ Ht) as HT1. unfold post in HT1.
  unfold post, udp_bidi_poll, bidi_poll, question, st_try, mbind, st_bind, on_upload, transfer_one_direction.
  destruct (transfer_loop _ _ _ _) as [ru [[st i] o]]. cbn [fst snd] in HT1.
  destruct ru as [u|e| |msg|]; cbn; try done;
    destruct (HT1 Logic.I) as (iin1 & oout1 & ocur1 & Hup1 & HEI1 & HEO1); cbn [fst snd] in *;
    unfold on_download, transfer_one_direction; cbn [bi_download bi_i bi_o];
    (assert (transfers EO EI oout1 ocur1 iin1 (bi_download s, o, i)) as Ht2 by (by exists oin, iout, icur));
    pose proof (transfer_loop_packets EO HO EI HI oout1 ocur1 iin1 inner_fuel n 3 _ Ht2) as HT2; unfold post in HT2;
    destruct (transfer_loop _ _ _ _) as [rd [[st2 o2] i2]]; cbn [fst snd] in HT2;
    destruct rd as [d|e| |msg|]; cbn; try done; intros _;
    destruct (HT2 Logic.I) as (oin2 & iout2 & icur2 & Hdown2 & HEO2 & HEI2);
    by exists iin1, iout2, icur2, oin2, oout1, ocur1.
Qed.
End both.

(** ** The wrapped outbound end *)
Lemma timedout_end {O : Type} `{UdpRead O, UdpWrite O} (E : list Datagram → list Datagram → option Datagram → O → Prop) :
  datagram_end E → datagram_end (λ ins outs cur (s : TimedoutIO O), E ins outs cur (ti_inner s)).
Proof.
  intros HE. split; [intros fuel s b ins outs cur Hb Hq Hs|intros s p ins outs cur Hn Hp Hc Hs
    |intros s ins outs cur Hs|intros s ins outs cur Hs]; unfold post.
  - rewrite timedout_udp_read_run.
    pose proof (end_read _ HE fuel (ti_inner s) b _ _ _ Hb Hq Hs) as Hr. unfold post in Hr.
    by destruct (poll_proxy_stream_read fuel (ti_inner s, b)) as [r [i' b']].
  - cbn [poll_proxy_stream_write TimedoutIO_UdpWrite]. rewrite poll_timeout_run. exact (end_write _ HE _ p _ _ _ Hn Hp Hc Hs).
  - cbn [udp_poll_flush TimedoutIO_UdpWrite]. rewrite ti_on_inner_run. by apply (end_flush _ HE).
  - cbn [udp_poll_shutdown TimedoutIO_UdpWrite]. rewrite ti_on_inner_run. by apply (end_shutdown _ HE).
Qed.

Lemma either_end `{UdpRead O1, UdpWrite O1, UdpRead O2, UdpWrite O2}
    (E1 : list Datagram → list Datagram → option Datagram → O1 → Prop)
    (E2 : list Datagram → list Datagram → option Datagram → O2 → Prop) :
  datagram_end E1 → datagram_end E2 →
  datagram_end (λ ins outs cur (o : EitherIO O1 O2),
    match o with EitherLeft io => E1 ins outs cur io | EitherRight io => E2 ins outs cur io end).
Proof.
  intros HE1 HE2. split; [intros fuel [io|io] b ins outs cur Hb Hq HE|intros [io|io] p ins outs cur Hn Hp Hc HE
    |intros [io|io] ins outs cur HE|intros [io|io] ins outs cur HE]; unfold post.
  - pose proof (end_read _ HE1 fuel io b _ _ _ Hb Hq HE) as Hr. unfold post in Hr.
    change (poll_proxy_stream_read fuel (EitherLeft io, b)) with
      (let '(r, (io', b')) := poll_proxy_stream_read fuel (io, b) in (r, (EitherLeft (IO1:=O1) (IO2:=O2) io', b'))).
    by destruct (poll_proxy_stream_read fuel (io, b)) as [r [i' b']].
  - pose proof (end_read _ HE2 fuel io b _ _ _ Hb Hq HE) as Hr. unfold post in Hr.
    change (poll_proxy_stream_read fuel (EitherRight io, b)) with
      (let '(r, (io', b')) := poll_proxy_stream_read fuel (io, b) in (r, (EitherRight (IO1:=O1) (IO2:=O2) io', b'))).
    by destruct (poll_proxy_stream_read fuel (io, b)) as [r [i' b']].
  - cbn [poll_proxy_stream_write EitherIO_UdpWrite]. rewrite either_dispatch_run. exact (end_write _ HE1 _ p _ _ _ Hn Hp Hc HE).
  - cbn [poll_proxy_stream_write EitherIO_UdpWrite]. rewrite either_dispatch_run. exact (end_write _ HE2 _ p _ _ _ Hn Hp Hc HE).
  - cbn [udp_poll_flush EitherIO_UdpWrite]. rewrite either_dispatch_run. by apply (end_flush _ HE1).
  - cbn [udp_poll_flush EitherIO_UdpWrite]. rewrite either_dispatch_run. by apply (end_flush _ HE2).
  - cbn [udp_poll_shutdown EitherIO_UdpWrite]. rewrite either_dispatch_run. by apply (end_shutdown _ HE1).
  - cbn [udp_poll_shutdown EitherIO_UdpWrite]. rewrite either_dispatch_run. by apply (end_shutdown _ HE2).
Qed.

Definition behind {O : Type} (E : list Datagram → list Datagram → option Datagram → O → Prop)
    (ins outs : list Datagram) (cur : option Datagram) (o : Out O) : Prop :=
  match o with EitherLeft io => E ins outs cur (ti_inner io) | EitherRight io => E ins outs cur io end.

Lemma behind_under {O : Type} E ins outs cur (o : Out O) : behind E ins outs cur o ↔ E ins outs cur (under o).
Proof. by destruct o. Qed.

(** ** The relay in the race *)
Section race.
Context {T X I O : Type} `{Sleep T, Signal X, UdpReadOk I, !UdpWrite I, UdpReadOk O, !UdpWrite O}.
Context (EI : list Datagram → list Datagram → option Datagram → I → Prop) (HI : datagram_end EI).
Context (EO : list Datagram → list Datagram → option Datagram → O → Prop) (HO : datagram_end EO).
Context (oc : bool) (inner_fuel fuel : nat).
Implicit Types s : Relay T X I O UdpCopyBuf.

Definition relay_carries s : Prop := carries EI (behind EO) (rl_bidi s).

Lemma udp_branch_packets b s :
  relay_carries s →
  post (poll_branch oc (udp_duplex inner_fuel fuel) b) s (λ r s', tracked false r → relay_carries s').
Proof.
  intros Hs. unfold post. destruct b; cbn [poll_branch].
  - rewrite st_zoom_run. cbn [fst snd]. unfold udp_duplex. rewrite st_bind_split.
    pose proof (udp_bidi_packets EI HI (behind EO) (either_end _ _ (timedout_end _ HO) HO)
      inner_fuel fuel (rl_bidi s) Hs) as Hb. unfold post in Hb.
    destruct (udp_bidi_poll inner_fuel fuel (rl_bidi s)) as [[[[u d] reason]|e| |msg|] b']; exact Hb.
  - unfold poll_timeout_branch. destruct (rl_monitor s) as [m|]; [|done].
    destruct (bi_o (rl_bidi s)) as [io|o] eqn:Eo; [|done].
    assert (∀ w m', relay_carries (mkRelay (set_outbound (EitherLeft (mkTimedoutIO (ti_inner io) (ti_created io) w))
      (rl_bidi s)) m' (rl_shutdown s))) as Hset.
    { intros w m'. destruct Hs as (iin & iout & icur & oin & oout & ocur & Hs). rewrite Eo in Hs.
      by exists iin, iout, icur, oin, oout, ocur. }
    destruct (monitor_poll oc (m, ti_shared io)) as [r [m' w]]. by destruct r; cbn; intros Ht.
  - destruct (try_recv (rl_shutdown s)) as [[] x]; intros _; exact Hs.
Qed.

Lemma udp_select_packets order s :
  relay_carries s →
  post (relay_udp oc inner_fuel fuel order) s (λ r s', tracked false r → relay_carries s').
Proof.
  unfold relay_udp. revert s. induction order as [|b order IH]; intros s Hs; cbn [select]; [by intros _|].
  apply post_bind, post_try. pose proof (udp_branch_packets b s Hs) as Hb. unfold post in Hb.
  destruct (poll_branch _ _ b s) as [r s']. cbn [fst snd] in *.
  destruct r as [reason|e| |msg|]; try done. apply IH. by apply Hb.
Qed.

Lemma udp_run_packets s s' :
  relay_carries s → rtc (select_pending oc (udp_duplex inner_fuel fuel)) s s' → relay_carries s'.
Proof.
  intros Hs. apply (rtc_ind_r relay_carries); [done|]. intros s1 s2 _ (order & _ & Hsel) IH.
  exact (post_run _ _ _ _ _ (udp_select_packets order s1 IH) Hsel Logic.I).
Qed.

(** What a relay carried, from the state of its two ends at its start. *)
Lemma relay_udp_packets a clock conn_id i (o : O) (sh : X) order s r s' :
  EI [] [] None i → EO [] [] None o →
  rtc (select_pending oc (udp_duplex inner_fuel fuel))
    (relay_start (T:=T) a clock (UdpCopyBuf_new conn_id) (UdpCopyBuf_new None) i o sh) s →
  relay_udp oc inner_fuel fuel order s = (r, s') → tracked false r → relay_carries s'.
Proof.
  intros Hi Ho Hrun Hpoll. apply udp_run_packets in Hrun.
  - exact (post_run _ _ _ _ _ (udp_select_packets order s Hrun) Hpoll).
  - assert (∀ id, holds [] [] None (UdpCopyBuf_new id)) as Hnew
      by (intros id; split; [apply uc_new_wf|]; by split; [|left]).
    unfold relay_start. destruct (ad_timeout a) as [t|].
    + rewrite monitored_run. exists [], [], None, [], [], None. by split_and!; try apply Hnew.
    + exists [], [], None, [], [], None. by split_and!; try apply Hnew.
Qed.
End race.
