(* ===== verification/LiteTls.v ===== *)
(** Lite TLS: leaving the outer TLS tunnel once an inner TLS handshake is over.

    [TlsRelayBuffer] and [Seen0x17] of src/src/utils/lite_tls/tls_relay_buffer.rs,
    [LiteTlsStream] of src/src/utils/lite_tls/lite_tls_stream.rs, and the way
    src/src/server/utils/lite_tls.rs and src/src/client/utils/data_transfer.rs use
    them. The streams are any streams; [Pending] is the state of an async function
    suspended at an await that nothing completes. *)
From stdpp Require Import relations.
From S2P Require Import Prelude Vec Io.

(** ** Data *)
Inductive LeaveTlsMode : Type := Active | Passive.
Inductive Direction : Type := Inbound | Outbound.
Inductive LiteTlsEndpointSide : Type := ClientSide | ServerSide.
Inductive Seen0x17 : Type := SeenNone | FromInbound | FromOutbound | BothDirections.

#[export] Instance LeaveTlsMode_eq_dec : EqDecision LeaveTlsMode.
Proof. solve_decision. Defined.
#[export] Instance Direction_eq_dec : EqDecision Direction.
Proof. solve_decision. Defined.
#[export] Instance Seen0x17_eq_dec : EqDecision Seen0x17.
Proof. solve_decision. Defined.

Definition LEAVE_TLS_COMMAND : list Z := [0xff; 0x03; 0x03; 0; 0x01; 0x01]%Z.

(** [anyhow::Error] as the handshake makes it; [eof_err] is an I/O error of kind
    [UnexpectedEof], [Elapsed] the error of [timeout]. *)
Inductive tls_error : Type :=
| TlsParser (e : ParserError)
| TlsIo (e : io_error)
| Elapsed.

Definition eof_err : tls_error := TlsIo UnexpectedEof.

(** ** [Seen0x17] *)
Definition witness {E} (dir : Direction) (s : Seen0x17) : outcome E Seen0x17 :=
  match s, dir with
  | SeenNone, Inbound => Ok FromInbound
  | SeenNone, Outbound => Ok FromOutbound
  | FromInbound, Outbound | FromOutbound, Inbound => Ok BothDirections
  | BothDirections, _ => Panic "internal error: entered unreachable code"
  | _, _ => Ok s
  end.

Definition is_complete (s : Seen0x17) : bool :=
  match s with BothDirections => true | _ => false end.

(** ** [TlsRelayBuffer] *)
Record TlsRelayBuffer := mkTlsBuf { tb_inner : Vec; tb_cursor : nat }.

(** [extract_len(&buf[at..])]. *)
Definition extract_len {E} (buf : list Z) (at_ : nat) : outcome E nat :=
  hi ← index buf at_;
  lo ← index buf (at_ + 1);
  mret (Z.to_nat hi * 256 + Z.to_nat lo).

Module TlsBuf.
Definition new : TlsRelayBuffer := mkTlsBuf (vec_with_capacity 2048) 0.
Definition data (b : TlsRelayBuffer) : list Z := vdata (tb_inner b).
Definition len (b : TlsRelayBuffer) : nat := vec_len (tb_inner b).
Definition reset (b : TlsRelayBuffer) : TlsRelayBuffer := mkTlsBuf (vec_set_len 0 (tb_inner b)) 0.
Definition set_cursor (c : nat) (b : TlsRelayBuffer) : TlsRelayBuffer := mkTlsBuf (tb_inner b) c.

Definition checked_packets (b : TlsRelayBuffer) : list Z :=
  if decide (tb_cursor b < len b) then take (tb_cursor b) (data b) else data b.

Definition pop_checked_packets {E} : ST TlsRelayBuffer E unit :=
  b ← st_get;
  let new_len := len b - Nat.min (tb_cursor b) (len b) in
  l ← st_lift (copy_down (tb_cursor b) new_len (data b));
  st_put (mkTlsBuf (vec_set_len new_len (mkVec l (vcap (tb_inner b))))
    (tb_cursor b - (len b - new_len))).

Definition check_client_hello : ST TlsRelayBuffer ParserError unit :=
  b ← st_get;
  st_lift (expect_buf_len (data b) 5 "client hello incomplete[1]");;
  head ← st_lift (slice (data b) 0 3);
  if decide (head ≠ [0x16; 0x03; 0x01]%Z) then throw (Invalid "not tls 1.2/1.3[1]") else
  n ← st_lift (extract_len (data b) 3);
  st_modify (set_cursor (5 + n));;
  if decide (5 + n ≠ len b) then throw (Invalid "not tls 1.2/1.3[2]") else mret tt.

Definition check_tls_packet : ST TlsRelayBuffer ParserError Z :=
  b ← st_get;
  st_lift (expect_buf_len (data b) (tb_cursor b + 5) "packet 0x16 (or sth) incomplete[1]");;
  packet_type ← st_lift (index (data b) (tb_cursor b));
  n ← st_lift (extract_len (data b) (tb_cursor b + 3));
  let cursor := tb_cursor b + (5 + n) in
  st_modify (set_cursor cursor);;
  st_lift (expect_buf_len (data b) cursor "packet 0x16 (or sth) incomplete[2]");;
  mret packet_type.

Definition drop_0xff : ST TlsRelayBuffer tls_error unit :=
  b ← st_get;
  if decide (len b ≤ tb_cursor b) then
    throw (TlsParser (Invalid "wants to drop 0xff but found nothing to drop"))
  else if decide (tb_cursor b + 6 < len b) then
    throw (TlsParser (Invalid "wants to drop 0xff but it seems to be incomplete"))
  else if decide (len b < tb_cursor b + 6) then
    throw (TlsParser (Invalid "wants to drop 0xff but there seems to be packets after 0xff"))
  else st_put (mkTlsBuf (vec_set_len (tb_cursor b) (tb_inner b)) (tb_cursor b)).

Definition on_buf {E A} (m : ST TlsRelayBuffer E A) : ST (TlsRelayBuffer * Seen0x17) E A :=
  st_zoom fst (λ b p, (b, p.2)) m.

(** The loop of [find_key_packets]. *)
Fixpoint find_loop (fuel : nat) (dir : Direction)
    : ST (TlsRelayBuffer * Seen0x17) ParserError LeaveTlsMode :=
  match fuel with
  | 0 => st_lift OutOfFuel
  | S fuel' =>
      '(b, seen) ← st_get;
      st_lift (expect_buf_len (data b) (tb_cursor b + 1) "find 0x17 incomplete");;
      t ← st_lift (index (data b) (tb_cursor b));
      if decide (t = 0x17)%Z then
        seen' ← st_lift (witness dir seen);
        st_put (b, seen');;
        if is_complete seen' then mret Active
        else on_buf check_tls_packet;; find_loop fuel' dir
      else if decide (t = 0xff)%Z then mret Passive
      else if decide (t = 0x15 ∨ t = 0x16 ∨ t = 0x14)%Z then
        on_buf check_tls_packet;; find_loop fuel' dir
      else throw (Invalid "unexpected tls packet type")
  end.

(** Every pass moves the cursor by at least 5. *)
Definition find_key_packets (dir : Direction)
    : ST (TlsRelayBuffer * Seen0x17) ParserError LeaveTlsMode :=
  '(b, _) ← st_get;
  find_loop (S (len b)) dir.
End TlsBuf.

(** *** Relaying through the buffer *)
Record PipeSt (R W : Type) := mkPipe { pp_buf : TlsRelayBuffer; pp_rd : R; pp_wr : W }.
Arguments mkPipe {R W}.
Arguments pp_buf {R W}.
Arguments pp_rd {R W}.
Arguments pp_wr {R W}.

Section pipe.
Context {R W : Type} `{AsyncRead R, AsyncWrite W}.
Abbreviation Pipe := (PipeSt R W).

Definition pp_on_buf {E A} (m : ST TlsRelayBuffer E A) : ST Pipe E A :=
  st_zoom pp_buf (λ b s, mkPipe b (pp_rd s) (pp_wr s)) m.
Definition pp_on_rd {A} (m : ST R io_error A) : ST Pipe tls_error A :=
  st_map_err TlsIo (st_zoom pp_rd (λ r s, mkPipe (pp_buf s) r (pp_wr s)) m).
Definition pp_on_wr {A} (m : ST W io_error A) : ST Pipe tls_error A :=
  st_map_err TlsIo (st_zoom pp_wr (λ w s, mkPipe (pp_buf s) (pp_rd s) w) m).

(** [reader.read_buf(self.deref_mut())]. *)
Definition fill_buf (bs : list Z) (b : TlsRelayBuffer) : TlsRelayBuffer :=
  mkTlsBuf (vec_filled bs (tb_inner b)) (tb_cursor b).

Definition read_buf : ST Pipe tls_error nat :=
  pp_on_buf (st_modify (fill_buf []));;
  s ← st_get;
  bs ← pp_on_rd (poll_read (vec_room (tb_inner (pp_buf s))));
  pp_on_buf (st_modify (fill_buf bs));;
  mret (length bs).

(** [read_buf(..).await? == 0] is an end of file. *)
Definition read_some : ST Pipe tls_error unit :=
  n ← read_buf;
  if decide (n = 0) then throw eof_err else mret tt.

(** [flush_checked], and the two halves of [LiteTlsStream::relay_pending]. *)
Definition flush_checked : ST Pipe tls_error unit :=
  s ← st_get;
  let checked := TlsBuf.checked_packets (pp_buf s) in
  if decide (0 < length checked) then
    n ← pp_on_wr (poll_write checked);
    if decide (n = 0) then throw eof_err else
    pp_on_wr poll_flush;;
    pp_on_buf TlsBuf.pop_checked_packets
  else mret tt.

(** [while self.inner.len() < self.cursor + 5 { .. }]. *)
Fixpoint need_header (fuel : nat) : ST Pipe tls_error unit :=
  s ← st_get;
  if decide (TlsBuf.len (pp_buf s) < tb_cursor (pp_buf s) + 5) then
    match fuel with
    | 0 => st_lift OutOfFuel
    | S fuel' =>
        flush_checked;;
        read_some;;
        need_header fuel'
    end
  else mret tt.

(** [while self.inner.len() < next { .. }]. *)
Fixpoint need_bytes (fuel next : nat) : ST Pipe tls_error unit :=
  s ← st_get;
  if decide (TlsBuf.len (pp_buf s) < next) then
    match fuel with
    | 0 => st_lift OutOfFuel
    | S fuel' => read_some;; need_bytes fuel' next
    end
  else mret tt.

(** [tls12_relay_until_0xff]; [fuel] bounds the passes and the reads of each. *)
Fixpoint relay_until_0xff (reads fuel : nat) : ST Pipe tls_error unit :=
  match fuel with
  | 0 => st_lift OutOfFuel
  | S fuel' =>
      need_header reads;;
      s ← st_get;
      t ← st_lift (index (TlsBuf.data (pp_buf s)) (tb_cursor (pp_buf s)));
      if decide (t = 0xff)%Z then
        flush_checked;;
        s ← st_get;
        n ← st_lift (extract_len (TlsBuf.data (pp_buf s)) (tb_cursor (pp_buf s) + 3));
        need_bytes reads (tb_cursor (pp_buf s) + 5 + n);;
        pp_on_buf (st_modify TlsBuf.reset)
      else
        s ← st_get;
        n ← st_lift (extract_len (TlsBuf.data (pp_buf s)) (tb_cursor (pp_buf s) + 3));
        pp_on_buf (st_modify (λ b, TlsBuf.set_cursor (tb_cursor b + (5 + n)) b));;
        relay_until_0xff reads fuel'
  end.
End pipe.

(** ** [LiteTlsStream] *)
Record LiteTlsStream := mkLite {
  inbound_buf : TlsRelayBuffer;
  outbound_buf : TlsRelayBuffer;
  received_0x17 : Seen0x17;
  lite_side : LiteTlsEndpointSide;
  lite_version : option LeaveTlsMode;
}.

Definition new_endpoint (side : LiteTlsEndpointSide) : LiteTlsStream :=
  mkLite TlsBuf.new TlsBuf.new SeenNone side None.
Definition new_client_endpoint : LiteTlsStream := new_endpoint ClientSide.
Definition new_server_endpoint : LiteTlsStream := new_endpoint ServerSide.

Definition other (d : Direction) : Direction :=
  match d with Inbound => Outbound | Outbound => Inbound end.

Definition buf_of (d : Direction) (l : LiteTlsStream) : TlsRelayBuffer :=
  match d with Inbound => inbound_buf l | Outbound => outbound_buf l end.
Definition set_buf_of (d : Direction) (b : TlsRelayBuffer) (l : LiteTlsStream) : LiteTlsStream :=
  match d with
  | Inbound => mkLite b (outbound_buf l) (received_0x17 l) (lite_side l) (lite_version l)
  | Outbound => mkLite (inbound_buf l) b (received_0x17 l) (lite_side l) (lite_version l)
  end.
Definition set_seen (s : Seen0x17) (l : LiteTlsStream) : LiteTlsStream :=
  mkLite (inbound_buf l) (outbound_buf l) s (lite_side l) (lite_version l).
Definition set_version (v : LeaveTlsMode) (l : LiteTlsStream) : LiteTlsStream :=
  mkLite (inbound_buf l) (outbound_buf l) (received_0x17 l) (lite_side l) (Some v).

(** [first_hand_buf!] and [second_hand_buf!], as directions: the code passes the
    stream of the same direction along with each. *)
Definition first_hand (side : LiteTlsEndpointSide) : Direction :=
  match side with ClientSide => Inbound | ServerSide => Outbound end.
Definition second_hand (side : LiteTlsEndpointSide) : Direction :=
  match side with ServerSide => Inbound | ClientSide => Outbound end.

(** The endpoint with its two streams. *)
Record HsSt (I O : Type) := mkHs { hs_lite : LiteTlsStream; hs_in : I; hs_out : O }.
Arguments mkHs {I O}.
Arguments hs_lite {I O}.
Arguments hs_in {I O}.
Arguments hs_out {I O}.

Section handshake.
Context {I O : Type} `{AsyncRead I, AsyncWrite I, AsyncRead O, AsyncWrite O}.
Abbreviation Hs := (HsSt I O).

Definition on_lite (f : LiteTlsStream → LiteTlsStream) : ST Hs tls_error unit :=
  st_modify (λ s, mkHs (f (hs_lite s)) (hs_in s) (hs_out s)).

(** Work on the buffer of direction [d], the stream it is read from and the other
    stream. *)
Definition with_pipe {A} (d : Direction)
    (m_in : ST (PipeSt I O) tls_error A) (m_out : ST (PipeSt O I) tls_error A) : ST Hs tls_error A :=
  match d with
  | Inbound =>
      st_zoom (λ s, mkPipe (inbound_buf (hs_lite s)) (hs_in s) (hs_out s))
        (λ p s, mkHs (set_buf_of Inbound (pp_buf p) (hs_lite s)) (pp_rd p) (pp_wr p)) m_in
  | Outbound =>
      st_zoom (λ s, mkPipe (outbound_buf (hs_lite s)) (hs_out s) (hs_in s))
        (λ p s, mkHs (set_buf_of Outbound (pp_buf p) (hs_lite s)) (pp_wr p) (pp_rd p)) m_out
  end.

Definition write_to (d : Direction) (b : list Z) : ST Hs tls_error nat :=
  with_pipe (other d) (pp_on_wr (poll_write b)) (pp_on_wr (poll_write b)).
Definition flush_to (d : Direction) : ST Hs tls_error unit :=
  with_pipe (other d) (pp_on_wr poll_flush) (pp_on_wr poll_flush).
Definition read_from (d : Direction) : ST Hs tls_error nat := with_pipe d read_buf read_buf.

(** [relay_pending(dir, outbound, inbound)]. *)
Definition relay_pending (d : Direction) : ST Hs tls_error unit :=
  with_pipe d flush_checked flush_checked.

Definition on_dir_buf {E A} (d : Direction) (m : ST TlsRelayBuffer E A) : ST Hs E A :=
  st_zoom (λ s, buf_of d (hs_lite s))
    (λ b s, mkHs (set_buf_of d b (hs_lite s)) (hs_in s) (hs_out s)) m.

(** The loop of [client_hello]. *)
Fixpoint client_hello (fuel : nat) : ST Hs tls_error unit :=
  match fuel with
  | 0 => st_lift OutOfFuel
  | S fuel' =>
      n ← read_from Inbound;
      if decide (n = 0) then throw eof_err else
      res ← st_try (on_dir_buf Inbound TlsBuf.check_client_hello);
      match res with
      | Ok _ => mret tt
      | Err (Incomplete _) => client_hello fuel'
      | Err e => throw (TlsParser e)
      | Pending => st_lift Pending
      | Panic msg => panic msg
      | OutOfFuel => st_lift OutOfFuel
      end
  end.

(** [handshake_tls12_active(first_hand_io, second_hand_io)]. *)
Definition handshake_tls12_active (reads fuel : nat) : ST Hs tls_error unit :=
  s ← st_get;
  let fd := first_hand (lite_side (hs_lite s)) in
  let sd := second_hand (lite_side (hs_lite s)) in
  let tmp := TlsBuf.checked_packets (buf_of fd (hs_lite s)) in
  on_dir_buf fd TlsBuf.pop_checked_packets;;
  n ← write_to sd (tmp ++ LEAVE_TLS_COMMAND);
  if decide (n = 0) then throw eof_err else
  flush_to sd;;
  with_pipe sd (relay_until_0xff reads fuel) (relay_until_0xff reads fuel);;
  on_lite (set_version Active).

(** [handshake_tls12_passive(second_hand_io)]. *)
Definition handshake_tls12_passive : ST Hs tls_error unit :=
  s ← st_get;
  let sd := second_hand (lite_side (hs_lite s)) in
  on_dir_buf sd TlsBuf.drop_0xff;;
  n ← write_to sd LEAVE_TLS_COMMAND;
  if decide (n = 0) then throw eof_err else
  flush_to sd;;
  on_lite (set_version Passive).

(** The [select!] over the two reads, polling direction [d] first. *)
Definition select_read (d : Direction) : ST Hs tls_error (nat * Direction) :=
  res ← st_try (read_from d);
  match res with
  | Pending => n ← read_from (other d); mret (n, other d)
  | _ => n ← st_lift res; mret (n, d)
  end.

Definition find_key_packets_of (d : Direction) : ST Hs ParserError LeaveTlsMode :=
  st_zoom (λ s, (buf_of d (hs_lite s), received_0x17 (hs_lite s)))
    (λ p s, mkHs (set_seen p.2 (set_buf_of d p.1 (hs_lite s))) (hs_in s) (hs_out s))
    (TlsBuf.find_key_packets d).

(** The loop of [handshake]; [sched] tells which direction each round polls
    first. *)
Fixpoint handshake_loop (reads : nat) (sched : nat → Direction) (fuel : nat) : ST Hs tls_error unit :=
  match fuel with
  | 0 => st_lift OutOfFuel
  | S fuel' =>
      '(res, dir) ← select_read (sched fuel);
      if decide (res = 0) then mret tt else
      found ← st_try (find_key_packets_of dir);
      match found with
      | Ok Active => handshake_tls12_active reads reads
      | Ok Passive => handshake_tls12_passive
      | Err (Incomplete _) =>
          relay_pending dir;;
          handshake_loop reads sched fuel'
      | Err e => throw (TlsParser e)
      | Pending => st_lift Pending
      | Panic msg => panic msg
      | OutOfFuel => st_lift OutOfFuel
      end
  end.

Definition handshake (reads : nat) (sched : nat → Direction) (fuel : nat) : ST Hs tls_error unit :=
  client_hello fuel;;
  s ← st_get;
  write_to Outbound (TlsBuf.data (inbound_buf (hs_lite s)));;
  flush_to Outbound;;
  on_dir_buf Inbound (st_modify TlsBuf.reset);;
  handshake_loop reads sched fuel.

(** [handshake_timeout]: a handshake that stays suspended elapses. *)
Definition handshake_timeout (reads : nat) (sched : nat → Direction) (fuel : nat) : ST Hs tls_error unit :=
  res ← st_try (handshake reads sched fuel);
  match res with
  | Pending => throw Elapsed
  | _ => st_lift res
  end.

(** [flush_non_tls]: what was read is passed on. *)
Definition flush_whole (d : Direction) : ST Hs tls_error unit :=
  s ← st_get;
  let data := TlsBuf.data (buf_of d (hs_lite s)) in
  if decide (0 < length data) then
    write_to (other d) data;;
    flush_to (other d);;
    on_dir_buf d (st_modify TlsBuf.reset)
  else mret tt.

Definition flush_non_tls : ST Hs tls_error unit := flush_whole Inbound;; flush_whole Outbound.

(** [flush_tls(first_hand_io, second_hand_io)], over the streams outside the
    tunnel. *)
Definition flush_tls : ST Hs tls_error unit :=
  s ← st_get;
  let fd := first_hand (lite_side (hs_lite s)) in
  let sd := second_hand (lite_side (hs_lite s)) in
  match lite_version (hs_lite s) with
  | Some Passive =>
      if decide (0 < TlsBuf.len (buf_of sd (hs_lite s))) then
        n ← read_from sd;
        if decide (n = 0) then throw eof_err else
        s ← st_get;
        write_to fd (TlsBuf.data (buf_of sd (hs_lite s)));;
        flush_to fd;;
        on_dir_buf sd (st_modify TlsBuf.reset)
      else mret tt
  | Some Active =>
      write_to sd (TlsBuf.data (buf_of fd (hs_lite s)));;
      flush_to sd;;
      on_dir_buf fd (st_modify TlsBuf.reset)
  | None => panic "internal error: entered unreachable code"
  end.
End handshake.

(** ** The callers *)

(** How a connection goes on after the handshake: not at all, by a relay of the
    streams outside the tunnel, or by a relay inside it. *)
Inductive Forward (I O TI TO : Type) : Type :=
| Closed
| RelayLite (i : TI) (o : TO)
| RelayTls (i : I) (o : O).
Arguments Closed {I O TI TO}.
Arguments RelayLite {I O TI TO}.
Arguments RelayTls {I O TI TO}.

(** [LeaveTls]: the socket under a stream. The TLS streams give theirs; the streams of
    a QUIC connection have none. *)
Class LeaveTls (I TI : Type) := leave : I → outcome tls_error TI.

#[export] Instance WRTuple_LeaveTls {SendStream RecvStream TI} : LeaveTls (WRTuple SendStream RecvStream) TI :=
  λ _, Panic "not implemented".

Section callers.
Context {I O TI TO : Type} `{AsyncRead I, AsyncWrite I, AsyncRead O, AsyncWrite O}.
Context `{AsyncRead TI, AsyncWrite TI, AsyncRead TO, AsyncWrite TO}.
Context (leave_in : I → outcome tls_error TI) (leave_out : O → outcome tls_error TO).
Context (reads : nat) (sched : nat → Direction) (fuel : nat).

(** What the server and the client share. [other_error] is what an error that is not
    [Invalid] does: the server drops the connection, the client reports it. *)
Definition forward_lite (side : LiteTlsEndpointSide) (other_error : tls_error → outcome tls_error (Forward I O TI TO))
    (inbound : I) (outbound : O) : outcome tls_error (Forward I O TI TO) :=
  let '(res, s) := handshake_timeout reads sched fuel (mkHs (new_endpoint side) inbound outbound) in
  match res with
  | Ok _ =>
      match lite_version (hs_lite s) with
      | None => Ok Closed
      | Some _ =>
          inbound ← leave_in (hs_in s);
          outbound ← leave_out (hs_out s);
          let '(res2, s2) := flush_tls (mkHs (hs_lite s) inbound outbound) in
          _ ← res2; mret (RelayLite (hs_in s2) (hs_out s2))
      end
  | Err (TlsParser (Invalid _)) =>
      let '(res2, s2) := flush_non_tls s in
      _ ← res2; mret (RelayTls (hs_in s2) (hs_out s2))
  | Err e => other_error e
  | Pending => Pending
  | Panic msg => Panic msg
  | OutOfFuel => OutOfFuel
  end.
End callers.

(** [TcpOption::forward] of the server, arm [LiteTLS]: the inbound stream is the
    tunnel, the outbound one the socket of the target. *)
Definition server_forward_lite {I O TI} `{AsyncRead I, AsyncWrite I, AsyncRead O, AsyncWrite O}
    `{AsyncRead TI, AsyncWrite TI, LeaveTls I TI} (reads : nat) (sched : nat → Direction) (fuel : nat)
    : BufferedRecv I → O → outcome tls_error (Forward (BufferedRecv I) O TI O) :=
  forward_lite (λ b, leave (BufferedRecv_into_inner b).1) Ok reads sched fuel ServerSide (λ _, Ok Closed).

(** [relay_tcp] of the client, arm [ClientServerConnection::LiteTLS]: the outbound
    stream is the tunnel, [into_inner] the socket under it. *)
Definition client_forward_lite {I O TO} `{AsyncRead I, AsyncWrite I, AsyncRead O, AsyncWrite O}
    `{AsyncRead TO, AsyncWrite TO} (into_inner : O → TO) (reads : nat) (sched : nat → Direction) (fuel : nat)
    : BufferedRecv I → O → outcome tls_error (Forward (BufferedRecv I) O I TO) :=
  forward_lite (λ b, Ok (BufferedRecv_into_inner b).1) (λ o, Ok (into_inner o)) reads sched fuel ClientSide Err.

(** ** Records *)

(** The length field of the record at [k]. *)
Definition record_len (T : list Z) (k : nat) : nat :=
  Z.to_nat (nth (k + 3) T 0%Z) * 256 + Z.to_nat (nth (k + 4) T 0%Z).

(** [k] ends a sequence of records at the front of the stream [T]: [T] holds the
    header of each, the body of the last may still be missing. *)
Inductive aligned (T : list Z) : nat → Prop :=
| al_start : aligned T 0
| al_record k : aligned T k → k + 5 ≤ length T → aligned T (k + (5 + record_len T k)).

(** A record and a sequence of them. *)
Definition is_record (r : list Z) : Prop := 5 ≤ length r ∧ length r = 5 + record_len r 0.

Lemma record_len_app T more k : k + 5 ≤ length T → record_len (T ++ more) k = record_len T k.
Proof. intros Hk. unfold record_len. by rewrite !app_nth1 by lia. Qed.

Lemma record_len_drop T k n : record_len (drop k T) n = record_len T (k + n).
Proof.
  assert (∀ j, nth j (drop k T) 0%Z = nth (k + j) T 0%Z) as Hn.
  { intros j. rewrite !nth_lookup, lookup_drop. done. }
  unfold record_len. by rewrite !Hn, !Nat.add_assoc.
Qed.

Lemma record_len_take T k n : k + 5 ≤ n → record_len (take n T) k = record_len T k.
Proof. intros Hk. unfold record_len. by rewrite !nth_lookup, !lookup_take_lt by lia. Qed.

Lemma aligned_app T more k : aligned T k → aligned (T ++ more) k.
Proof.
  induction 1 as [|k Ha IH Hk]; [constructor|]. rewrite <- (record_len_app T more) by done.
  constructor; [done|]. rewrite length_app. lia.
Qed.

(** Up to an end that has arrived, the stream is a sequence of whole records. *)
Lemma aligned_records T k :
  aligned T k → k ≤ length T → ∃ recs, Forall is_record recs ∧ take k T = concat recs.
Proof.
  induction 1 as [|k Ha IH Hk]; intros Hlen; [by exists []|].
  destruct IH as (recs & Hrecs & Htake); [lia|].
  exists (recs ++ [take (5 + record_len T k) (drop k T)]). split.
  - apply Forall_app. split; [done|]. apply Forall_singleton.
    assert (length (take (5 + record_len T k) (drop k T)) = 5 + record_len T k) as Hl
      by (rewrite length_take, length_drop; lia).
    split; [lia|]. rewrite Hl, record_len_take, record_len_drop by lia. by rewrite Nat.add_0_r.
  - rewrite concat_app. cbn [concat]. rewrite app_nil_r, <- Htake.
    symmetry. apply take_take_drop.
Qed.

(** ** The buffer *)
Module TlsBufLemmas.
Import TlsBuf.
Implicit Types b : TlsRelayBuffer.

Definition wf b : Prop := vec_wf (tb_inner b).

(** The bytes of a stream [T] of which [P] were passed on are in the buffer, and
    the cursor is at the end of a record. *)
Definition buf_ok (T P : list Z) b : Prop :=
  wf b ∧ T = P ++ data b ∧ aligned T (length P + tb_cursor b).

Lemma len_data b : len b = length (data b).
Proof. done. Qed.

Lemma checked_take b : checked_packets b = take (tb_cursor b) (data b).
Proof. unfold checked_packets, len, vec_len, data. case_decide; [done|]. by rewrite take_ge by lia. Qed.

Lemma reset_data b : data (reset b) = [] ∧ tb_cursor (reset b) = 0 ∧ wf (reset b).
Proof. unfold reset, wf, vec_wf, data, vec_len, vec_set_len. cbn. rewrite take_0. cbn. split_and!; [done..|lia]. Qed.

Lemma buf_ok_new : buf_ok [] [] new.
Proof. split_and!; [unfold wf, vec_wf, vec_len; cbn; lia|done|constructor]. Qed.

Lemma pop_run {E} b :
  wf b → ∃ b', pop_checked_packets (E:=E) b = (Ok tt, b') ∧ wf b' ∧
    data b' = drop (tb_cursor b) (data b) ∧ tb_cursor b' = tb_cursor b - len b.
Proof.
  intros Hwf. unfold pop_checked_packets. st_simpl. unfold len, vec_len, data.
  set (l := vdata (tb_inner b)). set (c := tb_cursor b).
  destruct (decide (c ≤ length l)) as [Hc|Hc].
  - rewrite Nat.min_l by done.
    destruct (copy_down_all (E:=E) c l Hc) as (l' & -> & Ht). st_simpl. eexists. split; [done|].
    unfold wf, vec_wf, vec_len, vec_set_len in *. cbn. fold l in Hwf. rewrite Ht, length_drop.
    split_and!; [lia|done|]. lia.
  - rewrite Nat.min_r, Nat.sub_diag by lia. change (copy_down c 0 l) with (Ok (E:=E) l). st_simpl.
    eexists. split; [done|]. unfold wf, vec_wf, vec_len, vec_set_len in *. cbn. 
    rewrite take_0. split_and!; [cbn; lia|by rewrite drop_ge by lia|lia].
Qed.

Lemma pop_buf_ok {E} T P b :
  buf_ok T P b → ∃ b', pop_checked_packets (E:=E) b = (Ok tt, b') ∧
    buf_ok T (P ++ checked_packets b) b' ∧ tb_cursor b' = tb_cursor b - len b ∧
    data b' = drop (tb_cursor b) (data b).
Proof.
  intros (Hwf & HT & Ha). destruct (pop_run (E:=E) b Hwf) as (b' & Hp & Hwf' & Hd & Hc).
  exists b'. split; [done|]. split; [|done]. rewrite checked_take. split_and!; [done| |].
  - by rewrite <- app_assoc, Hd, take_drop.
  - rewrite Hc, length_app, length_take. unfold len, vec_len, data in *.
    replace (length P + Nat.min (tb_cursor b) (length (vdata (tb_inner b))) +
      (tb_cursor b - length (vdata (tb_inner b)))) with (length P + tb_cursor b) by lia. done.
Qed.

(** Bytes read into the buffer. *)
Lemma fill_buf_ok T P b bs :
  buf_ok T P b → length bs ≤ vec_room (tb_inner b) → buf_ok (T ++ bs) P (fill_buf bs b).
Proof.
  intros (Hwf & -> & Ha) Hbs. unfold fill_buf. split_and!.
  - by apply vec_filled_wf.
  - unfold data. cbn. by rewrite vec_chunk_mut_data, app_assoc.
  - cbn. by apply aligned_app.
Qed.

Lemma extract_len_record {E} b T P at_ :
  T = P ++ data b → at_ + 5 ≤ len b →
  extract_len (E:=E) (data b) (at_ + 3) = Ok (record_len T (length P + at_)).
Proof.
  intros HT Hl. unfold extract_len, record_len. unfold len, vec_len in Hl. fold (data b) in Hl.
  assert (∀ j, j < length (data b) →
    index (E:=E) (data b) j = Ok (nth (length P + j) T 0%Z)) as Hi.
  { intros j Hj. destruct (lookup_lt_is_Some_2 (data b) j Hj) as [x Hx].
    rewrite (index_Ok _ _ x Hx), HT, app_nth2 by lia.
    by rewrite Nat.add_comm, Nat.add_sub, (nth_lookup_Some _ _ _ _ Hx). }
  rewrite (Hi (at_ + 3)) by lia. cbn. rewrite (Hi (at_ + 3 + 1)) by lia. cbn.
  by rewrite !Nat.add_assoc, <- (Nat.add_assoc (length P + at_) 3 1).
Qed.

(** *** Finding the key packets *)
Lemma check_tls_packet_spec T P b :
  buf_ok T P b → tb_cursor b < len b →
  post check_tls_packet b (λ r b', tb_inner b' = tb_inner b ∧ buf_ok T P b' ∧
    match r with
    | Ok t => data b !! tb_cursor b = Some t ∧ tb_cursor b + 5 ≤ tb_cursor b' ∧ tb_cursor b' ≤ len b
    | Err (Incomplete _) => len b' < tb_cursor b' + 5
    | _ => False
    end).
Proof.
  intros (Hwf & HT & Ha) Hc. unfold post, check_tls_packet. st_simpl.
  destruct (decide (length (data b) < tb_cursor b + 5)) as [Hs|Hs].
  { rewrite expect_buf_len_Err by done. rewrite st_lift_Err_bind.
    split; [done|]. split; [done|]. cbn [fst snd]. rewrite len_data. lia. }
  rewrite expect_buf_len_Ok by lia. st_simpl.
  destruct (lookup_lt_is_Some_2 (data b) (tb_cursor b)) as [t Ht]; [unfold len, vec_len in Hc; done|].
  rewrite (index_Ok _ _ t Ht). st_simpl.
  rewrite (extract_len_record b T P) by (done || (unfold len, vec_len; fold (data b); lia)). st_simpl.
  set (n := record_len T (length P + tb_cursor b)).
  assert (buf_ok T P (set_cursor (tb_cursor b + (5 + n)) b)) as Hok.
  { split_and!; [done..|]. cbn [tb_cursor set_cursor]. rewrite Nat.add_assoc. apply al_record; [done|].
    rewrite HT, length_app. lia. }
  destruct (decide (length (data b) < tb_cursor b + (5 + n))) as [Hs2|Hs2].
  - rewrite expect_buf_len_Err by done. rewrite st_lift_Err_bind.
    split; [done|]. split; [exact Hok|]. cbn [fst snd tb_cursor set_cursor]; rewrite len_data. change (data (set_cursor _ _)) with (data b). lia.
  - rewrite expect_buf_len_Ok by lia. st_simpl. cbn [fst snd].
    split; [done|]. split; [exact Hok|]. split; [exact Ht|]. split.
    + cbn. lia.
    + unfold len, vec_len. fold (data b). cbn. lia.
Qed.

(** What a search in the buffer [b] finds, and where it leaves the cursor. *)
Definition found_ok b (r : outcome ParserError LeaveTlsMode) (p : TlsRelayBuffer * Seen0x17) : Prop :=
  match r with
  | Ok Active => data b !! tb_cursor p.1 = Some 0x17%Z
  | Ok Passive => data b !! tb_cursor p.1 = Some 0xff%Z ∧ p.2 ≠ BothDirections
  | Err (Incomplete _) => p.2 ≠ BothDirections ∧ len b < tb_cursor p.1 + 5
  | Err (Invalid _) => p.2 ≠ BothDirections
  | _ => False
  end.

Lemma find_loop_spec fuel dir T P b seen :
  buf_ok T P b → seen ≠ BothDirections → len b < tb_cursor b + 5 * fuel →
  0 < fuel →
  post (find_loop fuel dir) (b, seen) (λ r p, tb_inner p.1 = tb_inner b ∧ buf_ok T P p.1 ∧
    found_ok b r p).
Proof.
  revert b seen. induction fuel as [|fuel IH]; intros b seen Hok Hseen Hfuel Hpos; [lia|].
  unfold post. cbn [find_loop]. st_simpl.
  destruct (decide (length (data b) < tb_cursor b + 1)) as [Hs|Hs].
  { rewrite expect_buf_len_Err by done. rewrite st_lift_Err_bind. cbn [fst snd].
    split; [done|]. split; [done|]. split; [done|]. rewrite len_data. cbn [fst snd]. lia. }
  rewrite expect_buf_len_Ok by lia. st_simpl.
  assert (tb_cursor b < len b) as Hc by (unfold len, vec_len; fold (data b); lia).
  destruct (lookup_lt_is_Some_2 (data b) (tb_cursor b)) as [t Ht]; [done|].
  rewrite (index_Ok _ _ t Ht). st_simpl.
  assert (∀ seen', seen' ≠ BothDirections →
    post (on_buf check_tls_packet;; find_loop fuel dir) (b, seen') (λ r p, tb_inner p.1 = tb_inner b ∧
      buf_ok T P p.1 ∧ found_ok b r p)) as Hnext.
  { intros seen' Hne. unfold post, on_buf. rewrite st_zoom_bind. cbn [fst snd].
    pose proof (check_tls_packet_spec T P b Hok Hc) as Hp. unfold post in Hp.
    destruct (check_tls_packet b) as [r b1]. cbn [fst snd] in Hp. destruct Hp as (Hi & Hok1 & Hr).
    assert (data b1 = data b) as Hd by (unfold data; by rewrite Hi).
    assert (len b1 = len b) as Hl by (unfold len; by rewrite Hi).
    destruct r as [t'|[]| | |]; try done.
    2:{ split; [done|]. split; [done|]. split; [done|]. by rewrite <- Hl. }
    destruct Hr as (_ & Hc1 & Hc2).
    destruct (decide (fuel = 0)) as [->|Hf]; [lia|].
    unfold found_ok. rewrite <- Hi, <- Hd, <- Hl. apply (IH b1 seen' Hok1 Hne); lia. }
  case_decide as H17.
  - subst t. destruct seen, dir; try done; cbn [witness]; st_simpl; cbn [is_complete];
      first [by apply Hnext | by cbn].
  - case_decide as Hff; [subst t; by cbn|]. case_decide; [by apply Hnext|]. by cbn.
Qed.

Lemma find_key_packets_spec dir T P b seen :
  buf_ok T P b → seen ≠ BothDirections →
  post (find_key_packets dir) (b, seen) (λ r p, tb_inner p.1 = tb_inner b ∧ buf_ok T P p.1 ∧
    found_ok b r p).
Proof.
  intros Hok Hseen. unfold post, find_key_packets. st_simpl.
  apply (find_loop_spec (S (len b)) dir T P b seen Hok Hseen); lia.
Qed.
End TlsBufLemmas.
