(* ===== verification/LiteTlsPipe.v ===== *)
(** Lite TLS, one direction: what relaying through a [TlsRelayBuffer] reads and
    writes.

    [T] is the stream read so far and [P] the part of it that was passed on
    ([TlsBufLemmas.buf_ok] of LiteTls.v); every operation on a pipe is specified by
    the bytes it adds to either. Passed on is what the writes that succeeded were
    handed ([write_handed]): the code calls [write], not [write_all], and what a short
    write leaves is lost. *)
From S2P Require Import Prelude Vec NetParser Io LiteTls.
Import TlsBuf TlsBufLemmas.

(** An exit through an I/O error, a suspension or a panic of a stream. *)
Definition io_fail {A} (r : outcome tls_error A) : Prop :=
  match r with
  | Err (TlsIo _) | Pending | Panic _ => True
  | _ => False
  end.

(** The stream [T] was passed on up to the record [0xff], which arrived whole and
    was dropped with whatever follows it. *)
Definition ends_in_0xff (T P : list Z) : Prop :=
  ∃ rest, T = P ++ rest ∧ rest !! 0 = Some 0xff%Z ∧ aligned T (length P) ∧
    5 + record_len T (length P) ≤ length rest.

Section pipe.
Context {R W : Type} `{AsyncReadOk R, AsyncWriteOk W}.
Abbreviation Pipe := (PipeSt R W).
Implicit Types (s : Pipe) (T P : list Z).

(** [piped m s F]: [m] run from [s] reads some bytes [ins] and hands some bytes
    [outs] to the writer that satisfy [F], with its outcome and the buffer it leaves. *)
Definition piped {A} (m : ST Pipe tls_error A) s
    (F : outcome tls_error A → TlsRelayBuffer → list Z → list Z → Prop) : Prop :=
  post m s (λ r s', ∃ ins outs, read_trace (pp_rd s) ins (pp_rd s') ∧
    (∃ took, write_handed (pp_wr s) outs took (pp_wr s')) ∧ F r (pp_buf s') ins outs).

(** What an early exit of the first part makes of the whole. *)
Definition early {A B} (r : outcome tls_error A) : outcome tls_error B :=
  match r with
  | Ok _ => Pending
  | Err e => Err e
  | Pending => Pending
  | Panic msg => Panic msg
  | OutOfFuel => OutOfFuel
  end.

Lemma piped_bind {A B} (m : ST Pipe tls_error A) (f : A → ST Pipe tls_error B) s F G :
  piped m s F →
  (∀ r s1 ins outs, F r (pp_buf s1) ins outs →
    match r with
    | Ok a => piped (f a) s1 (λ r2 b2 ins2 outs2, G r2 b2 (ins ++ ins2) (outs ++ outs2))
    | _ => G (early r) (pp_buf s1) ins outs
    end) → piped (m ≫= f) s G.
Proof.
  unfold piped, post, mbind, st_bind. destruct (m s) as [r s1]. cbn [fst snd].
  intros (ins & outs & Hr & Hw & HF) Hk. specialize (Hk r s1 ins outs HF).
  destruct r; cbn [early] in Hk; try by (exists ins, outs).
  destruct Hk as (ins2 & outs2 & Hr2 & [took2 Hw2] & HG). destruct Hw as [took Hw].
  exists (ins ++ ins2), (outs ++ outs2). split; [by eapply read_trace_trans|].
  split; [|done]. eexists. by eapply write_handed_trans.
Qed.

Lemma piped_mono {A} (m : ST Pipe tls_error A) s F G :
  piped m s F → (∀ r b ins outs, F r b ins outs → G r b ins outs) → piped m s G.
Proof. intros (ins & outs & Hr & Hw & HF) HFG. exists ins, outs. auto. Qed.

Lemma piped_pure {A} (r : outcome tls_error A) s F : F r (pp_buf s) [] [] → piped (st_lift r) s F.
Proof. exists [], []. split; [apply rt_refl|]. split; [exists []; apply wh_refl|done]. Qed.

Lemma piped_get {A} (f : Pipe → ST Pipe tls_error A) s F :
  piped (f s) s F → piped (st_get ≫= f) s F.
Proof. done. Qed.

Lemma piped_modify (f : TlsRelayBuffer → TlsRelayBuffer) s F :
  F (Ok tt) (f (pp_buf s)) [] [] → piped (pp_on_buf (st_modify f)) s F.
Proof. exists [], []. split; [apply rt_refl|]. split; [exists []; apply wh_refl|done]. Qed.

Lemma pp_on_rd_spec room s :
  piped (pp_on_rd (poll_read room)) s (λ r b ins outs, b = pp_buf s ∧ outs = [] ∧
    match r with Ok bs => ins = bs ∧ length bs ≤ room | _ => ins = [] ∧ io_fail r end).
Proof.
  exists (bytes_read (poll_read room (pp_rd s)).1), [].
  unfold pp_on_rd, st_map_err, st_zoom. pose proof (read_fits_fst room (pp_rd s)) as Hf.
  pose proof (poll_read_returns room (pp_rd s)) as Hn. pose proof (read_trace_1 room (pp_rd s)) as Ht.
  destruct (poll_read room (pp_rd s)) as [[] r']; cbn in *; naive_solver eauto using wh_refl.
Qed.

Lemma pp_on_wr_spec b s :
  piped (pp_on_wr (poll_write b)) s (λ r b' ins outs, b' = pp_buf s ∧ ins = [] ∧
    match r with Ok n => outs = b ∧ n ≤ length b | _ => io_fail r end).
Proof.
  exists [], (bytes_handed b (poll_write b (pp_wr s)).1).
  unfold pp_on_wr, st_map_err, st_zoom. pose proof (poll_write_fits b (pp_wr s)) as Hf.
  pose proof (poll_write_returns b (pp_wr s)) as Hn. pose proof (write_handed_1 b (pp_wr s)) as Ht.
  destruct (poll_write b (pp_wr s)) as [[n| | | |] w']; cbn in *; naive_solver eauto using rt_refl.
Qed.

Lemma pp_flush_spec s :
  piped (pp_on_wr poll_flush) s (λ r b' ins outs, b' = pp_buf s ∧ ins = [] ∧ outs = [] ∧
    match r with Ok _ => True | _ => io_fail r end).
Proof.
  exists [], []. unfold pp_on_wr, st_map_err, st_zoom.
  pose proof (poll_flush_returns (pp_wr s)) as Hn. pose proof (write_handed_flush (pp_wr s)) as Ht.
  destruct (poll_flush (pp_wr s)) as [[] w']; cbn in *;
    naive_solver eauto using rt_refl.
Qed.

(** *** Reading *)
Lemma fill_buf_nil T P b : buf_ok T P b → buf_ok T P (fill_buf [] b).
Proof. intros Hok. rewrite <- (app_nil_r T). apply fill_buf_ok; [done|cbn; lia]. Qed.

Lemma data_fill bs b : data (fill_buf bs b) = data b ++ bs.
Proof. unfold data, fill_buf. cbn. by rewrite vec_chunk_mut_data. Qed.

Lemma read_buf_bytes s :
  piped read_buf s (λ r b ins outs, outs = [] ∧
    (∀ T P, buf_ok T P (pp_buf s) → buf_ok (T ++ ins) P b) ∧
    data b = data (pp_buf s) ++ ins ∧ tb_cursor b = tb_cursor (pp_buf s) ∧
    match r with Ok n => n = length ins | _ => ins = [] ∧ io_fail r end).
Proof.
  unfold read_buf.
  eapply piped_bind; [apply (piped_modify _ _ (λ r b ins outs, r = Ok tt ∧ ins = [] ∧ outs = [] ∧
    b = fill_buf [] (pp_buf s))); done|].
  intros r s1 ? ? (-> & -> & -> & Hb). cbn [app]. apply piped_get.
  assert (∀ T P, buf_ok T P (pp_buf s) → buf_ok T P (pp_buf s1)) as Hok1
    by (intros; rewrite Hb; by apply fill_buf_nil).
  assert (data (pp_buf s1) = data (pp_buf s)) as Hd by (by rewrite Hb, data_fill, app_nil_r).
  assert (tb_cursor (pp_buf s1) = tb_cursor (pp_buf s)) as Hc by (by rewrite Hb).
  eapply piped_bind; [apply pp_on_rd_spec|]. intros r s2 ins ? (Hb2 & -> & Hr). cbn [app].
  destruct r as [bs| | | |]; cbn [early].
  2-5: destruct Hr as [-> Hr]; rewrite Hb2, app_nil_r; (split; [done|]);
    (split; [intros; rewrite app_nil_r; auto|]); by split.
  destruct Hr as [-> Hfit].
  eapply piped_bind; [apply (piped_modify _ _ (λ r b ins outs, r = Ok tt ∧ ins = [] ∧ outs = [] ∧
    b = fill_buf bs (pp_buf s2))); done|].
  intros r s3 ? ? (-> & -> & -> & Hb3). cbn [app]. apply piped_pure.
  rewrite Hb3, Hb2, !app_nil_r, data_fill, Hd. split; [done|].
  split; [intros; apply fill_buf_ok; auto|]. done.
Qed.

Lemma read_buf_spec T P s :
  buf_ok T P (pp_buf s) →
  piped read_buf s (λ r b ins outs, outs = [] ∧ buf_ok (T ++ ins) P b ∧
    data b = data (pp_buf s) ++ ins ∧ tb_cursor b = tb_cursor (pp_buf s) ∧
    match r with Ok n => n = length ins | _ => ins = [] ∧ io_fail r end).
Proof. intros Hok. eapply piped_mono; [apply read_buf_bytes|]. naive_solver. Qed.

Lemma read_some_spec T P s :
  buf_ok T P (pp_buf s) →
  piped read_some s (λ r b ins outs, outs = [] ∧
    match r with
    | Ok _ => 0 < length ins ∧ buf_ok (T ++ ins) P b ∧ data b = data (pp_buf s) ++ ins ∧
        tb_cursor b = tb_cursor (pp_buf s)
    | _ => io_fail r
    end).
Proof.
  intros Hok. unfold read_some. eapply piped_bind; [by apply read_buf_spec|].
  intros [n| | | |] s1 ins ? (-> & Hok1 & Hd & Hc & Hr); try by destruct Hr. subst n. cbn [app].
  case_decide; apply piped_pure; rewrite ?app_nil_r; [done|]. split; [done|]. split; [lia|done].
Qed.

(** *** Writing *)
Lemma flush_checked_spec T P s :
  buf_ok T P (pp_buf s) →
  piped flush_checked s (λ r b ins outs, ins = [] ∧
    match r with
    | Ok _ => outs = checked_packets (pp_buf s) ∧ buf_ok T (P ++ outs) b ∧
        tb_cursor b = tb_cursor (pp_buf s) - len (pp_buf s) ∧
        data b = drop (tb_cursor (pp_buf s)) (data (pp_buf s))
    | _ => io_fail r
    end).
Proof.
  intros Hok. unfold flush_checked. apply piped_get. case_decide as Hc.
  - eapply piped_bind; [apply pp_on_wr_spec|]. intros [n| | | |] s1 ? outs (Hb & -> & Hr); try done.
    destruct Hr as [-> _]. cbn [app]. case_decide; [by apply piped_pure|].
    eapply piped_bind; [apply pp_flush_spec|]. intros r s2 ? ? (Hb2 & -> & -> & Hr).
    destruct r as [[]| | | |]; try done. rewrite <- Hb, <- Hb2 in Hok |- *.
    destruct (pop_buf_ok (E:=tls_error) T P (pp_buf s2) Hok) as (b' & Hp & Hok' & Hcur & Hd).
    exists [], []. unfold pp_on_buf. rewrite st_zoom_run, Hp. cbn [fst snd pp_rd pp_wr pp_buf app].
    rewrite app_nil_r. split; [apply rt_refl|]. split; [exists []; apply wh_refl|done].
  - apply piped_pure. split; [done|]. destruct (checked_packets (pp_buf s)) as [|x l] eqn:E; [|cbn in Hc; lia].
    split; [done|]. rewrite app_nil_r. split; [done|]. rewrite checked_take in E. unfold len, vec_len.
    fold (data (pp_buf s)). destruct (tb_cursor (pp_buf s)) as [|c] eqn:Ec; [by rewrite drop_0|].
    destruct (data (pp_buf s)); [cbn; split; [lia|done]|done].
Qed.

(** *** The loops *)
Lemma need_header_spec fuel T P s :
  buf_ok T P (pp_buf s) →
  piped (need_header fuel) s (λ r b ins outs,
    match r with
    | Ok _ => buf_ok (T ++ ins) (P ++ outs) b ∧ tb_cursor b + 5 ≤ len b ∧
        length (P ++ outs) + tb_cursor b = length P + tb_cursor (pp_buf s)
    | OutOfFuel => fuel ≤ length ins
    | _ => io_fail r
    end).
Proof.
  revert T P s. induction fuel as [|fuel IH]; intros T P s Hok; cbn [need_header]; apply piped_get.
  - case_decide; apply piped_pure; [done|]. rewrite !app_nil_r. split; [done|]. lia.
  - case_decide; [|apply piped_pure; rewrite !app_nil_r; split; [done|]; lia].
    eapply piped_bind; [by apply flush_checked_spec|].
    intros [[]| | | |] s1 ? outs (-> & Hr); try done. destruct Hr as (Ho & Hok1 & Hc1 & Hd1). cbn [app].
    eapply piped_bind; [by apply read_some_spec|].
    intros [[]| | | |] s2 ins ? (-> & Hr); try done. destruct Hr as (Hpos & Hok2 & Hd2 & Hc2).
    eapply piped_mono; [by apply IH|]. intros r b ins2 outs2 Hr. cbn [app].
    destruct r as [[]| | | |]; try done; rewrite ?length_app; [|lia].
    rewrite <- !app_assoc in Hr. destruct Hr as (Hok3 & Hl & Hpos3).
    split; [done|]. split; [done|].
    rewrite !length_app in *. rewrite Ho in Hpos3 |- *. rewrite Hc2, Hc1 in Hpos3.
    rewrite checked_take, length_take in *. rewrite len_data in *. lia.
Qed.

Lemma need_bytes_spec fuel next T P s :
  buf_ok T P (pp_buf s) →
  piped (need_bytes fuel next) s (λ r b ins outs, outs = [] ∧
    match r with
    | Ok _ => buf_ok (T ++ ins) P b ∧ next ≤ len b ∧ data b = data (pp_buf s) ++ ins ∧
        tb_cursor b = tb_cursor (pp_buf s)
    | OutOfFuel => fuel ≤ length ins
    | _ => io_fail r
    end).
Proof.
  revert T s. induction fuel as [|fuel IH]; intros T s Hok; cbn [need_bytes]; apply piped_get.
  - case_decide; apply piped_pure; [done|]. rewrite !app_nil_r. split; [done|]. split; [done|]. by split; [lia|].
  - case_decide; [|apply piped_pure; rewrite !app_nil_r; split; [done|]; split; [done|]; by split; [lia|]].
    eapply piped_bind; [by apply read_some_spec|].
    intros [[]| | | |] s1 ins ? (-> & Hr); try done. destruct Hr as (Hpos & Hok1 & Hd1 & Hc1).
    eapply piped_mono; [by apply IH|]. intros r b ins2 outs2 (-> & Hr). cbn [app]. split; [done|].
    destruct r as [[]| | | |]; try done; rewrite ?length_app; [|lia].
    rewrite Hd1, Hc1, <- !app_assoc in Hr. done.
Qed.

(** [extract_len] of the header under the cursor. *)
Lemma extract_cursor {E} T P b :
  buf_ok T P b → tb_cursor b + 5 ≤ len b →
  extract_len (E:=E) (data b) (tb_cursor b + 3) = Ok (record_len T (length P + tb_cursor b)).
Proof. intros (_ & HT & _) Hc. by apply extract_len_record. Qed.

(** The record [0xff] under the cursor, everything before it passed on: the rest of
    it is awaited and dropped. *)
Lemma drop_0xff_record_spec reads T P s :
  buf_ok T P (pp_buf s) → tb_cursor (pp_buf s) = 0 → 5 ≤ len (pp_buf s) →
  data (pp_buf s) !! 0 = Some 0xff%Z →
  piped (s ← st_get;
      n ← st_lift (extract_len (data (pp_buf s)) (tb_cursor (pp_buf s) + 3));
      need_bytes reads (tb_cursor (pp_buf s) + 5 + n);;
      pp_on_buf (st_modify reset)) s
    (λ r b ins outs, outs = [] ∧
      match r with
      | Ok _ => ends_in_0xff (T ++ ins) P ∧ data b = [] ∧ tb_cursor b = 0
      | OutOfFuel => reads ≤ length ins
      | _ => io_fail r
      end).
Proof.
  intros Hok Hc Hl Hff. apply piped_get.
  rewrite (extract_cursor T P) by (done || lia). rewrite Hc, !Nat.add_0_r. cbn [plus].
  change (st_lift (Ok ?n) ≫= ?f) with (f n). cbn beta.
  eapply piped_bind; [by apply need_bytes_spec|].
  intros [[]| | | |] s1 ins ? (-> & Hr); try done. cbn [app]. apply piped_modify. rewrite app_nil_r.
  destruct Hr as ((_ & HT & Ha) & Hn & Hd & Hc1). split; [done|].
  destruct (reset_data (pp_buf s1)) as (-> & -> & _). split; [|done].
  exists (data (pp_buf s1)). split; [done|]. split; [rewrite Hd; by apply lookup_app_l_Some|].
  split; [by rewrite Hc1, Hc, Nat.add_0_r in Ha|]. rewrite len_data in Hn.
  rewrite record_len_app; [done|]. destruct Hok as (_ & -> & _). rewrite length_app. rewrite len_data in Hl. lia.
Qed.

Lemma relay_until_0xff_spec reads fuel T P s :
  buf_ok T P (pp_buf s) →
  piped (relay_until_0xff reads fuel) s (λ r b ins outs,
    match r with
    | Ok _ => ends_in_0xff (T ++ ins) (P ++ outs) ∧ data b = [] ∧ tb_cursor b = 0
    | OutOfFuel => reads ≤ length ins ∨ fuel = 0 ∨
        length P + tb_cursor (pp_buf s) + 5 * fuel ≤ length (T ++ ins)
    | _ => io_fail r
    end).
Proof.
  revert T P s. induction fuel as [|fuel IH]; intros T P s Hok; cbn [relay_until_0xff].
  { apply piped_pure. auto. }
  eapply piped_bind; [by apply need_header_spec|].
  intros [[]| | | |] s1 ins outs Hr; try done; [|by left].
  destruct Hr as (Hok1 & Hc1 & Hpos1). apply piped_get.
  destruct (lookup_lt_is_Some_2 (data (pp_buf s1)) (tb_cursor (pp_buf s1))) as [t Ht];
    [rewrite len_data in Hc1; lia|].
  rewrite (index_Ok _ _ t Ht). change (st_lift (Ok ?n) ≫= ?f) with (f n). cbn beta.
  case_decide as Hff.
  - eapply piped_bind; [by apply flush_checked_spec|].
    intros [[]| | | |] s2 ? outs2 (-> & Hr); try done. destruct Hr as (_ & Hok2 & Hc2 & Hd2).
    eapply piped_mono.
    { apply drop_0xff_record_spec; [done|lia| |].
      - rewrite len_data, Hd2, length_drop, <- len_data. lia.
      - by rewrite Hd2, lookup_drop, Nat.add_0_r, <- Hff. }
    intros r b ins3 ? (-> & Hr). rewrite !app_nil_r. cbn [app].
    destruct r as [[]| | | |]; try done.
    + by rewrite app_assoc, (app_assoc P).
    + left. rewrite length_app. lia.
  - apply piped_get. rewrite (extract_cursor (T ++ ins) (P ++ outs)) by done.
    change (st_lift (Ok ?n) ≫= ?f) with (f n). cbn beta.
    eapply piped_bind; [apply (piped_modify _ _ (λ r b i o, r = Ok tt ∧ i = [] ∧ o = [] ∧
      b = set_cursor (tb_cursor (pp_buf s1) +
        (5 + record_len (T ++ ins) (length (P ++ outs) + tb_cursor (pp_buf s1)))) (pp_buf s1))); done|].
    intros r s2 ? ? (-> & -> & -> & Hb). cbn [app].
    eapply piped_mono; [apply (IH (T ++ ins) (P ++ outs))|].
    + rewrite Hb. destruct Hok1 as (Hwf & HT & Ha). split; [done|]. split; [done|].
      cbn [tb_cursor set_cursor]. rewrite Nat.add_assoc. apply al_record; [done|].
      rewrite len_data in Hc1. rewrite HT, (length_app (P ++ outs)). lia.
    + intros r b ins3 outs3 Hr. cbn beta in Hr. rewrite <- !app_assoc in Hr.
      destruct r as [[]| | | |]; try done. rewrite Hb in Hr. cbn [tb_cursor set_cursor] in Hr.
      destruct Hok1 as (_ & HT & _). apply (f_equal length) in HT.
      rewrite len_data in Hc1. rewrite !length_app in *. lia.
Qed.
End pipe.
