(* ===== verification/LiteTlsHandshake.v ===== *)
(** Lite TLS, the endpoint: what the handshake and its callers read from and write
    to the two streams.

    [ins d] are the bytes read from the stream of direction [d]; [sent d] the bytes
    sent on in that direction: what the successful writes to the stream of the other
    one were handed ([io_handed]). The endpoint does not look at how much of it a write
    took; what the streams [took] is [sent] unless a write was short. *)
From S2P Require Import Prelude Vec NetParser Io LiteTls LiteTlsPipe.
Import TlsBuf TlsBufLemmas.

(** [bs] in direction [d], nothing in the other. *)
Definition in_dir (d : Direction) (bs : list Z) : Direction → list Z :=
  λ d', if decide (d' = d) then bs else [].

Lemma in_dir_eq d bs : in_dir d bs d = bs.
Proof. unfold in_dir. by rewrite decide_True. Qed.

Lemma in_dir_nil d d' : in_dir d [] d' = [].
Proof. unfold in_dir. by case_decide. Qed.

Lemma in_dir_other d bs : in_dir d bs (other d) = [].
Proof. by destruct d. Qed.

Lemma in_other_dir d bs : in_dir (other d) bs d = [].
Proof. by destruct d. Qed.

Lemma other_other d : other (other d) = d.
Proof. by destruct d. Qed.

Lemma other_ne d : other d ≠ d.
Proof. by destruct d. Qed.

Lemma second_hand_other side : second_hand side = other (first_hand side).
Proof. by destruct side. Qed.

Lemma buf_of_set d b l : buf_of d (set_buf_of d b l) = b.
Proof. by destruct d. Qed.

Lemma set_set_buf_of d b b' l : set_buf_of d b' (set_buf_of d b l) = set_buf_of d b' l.
Proof. by destruct d. Qed.

Lemma buf_of_set_other d b l : buf_of (other d) (set_buf_of d b l) = buf_of (other d) l.
Proof. by destruct d. Qed.

Lemma buf_of_seen d s l : buf_of d (set_seen s l) = buf_of d l.
Proof. by destruct d. Qed.

Lemma buf_of_version d v l : buf_of d (set_version v l) = buf_of d l.
Proof. by destruct d. Qed.

Lemma set_buf_of_frame d b l :
  received_0x17 (set_buf_of d b l) = received_0x17 l ∧ lite_side (set_buf_of d b l) = lite_side l ∧
  lite_version (set_buf_of d b l) = lite_version l.
Proof. by destruct d. Qed.

Create Rewrite HintDb lite.
#[export] Hint Rewrite in_dir_eq in_dir_nil in_dir_other in_other_dir other_other
  buf_of_set buf_of_set_other buf_of_seen buf_of_version @app_nil_r : lite.

(** ** The exits of the handshake *)
Section exits.
Implicit Types (l : LiteTlsStream) (T P : Direction → list Z).

(** A buffer between two rounds of the handshake: behind the cursor at most the start
    of a record's header is held, before it nothing. *)
Definition idle (b : TlsRelayBuffer) : Prop := len b < tb_cursor b + 5 ∧ (tb_cursor b = 0 ∨ data b = []).

(** Everything read in either direction was sent on or is in the buffer, whose
    cursor is at the end of a record. *)
Definition conserved l T P : Prop := ∀ d, buf_ok (T d) (P d) (buf_of d l).

(** After [LEAVE_TLS_COMMAND] was sent behind the bytes of the first hand: what the
    first hand holds back, and how the stream of the second hand ended. *)
Definition left_tunnel (v : LeaveTlsMode) l T P : Prop :=
  let fd := first_hand (lite_side l) in
  let sd := second_hand (lite_side l) in
  (∃ Q, P fd = Q ++ LEAVE_TLS_COMMAND ∧ buf_ok (T fd) Q (buf_of fd l)) ∧
  match v with
  | Active => ends_in_0xff (T sd) (P sd) ∧ data (buf_of sd l) = []
  | Passive => ∃ cmd, T sd = P sd ++ data (buf_of sd l) ++ cmd ∧ length cmd = 6 ∧
      cmd !! 0 = Some 0xff%Z ∧ aligned (T sd) (length (P sd ++ data (buf_of sd l))) ∧ idle (buf_of fd l)
  end.

Definition handshake_exit (bound : nat) (r : outcome tls_error unit) l T P : Prop :=
  match r with
  | Ok _ =>
      match lite_version l with
      | None => conserved l T P
      | Some v => left_tunnel v l T P
      end
  | Err (TlsParser (Invalid _)) => conserved l T P
  | Err (TlsIo _) | Pending | Panic _ => True
  | OutOfFuel => bound ≤ length (T Inbound) + length (T Outbound)
  | Err _ => False
  end.

#[export] Instance handshake_exit_proper bound r l :
  Proper (pointwise_relation _ (=) ==> pointwise_relation _ (=) ==> impl) (handshake_exit bound r l).
Proof.
  intros T T' HT P P' HP. unfold handshake_exit, left_tunnel, conserved, pointwise_relation in *.
  destruct r as [?|[[]| |]| | |]; try done; [destruct (lite_version l) as [[]|]|..];
    intros Hx; repeat setoid_rewrite <- HT; repeat setoid_rewrite <- HP; exact Hx.
Qed.

Lemma handshake_exit_mono bound bound' r l T P :
  handshake_exit bound r l T P → bound' ≤ bound → handshake_exit bound' r l T P.
Proof. destruct r as [?|[[]| |]| | |]; cbn; try done. lia. Qed.

(** Runs one after the other. *)
Lemma handshake_exit_app bound r l T P i o i2 o2 :
  handshake_exit bound r l (λ d, (T d ++ i d) ++ i2 d) (λ d, (P d ++ o d) ++ o2 d) →
  handshake_exit bound r l (λ d, T d ++ (i d ++ i2 d)) (λ d, P d ++ (o d ++ o2 d)).
Proof. apply handshake_exit_proper; intros d; by rewrite app_assoc. Qed.

Lemma conserved_set d b l T P i o :
  conserved l T P → buf_ok (T d ++ i) (P d ++ o) b →
  conserved (set_buf_of d b l) (λ d', T d' ++ in_dir d i d') (λ d', P d' ++ in_dir d o d').
Proof.
  intros Hc Hb d'. destruct (decide (d' = d)) as [->|Hne]; autorewrite with lite; [done|].
  assert (d' = other d) as -> by (destruct d, d'; done). autorewrite with lite. apply Hc.
Qed.

Lemma conserved_nil l T P :
  conserved l T P → conserved l (λ d, T d ++ []) (λ d, P d ++ []).
Proof. intros Hc d. rewrite !app_nil_r. apply Hc. Qed.

Lemma conserved_app l T P i o i2 o2 :
  conserved l (λ d, (T d ++ i d) ++ i2 d) (λ d, (P d ++ o d) ++ o2 d) →
  conserved l (λ d, T d ++ (i d ++ i2 d)) (λ d, P d ++ (o d ++ o2 d)).
Proof. intros Hc d. rewrite !app_assoc. apply Hc. Qed.

(** A round of the handshake leaves the side and the mode alone. *)
Definition same_mode l l' : Prop := lite_side l' = lite_side l ∧ lite_version l' = lite_version l.

(** The state between two rounds. *)
Definition between_rounds l T P : Prop :=
  conserved l T P ∧ (∀ d, idle (buf_of d l)) ∧
  received_0x17 l ≠ BothDirections ∧ lite_version l = None.
End exits.

(** *** Runs of the endpoint *)
Section runs.
Context {I O : Type} `{AsyncRead I, AsyncWrite I, AsyncRead O, AsyncWrite O}.
Context `{!AsyncReadOk I, !AsyncWriteOk I, !AsyncReadOk O, !AsyncWriteOk O}.
Abbreviation Hs := (HsSt I O).
Implicit Types (s : Hs) (l : LiteTlsStream) (ins sent : Direction → list Z).

Definition moved s s' ins sent : Prop := ∃ took : Direction → list Z,
  io_handed (hs_in s) (ins Inbound) (sent Outbound) (took Outbound) (hs_in s') ∧
  io_handed (hs_out s) (ins Outbound) (sent Inbound) (took Inbound) (hs_out s').

Definition relayed {E A} (m : ST Hs E A) s
    (F : outcome E A → LiteTlsStream → (Direction → list Z) → (Direction → list Z) → Prop) : Prop :=
  post m s (λ r s', ∃ ins sent, moved s s' ins sent ∧ F r (hs_lite s') ins sent).

Lemma moved_trans s s1 s2 ins sent ins2 sent2 :
  moved s s1 ins sent → moved s1 s2 ins2 sent2 →
  moved s s2 (λ d, ins d ++ ins2 d) (λ d, sent d ++ sent2 d).
Proof.
  intros (took & Hi & Ho) (took2 & Hi2 & Ho2). exists (λ d, took d ++ took2 d). split; by eapply io_handed_trans.
Qed.

Lemma relayed_bind {A B} (m : ST Hs tls_error A) (f : A → ST Hs tls_error B) s F G :
  relayed m s F →
  (∀ r s1 ins sent, F r (hs_lite s1) ins sent →
    match r with
    | Ok a => relayed (f a) s1 (λ r2 l ins2 sent2,
        G r2 l (λ d, ins d ++ ins2 d) (λ d, sent d ++ sent2 d))
    | _ => G (early r) (hs_lite s1) ins sent
    end) → relayed (m ≫= f) s G.
Proof.
  unfold relayed, post, mbind, st_bind. destruct (m s) as [r s1]. cbn [fst snd].
  intros (ins & sent & Hm & HF) Hk. specialize (Hk r s1 ins sent HF).
  destruct r; cbn [early] in Hk; try by (exists ins, sent).
  destruct Hk as (ins2 & sent2 & Hm2 & HG). eexists _, _. split; [|exact HG]. by eapply moved_trans.
Qed.

Lemma relayed_try {E E' A} (m : ST Hs E A) s F :
  relayed m s F → relayed (E:=E') (st_try m) s (λ r l ins sent, ∃ r0, r = Ok r0 ∧ F r0 l ins sent).
Proof.
  unfold relayed, post, st_try. destruct (m s) as [r s1]. cbn [fst snd].
  intros (ins & sent & Hm & HF). eauto 10.
Qed.

Lemma relayed_mono {E A} (m : ST Hs E A) s F G :
  relayed m s F → (∀ r l ins sent, F r l ins sent → G r l ins sent) → relayed m s G.
Proof. intros (ins & sent & Hm & HF) HFG. exists ins, sent. auto. Qed.

Lemma moved_refl s s' : hs_in s' = hs_in s → hs_out s' = hs_out s → moved s s' (λ _, []) (λ _, []).
Proof. intros Hi Ho. exists (λ _, []). split; [rewrite Hi|rewrite Ho]; apply ih_refl. Qed.

Lemma relayed_pure {E A} (r : outcome E A) s F :
  F r (hs_lite s) (λ _, []) (λ _, []) → relayed (st_lift r) s F.
Proof. exists (λ _, []), (λ _, []). split; [by apply moved_refl|done]. Qed.

Lemma relayed_get {A} (f : Hs → ST Hs tls_error A) s F :
  relayed (f s) s F → relayed (st_get ≫= f) s F.
Proof. done. Qed.

(** Work on the state of the endpoint alone. *)
Lemma relayed_local {E A} (m : ST Hs E A) s F :
  hs_in (m s).2 = hs_in s → hs_out (m s).2 = hs_out s →
  F (m s).1 (hs_lite (m s).2) (λ _, []) (λ _, []) → relayed m s F.
Proof. exists (λ _, []), (λ _, []). split; [by apply moved_refl|done]. Qed.

Lemma on_dir_buf_relayed {E A} d (m : ST TlsRelayBuffer E A) s F :
  (let '(r, b) := m (buf_of d (hs_lite s)) in F r (set_buf_of d b (hs_lite s)) (λ _, []) (λ _, [])) →
  relayed (on_dir_buf d m) s F.
Proof.
  intros HF. apply relayed_local; unfold on_dir_buf; rewrite st_zoom_run; [done..|].
  by destruct (m _).
Qed.

Lemma on_lite_relayed f s F :
  F (Ok tt) (f (hs_lite s)) (λ _, []) (λ _, []) → relayed (on_lite f) s F.
Proof. intros HF. by apply relayed_local. Qed.

(** A pipe of direction [d] is specified by what it does to a pipe. *)
Lemma with_pipe_relayed {A} d (m_in : ST (PipeSt I O) tls_error A) m_out s
    (F : outcome tls_error A → TlsRelayBuffer → list Z → list Z → Prop) :
  (∀ p, pp_buf p = buf_of Inbound (hs_lite s) → d = Inbound → piped m_in p F) →
  (∀ p, pp_buf p = buf_of Outbound (hs_lite s) → d = Outbound → piped m_out p F) →
  relayed (with_pipe d m_in m_out) s (λ r l ins sent, ∃ b i o,
    l = set_buf_of d b (hs_lite s) ∧ ins = in_dir d i ∧ sent = in_dir d o ∧ F r b i o).
Proof.
  intros Hin Hout. destruct d; unfold relayed, post, with_pipe; rewrite st_zoom_run; cbn [fst snd hs_lite].
  - destruct (Hin (mkPipe (inbound_buf (hs_lite s)) (hs_in s) (hs_out s)) eq_refl eq_refl) as (i & o & Hr & [t Hw] & HF).
    exists (in_dir Inbound i), (in_dir Inbound o). split; [|by eauto 10].
    exists (in_dir Inbound t). split; [by apply read_trace_handed|by apply write_handed_io].
  - destruct (Hout (mkPipe (outbound_buf (hs_lite s)) (hs_out s) (hs_in s)) eq_refl eq_refl) as (i & o & Hr & [t Hw] & HF).
    exists (in_dir Outbound i), (in_dir Outbound o). split; [|by eauto 10].
    exists (in_dir Outbound t). split; [by apply write_handed_io|by apply read_trace_handed].
Qed.

(** *** The reads and writes of the endpoint *)
Lemma read_from_bytes d s :
  relayed (read_from d) s (λ r l ins sent, ∃ b i, l = set_buf_of d b (hs_lite s) ∧
    ins = in_dir d i ∧ sent = in_dir d [] ∧
    (∀ T P, buf_ok T P (buf_of d (hs_lite s)) → buf_ok (T ++ i) P b) ∧
    data b = data (buf_of d (hs_lite s)) ++ i ∧ tb_cursor b = tb_cursor (buf_of d (hs_lite s)) ∧
    match r with Ok n => n = length i | _ => i = [] ∧ io_fail r end).
Proof.
  eapply relayed_mono.
  - apply (with_pipe_relayed d _ _ s (λ r b i o, o = [] ∧
      (∀ T P, buf_ok T P (buf_of d (hs_lite s)) → buf_ok (T ++ i) P b) ∧
      data b = data (buf_of d (hs_lite s)) ++ i ∧ tb_cursor b = tb_cursor (buf_of d (hs_lite s)) ∧
      match r with Ok n => n = length i | _ => i = [] ∧ io_fail r end));
      intros p Hp ->; rewrite <- Hp in *; by apply read_buf_bytes.
  - intros r l ins sent (b & i & o & -> & -> & -> & -> & Hr). eauto 10.
Qed.

Lemma read_from_spec d T P s :
  buf_ok T P (buf_of d (hs_lite s)) →
  relayed (read_from d) s (λ r l ins sent, ∃ b i, l = set_buf_of d b (hs_lite s) ∧
    ins = in_dir d i ∧ sent = in_dir d [] ∧ buf_ok (T ++ i) P b ∧
    data b = data (buf_of d (hs_lite s)) ++ i ∧ tb_cursor b = tb_cursor (buf_of d (hs_lite s)) ∧
    match r with Ok n => n = length i | _ => i = [] ∧ io_fail r end).
Proof.
  intros Hok. eapply relayed_mono; [apply read_from_bytes|].
  intros r l ins sent (b & i & -> & -> & -> & Hb & Hr). eauto 10.
Qed.

Lemma write_to_spec d bs s :
  relayed (write_to (other d) bs) s (λ r l ins sent, l = hs_lite s ∧ ins = in_dir d [] ∧
    match r with Ok _ => sent = in_dir d bs | _ => io_fail r end).
Proof.
  unfold write_to. rewrite other_other. eapply relayed_mono.
  - apply (with_pipe_relayed d _ _ s (λ r b i o, b = buf_of d (hs_lite s) ∧ i = [] ∧
      match r with Ok _ => o = bs | _ => io_fail r end));
      intros p Hp ->; rewrite <- Hp; (eapply piped_mono; [by apply pp_on_wr_spec|]); intros []; naive_solver.
  - intros r l ins sent (b & i & o & -> & -> & -> & -> & -> & Hr). split; [by destruct s as [[] ? ?], d|].
    split; [done|]. destruct r; naive_solver.
Qed.

Lemma flush_to_spec d s :
  relayed (flush_to (other d)) s (λ r l ins sent, l = hs_lite s ∧ ins = in_dir d [] ∧
    sent = in_dir d [] ∧ match r with Ok n => True | _ => io_fail r end).
Proof.
  unfold flush_to. rewrite other_other. eapply relayed_mono.
  - apply (with_pipe_relayed d _ _ s (λ r b i o, b = buf_of d (hs_lite s) ∧ i = [] ∧ o = [] ∧
      match r with Ok n => True | _ => io_fail r end));
      intros p Hp ->; rewrite <- Hp; by apply pp_flush_spec.
  - intros r l ins sent (b & i & o & -> & -> & -> & -> & -> & -> & Hr).
    split; [by destruct s as [[] ? ?], d|done].
Qed.

Lemma relay_pending_spec d T P s :
  buf_ok T P (buf_of d (hs_lite s)) →
  relayed (relay_pending d) s (λ r l ins sent, ∃ b o, l = set_buf_of d b (hs_lite s) ∧
    ins = in_dir d [] ∧ sent = in_dir d o ∧
    match r with
    | Ok _ => buf_ok T (P ++ o) b ∧
        tb_cursor b = tb_cursor (buf_of d (hs_lite s)) - len (buf_of d (hs_lite s)) ∧
        data b = drop (tb_cursor (buf_of d (hs_lite s))) (data (buf_of d (hs_lite s)))
    | _ => io_fail r
    end).
Proof.
  intros Hok. eapply relayed_mono.
  - apply (with_pipe_relayed d _ _ s (λ r b i o, i = [] ∧
      match r with
      | Ok _ => buf_ok T (P ++ o) b ∧
          tb_cursor b = tb_cursor (buf_of d (hs_lite s)) - len (buf_of d (hs_lite s)) ∧
          data b = drop (tb_cursor (buf_of d (hs_lite s))) (data (buf_of d (hs_lite s)))
      | _ => io_fail r
      end));
      intros p Hp ->; rewrite <- Hp in *; (eapply piped_mono; [by apply flush_checked_spec|]);
      intros [] b i o [-> Hr]; naive_solver.
  - naive_solver.
Qed.

Lemma relay_until_0xff_of_spec d reads fuel T P s :
  buf_ok T P (buf_of d (hs_lite s)) →
  relayed (with_pipe d (relay_until_0xff reads fuel) (relay_until_0xff reads fuel)) s
    (λ r l ins sent, ∃ b i o, l = set_buf_of d b (hs_lite s) ∧ ins = in_dir d i ∧ sent = in_dir d o ∧
      match r with
      | Ok _ => ends_in_0xff (T ++ i) (P ++ o) ∧ data b = [] ∧ tb_cursor b = 0
      | OutOfFuel => reads ≤ length i ∨ fuel ≤ length (T ++ i)
      | _ => io_fail r
      end).
Proof.
  intros Hok. eapply relayed_mono.
  - apply (with_pipe_relayed d _ _ s (λ r b i o,
      match r with
      | Ok _ => ends_in_0xff (T ++ i) (P ++ o) ∧ data b = [] ∧ tb_cursor b = 0
      | OutOfFuel => reads ≤ length i ∨ fuel ≤ length (T ++ i)
      | _ => io_fail r
      end));
      intros p Hp ->; rewrite <- Hp in *;
      (eapply piped_mono; [by apply relay_until_0xff_spec|]);
      intros [] b i o Hr; try done; lia.
  - naive_solver.
Qed.

(** ** The handshake *)
Lemma handshake_tls12_active_spec reads fuel T P s :
  conserved (hs_lite s) T P →
  relayed (handshake_tls12_active reads fuel) s (λ r l ins sent,
    lite_side l = lite_side (hs_lite s) ∧
    match r with Ok _ => lite_version l = Some Active | _ => True end ∧
    handshake_exit (Nat.min reads fuel) r l (λ d, T d ++ ins d) (λ d, P d ++ sent d)).
Proof.
  intros Hok. unfold handshake_tls12_active. apply relayed_get. rewrite second_hand_other.
  remember (first_hand (lite_side (hs_lite s))) as fd eqn:Hfd.
  set (tmp := checked_packets (buf_of fd (hs_lite s))).
  eapply relayed_bind.
  { apply (on_dir_buf_relayed _ _ _ (λ r l ins sent, r = Ok tt ∧ ins = (λ _, []) ∧ sent = (λ _, []) ∧
      ∃ b, l = set_buf_of fd b (hs_lite s) ∧ buf_ok (T fd) (P fd ++ tmp) b)).
    destruct (pop_buf_ok (E:=tls_error) _ _ _ (Hok fd)) as (b' & -> & Hb & _). eauto 10. }
  intros r s1 ? ? (-> & -> & -> & b & Hl & Hb). cbn [app].
  eapply relayed_bind; [apply write_to_spec|]. intros r s2 ? sent (Hl2 & -> & Hr).
  destruct (set_buf_of_frame fd b (hs_lite s)) as (_ & Hside & _).
  destruct r as [n|[]| | |]; cbn [early]; try done; try by rewrite Hl2, Hl, Hside.
  subst sent. case_decide; [by apply relayed_pure; rewrite Hl2, Hl, Hside|].
  eapply relayed_bind; [apply flush_to_spec|]. intros r s3 ? ? (Hl3 & -> & -> & Hflush).
  destruct r as [[]|[]| | |]; cbn [early]; try done; try by rewrite Hl3, Hl2, Hl, Hside.
  assert (hs_lite s3 = set_buf_of fd b (hs_lite s)) as Hs3 by congruence.
  eapply relayed_bind.
  { apply (relay_until_0xff_of_spec (other fd) reads fuel (T (other fd)) (P (other fd))).
    rewrite Hs3, buf_of_set_other. apply Hok. }
  intros r s4 ? ? (b4 & i & o & Hl4 & -> & -> & Hend). rewrite Hs3 in Hl4.
  destruct (set_buf_of_frame (other fd) b4 (set_buf_of fd b (hs_lite s))) as (_ & Hside4 & _).
  destruct r as [[]|[]| | |]; cbn [early]; try done; try by rewrite Hl4, Hside4, Hside.
  - apply on_lite_relayed. rewrite Hl4. change (lite_side (set_version Active ?l)) with (lite_side l).
    change (lite_version (set_version Active ?l)) with (Some Active). rewrite Hside4, Hside. split; [done|]. split; [done|]. cbn [handshake_exit].
    change (lite_version (set_version Active ?l)) with (Some Active). unfold left_tunnel. change (lite_side (set_version Active ?l)) with (lite_side l). rewrite Hside4, Hside, second_hand_other, <- Hfd.
    cbn [app]. autorewrite with lite. destruct Hend as (Hend & Hd & _). split; [|done].
    exists (P fd ++ tmp). cbn [app]. rewrite <- !app_assoc. split; [done|].
    destruct fd; exact Hb.
  - rewrite Hl4, Hside4, Hside. split; [done|]. split; [done|]. cbn [handshake_exit].
    destruct fd; cbn in *; rewrite ?in_dir_eq, !length_app in *; lia.
Qed.

Lemma check_client_hello_spec T P b :
  buf_ok T P b → tb_cursor b = 0 →
  post check_client_hello b (λ r b',
    match r with
    | Ok _ => buf_ok T P b' ∧ data b' = data b ∧ tb_cursor b' = len b' ∧ 5 ≤ len b'
    | Err (Incomplete _) => b' = b
    | Err (Invalid _) => buf_ok T P b'
    | _ => False
    end).
Proof.
  intros Hok Hc. unfold post, check_client_hello. st_simpl.
  destruct (decide (length (data b) < 5)) as [Hs|Hs].
  { by rewrite expect_buf_len_Err by done. }
  rewrite expect_buf_len_Ok by lia. st_simpl.
  unfold slice. rewrite decide_True by lia. st_simpl. case_decide; [done|].
  pose proof (extract_cursor (E:=ParserError) T P b Hok) as Hx. rewrite Hc in Hx. cbn [plus] in Hx.
  rewrite Hx by (rewrite len_data; lia). st_simpl.
  assert (buf_ok T P (set_cursor (5 + record_len T (length P + 0)) b)) as Hok'.
  { destruct Hok as (Hwf & HT & Ha). split; [done|]. split; [done|].
    cbn [tb_cursor set_cursor]. rewrite Hc, Nat.add_0_r in *. apply al_record; [done|].
    rewrite HT, length_app. lia. }
  case_decide as Hn; cbn [fst snd]; [done|]. split; [exact Hok'|]. split; [done|].
  rewrite len_data in *. cbn. change (data (set_cursor _ b)) with (data b). split; [lia|]. rewrite <- Hn. lia.
Qed.

Lemma client_hello_spec fuel T P s :
  buf_ok T P (buf_of Inbound (hs_lite s)) → tb_cursor (buf_of Inbound (hs_lite s)) = 0 →
  relayed (client_hello fuel) s (λ r l ins sent, ∃ b, l = set_buf_of Inbound b (hs_lite s) ∧
    ins Outbound = [] ∧ (∀ d, sent d = []) ∧
    match r with
    | Ok _ => buf_ok (T ++ ins Inbound) P b ∧ tb_cursor b = len b ∧ 5 ≤ len b
    | Err (TlsParser (Invalid _)) => buf_ok (T ++ ins Inbound) P b
    | OutOfFuel => fuel ≤ length (ins Inbound)
    | _ => io_fail r
    end).
Proof.
  revert T s. induction fuel as [|fuel IH]; intros T s Hok Hc; cbn [client_hello].
  { apply relayed_pure. exists (buf_of Inbound (hs_lite s)). split; [by destruct (hs_lite s)|]. done. }
  eapply relayed_bind; [by apply read_from_spec|].
  intros r s1 ? ? (b & i & Hl & -> & -> & Hok1 & Hd & Hcur & Hr).
  destruct r as [n|[]| | |]; cbn [early]; try by destruct Hr.
  2-4: exists b; split; [done|]; split; [done|]; split; [apply in_dir_nil|]; by destruct Hr.
  subst n. case_decide as Hn.
  { apply relayed_pure. exists b. split; [done|]. split; [done|]. split; [|done].
    intros d. by rewrite in_dir_nil. }
  eapply relayed_bind.
  { apply relayed_try, (on_dir_buf_relayed _ _ _ (λ r l ins sent, ∃ b',
      l = set_buf_of Inbound b' (hs_lite s1) ∧ ins = (λ _, []) ∧ sent = (λ _, []) ∧
      match r with
      | Ok _ => buf_ok (T ++ i) P b' ∧ tb_cursor b' = len b' ∧ 5 ≤ len b'
      | Err (Incomplete _) => b' = b
      | Err (Invalid _) => buf_ok (T ++ i) P b'
      | _ => False
      end)).
    rewrite Hl, buf_of_set. pose proof (check_client_hello_spec _ _ b Hok1 ltac:(by rewrite Hcur)) as Hp.
    unfold post in Hp. destruct (check_client_hello b) as [res b']. exists b'.
    split; [done|]. split; [done|]. split; [done|]. cbn [fst snd] in Hp.
    destruct res as [|[]| | |]; try done. by destruct Hp as (? & _ & ? & ?). }
  intros r s2 ? ? (r0 & -> & b' & Hl2 & -> & -> & Hr). rewrite Hl, set_set_buf_of in Hl2.
  destruct r0 as [[]|[]| | |]; try done.
  - apply relayed_pure. exists b'. autorewrite with lite. split; [done|]. split; [done|].
    split; [|done]. intros d. by rewrite in_dir_nil.
  - subst b'. eapply relayed_mono; [apply (IH (T ++ i))|].
    + by rewrite Hl2, buf_of_set.
    + by rewrite Hl2, buf_of_set, Hcur.
    + intros r l ins sent (b' & -> & Hi & Hse & Hr). exists b'. rewrite Hl2, set_set_buf_of.
      split; [done|]. autorewrite with lite. cbn [app]. rewrite Hi. split; [done|].
      split; [intros d; by rewrite Hse, in_dir_nil|].
      destruct r as [|[[]| |]| | |]; rewrite ?app_assoc; try done. rewrite length_app. lia.
  - apply relayed_pure. exists b'. autorewrite with lite. split; [done|]. split; [done|].
    split; [|done]. intros d. by rewrite in_dir_nil.
Qed.

Lemma drop_0xff_run b :
  drop_0xff b = (Ok tt, mkTlsBuf (vec_set_len (tb_cursor b) (tb_inner b)) (tb_cursor b)) ∧
    len b = tb_cursor b + 6 ∨
  (∃ msg, drop_0xff b = (Err (TlsParser (Invalid msg)), b)) ∧ len b ≠ tb_cursor b + 6.
Proof.
  unfold drop_0xff. st_simpl. case_decide; [right; split; [by eexists|lia]|].
  case_decide; [right; split; [by eexists|lia]|]. case_decide; [right; split; [by eexists|lia]|].
  left. split; [done|lia].
Qed.

(** [drop_0xff] where a record [0xff] is under the cursor, or where nothing but the
    start of a header can follow it. *)
Lemma handshake_tls12_passive_spec bound T P s :
  conserved (hs_lite s) T P →
  (let b := buf_of (second_hand (lite_side (hs_lite s))) (hs_lite s) in
   data b !! tb_cursor b = Some 0xff%Z ∧ idle (buf_of (first_hand (lite_side (hs_lite s))) (hs_lite s)) ∨
   len b < tb_cursor b + 5) →
  relayed handshake_tls12_passive s (λ r l ins sent,
    lite_side l = lite_side (hs_lite s) ∧
    match r with Ok _ => lite_version l = Some Passive | _ => True end ∧
    handshake_exit bound r l (λ d, T d ++ ins d) (λ d, P d ++ sent d)).
Proof.
  intros Hok Hff. unfold handshake_tls12_passive. apply relayed_get. rewrite second_hand_other in *.
  remember (first_hand (lite_side (hs_lite s))) as fd eqn:Hfd. cbn beta zeta in Hff.
  set (b := buf_of (other fd) (hs_lite s)) in *.
  eapply relayed_bind.
  { apply (on_dir_buf_relayed _ _ _ (λ r l ins sent, ins = (λ _, []) ∧ sent = (λ _, []) ∧
      match r with
      | Ok _ => len b = tb_cursor b + 6 ∧ l = set_buf_of (other fd)
          (mkTlsBuf (vec_set_len (tb_cursor b) (tb_inner b)) (tb_cursor b)) (hs_lite s)
      | Err (TlsParser (Invalid _)) => l = hs_lite s
      | _ => False
      end)). fold b.
    destruct (drop_0xff_run b) as [[-> Hl]|[[msg ->] Hl]]; split; try done; split; try done.
    by destruct (hs_lite s), fd. }
  intros r s1 ? ? (-> & -> & Hr).
  destruct r as [[]|[[]| |]| | |]; cbn [early]; try done.
  2:{ rewrite Hr. split; [done|]. split; [done|]. by apply conserved_nil. }
  destruct Hr as [Hlen Hl]. destruct Hff as [[Hff Hidle]|Hff]; [|lia].
  set (b' := mkTlsBuf _ _) in Hl. cbn [app].
  destruct (set_buf_of_frame (other fd) b' (hs_lite s)) as (_ & Hside & _).
  eapply relayed_bind; [apply write_to_spec|]. intros r s2 ? sent (Hl2 & -> & Hr).
  destruct r as [n|[]| | |]; cbn [early]; try done; try by rewrite Hl2, Hl, Hside.
  subst sent. case_decide; [by apply relayed_pure; rewrite Hl2, Hl, Hside|].
  eapply relayed_bind; [apply flush_to_spec|]. intros r s3 ? ? (Hl3 & -> & -> & Hflush).
  destruct r as [[]|[]| | |]; cbn [early]; try done; try by rewrite Hl3, Hl2, Hl, Hside.
  apply on_lite_relayed. rewrite Hl3, Hl2, Hl.
  change (lite_side (set_version Passive ?l)) with (lite_side l).
  change (lite_version (set_version Passive ?l)) with (Some Passive).
  rewrite Hside. split; [done|]. split; [done|]. cbn [handshake_exit].
  change (lite_version (set_version Passive ?l)) with (Some Passive). unfold left_tunnel.
  change (lite_side (set_version Passive ?l)) with (lite_side l).
  rewrite Hside, second_hand_other, <- Hfd. autorewrite with lite. cbn [app]. split.
  - exists (P fd). rewrite ?app_nil_r. split; [done|].
    pose proof (buf_of_set_other (other fd) b' (hs_lite s)) as Hb. rewrite other_other in Hb. rewrite Hb.
    apply Hok.
  - destruct (Hok (other fd)) as (_ & HT & Ha). fold b in HT, Ha. rewrite len_data in Hlen.
    assert (data b' = take (tb_cursor b) (data b)) as Hd by done. rewrite Hd.
    exists (drop (tb_cursor b) (data b)). rewrite take_drop, length_drop, lookup_drop, Nat.add_0_r.
    split; [done|]. split; [lia|]. split; [done|]. rewrite length_app, length_take, Nat.min_l by lia. split; [done|].
    pose proof (buf_of_set_other (other fd) b' (hs_lite s)) as Hb. rewrite other_other in Hb. by rewrite Hb.
Qed.

Lemma find_key_packets_of_spec d T P s :
  conserved (hs_lite s) T P → received_0x17 (hs_lite s) ≠ BothDirections →
  relayed (find_key_packets_of d) s (λ r l ins sent, ins = (λ _, []) ∧ sent = (λ _, []) ∧
    conserved l T P ∧ same_mode (hs_lite s) l ∧
    buf_of (other d) l = buf_of (other d) (hs_lite s) ∧
    data (buf_of d l) = data (buf_of d (hs_lite s)) ∧
    found_ok (buf_of d (hs_lite s)) r (buf_of d l, received_0x17 l)).
Proof.
  intros Hok Hseen. apply relayed_local; unfold find_key_packets_of; rewrite st_zoom_run; [done..|].
  pose proof (find_key_packets_spec d _ _ _ (received_0x17 (hs_lite s)) (Hok d) Hseen) as Hp.
  unfold post in Hp. destruct (find_key_packets d _) as [r [b seen]]. cbn [fst snd hs_lite] in Hp |- *.
  destruct Hp as (Hi & Hb & Hf). autorewrite with lite.
  split; [done|]. split; [done|]. split.
  { intros d'. destruct (decide (d' = d)) as [->|Hne]; autorewrite with lite; [done|].
    assert (d' = other d) as -> by (destruct d, d'; done). autorewrite with lite. apply Hok. }
  split; [by destruct d|]. split; [done|]. split; [unfold data; by rewrite Hi|]. exact Hf.
Qed.

(** One read: everything it delivers is in the buffer, and nothing else moves. *)
Definition total (f : Direction → list Z) : nat := length (f Inbound) + length (f Outbound).

Lemma total_in_dir d bs : total (in_dir d bs) = length bs.
Proof.
  destruct d; unfold total; rewrite in_dir_eq.
  - rewrite (in_dir_other Inbound bs : in_dir Inbound bs Outbound = []). cbn. lia.
  - by rewrite (in_dir_other Outbound bs : in_dir Outbound bs Inbound = []).
Qed.

Lemma total_app (f g : Direction → list Z) : total (λ d, f d ++ g d) = total f + total g.
Proof. unfold total. rewrite !length_app. lia. Qed.

Definition same_bytes d l l' : Prop :=
  data (buf_of d l') = data (buf_of d l) ∧ tb_cursor (buf_of d l') = tb_cursor (buf_of d l).

Lemma read_round_spec d T P s :
  conserved (hs_lite s) T P →
  relayed (read_from d) s (λ r l ins sent,
    conserved l (λ d, T d ++ ins d) (λ d, P d ++ sent d) ∧ same_mode (hs_lite s) l ∧
    received_0x17 l = received_0x17 (hs_lite s) ∧ same_bytes (other d) (hs_lite s) l ∧
    match r with
    | Ok n => n = total ins
    | _ => total ins = 0 ∧ same_bytes d (hs_lite s) l ∧ io_fail r
    end).
Proof.
  intros Hok. eapply relayed_mono; [apply (read_from_spec d _ _ _ (Hok d))|].
  intros r l ? ? (b & i & -> & -> & -> & Hok1 & Hd & Hc & Hr).
  destruct (set_buf_of_frame d b (hs_lite s)) as (Hseen & Hside & Hver).
  split; [apply conserved_set; [done|by rewrite app_nil_r]|]. split; [done|]. split; [done|].
  unfold same_bytes. rewrite total_in_dir, buf_of_set, buf_of_set_other. split; [done|].
  destruct r; [done|..]; destruct Hr as [-> Hr]; by rewrite Hd, Hc, app_nil_r.
Qed.

(** The [select!] of a round: one of the streams delivered something, or neither
    will. *)
Lemma select_read_spec d T P s :
  conserved (hs_lite s) T P →
  relayed (select_read d) s (λ r l ins sent,
    conserved l (λ d, T d ++ ins d) (λ d, P d ++ sent d) ∧ same_mode (hs_lite s) l ∧
    received_0x17 l = received_0x17 (hs_lite s) ∧
    match r with
    | Ok (n, dir) => n = total ins ∧ same_bytes (other dir) (hs_lite s) l
    | _ => io_fail r
    end).
Proof.
  intros Hok. unfold select_read.
  eapply relayed_bind; [apply relayed_try, read_round_spec, Hok|].
  intros r s1 i1 o1 (r0 & -> & Hcons & Hmode & Hseen & Hother & Hr). cbn beta iota.
  destruct r0 as [n|e| |msg|].
  3:{ destruct Hr as (Hi & Hd & _). eapply relayed_bind; [apply read_round_spec, Hcons|].
    intros r s2 i2 o2 (Hcons2 & Hmode2 & Hseen2 & Hother2 & Hr2).
    assert (same_mode (hs_lite s) (hs_lite s2)) by (unfold same_mode in *; intuition congruence).
    destruct r as [n|e| |msg|]; cbn [early].
    2-5: split; [by apply conserved_app|]; split; [done|]; split; [congruence|]; by destruct Hr2 as (_ & _ & ?).
    apply relayed_pure. split.
    { apply conserved_app, conserved_app, conserved_nil, Hcons2. }
    split; [done|]. split; [congruence|]. rewrite !total_app, Hi, Hr2, Nat.add_0_r. split; [done|].
    unfold same_bytes in *. rewrite other_other in *. intuition congruence. }
  all: apply relayed_pure; (split; [apply conserved_app, conserved_nil, Hcons|]); (split; [done|]); (split; [done|]).
  1: rewrite total_app; unfold total at 2; cbn; rewrite Nat.add_0_r; done.
  all: by destruct Hr as (_ & _ & ?).
Qed.

(** ** The rounds *)
Lemma handshake_loop_spec reads sched fuel T P s :
  between_rounds (hs_lite s) T P →
  relayed (handshake_loop reads sched fuel) s (λ r l ins sent,
    lite_side l = lite_side (hs_lite s) ∧
    handshake_exit (Nat.min reads (fuel + total T)) r l (λ d, T d ++ ins d) (λ d, P d ++ sent d)).
Proof.
  revert T P s. induction fuel as [|fuel IH]; intros T P s (Hok & Htail & Hseen & Hver);
    cbn [handshake_loop].
  { apply relayed_pure. split; [done|]. cbn [handshake_exit]. rewrite !app_nil_r. unfold total. lia. }
  eapply relayed_bind; [by apply select_read_spec|].
  intros r s1 i1 o1 (Hok1 & (Hside1 & Hver1) & Hseen1 & Hr).
  destruct r as [[n dir]|[]| | |]; cbn [early]; try done.
  destruct Hr as [-> Hother].
  case_decide as Hn.
  { apply relayed_pure. split; [done|]. cbn [handshake_exit]. rewrite Hver1, Hver.
    apply conserved_app, conserved_nil, Hok1. }
  eapply relayed_bind; [apply relayed_try, (find_key_packets_of_spec dir _ _ s1 Hok1); congruence|].
  intros r s2 ? ? (r0 & -> & -> & -> & Hok2 & (Hside2 & Hver2) & Hother2 & Hd2 & Hf). cbn beta iota.
  assert (idle (buf_of (other dir) (hs_lite s2))) as Htail2.
  { rewrite Hother2. unfold idle. rewrite len_data. destruct Hother as [-> ->]. rewrite <- len_data. apply Htail. }
  assert (∀ m, relayed m s2 (λ r l ins sent, lite_side l = lite_side (hs_lite s2) ∧
      handshake_exit (Nat.min reads (S fuel + total T)) r l
        (λ d, (T d ++ i1 d) ++ ins d) (λ d, (P d ++ o1 d) ++ sent d)) →
    relayed m s2 (λ r l ins sent, lite_side l = lite_side (hs_lite s) ∧
      handshake_exit (Nat.min reads (S fuel + total T)) r l
        (λ d, T d ++ i1 d ++ [] ++ ins d) (λ d, P d ++ o1 d ++ [] ++ sent d))) as Hgo.
  { intros m Hm. eapply relayed_mono; [exact Hm|]. intros r l ins sent [-> Hex].
    split; [congruence|]. by apply handshake_exit_app. }
  unfold found_ok in Hf. cbn [fst snd] in Hf.
  destruct r0 as [[]|[]| | |]; try by destruct Hf.
  - apply Hgo. eapply relayed_mono; [by apply handshake_tls12_active_spec|].
    intros r l ins sent (-> & _ & Hex). split; [done|]. eapply handshake_exit_mono; [exact Hex|lia].
  - apply Hgo. eapply relayed_mono; [apply handshake_tls12_passive_spec; [exact Hok2|]|].
    + cbn zeta. rewrite <- Hd2 in Hf. destruct Hf as [Hf _].
      destruct (decide (second_hand (lite_side (hs_lite s2)) = dir)) as [Hsd|Hne]; [left|right].
      { rewrite Hsd. split; [done|]. by rewrite <- Hsd, second_hand_other, other_other in Htail2. }
      assert (second_hand (lite_side (hs_lite s2)) = other dir) as -> by (destruct dir, (lite_side (hs_lite s2)); done).
      apply Htail2.
    + intros r l ins sent (-> & _ & Hex). done.
  - destruct Hf as [Hseen2 Hlen]. rewrite len_data, <- Hd2, <- len_data in Hlen.
    eapply relayed_bind; [apply (relay_pending_spec dir _ _ s2 (Hok2 dir))|].
    intros r s3 ? ? (b & o & Hl3 & -> & -> & Hr). destruct r as [[]|[]| | |]; cbn [early]; try done.
    2-4: by rewrite Hl3; destruct (set_buf_of_frame dir b (hs_lite s2)) as (_ & -> & _); split; [congruence|].
    destruct Hr as (Hb & Hcb & Hdb). destruct (set_buf_of_frame dir b (hs_lite s2)) as (Hs3 & Hsd3 & Hv3).
    eapply relayed_mono; [apply (IH (λ d, (T d ++ i1 d) ++ in_dir dir [] d) (λ d, (P d ++ o1 d) ++ in_dir dir o d))|].
    + rewrite Hl3. split; [apply conserved_set; [done|by rewrite app_nil_r]|]. split; [|split; congruence].
      intros d. destruct (decide (d = dir)) as [->|Hne].
      * rewrite buf_of_set. unfold idle. rewrite len_data, Hdb, Hcb, length_drop, <- len_data. split; [lia|].
        destruct (decide (tb_cursor (buf_of dir (hs_lite s2)) ≤ len (buf_of dir (hs_lite s2)))); [left; lia|right].
        apply drop_ge. rewrite <- len_data. lia.
      * assert (d = other dir) as -> by (destruct d, dir; done). by rewrite buf_of_set_other.
    + intros r l ins sent [Hsd Hex]. split; [rewrite Hsd, Hl3; congruence|].
      eapply handshake_exit_mono.
      { cbn [app]. eapply handshake_exit_proper; [..|exact Hex]; intros d; by rewrite !app_assoc. }
      rewrite !total_app, total_in_dir. cbn. lia.
  - apply Hgo, relayed_pure. split; [done|]. apply conserved_nil, Hok2.
Qed.

(** ** The whole handshake *)
Lemma handshake_spec reads sched fuel side (i : I) (o : O) :
  relayed (handshake reads sched fuel) (mkHs (new_endpoint side) i o) (λ r l ins sent,
    lite_side l = side ∧ handshake_exit (Nat.min reads fuel) r l ins sent ∧ (r = Ok tt → ins Inbound ≠ [])).
Proof.
  unfold handshake.
  assert (buf_ok [] [] (buf_of Inbound (new_endpoint side))) as Hnew by apply buf_ok_new.
  eapply relayed_bind; [apply (client_hello_spec fuel [] [] (mkHs (new_endpoint side) i o) Hnew); done|].
  intros r s1 i1 o1 (b & Hl & Hi & Ho & Hr). cbn [app hs_lite] in Hl, Hr.
  assert (conserved (new_endpoint side) (λ _, []) (λ _, [])) as Hcons.
  { intros []; apply buf_ok_new. }
  assert (buf_ok (i1 Inbound) [] b → conserved (hs_lite s1) i1 o1) as Hcons1.
  { intros Hb. rewrite Hl. intros []; rewrite ?Hi, ?Ho; [exact Hb|apply buf_ok_new]. }
  destruct r as [[]|[[]| |]| | |]; cbn [early]; try done; try by rewrite Hl.
  2:{ rewrite Hl. split; [done|]. rewrite <- Hl. split; [by apply Hcons1|done]. }
  2:{ rewrite Hl. split; [done|]. cbn. split; [lia|done]. }
  destruct Hr as (Hb & Hcur & H5). apply relayed_get.
  eapply relayed_bind; [apply (write_to_spec Inbound)|]. intros r s2 ? sent (Hl2 & -> & Hr).
  destruct r as [n|[]| | |]; cbn [early]; try done; try by rewrite Hl2, Hl.
  subst sent.
  eapply relayed_bind; [apply (flush_to_spec Inbound)|]. intros r s3 ? ? (Hl3 & -> & -> & Hr).
  destruct r as [[]|[]| | |]; cbn [early]; try done; try by rewrite Hl3, Hl2, Hl.
  eapply relayed_bind.
  { apply (on_dir_buf_relayed _ _ _ (λ r l ins sent, r = Ok tt ∧ ins = (λ _, []) ∧ sent = (λ _, []) ∧
      l = set_buf_of Inbound (reset b) (hs_lite s1))).
    rewrite Hl3, Hl2, Hl. done. }
  intros r s4 ? ? (-> & -> & -> & Hl4).
  assert (data (inbound_buf (hs_lite s1)) = i1 Inbound) as Hd1.
  { rewrite Hl. by destruct Hb as (_ & -> & _). }
  eapply relayed_mono.
  { apply (handshake_loop_spec reads sched fuel i1 i1).
    rewrite Hl4, Hl. split.
    - intros []; [|rewrite Hi; apply buf_ok_new].
      cbn [buf_of set_buf_of inbound_buf]. destruct (reset_data b) as (Hrd & Hrc & Hrw).
      split; [done|]. rewrite Hrd, Hrc, Nat.add_0_r, app_nil_r. split; [done|].
      destruct Hb as (_ & HT & Ha). cbn [length plus] in Ha. by rewrite Hcur, len_data, <- (app_nil_l (data b)), <- HT in Ha.
    - split; [|done]. intros []; cbn [buf_of set_buf_of inbound_buf outbound_buf].
      + destruct (reset_data b) as (Hrd & Hrc & Hrw). unfold idle. rewrite len_data, Hrd, Hrc. cbn. split; [lia|by left].
      + split; [cbn; lia|by left]. }
  intros r l ins sent [Hside Hex]. split; [by rewrite Hside, Hl4, Hl|].
  assert (i1 Inbound ≠ []) as Hne.
  { rewrite Hl in Hd1. cbn [inbound_buf set_buf_of] in Hd1. rewrite len_data, Hd1 in H5. intros Hnil. rewrite Hnil in H5. cbn in H5. lia. }
  split; [|intros _; by destruct (i1 Inbound)].
  eapply handshake_exit_mono; [|apply Nat.min_le_compat_l, (Nat.le_add_r fuel (total i1))].
  eapply handshake_exit_proper; [..|exact Hex]; intros d; cbn [app]; rewrite ?in_dir_nil; cbn [app].
  - done.
  - rewrite Ho, Hd1. cbn [app]. destruct d; [by rewrite in_dir_eq|].
    by rewrite Hi, (in_dir_other Inbound (i1 Inbound) : in_dir Inbound (i1 Inbound) Outbound = []).
Qed.

(** ** After the handshake *)
Definition nothing (f : Direction → list Z) : Prop := ∀ d, f d = [].
Definition only_in (d : Direction) (bs : list Z) (f : Direction → list Z) : Prop :=
  ∀ d', f d' = in_dir d bs d'.

Lemma flush_whole_spec d s :
  relayed (flush_whole d) s (λ r l ins sent, nothing ins ∧
    match r with
    | Ok _ => only_in d (data (buf_of d (hs_lite s))) sent ∧
        buf_of (other d) l = buf_of (other d) (hs_lite s)
    | Err (TlsIo _) | Pending | Panic _ => True
    | _ => False
    end).
Proof.
  unfold flush_whole. apply relayed_get. case_decide as Hd.
  - eapply relayed_bind; [apply write_to_spec|]. intros r s2 ? sent (Hl2 & -> & Hr).
    destruct r as [n|[]| | |]; cbn [early]; try done; try by (split; [intros d'; apply in_dir_nil|]).
    subst sent.
    eapply relayed_bind; [apply flush_to_spec|]. intros r s3 ? ? (Hl3 & -> & -> & Hr).
    destruct r as [[]|[]| | |]; cbn [early]; try done;
      try by (split; [intros d'; by rewrite !in_dir_nil|]).
    apply on_dir_buf_relayed. cbn beta iota. split; [intros d'; by rewrite !in_dir_nil|].
    split; [intros d'; by rewrite in_dir_nil, !app_nil_r|]. by rewrite buf_of_set_other, Hl3, Hl2.
  - apply relayed_pure. split; [done|]. split; [|done]. intros d'.
    destruct (data (buf_of d (hs_lite s))); [by rewrite in_dir_nil|cbn in Hd; lia].
Qed.

Lemma flush_non_tls_spec s :
  relayed flush_non_tls s (λ r l ins sent, nothing ins ∧
    match r with
    | Ok _ => ∀ d, sent d = data (buf_of d (hs_lite s))
    | Err (TlsIo _) | Pending | Panic _ => True
    | _ => False
    end).
Proof.
  unfold flush_non_tls. eapply relayed_bind; [apply flush_whole_spec|].
  intros r s1 i1 o1 (Hi1 & Hr). destruct r as [[]|[]| | |]; cbn [early]; try done.
  destruct Hr as [Ho1 Hother]. eapply relayed_mono; [apply flush_whole_spec|].
  intros r l i2 o2 (Hi2 & Hr). split; [intros d; by rewrite Hi1, Hi2|].
  destruct r as [[]|[]| | |]; try done. destruct Hr as [Ho2 _]. intros d.
  cbn [other] in Hother. rewrite Ho1, Ho2, Hother. destruct d.
  - by rewrite in_dir_eq, (in_dir_other Outbound _ : in_dir Outbound _ Inbound = []), app_nil_r.
  - by rewrite in_dir_eq, (in_dir_other Inbound _ : in_dir Inbound _ Outbound = []).
Qed.

(** [flush_tls], over the streams outside the tunnel: the second hand's buffer goes
    on with what a further read adds to it, or the first hand's as it is. *)
Definition flushed_tls (l : LiteTlsStream) ins sent : Prop :=
  let fd := first_hand (lite_side l) in
  let sd := second_hand (lite_side l) in
  match lite_version l with
  | Some Active => nothing ins ∧ only_in fd (data (buf_of fd l)) sent
  | Some Passive => ∃ more, only_in sd more ins ∧ only_in sd (data (buf_of sd l) ++ more) sent ∧
      (more = [] ↔ data (buf_of sd l) = [])
  | None => False
  end.

Lemma flush_tls_spec s :
  relayed flush_tls s (λ r l ins sent,
    match r with Ok _ => flushed_tls (hs_lite s) ins sent | _ => True end).
Proof.
  unfold flush_tls, flushed_tls. apply relayed_get. rewrite second_hand_other.
  remember (first_hand (lite_side (hs_lite s))) as fd eqn:Hfd.
  destruct (lite_version (hs_lite s)) as [[]|]; [..|by apply relayed_pure].
  - eapply relayed_bind; [apply write_to_spec|]. intros r s2 ? sent (Hl2 & -> & Hr).
    destruct r as [n|[]| | |]; cbn [early]; try done. subst sent.
    eapply relayed_bind; [apply flush_to_spec|]. intros r s3 ? ? (Hl3 & -> & -> & Hr).
    destruct r as [[]|[]| | |]; cbn [early]; try done.
    apply on_dir_buf_relayed. cbn beta iota. split; intros d'; by rewrite !in_dir_nil, ?app_nil_r.
  - set (b := buf_of (other fd) (hs_lite s)). case_decide as Hb.
    2:{ apply relayed_pure. exists []. rewrite len_data in Hb.
      destruct (data b) eqn:E; [|cbn in Hb; lia].
      split; [intros d'; by rewrite in_dir_nil|]. split; [intros d'; by rewrite in_dir_nil|done]. }
    eapply relayed_bind; [apply read_from_bytes|].
    intros r s1 ? ? (b1 & i & Hl1 & -> & -> & _ & Hd & _ & Hr). fold b in Hd.
    destruct r as [n|[]| | |]; cbn [early]; try done. subst n. case_decide as Hi; [by apply relayed_pure|].
    apply relayed_get. pose proof (write_to_spec (other fd)) as Hw. rewrite other_other in Hw.
    eapply relayed_bind; [apply Hw|]. intros r s2 ? sent (Hl2 & -> & Hr).
    destruct r as [n|[]| | |]; cbn [early]; try done. subst sent.
    pose proof (flush_to_spec (other fd)) as Hf. rewrite other_other in Hf.
    eapply relayed_bind; [apply Hf|]. intros r s3 ? ? (Hl3 & -> & -> & Hr).
    destruct r as [[]|[]| | |]; cbn [early]; try done.
    apply on_dir_buf_relayed. cbn beta iota. exists i. rewrite Hl1, buf_of_set, Hd.
    split; [intros d'; by rewrite !in_dir_nil, !app_nil_r|].
    split; [intros d'; by rewrite !in_dir_nil, !app_nil_r|].
    rewrite len_data in Hb. split; intros Hnil; [by rewrite Hnil in Hi|]. rewrite Hnil in Hb. cbn in Hb. lia.
Qed.
End runs.

(** ** Properties *)
Section properties.
Context {I O TI TO : Type} `{AsyncRead I, AsyncWrite I, AsyncRead O, AsyncWrite O}.
Context `{AsyncRead TI, AsyncWrite TI, AsyncRead TO, AsyncWrite TO}.
Context `{!AsyncReadOk I, !AsyncWriteOk I, !AsyncReadOk O, !AsyncWriteOk O}.
Context `{!AsyncReadOk TI, !AsyncWriteOk TI, !AsyncReadOk TO, !AsyncWriteOk TO}.
Context (leave_in : I → outcome tls_error TI) (leave_out : O → outcome tls_error TO).

(** C35: the Lite TLS handshake, over any two streams. [sent] is what its successful
    writes were handed, [took] what the streams took of it, the same unless a write was
    short (the code does not look; then the rest is lost). On every exit that lets the
    connection go on, in each direction what was read was sent on or is still in the
    buffer, whose cursor is at the end of a TLS record; the leave command was sent in
    the direction of the first hand behind what was sent on there; a tunnel is left actively only after a whole
    record 0xff was met at a record boundary, all before it sent on, and passively
    only after six bytes that start with 0xff at a record boundary. The
    handshake runs out of fuel only once it has read as many bytes. *)
Theorem lite_tls_handshake_exact reads sched fuel side (i : I) (o : O) r s :
  handshake reads sched fuel (mkHs (new_endpoint side) i o) = (r, s) →
  ∃ ins sent took : Direction → list Z,
    io_handed i (ins Inbound) (sent Outbound) (took Outbound) (hs_in s) ∧
    io_handed o (ins Outbound) (sent Inbound) (took Inbound) (hs_out s) ∧
    lite_side (hs_lite s) = side ∧
    match r with
    | Ok _ =>
        match lite_version (hs_lite s) with
        | None => conserved (hs_lite s) ins sent
        | Some v => left_tunnel v (hs_lite s) ins sent
        end
    | Err (TlsParser (Invalid _)) => conserved (hs_lite s) ins sent
    | Err (TlsIo _) | Pending | Panic _ => True
    | OutOfFuel => Nat.min reads fuel ≤ length (ins Inbound) + length (ins Outbound)
    | Err _ => False
    end.
Proof.
  intros Hrun. pose proof (handshake_spec reads sched fuel side i o) as Hs.
  unfold relayed, post in Hs. rewrite Hrun in Hs. cbn [fst snd] in Hs.
  destruct Hs as (ins & sent & (took & Hi & Ho) & Hside & Hex & _). by exists ins, sent, took.
Qed.

(** A handshake under its timeout; a suspended one is an error. *)
Lemma handshake_timeout_run reads sched fuel side (i : I) (o : O) :
  ∃ ins sent s, (handshake_timeout reads sched fuel (mkHs (new_endpoint side) i o)).2 = s ∧
    moved (mkHs (new_endpoint side) i o) s ins sent ∧ lite_side (hs_lite s) = side ∧
    match (handshake_timeout reads sched fuel (mkHs (new_endpoint side) i o)).1 with
    | Ok _ => ins Inbound ≠ [] ∧ match lite_version (hs_lite s) with
        | None => conserved (hs_lite s) ins sent
        | Some v => left_tunnel v (hs_lite s) ins sent
        end
    | Err (TlsParser (Invalid _)) => conserved (hs_lite s) ins sent
    | Err (TlsParser (Incomplete _)) => False
    | _ => True
    end.
Proof.
  unfold handshake_timeout. rewrite st_try_bind.
  pose proof (handshake_spec reads sched fuel side i o) as Hs. unfold relayed, post in Hs.
  destruct (handshake _ _ _ _) as [r s]. cbn [fst snd] in Hs |- *.
  destruct Hs as (ins & sent & Hm & Hside & Hex & Hne). exists ins, sent, s.
  destruct r as [[]|[[]| |]| | |]; try done. do 3 (split; [done|]). split; [by apply Hne|done].
Qed.

(** A connection whose first bytes are no TLS handshake: the tunnel is kept, and
    when the relay of the tunnel starts, each stream was sent exactly what was read
    from the other, from the first byte ([took] of it, if a write was short). *)
Theorem lite_tls_non_tls_transparent reads sched fuel side other_error (i i' : I) (o o' : O) :
  (∀ e, match other_error e with Ok (RelayTls _ _) | Ok (RelayLite _ _) => False | _ => True end) →
  forward_lite leave_in leave_out reads sched fuel side other_error i o = Ok (RelayTls i' o') →
  ∃ ins took : Direction → list Z,
    io_handed i (ins Inbound) (ins Outbound) (took Outbound) i' ∧ io_handed o (ins Outbound) (ins Inbound) (took Inbound) o'.
Proof.
  intros Hother. unfold forward_lite.
  destruct (handshake_timeout_run reads sched fuel side i o) as (ins & sent & s & Hs & Hm & _ & Hex).
  destruct (handshake_timeout _ _ _ _) as [r s0]. cbn [fst snd] in Hs, Hex. subst s0.
  destruct r as [?|[[]| |]| | |]; try done.
  - destruct (lite_version (hs_lite s)); [|done].
    destruct (leave_in (hs_in s)), (leave_out (hs_out s)); try done.
    cbn. by destruct (flush_tls _) as [[] ?].
  - pose proof (flush_non_tls_spec s) as Hf. unfold relayed, post in Hf.
    destruct (flush_non_tls s) as [[]  s2]; cbn [fst snd] in Hf |- *; try done. intros [= <- <-].
    destruct Hf as (ins2 & sent2 & Hm2 & Hi2 & Hs2).
    destruct (moved_trans _ _ _ _ _ _ _ Hm Hm2) as (took & Hi & Ho). cbn [hs_in hs_out] in Hi, Ho.
    assert (∀ d, sent d ++ sent2 d = ins d) as Hall.
    { intros d. destruct (Hex d) as (_ & -> & _). by rewrite Hs2. }
    rewrite !Hi2, !app_nil_r, !Hall in Hi, Ho. by exists ins, took.
  - intros Hx. specialize (Hother (TlsIo e)). by rewrite Hx in Hother.
  - intros Hx. specialize (Hother Elapsed). by rewrite Hx in Hother.
Qed.

(** What each direction was sent by a side that leaves the tunnel: [ins], [sent]
    inside it, [ins2], [sent2] outside. The direction of the first hand was sent on
    whole up to [Q], followed by the leave command. Active: what the buffer still
    [kept] goes out behind it, outside the tunnel; the other direction was sent on up
    to the record 0xff. Passive: the bytes [held] back in the other direction go out
    outside the tunnel with the [more] bytes a further read delivers there; the [kept]
    bytes of the first hand, less than a record's header, are not sent on. *)
Definition left_with (side : LiteTlsEndpointSide) (ins sent ins2 sent2 : Direction → list Z) (Q kept : list Z) : Prop :=
  let fd := first_hand side in
  let sd := second_hand side in
  sent fd = Q ++ LEAVE_TLS_COMMAND ∧ ins fd = Q ++ kept ∧ ins2 fd = [] ∧
  ((sent2 fd = kept ∧ ends_in_0xff (ins sd) (sent sd) ∧ ins2 sd = [] ∧ sent2 sd = []) ∨
   (∃ held cmd more, ins sd = sent sd ++ held ++ cmd ∧ length cmd = 6 ∧ cmd !! 0 = Some 0xff%Z ∧
      aligned (ins sd) (length (sent sd ++ held)) ∧
      ins2 sd = more ∧ sent2 sd = held ++ more ∧ (more = [] ↔ held = []) ∧ sent2 fd = [] ∧ length kept < 5)).

(** The handshake of a connection that leaves, and what follows it. *)
Lemma leaves_shape reads sched fuel side other_error (i : I) (o : O) (ti : TI) (to : TO) :
  (∀ e, match other_error e with Ok (RelayTls _ _) | Ok (RelayLite _ _) => False | _ => True end) →
  forward_lite leave_in leave_out reads sched fuel side other_error i o = Ok (RelayLite ti to) →
  ∃ (i1 : I) (o1 : O) (ti1 : TI) (to1 : TO) (ins sent took ins2 sent2 took2 : Direction → list Z) Q kept,
    io_handed i (ins Inbound) (sent Outbound) (took Outbound) i1 ∧
    io_handed o (ins Outbound) (sent Inbound) (took Inbound) o1 ∧
    leave_in i1 = Ok ti1 ∧ leave_out o1 = Ok to1 ∧
    io_handed ti1 (ins2 Inbound) (sent2 Outbound) (took2 Outbound) ti ∧
    io_handed to1 (ins2 Outbound) (sent2 Inbound) (took2 Inbound) to ∧
    left_with side ins sent ins2 sent2 Q kept ∧ ins Inbound ≠ [].
Proof.
  intros Hother. unfold forward_lite.
  destruct (handshake_timeout_run reads sched fuel side i o) as (ins & sent & s & Hs & (took & Hi & Ho) & Hside & Hex).
  destruct (handshake_timeout _ _ _ _) as [r s0]. cbn [fst snd] in Hs, Hex. subst s0.
  destruct r as [?|[[]| |]| | |]; try done.
  2: by destruct (flush_non_tls s) as [[] ?].
  2: intros Hx; specialize (Hother (TlsIo e)); by rewrite Hx in Hother.
  2: intros Hx; specialize (Hother Elapsed); by rewrite Hx in Hother.
  destruct Hex as [Hne Hex]. destruct (lite_version (hs_lite s)) as [v|] eqn:Hv; [|done].
  destruct (leave_in (hs_in s)) as [ti1| | | |] eqn:Hti; try done.
  destruct (leave_out (hs_out s)) as [to1| | | |] eqn:Hto; try done.
  cbn [mbind outcome_bind]. set (s1 := mkHs (hs_lite s) ti1 to1).
  pose proof (flush_tls_spec s1) as Hf. unfold relayed, post in Hf.
  destruct (flush_tls s1) as [[] s2]; cbn [fst snd] in Hf |- *; try done. intros [= <- <-].
  destruct Hf as (ins2 & sent2 & (took2 & Hi2 & Ho2) & Hfl). unfold flushed_tls in Hfl. cbn [hs_lite s1] in Hfl.
  destruct Hex as ((Q & HQ & (_ & Hkept & _)) & Hv2). rewrite Hv, Hside in *.
  exists (hs_in s), (hs_out s), ti1, to1, ins, sent, took, ins2, sent2, took2, Q, (data (buf_of (first_hand side) (hs_lite s))).
  do 6 (split; [done|]). split; [|done]. unfold left_with. cbn zeta. split; [done|]. split; [done|].
  rewrite second_hand_other in *. destruct v.
  - destruct Hfl as [Hn Hsent]. destruct Hv2 as [Hend _]. split; [apply Hn|]. left.
    rewrite !Hsent, !Hn. autorewrite with lite. done.
  - destruct Hfl as (more & Hmi & Hms & Hiff). destruct Hv2 as (cmd & Hin & Hc & Hff & Hal & Hidle).
    rewrite !Hmi, !Hms. autorewrite with lite. split; [done|]. right.
    exists (data (buf_of (other (first_hand side)) (hs_lite s))), cmd, more. split_and!; try done.
    rewrite <- len_data. destruct Hidle as [Hl [Hc0|Hd]]; [|rewrite len_data, Hd; cbn]; lia.
Qed.

End properties.

(** ** Examples *)
Definition ex_record (t : Z) (body : list Z) : list Z :=
  [t; 3; 3; 0; Z.of_nat (length body)]%Z ++ body.
Definition ex_hello : list Z := [0x16; 3; 1; 0; 2; 7; 7]%Z.
Definition ex_sched (n : nat) : Direction := if Nat.even n then Inbound else Outbound.

(** A client whose user sends an application record, and a server that sends one
    and agrees to leave. *)
Definition ex_user : Sink :=
  mkSink [Gives ex_hello; Gives (ex_record 0x17 [1; 2; 3]%Z); Waits; Waits] [].
Definition ex_server : Sink :=
  mkSink [Gives (ex_record 0x16 [9]%Z); Gives (ex_record 0x17 [4]%Z); Gives LEAVE_TLS_COMMAND] [].

(** A user that does not speak TLS. *)
Definition ex_plain : Sink := mkSink [Gives [71; 69; 84; 32; 47]%Z] [].

Abbreviation ex_start i o := (mkHs (new_endpoint ClientSide) i o).

Lemma lite_tls_handshake_exact_witness :
  ∃ s : HsSt Sink Sink, handshake 20 ex_sched 20 (ex_start ex_user ex_server) = (Ok tt, s) ∧
  ∃ ins sent took : Direction → list Z,
    io_handed ex_user (ins Inbound) (sent Outbound) (took Outbound) (hs_in s) ∧
    io_handed ex_server (ins Outbound) (sent Inbound) (took Inbound) (hs_out s) ∧
    lite_side (hs_lite s) = ClientSide ∧
    match lite_version (hs_lite s) with
    | None => conserved (hs_lite s) ins sent
    | Some v => left_tunnel v (hs_lite s) ins sent
    end.
Proof.
  assert ((handshake 20 ex_sched 20 (ex_start ex_user ex_server)).1 = Ok tt) as H1 by (vm_compute; reflexivity).
  apply surjective_pairing_eq in H1. eexists. split; [exact H1|].
  exact (lite_tls_handshake_exact 20 ex_sched 20 ClientSide ex_user ex_server _ _ H1).
Defined.

Lemma lite_tls_non_tls_transparent_witness :
  ∃ i' o', forward_lite (TI:=Sink) (TO:=Sink) Ok Ok 20 ex_sched 20 ClientSide Err ex_plain (mkSink [] []) =
    Ok (RelayTls i' o') ∧
  ∃ ins took : Direction → list Z,
    io_handed ex_plain (ins Inbound) (ins Outbound) (took Outbound) i' ∧
    io_handed (mkSink [] []) (ins Outbound) (ins Inbound) (took Inbound) o'.
Proof.
  assert (forward_lite (TI:=Sink) (TO:=Sink) Ok Ok 20 ex_sched 20 ClientSide Err ex_plain (mkSink [] []) =
    Ok (RelayTls (mkSink [] []) (mkSink [] [71; 69; 84; 32; 47]%Z))) as H1 by (vm_compute; reflexivity).
  eexists _, _. split; [exact H1|].
  exact (lite_tls_non_tls_transparent Ok Ok 20 ex_sched 20 ClientSide Err _ _ _ _ (λ _, Logic.I) H1).
Defined.


(** *** What the handshake does not do *)

(** The second hand may trigger the leave while a record of the first hand is
    incomplete: the command then lands inside that record, where the peer takes it
    for the record's body. *)
Example lite_tls_leave_inside_record :
  let user := mkSink [Gives ex_hello; Gives (take 6 (ex_record 0x17 [1; 2; 3]%Z)); Waits; Waits] [] in
  let '(r, s) := handshake 20 ex_sched 20 (ex_start user ex_server) in
  r = Ok tt ∧ sk_log (hs_out s) = ex_hello ++ take 6 (ex_record 0x17 [1; 2; 3]%Z) ++ LEAVE_TLS_COMMAND.
Proof. vm_compute. done. Qed.

(** Left passively, the start of a header the first hand holds is dropped. *)
Example lite_tls_passive_drops_tail :
  let user := mkSink [Gives ex_hello; Gives [0x14; 3; 3]%Z; Waits; Waits] [] in
  let server := mkSink [Gives LEAVE_TLS_COMMAND] [] in
  ∃ ti, forward_lite (Ok (A:=Sink)) (Ok (A:=Sink)) 20 ex_sched 20 ClientSide Err user server =
    Ok (RelayLite ti (mkSink [] (ex_hello ++ LEAVE_TLS_COMMAND))).
Proof. eexists. vm_compute. reflexivity. Qed.

(** [write] is called, not [write_all]: what a short write leaves is dropped. Here
    the server's socket takes 3 of the 7 bytes of the hello. *)
Example lite_tls_short_write_loses :
  let '(r, s) := handshake (I:=Sink) (O:=Script) 20 ex_sched 20
      (mkHs (new_endpoint ClientSide) (mkSink [Gives ex_hello; Waits; Waits; Fails UnexpectedEof] [])
        (mkScript [Waits; Waits; Gives []] [Gives 3] [] false)) in
  sc_log (hs_out s) = take 3 ex_hello ∧ data (inbound_buf (hs_lite s)) = [].
Proof. vm_compute. done. Qed.

(** A leave command that arrives in two reads is refused, and goes on to the user
    as a record. *)
Example lite_tls_split_command_refused :
  let user := mkSink [Gives ex_hello; Waits; Waits] [] in
  let server := mkSink [Gives (take 5 LEAVE_TLS_COMMAND); Gives (drop 5 LEAVE_TLS_COMMAND)] [] in
  (handshake 20 ex_sched 20 (ex_start user server)).1 =
    Err (TlsParser (Invalid "wants to drop 0xff but there seems to be packets after 0xff")).
Proof. vm_compute. done. Qed.

(** Over QUIC the server cannot leave the tunnel: once the handshake has succeeded it
    panics. *)
Lemma lite_tls_over_quic_panics {W R O TI} `{AsyncRead R, AsyncWrite W, AsyncRead O, AsyncWrite O}
    `{AsyncRead TI, AsyncWrite TI} reads sched fuel (i : BufferedRecv (WRTuple W R)) (o : O) s v :
  handshake_timeout reads sched fuel (mkHs (new_endpoint ServerSide) i o) = (Ok tt, s) →
  lite_version (hs_lite s) = Some v →
  server_forward_lite (TI:=TI) reads sched fuel i o = Panic "not implemented".
Proof. unfold server_forward_lite, forward_lite. by intros -> ->. Qed.
