(* ===== verification/Inbound.v ===== *)
(** The user's side of the client: what the SOCKS5 and the HTTP front end share.

    [impl_accept] of src/src/client/inbound/socks5.rs and http.rs both read into a
    [Vec] and run an incremental parser after each read. [Accepting] is the state
    of such a loop; [serves] specifies a piece of it by the bytes it reads and
    writes. *)
From S2P Require Import Prelude Vec MixAddr Io UdpTraits TrojanUdp Acceptor UdpSockets.

(** [anyhow::Error] as the front ends make it. *)
Inductive accept_error : Type :=
| AcceptParser (e : ParserError)
| AcceptIo (e : io_error).

(** The front ends, by their implementations of [RequestFromClient]. *)
Inductive Front : Type := HttpFront | Socks5Front.

(** [local_addr] of a socket. *)
Class LocalAddr (I : Type) := local_addr : I → io_error + SocketAddr.

(** [io::Result], and [?] on it. *)
Definition of_result {A} (r : io_error + A) : outcome accept_error A :=
  match r with inl e => Err (AcceptIo e) | inr a => Ok a end.

(** [SocketAddr::ip]. *)
Definition ip_of (a : SocketAddr) : IpAddr :=
  match a with SocketV4 o _ => IpV4 o | SocketV6 s _ => IpV6 s end.

(** [ClientConnectionRequest]: the echo arm is the QUIC manager's. *)
Definition ClientConnectionRequest (I K X E : Type) : Type :=
  ConnectionRequest (BufferedRecv I) (Socks5UdpStream K X) E.

(** [new_client_tcp_stream]. *)
Definition new_client_tcp_stream {I} (inner : I) (http_request_extension : option (list Z)) : BufferedRecv I :=
  BufferedRecv_new inner ((λ v, (0, v)) <$> http_request_extension).

Record Accepting (Q I : Type) := mkAccepting { acc_req : Q; acc_buf : Vec; acc_io : I }.
Arguments mkAccepting {Q I}.
Arguments acc_req {Q I}.
Arguments acc_buf {Q I}.
Arguments acc_io {Q I}.

Section accepting.
Context {Q I : Type} `{AsyncRead I, AsyncWrite I}.
Abbreviation Acc := (Accepting Q I).

Definition on_io {A} (m : ST I io_error A) : ST Acc accept_error A :=
  st_map_err AcceptIo (st_zoom acc_io (λ i s, mkAccepting (acc_req s) (acc_buf s) i) m).

(** [self.parse(&mut buffer)]. *)
Definition on_parse {E A} (m : ST (Q * Vec) E A) : ST Acc E A :=
  st_zoom (λ s, (acc_req s, acc_buf s)) (λ p s, mkAccepting p.1 p.2 (acc_io s)) m.

(** [inbound.read_buf(&mut buffer).await?]. *)
Definition read_more : ST Acc accept_error nat :=
  s ← st_get;
  bs ← on_io (poll_read (vec_room (acc_buf s)));
  on_parse (st_modify (λ p, (p.1, vec_filled bs p.2)));;
  mret (length bs).

(** The loop of [impl_accept]: [parse] after each read that is not the end of the
    file; [next] is what follows a successful [parse] and tells whether to leave the
    loop. *)
Fixpoint accept_loop (eof : string) (parse : ST (Q * Vec) ParserError unit)
    (next : ST Acc accept_error bool) (fuel : nat) : ST Acc accept_error unit :=
  match fuel with
  | 0 => st_lift OutOfFuel
  | S fuel' =>
      read ← read_more;
      if decide (read ≠ 0) then
        res ← st_try (on_parse parse);
        match res with
        | Ok _ =>
            done ← next;
            if done : bool then mret tt else accept_loop eof parse next fuel'
        | Err (Invalid msg) => throw (AcceptParser (Invalid msg))
        | Err (Incomplete _) => accept_loop eof parse next fuel'
        | Pending => st_lift Pending
        | Panic msg => panic msg
        | OutOfFuel => st_lift OutOfFuel
        end
      else throw (AcceptParser (Invalid eof))
  end.
End accepting.

(** Feeding a parser read by read: what it decides, and the state it is left in;
    [Err (Incomplete _)] if it wants more. *)
Fixpoint feed {Q} (parse : ST (Q * Vec) ParserError unit) (st : Q * Vec) (reads : list (list Z))
    : outcome ParserError unit * (Q * Vec) :=
  match reads with
  | [] => (Err (Incomplete ""), st)
  | bs :: reads' =>
      let '(r, st') := parse (st.1, vec_filled bs st.2) in
      match r with
      | Err (Incomplete _) => feed parse st' reads'
      | _ => (r, st')
      end
  end.

(** ** What a piece of the loop reads and writes *)
Section serves.
Context {Q I : Type} `{AsyncReadOk I, !AsyncWrite I, !AsyncWriteOk I}.
Abbreviation Acc := (Accepting Q I).
Implicit Types s : Acc.

Definition serves {A} (m : ST Acc accept_error A) s
    (F : outcome accept_error A → Q → Vec → list Z → list Z → Prop) : Prop :=
  post m s (λ r s', ∃ ins outs, io_trace (acc_io s) ins outs (acc_io s') ∧
    F r (acc_req s') (acc_buf s') ins outs).

Definition cut_short {A B} (r : outcome accept_error A) : outcome accept_error B :=
  match r with
  | Err e => Err e
  | Panic msg => Panic msg
  | OutOfFuel => OutOfFuel
  | _ => Pending
  end.

Lemma serves_bind {A B} (m : ST Acc accept_error A) (f : A → ST Acc accept_error B) s F G :
  serves m s F →
  (∀ r s1 ins outs, F r (acc_req s1) (acc_buf s1) ins outs →
    match r with
    | Ok a => serves (f a) s1 (λ r2 q b ins2 outs2, G r2 q b (ins ++ ins2) (outs ++ outs2))
    | _ => G (cut_short r) (acc_req s1) (acc_buf s1) ins outs
    end) → serves (m ≫= f) s G.
Proof.
  unfold serves, post, mbind, st_bind. destruct (m s) as [r s1]. cbn [fst snd].
  intros (ins & outs & Ht & HF) Hk. specialize (Hk r s1 ins outs HF).
  destruct r; cbn [cut_short] in Hk; try by (exists ins, outs).
  destruct Hk as (ins2 & outs2 & Ht2 & HG). exists (ins ++ ins2), (outs ++ outs2).
  eauto using io_trace_trans.
Qed.

Lemma serves_mono {A} (m : ST Acc accept_error A) s F G :
  serves m s F → (∀ r q b ins outs, F r q b ins outs → G r q b ins outs) → serves m s G.
Proof. intros (ins & outs & Ht & HF) HFG. exists ins, outs. auto. Qed.

Lemma serves_pure {A} (r : outcome accept_error A) s F :
  F r (acc_req s) (acc_buf s) [] [] → serves (st_lift r) s F.
Proof. exists [], []. split; [apply io_refl|done]. Qed.

Lemma serves_get {A} (f : Acc → ST Acc accept_error A) s F :
  serves (f s) s F → serves (st_get ≫= f) s F.
Proof. done. Qed.

(** [parse] touches the request and the buffer alone. *)
Lemma serves_parse {A} (m : ST (Q * Vec) ParserError A) s F :
  (let '(r, p) := m (acc_req s, acc_buf s) in F (Ok r) p.1 p.2 [] []) →
  serves (st_try (on_parse m)) s F.
Proof.
  unfold serves, post, st_try, on_parse. rewrite st_zoom_run. destruct (m _) as [r p].
  intros HF. exists [], []. split; [apply io_refl|exact HF].
Qed.

Lemma serves_modify (f : Q * Vec → Q * Vec) s F :
  F (Ok tt) (f (acc_req s, acc_buf s)).1 (f (acc_req s, acc_buf s)).2 [] [] →
  serves (on_parse (st_modify f)) s F.
Proof. exists [], []. split; [apply io_refl|done]. Qed.

(** Nothing but the stream can make these fail. *)
Definition io_failed {A} (r : outcome accept_error A) : Prop :=
  match r with Err (AcceptIo _) | Pending | Panic _ => True | _ => False end.

Lemma read_more_spec s :
  serves read_more s (λ r q b ins outs, q = acc_req s ∧ outs = [] ∧
    match r with
    | Ok n => n = length ins ∧ vdata b = vdata (acc_buf s) ++ ins ∧ b = vec_filled ins (acc_buf s)
    | _ => io_failed r
    end).
Proof.
  unfold serves, post, read_more. rewrite st_get_bind. set (room := vec_room (acc_buf s)).
  unfold on_io, st_map_err, st_zoom.
  pose proof (io_trace_read1 room (acc_io s)) as Ht. pose proof (read_fits_fst room (acc_io s)) as Hf.
  pose proof (poll_read_returns room (acc_io s)) as Hn. rewrite st_bind_split.
  destruct (poll_read room (acc_io s)) as [[bs| | | |] i']; cbn in *; try done.
  - exists bs, []. split; [done|]. split; [done|]. split; [done|]. split; [done|].
    split; [exact (vec_filled_data bs (acc_buf s))|done].
  - exists [], []. done.
  - exists [], []. done.
  - exists [], []. done.
Qed.

Lemma write_all_serves bs s :
  serves (on_io (write_all bs)) s (λ r q b ins outs, q = acc_req s ∧ b = acc_buf s ∧ ins = [] ∧
    outs `prefix_of` bs ∧ match r with Ok _ => outs = bs | _ => io_failed r end).
Proof.
  unfold serves, post, on_io, st_map_err, st_zoom.
  destruct (write_all_spec bs (acc_io s)) as (Hret & outs & rest & Ht & Hbs & Hok).
  destruct (write_all bs (acc_io s)) as [[[]| | | |] i']; cbn in *; try done;
    exists [], outs; (split; [by apply write_trace_io|]); split_and!; try done; try (by exists rest).
  by rewrite Hbs, (Hok eq_refl), app_nil_r.
Qed.

Lemma flush_serves s :
  serves (on_io poll_flush) s (λ r q b ins outs, q = acc_req s ∧ b = acc_buf s ∧ ins = [] ∧
    outs = [] ∧ match r with Ok _ => True | _ => io_failed r end).
Proof.
  unfold serves, post, on_io, st_map_err, st_zoom.
  pose proof (io_trace_flush1 (acc_io s)) as Ht. pose proof (poll_flush_returns (acc_io s)) as Hn.
  destruct (poll_flush (acc_io s)) as [[] i']; cbn in *; try done; exists [], []; done.
Qed.

(** A loop that leaves at the first success: its reads, fed to the parser. *)
Definition wants_more (r : outcome ParserError unit) : Prop :=
  match r with Err (Incomplete _) => True | _ => False end.

Lemma accept_loop_feed eof (parse : ST (Q * Vec) ParserError unit) fuel s :
  serves (accept_loop eof parse (mret true) fuel) s (λ r q b ins outs, outs = [] ∧
    ∃ reads, ins = concat reads ∧
    let fed := feed parse (acc_req s, acc_buf s) reads in
    match r with
    | Ok _ => fed = (Ok tt, (q, b)) ∧ ∃ front last, reads = front ++ [last] ∧
        wants_more (feed parse (acc_req s, acc_buf s) front).1
    | Err (AcceptParser (Invalid msg)) => fed.1 = Err (Invalid msg) ∨ wants_more fed.1
    | Err (AcceptParser (Incomplete _)) => False
    | OutOfFuel => fuel ≤ length ins ∨ fed.1 = OutOfFuel
    | _ => True
    end).
Proof.
  revert s. induction fuel as [|fuel IH]; intros s; cbn [accept_loop].
  { apply serves_pure. split; [done|]. exists []. split; [done|]. left. cbn. lia. }
  eapply serves_bind; [apply read_more_spec|].
  intros r s1 ins outs (Hq & -> & Hr). destruct r as [n|[]| | |]; cbn [cut_short]; try done;
    try (split; [done|]; exists [ins]; cbn [concat]; by rewrite app_nil_r).
  destruct Hr as (-> & _ & Hb). case_decide as Hn.
  2:{ apply serves_pure. split; [done|]. exists []. split; [|by right].
    destruct ins; [done|cbn in Hn; lia]. }
  eapply serves_bind.
  { apply serves_parse. rewrite Hq, Hb.
    instantiate (1 := λ r q b i o, i = [] ∧ o = [] ∧ ∃ r0, r = Ok r0 ∧
      parse (acc_req s, vec_filled ins (acc_buf s)) = (r0, (q, b))). cbn beta.
    destruct (parse _) as [r0 [q b]]. eauto 10. }
  intros r s2 ? ? (-> & -> & r0 & -> & Hp). cbn [app].
  destruct r0 as [[]|[msg|msg]| |msg|].
  - eapply serves_bind; [apply (serves_pure (Ok true) s2 (λ r q b i o, r = Ok true ∧ i = [] ∧ o = [] ∧
      q = acc_req s2 ∧ b = acc_buf s2)); done|].
    intros r s3 ? ? (-> & -> & -> & Hq3 & Hb3). apply (serves_pure (Ok tt)). split; [done|].
    exists [ins]. cbn [concat feed]. cbn [fst snd]. rewrite Hp, Hq3, Hb3. split; [done|].
    split; [done|]. by exists [], ins.
  - eapply serves_mono; [apply IH|]. intros r q b ins2 outs2 (-> & reads & -> & Hr). split; [done|].
    exists (ins :: reads). split; [done|]. cbn zeta in *. cbn [feed fst snd]. rewrite Hp.
    destruct r as [[]|[[]|]| | |]; try done.
    + destruct Hr as (Hf & front & last & -> & Hw). split; [done|]. exists (ins :: front), last.
      split; [done|]. cbn [feed fst snd]. by rewrite Hp.
    + destruct Hr as [Hr|Hr]; [left|by right]. rewrite length_app. lia.
  - apply serves_pure. split; [done|]. exists [ins]. cbn [concat feed fst snd]. rewrite Hp. split; [done|by left].
  - apply serves_pure. split; [done|]. exists [ins]. done.
  - apply serves_pure. split; [done|]. exists [ins]. done.
  - apply serves_pure. split; [done|]. exists [ins]. cbn [concat feed fst snd]. rewrite Hp. split; [done|by right].
Qed.
End serves.
