(* ===== verification/Socks5.v ===== *)
(** The SOCKS5 front end: [Socks5Request] of src/src/client/inbound/socks5.rs.

    A request is accepted in two phases, a greeting and a request proper, each parsed
    again after every read. The user's socket, the UDP socket bound for a UDP
    association and the reset channel are parameters. *)
From S2P Require Import Prelude Vec MixAddr Io UdpTraits TrojanUdp Acceptor UdpSockets Inbound.

(** ** Data *)
Inductive Sock5ParsePhase : Type := P1ClientHello | P2ClientRequest.

Record Socks5Request := mkSocks5Request {
  s5_phase : Sock5ParsePhase;
  s5_is_udp : bool;
  s5_addr : MixAddrType;
}.

Definition PHASE1_SERVER_REPLY : list Z := [5; 0]%Z.
Definition PHASE2_SERVER_REPLY : list Z := [5; 0; 0]%Z.

(** [Socks5Request::new]; the socket is the [acc_io] of the loop. *)
Definition Socks5Request_new : Socks5Request := mkSocks5Request P1ClientHello false MNone.

Definition s5_set_phase p r := mkSocks5Request p (s5_is_udp r) (s5_addr r).
Definition s5_set_udp u r := mkSocks5Request (s5_phase r) u (s5_addr r).
Definition s5_set_addr a r := mkSocks5Request (s5_phase r) (s5_is_udp r) a.

(** ** [parse] *)
Definition s5_parse : ST (Socks5Request * Vec) ParserError unit :=
  '(req, v) ← st_get;
  let buf := vdata v in
  match s5_phase req with
  | P1ClientHello =>
      st_lift (expect_buf_len buf 2 "Sock5ParsePhase::parse phase 1 incomplete[1]");;
      version ← st_lift (index buf 0);
      if decide (version ≠ 5)%Z then throw (Invalid "Socks5Request::parse only support socks v5") else
      num ← st_lift (index buf 1);
      let expected_len := 2 + Z.to_nat num in
      st_lift (expect_buf_len buf expected_len "Sock5ParsePhase::parse phase 1 incomplete[2]");;
      methods ← st_lift (slice buf 2 expected_len);
      if decide (0%Z ∈ methods) then mret tt
      else throw (Invalid "Socks5Request::parse method invalid")
  | P2ClientRequest =>
      st_lift (expect_buf_len buf 5 "Sock5ParsePhase::parse phase 2 incomplete[1]");;
      version ← st_lift (index buf 0);
      if decide (version ≠ 5)%Z then throw (Invalid "Socks5Request::parse only support socks v5") else
      kind ← st_lift (index buf 1);
      (if decide (kind = 1)%Z then st_modify (λ p, (s5_set_udp false p.1, p.2))
       else if decide (kind = 3)%Z then st_modify (λ p, (s5_set_udp true p.1, p.2))
       else throw (Invalid "Socks5Request::parse invalid connection type"));;
      tail ← st_lift (slice_from buf 3);
      '(addr, _) ← st_lift (Mix.from_encoded_bytes tail);
      st_modify (λ p, (s5_set_addr addr p.1, p.2))
  end.

(** ** [impl_accept] *)
Section accept.
Context {I K X E : Type} `{AsyncRead I, AsyncWrite I, LocalAddr I, LocalAddr K}.
Abbreviation Acc := (Accepting Socks5Request I).

(** [UdpSocket::bind] at a free port of an address, and the channel of the reset
    signal. *)
Context (udp_bind : IpAddr → io_error + K) (reset_rx : X).

(** The replies of the loop: after the greeting the buffer is emptied. *)
Definition s5_next : ST Acc accept_error bool :=
  s ← st_get;
  match s5_phase (acc_req s) with
  | P1ClientHello =>
      on_io (write_all PHASE1_SERVER_REPLY);;
      on_parse (st_modify (λ p, (s5_set_phase P2ClientRequest p.1, vec_set_len 0 p.2)));;
      mret false
  | P2ClientRequest => mret true
  end.

Definition s5_loop (fuel : nat) : ST Acc accept_error unit :=
  accept_loop "Socks5Request::accept unable to accept before EOF" s5_parse s5_next fuel.

(** [MixAddrType::from(&addr).write_buf(&mut buf)] behind [PHASE2_SERVER_REPLY]. *)
Definition s5_reply (addr : SocketAddr) : outcome accept_error (list Z) :=
  let '(r, buf) := Mix.write_buf (E:=accept_error) (Mix.from_socket_addr addr)
    (vec_extend_from_slice PHASE2_SERVER_REPLY (vec_with_capacity (3 + 1 + 16 + 2))) in
  _ ← r; mret (vdata buf).

(** The second component is the task a UDP association leaves behind: it owns the
    user's socket and resets the stream once that socket delivers something, ends
    or fails. *)
Definition s5_impl_accept (fuel : nat) : ST Acc accept_error (ClientConnectionRequest I K X E * option I) :=
  s5_loop fuel;;
  s ← st_get;
  local ← st_lift (of_result (local_addr (acc_io s)));
  if s5_is_udp (acc_req s) then
    server_udp_socket ← st_lift (of_result (udp_bind (ip_of local)));
    udp_local ← st_lift (of_result (local_addr server_udp_socket));
    buf ← st_lift (s5_reply udp_local);
    on_io (write_all buf);;
    s ← st_get;
    mret (UDP (Socks5UdpStream_new server_udp_socket reset_rx), Some (acc_io s))
  else
    buf ← st_lift (s5_reply local);
    on_io (write_all buf);;
    s ← st_get;
    mret (TCP (new_client_tcp_stream (acc_io s) None), None).

(** [accept]. *)
Definition s5_accept (fuel : nat)
    : ST Acc accept_error (ClientConnectionRequest I K X E * option I * MixAddrType) :=
  '(req, task) ← s5_impl_accept fuel;
  s ← st_get;
  mret (req, task, s5_addr (acc_req s)).
End accept.

(** The spawned task: whether it has sent the reset signal. *)
Definition reset_sent {I : Type} `{AsyncRead I} (i : I) : bool :=
  match (poll_read 3 i).1 with Pending => false | _ => true end.

Definition s5_start {I : Type} (inbound : I) : Accepting Socks5Request I :=
  mkAccepting Socks5Request_new (vec_with_capacity 200) inbound.

(** ** What the two phases accept *)

(** A greeting that offers the method "no authentication" (0), whatever follows it. *)
Definition greeting_ok (buf : list Z) : Prop :=
  ∃ num methods rest, buf = 5%Z :: num :: methods ++ rest ∧ length methods = Z.to_nat num ∧
    0%Z ∈ methods.

(** A request for a target, whatever follows it. *)
Definition request_ok (buf : list Z) (udp : bool) (addr : MixAddrType) : Prop :=
  ∃ reserved tail n, buf = 5%Z :: (if udp then 3 else 1)%Z :: reserved :: tail ∧
    Mix.from_encoded_bytes tail = Ok (addr, n).

(** [parse] in each phase: what it accepts, and that it neither panics nor touches
    the buffer. *)
Lemma s5_parse_greeting req v :
  s5_phase req = P1ClientHello →
  match s5_parse (req, v) with
  | (Ok _, p) => p = (req, v) ∧ greeting_ok (vdata v)
  | (Err _, p) => p = (req, v)
  | _ => False
  end.
Proof.
  intros Hp. unfold s5_parse. rewrite st_get_bind, Hp. set (buf := vdata v).
  destruct (decide (length buf < 2)) as [Hs|Hs]; [by rewrite expect_buf_len_Err by done|].
  rewrite expect_buf_len_Ok, st_lift_Ok_bind by lia.
  destruct buf as [|ver [|num tail]] eqn:Eb; [cbn in Hs; lia..|].
  rewrite (index_Ok _ 0 ver), st_lift_Ok_bind by done. case_decide as Hv; [done|].
  rewrite (index_Ok _ 1 num), st_lift_Ok_bind by done.
  destruct (decide (length (ver :: num :: tail) < 2 + Z.to_nat num)) as [Hn|Hn];
    [by rewrite expect_buf_len_Err by done|].
  rewrite expect_buf_len_Ok, st_lift_Ok_bind, slice_Ok, st_lift_Ok_bind by lia.
  replace (2 + Z.to_nat num - 2) with (Z.to_nat num) by lia.
  change (drop 2 (ver :: num :: tail)) with tail. case_decide as Hin; [|done].
  split; [done|]. subst ver. exists num, (take (Z.to_nat num) tail), (drop (Z.to_nat num) tail).
  rewrite take_drop, length_take. cbn in Hn. split; [done|]. split; [lia|done].
Qed.

Lemma s5_parse_request req v :
  s5_phase req = P2ClientRequest →
  match s5_parse (req, v) with
  | (Ok _, p) => p.2 = v ∧ s5_phase p.1 = P2ClientRequest ∧ request_ok (vdata v) (s5_is_udp p.1) (s5_addr p.1)
  | (Err _, p) => p.2 = v ∧ s5_phase p.1 = P2ClientRequest
  | _ => False
  end.
Proof.
  intros Hp. unfold s5_parse. rewrite st_get_bind, Hp. set (buf := vdata v).
  destruct (decide (length buf < 5)) as [Hs|Hs]; [by rewrite expect_buf_len_Err by done|].
  rewrite expect_buf_len_Ok, st_lift_Ok_bind by lia.
  destruct buf as [|ver [|kind [|reserved tail]]] eqn:Eb; [cbn in Hs; lia..|].
  rewrite (index_Ok _ 0 ver), st_lift_Ok_bind by done. case_decide as Hv; [done|].
  subst ver. rewrite (index_Ok _ 1 kind), st_lift_Ok_bind by done.
  assert (∀ udp : bool, kind = (if udp then 3 else 1)%Z →
    match (st_modify (λ p, (s5_set_udp udp p.1, p.2));;
        tail0 ← st_lift (slice_from (5%Z :: kind :: reserved :: tail) 3);
        '(addr, _) ← st_lift (Mix.from_encoded_bytes tail0);
        st_modify (λ p, (s5_set_addr addr p.1, p.2))) (req, v) with
    | (Ok _, p) => p.2 = v ∧ s5_phase p.1 = P2ClientRequest ∧
        request_ok (5%Z :: kind :: reserved :: tail) (s5_is_udp p.1) (s5_addr p.1)
    | (Err _, p) => p.2 = v ∧ s5_phase p.1 = P2ClientRequest
    | _ => False
    end) as Hgo.
  { intros udp Hk. rewrite st_modify_bind, slice_from_Ok, st_lift_Ok_bind by (cbn; lia).
    change (drop 3 (_ :: _ :: _ :: tail)) with tail.
    pose proof (Mix.from_encoded_bytes_total tail) as Ht. rewrite st_bind_split. unfold st_lift at 1.
    destruct (Mix.from_encoded_bytes tail) as [[a n]|e| | |] eqn:Ed; try done.
    split; [done|]. split; [done|]. exists reserved, tail, n. cbn. by rewrite Hk. }
  case_decide as H1; [by apply (Hgo false)|]. case_decide as H3; [by apply (Hgo true)|]. done.
Qed.

(** ** The session *)
Section session.
Context {I K X E : Type} `{AsyncReadOk I, !AsyncWrite I, !AsyncWriteOk I, LocalAddr I, LocalAddr K}.
Abbreviation Acc := (Accepting Socks5Request I).

(** The loop from the second phase on; [seen] is the request read so far. *)
Lemma s5_loop_request fuel (s : Acc) :
  s5_phase (acc_req s) = P2ClientRequest →
  serves (s5_loop fuel) s (λ r q b ins outs, outs = [] ∧
    match r with
    | Ok _ => request_ok (vdata (acc_buf s) ++ ins) (s5_is_udp q) (s5_addr q)
    | Err (AcceptParser (Invalid _)) => True
    | OutOfFuel => fuel ≤ length ins
    | _ => io_failed r
    end).
Proof.
  revert s. induction fuel as [|fuel IH]; intros s Hp; unfold s5_loop; cbn [accept_loop].
  { by apply serves_pure. }
  eapply serves_bind; [apply read_more_spec|].
  intros r s1 ins outs (Hq & -> & Hr). destruct r as [n|[]| | |]; cbn [cut_short]; try done.
  destruct Hr as (-> & Hb & _). case_decide as Hn; [|by apply serves_pure].
  eapply serves_bind.
  { apply serves_parse. pose proof (s5_parse_request (acc_req s1) (acc_buf s1) ltac:(congruence)) as Hpp.
    destruct (s5_parse (acc_req s1, acc_buf s1)) as [r [q b]]. cbn [fst snd] in *.
    instantiate (1 := λ r q b ins outs, ins = [] ∧ outs = [] ∧ ∃ r0, r = Ok r0 ∧
      s5_phase q = P2ClientRequest ∧ b = acc_buf s1 ∧
      match r0 with
      | Ok _ => request_ok (vdata (acc_buf s1)) (s5_is_udp q) (s5_addr q)
      | Err _ => True
      | _ => False
      end). cbn beta. split; [done|]. split; [done|]. exists r. split; [done|].
    destruct r; try done; intuition congruence. }
  intros r s2 ? ? (-> & -> & r0 & -> & Hp2 & Hb2 & Hr). cbn [app].
  destruct r0 as [?|[]| | |]; try done.
  - eapply serves_bind.
    { unfold s5_next. apply serves_get. rewrite Hp2. apply (serves_pure (Ok true) s2
        (λ r q b ins outs, r = Ok true ∧ q = acc_req s2 ∧ ins = [] ∧ outs = [])). done. }
    intros r s3 ? ? (-> & Hq3 & -> & ->). apply (serves_pure (Ok tt)). cbn [app].
    split; [done|]. by rewrite !app_nil_r, Hq3, <- Hb.
  - eapply serves_mono; [by apply IH|]. intros r q b ins2 outs2 (-> & Hr2). split; [done|]. cbn [app].
    destruct r as [?|[[]|]| | |]; try done; [by rewrite Hb2, Hb, <- app_assoc in Hr2|].
    rewrite length_app. lia.
  - by apply serves_pure.
Qed.

(** The whole loop: a greeting, its reply, a request. Whatever was read behind the
    greeting before its reply is part of [hello]. *)
Lemma s5_loop_spec fuel (s : Acc) :
  s5_phase (acc_req s) = P1ClientHello →
  serves (s5_loop fuel) s (λ r q b ins outs,
    match r with
    | Ok _ => ∃ hello req, vdata (acc_buf s) ++ ins = hello ++ req ∧ greeting_ok hello ∧
        request_ok req (s5_is_udp q) (s5_addr q) ∧ outs = PHASE1_SERVER_REPLY
    | Err (AcceptParser (Invalid _)) => outs = [] ∨ outs = PHASE1_SERVER_REPLY
    | OutOfFuel => fuel ≤ length ins
    | _ => io_failed r ∧ outs `prefix_of` PHASE1_SERVER_REPLY
    end).
Proof.
  revert s. induction fuel as [|fuel IH]; intros s Hp; unfold s5_loop; cbn [accept_loop].
  { by apply serves_pure. }
  eapply serves_bind; [apply read_more_spec|].
  intros r s1 ins outs (Hq & -> & Hr). destruct r as [n|[]| | |]; cbn [cut_short]; try done;
    try (split; [done|apply prefix_nil]).
  destruct Hr as (-> & Hb & _). case_decide as Hn; [|apply serves_pure; by left].
  eapply serves_bind.
  { apply serves_parse. pose proof (s5_parse_greeting (acc_req s1) (acc_buf s1) ltac:(congruence)) as Hpp.
    destruct (s5_parse (acc_req s1, acc_buf s1)) as [r [q b]]. cbn [fst snd] in *.
    instantiate (1 := λ r q b ins outs, ins = [] ∧ outs = [] ∧ ∃ r0, r = Ok r0 ∧
      q = acc_req s1 ∧ b = acc_buf s1 ∧
      match r0 with Ok _ => greeting_ok (vdata (acc_buf s1)) | Err _ => True | _ => False end).
    cbn beta. split; [done|]. split; [done|]. exists r. split; [done|]. destruct r; try done; intuition congruence. }
  intros r s2 ? ? (-> & -> & r0 & -> & Hq2 & Hb2 & Hr). cbn [app].
  assert (s5_phase (acc_req s2) = P1ClientHello) as Hp2 by congruence.
  destruct r0 as [?|[]| | |]; try done.
  - unfold s5_next at 1. eapply serves_bind.
    { apply serves_get. rewrite Hp2. eapply serves_bind; [apply write_all_serves|].
      instantiate (1 := λ r q b ins outs, ins = [] ∧ outs `prefix_of` PHASE1_SERVER_REPLY ∧
        match r with
        | Ok d => d = false ∧ outs = PHASE1_SERVER_REPLY ∧ s5_phase q = P2ClientRequest ∧ vdata b = []
        | _ => io_failed r
        end).
      intros r s3 i o (Hq3 & Hb3 & -> & Hpre & Hr3). destruct r as [[]| | | |]; cbn [cut_short]; try done.
      eapply serves_bind; [apply (serves_modify _ _ (λ r q b i o, r = Ok tt ∧ i = [] ∧ o = [] ∧
        q = s5_set_phase P2ClientRequest (acc_req s3) ∧ vdata b = [])); by rewrite <- (take_0 (vdata (acc_buf s3)))|].
      intros r s4 ? ? (-> & -> & -> & Hq4 & Hb4). apply (serves_pure (Ok false)).
      rewrite Hr3, !app_nil_r, Hq4. done. }
    intros r s3 ? outs (-> & Hpre & Hr3). destruct r as [d|[]| | |]; cbn [cut_short]; try done.
    destruct Hr3 as (-> & -> & Hp3 & Hb3). eapply serves_mono; [by apply s5_loop_request|].
    intros r q b ins2 outs2 (-> & Hr4). cbn [app]. rewrite Hb3 in Hr4. cbn [app] in Hr4.
    destruct r as [?|[[]|]| | |]; try done; [|by right|rewrite !length_app; lia].
    exists (vdata (acc_buf s) ++ ins), ins2. rewrite <- app_assoc, <- Hb. done.
  - eapply serves_mono; [by apply IH|]. intros r q b ins2 outs2 Hr2. cbn [app].
    rewrite Hb2, Hb, <- app_assoc in Hr2.
    destruct r as [?|[[]|]| | |]; try done. rewrite length_app. lia.
  - apply serves_pure. by left.
Qed.

(** Addresses of sockets are well-formed. *)
Context (Hlocal : ∀ (i : I) a, local_addr i = inr a → wf_socket_addr a).
Context (Hbound : ∀ (k : K) a, local_addr k = inr a → wf_socket_addr a).

Lemma s5_reply_exact a :
  wf_socket_addr a → s5_reply a = Ok (PHASE2_SERVER_REPLY ++ Mix.encoded (Mix.from_socket_addr a)).
Proof.
  intros Hwf. unfold s5_reply.
  destruct (Mix.write_buf_encoded (E:=accept_error) (Mix.from_socket_addr a)
    (vec_extend_from_slice PHASE2_SERVER_REPLY (vec_with_capacity (3 + 1 + 16 + 2)))) as (b' & -> & Hc);
    [by destruct a|by destruct a|].
  change (contents b') with (vdata b') in Hc. cbn [mbind outcome_bind]. by rewrite Hc.
Qed.

Lemma write_all_run bs (s : Acc) :
  ∃ r io outs, on_io (write_all bs) s = (r, mkAccepting (acc_req s) (acc_buf s) io) ∧
    io_trace (acc_io s) [] outs io ∧ match r with Ok _ => outs = bs | _ => io_failed r end.
Proof.
  pose proof (write_all_serves bs s) as Hs. unfold serves, post in Hs.
  destruct (on_io (write_all bs) s) as [r [q b io]]. cbn [fst snd acc_req acc_buf acc_io] in Hs.
  destruct Hs as (ins & outs & Ht & -> & -> & -> & _ & Hr). eauto 10.
Qed.

(** The second reply, and what is returned once it is out. *)
Lemma reply_run {A} bs (k : Acc → A) (s : Acc) r s' :
  (on_io (write_all bs);; s ← st_get; mret (k s)) s = (r, s') →
  (∃ outs, io_trace (acc_io s) [] outs (acc_io s') ∧ io_failed r) ∨
  (io_trace (acc_io s) [] bs (acc_io s') ∧ acc_req s' = acc_req s ∧ r = Ok (k s')).
Proof.
  rewrite st_bind_split. destruct (write_all_run bs s) as (r2 & io2 & outs & -> & Hw & Hr2).
  destruct r2 as [[]|[]| | |]; try done; intros [= <- <-]; [right; by subst outs|left; by exists outs..].
Qed.

(** How a session that was accepted ends. *)
Definition s5_granted (udp_bind : IpAddr → io_error + K) (reset_rx : X) (udp : bool)
    (bound : SocketAddr) (io : I) (req : ClientConnectionRequest I K X E) (task : option I) : Prop :=
  ∃ (io1 : I) local, local_addr io1 = inr local ∧
    if udp then ∃ k, udp_bind (ip_of local) = inr k ∧ local_addr k = inr bound ∧
      req = UDP (Socks5UdpStream_new k reset_rx) ∧ task = Some io
    else bound = local ∧ req = TCP (new_client_tcp_stream io None) ∧ task = None.

(** The session, as [post] has it. *)
Lemma s5_accept_spec udp_bind reset_rx fuel (io : I) :
  post (s5_accept (E:=E) udp_bind reset_rx fuel) (s5_start io) (λ r s, ∃ ins outs, io_trace io ins outs (acc_io s) ∧
    match r with
    | Ok (req, task, addr) => ∃ hello request udp bound,
        ins = hello ++ request ∧ greeting_ok hello ∧ request_ok request udp addr ∧
        outs = PHASE1_SERVER_REPLY ++ PHASE2_SERVER_REPLY ++ Mix.encoded (Mix.from_socket_addr bound) ∧
        s5_granted udp_bind reset_rx udp bound (acc_io s) req task
    | Err (AcceptParser (Invalid _)) => outs = [] ∨ outs = PHASE1_SERVER_REPLY
    | Err (AcceptParser (Incomplete _)) => False
    | OutOfFuel => fuel ≤ length ins
    | _ => True
    end).
Proof.
  unfold post. destruct (s5_accept _ _ _ _) as [r s] eqn:Hrun. cbn [fst snd]. revert Hrun.
  unfold s5_accept, s5_impl_accept. rewrite st_bind_assoc, st_bind_split.
  pose proof (s5_loop_spec fuel (s5_start io) eq_refl) as Hl. unfold serves, post in Hl.
  destruct (s5_loop fuel (s5_start io)) as [r1 s1]. cbn [fst snd] in Hl.
  destruct Hl as (ins & outs & Ht & Hr). cbn [acc_io acc_buf s5_start] in Ht, Hr.
  destruct r1 as [[]|[[]|]| |msg|]; try done; intros Hrun; try (injection Hrun as <- <-; by exists ins, outs).
  2: by destruct Hr.
  destruct Hr as (hello & req & Hins & Hg & Hreq & ->).
  rewrite st_bind_assoc, st_get_bind, st_bind_assoc, st_bind_split in Hrun. unfold st_lift at 1 in Hrun.
  destruct (local_addr (acc_io s1)) as [e|local] eqn:Hla; cbn [of_result] in Hrun;
    [by injection Hrun as <- <-; exists ins, PHASE1_SERVER_REPLY|].
  destruct (s5_is_udp (acc_req s1)) eqn:Hudp.
  - rewrite st_bind_assoc, st_bind_split in Hrun. unfold st_lift at 1 in Hrun.
    destruct (udp_bind (ip_of local)) as [e|k] eqn:Hk; cbn [of_result] in Hrun;
      [by injection Hrun as <- <-; exists ins, PHASE1_SERVER_REPLY|].
    rewrite st_bind_assoc, st_bind_split in Hrun. unfold st_lift at 1 in Hrun.
    destruct (local_addr k) as [e|bound] eqn:Hb; cbn [of_result] in Hrun;
      [by injection Hrun as <- <-; exists ins, PHASE1_SERVER_REPLY|].
    rewrite s5_reply_exact, st_bind_assoc, st_lift_Ok_bind, st_bind_assoc in Hrun by eauto.
    apply (reply_run _ (λ s, (UDP (Socks5UdpStream_new k reset_rx), Some (acc_io s), s5_addr (acc_req s)))) in Hrun
      as [(outs & Hw & Hf)|(Hw & Hq & ->)].
    + exists (ins ++ []), (PHASE1_SERVER_REPLY ++ outs). split; [by eapply io_trace_trans|].
      destruct r as [|[]| | |]; done.
    + eexists (ins ++ []), _. split; [by eapply io_trace_trans|]. rewrite app_nil_r, Hq.
      exists hello, req, true, bound. split; [done|]. split; [done|]. split; [done|]. split; [done|].
      exists (acc_io s1), local. split; [done|]. by exists k.
  - rewrite s5_reply_exact, st_bind_assoc, st_lift_Ok_bind, st_bind_assoc in Hrun by eauto.
    apply (reply_run _ (λ s, (TCP (new_client_tcp_stream (acc_io s) None), None, s5_addr (acc_req s)))) in Hrun
      as [(outs & Hw & Hf)|(Hw & Hq & ->)].
    + exists (ins ++ []), (PHASE1_SERVER_REPLY ++ outs). split; [by eapply io_trace_trans|].
      destruct r as [|[]| | |]; done.
    + eexists (ins ++ []), _. split; [by eapply io_trace_trans|]. rewrite app_nil_r, Hq.
      exists hello, req, false, local. split; [done|]. split; [done|]. split; [done|]. split; [done|].
      by exists (acc_io s1), local.
Qed.

(** C13: a SOCKS5 session: what is granted, and what the user was told, as a function
    of the bytes the user sent. A session is granted exactly for a greeting that
    offers no authentication, then a request: with the target and the kind of
    connection of that request, after the two replies were sent, the second with the
    address of the socket that serves the user. A session refused for what the user
    sent, or for its end, has sent nothing but the reply to the greeting. *)
Theorem socks5_accept_exact udp_bind reset_rx fuel (io : I) r s :
  s5_accept (E:=E) udp_bind reset_rx fuel (s5_start io) = (r, s) →
  ∃ ins outs, io_trace io ins outs (acc_io s) ∧
    match r with
    | Ok (req, task, addr) => ∃ hello request udp bound,
        ins = hello ++ request ∧ greeting_ok hello ∧ request_ok request udp addr ∧
        outs = PHASE1_SERVER_REPLY ++ PHASE2_SERVER_REPLY ++ Mix.encoded (Mix.from_socket_addr bound) ∧
        s5_granted udp_bind reset_rx udp bound (acc_io s) req task
    | Err (AcceptParser (Invalid _)) => outs = [] ∨ outs = PHASE1_SERVER_REPLY
    | Err (AcceptParser (Incomplete _)) => False
    | OutOfFuel => fuel ≤ length ins
    | _ => True
    end.
Proof. intros Hrun. by eapply post_run in Hrun; [|apply s5_accept_spec]. Qed.
End session.

(** ** Examples *)
#[local] Instance Script_LocalAddr : LocalAddr Script := λ _, inr (SocketV4 [127; 0; 0; 1]%Z 8889%Z).
#[local] Instance unit_LocalAddr : LocalAddr unit := λ _, inr (SocketV4 [127; 0; 0; 1]%Z 4000%Z).

Lemma ex_local_wf (i : Script) a : local_addr i = inr a → wf_socket_addr a.
Proof. intros [= <-]. split; [done|]. split; [|done]. repeat (constructor; [done|]). constructor. Qed.

Lemma ex_bound_wf (k : unit) a : local_addr k = inr a → wf_socket_addr a.
Proof. intros [= <-]. split; [done|]. split; [|done]. repeat (constructor; [done|]). constructor. Qed.

Definition ex_greeting : list Z := [5; 1; 0]%Z.
Definition ex_request : list Z := [5; 3; 0; 1; 1; 2; 3; 4; 0; 53]%Z.

(** A UDP association, the request cut into two reads. *)
Lemma socks5_accept_exact_witness :
  ∃ r s, s5_accept (E:=unit) (K:=unit) (λ _, inr tt) false 5
    (s5_start (script_of [ex_greeting; take 7 ex_request; drop 7 ex_request])) = (Ok r, s) ∧
  ∃ ins outs, io_trace (script_of [ex_greeting; take 7 ex_request; drop 7 ex_request]) ins outs (acc_io s) ∧
    let '(req, task, addr) := r in
    ∃ hello request udp bound,
      ins = hello ++ request ∧ greeting_ok hello ∧ request_ok request udp addr ∧
      outs = PHASE1_SERVER_REPLY ++ PHASE2_SERVER_REPLY ++ Mix.encoded (Mix.from_socket_addr bound) ∧
      s5_granted (λ _, inr tt) false udp bound (acc_io s) req task.
Proof.
  assert (∃ r, (s5_accept (E:=unit) (K:=unit) (λ _, inr tt) false 5
    (s5_start (script_of [ex_greeting; take 7 ex_request; drop 7 ex_request]))).1 = Ok r) as [r H1].
  { eexists. vm_compute. reflexivity. }
  apply surjective_pairing_eq in H1. exists r. eexists. split; [exact H1|].
  destruct (socks5_accept_exact ex_local_wf ex_bound_wf _ _ _ _ _ _ H1) as (ins & outs & Ht & Hr).
  exists ins, outs. split; [exact Ht|]. destruct r as [[req task] addr]. exact Hr.
Defined.

(** The end of the greeting empties the buffer: a request sent along with it is
    lost, and the session waits for another. *)
Example socks5_pipelined_request_lost :
  (s5_accept (E:=unit) (K:=unit) (λ _, inr tt) false 5 (s5_start (script_of [ex_greeting ++ ex_request]))).1 = Pending.
Proof. vm_compute. reflexivity. Qed.
