(* ===== verification/Http.v ===== *)
(** The HTTP front end: [HttpRequest] of src/src/client/inbound/http.rs.

    The request line gives the target; the rest of the head is skipped up to the
    empty line, of which [parse] keeps four bytes only. [http_parse_whole] is the
    same parser keeping everything, the reference [http_parse] is compared with. *)
From S2P Require Import Prelude Vec NetParser MixAddr Io UdpTraits TrojanUdp Acceptor UdpSockets Inbound.

(** ** Data *)
Record HttpRequest := mkHttpRequest {
  h_is_https : bool;
  h_addr : MixAddrType;
  h_cursor : nat;
}.

(** [HttpRequest::new]; the socket is the [acc_io] of the loop. *)
Definition HttpRequest_new : HttpRequest := mkHttpRequest false MNone 0.

Definition h_set_stream b c r := mkHttpRequest b (h_addr r) c.
Definition h_set_cursor c r := mkHttpRequest (h_is_https r) (h_addr r) c.
Definition h_set_addr a r := mkHttpRequest (h_is_https r) a (h_cursor r).

Definition CRLF2 : list Z := [13; 10; 13; 10]%Z.
Definition HEADER0 : list Z := bytes_of_string "GET / HTTP/1.1" ++ [13; 10]%Z ++ bytes_of_string "Host: ".
Definition HEADER1 : list Z := [13; 10]%Z ++ bytes_of_string "Connection: keep-alive" ++ CRLF2.
Definition ESTABLISHED : list Z := bytes_of_string "HTTP/1.1 200 Connection established" ++ CRLF2.

(** ** The request line *)

(** How many bytes at the front of a buffer satisfy [p]: the loops that move the
    cursor over spaces and [end] over the target. *)
Fixpoint count_while (p : Z → bool) (l : list Z) : nat :=
  match l with
  | x :: l' => if p x then S (count_while p l') else 0
  | [] => 0
  end.

Definition is_space (c : Z) : bool := bool_decide (c = 32%Z).
Definition in_target (c : Z) : bool := bool_decide (c ≠ 32 ∧ c ≠ 47)%Z.

(** [u8::to_ascii_lowercase]. *)
Definition ascii_lower (c : Z) : Z := if decide (65 ≤ c ≤ 90)%Z then (c + 32)%Z else c.

Definition set_stream_type (buf : list Z) : ST HttpRequest ParserError unit :=
  if decide (length buf < 4) then throw (Incomplete "HttpRequest::set_stream_type") else
  if decide (take 4 buf = bytes_of_string "GET ") then st_modify (h_set_stream false 4) else
  if decide (length buf < 8) then throw (Incomplete "HttpRequest::set_stream_type") else
  if decide (take 8 buf = bytes_of_string "CONNECT ") then st_modify (h_set_stream true 8) else
  throw (Invalid "HttpRequest::set_stream_type").

Section parse.
Context (overflow_checks : bool).

Definition set_host (buf : list Z) : ST HttpRequest ParserError unit :=
  st_modify (λ r, h_set_cursor (h_cursor r + count_while is_space (drop (h_cursor r) buf)) r);;
  r ← st_get;
  (if h_is_https r then mret tt
   else if decide (h_cursor r + 7 < length buf) then
     scheme ← st_lift (slice buf (h_cursor r) (h_cursor r + 7));
     if decide (map ascii_lower scheme = bytes_of_string "http://")
     then st_modify (h_set_cursor (h_cursor r + 7)) else mret tt
   else throw (Incomplete "HttpRequest::set_host"));;
  r ← st_get;
  let start := h_cursor r in
  let end_ := start + count_while in_target (drop start buf) in
  if decide (end_ = length buf) then throw (Incomplete "HttpRequest::set_host") else
  target ← st_lift (slice buf start end_);
  addr ← st_lift (Mix.from_http_header overflow_checks (h_is_https r) target);
  st_modify (h_set_addr addr).

(** The part of [parse] that reads the request line. *)
Definition http_head (buf : list Z) : ST HttpRequest ParserError unit :=
  r ← st_get;
  (if decide (h_cursor r = 0) then set_stream_type buf else mret tt);;
  r ← st_get;
  (if Mix.is_none (h_addr r) then set_host buf else mret tt).

(** [&buf[buf.len() - 4..]]: the subtraction panics, or wraps past the end. *)
Definition last_four {E} (buf : list Z) : outcome E (list Z) :=
  if decide (length buf < 4) then Panic "attempt to subtract with overflow"
  else slice_from buf (length buf - 4).

Definition on_head (buf : list Z) : ST (HttpRequest * Vec) ParserError unit :=
  st_zoom fst (λ r p, (r, p.2)) (http_head buf).

Definition http_parse : ST (HttpRequest * Vec) ParserError unit :=
  '(_, v) ← st_get;
  let buf := vdata v in
  on_head buf;;
  tail ← st_lift (last_four buf);
  if decide (tail = CRLF2) then mret tt else
  kept ← st_lift (copy_down (length buf - 4) 4 buf);
  st_modify (λ p, (p.1, vec_set_len 4 (mkVec kept (vcap v))));;
  throw (Incomplete "HttpRequest::parse").

(** The same without dropping anything. *)
Definition http_parse_whole : ST (HttpRequest * Vec) ParserError unit :=
  '(_, v) ← st_get;
  let buf := vdata v in
  on_head buf;;
  tail ← st_lift (last_four buf);
  if decide (tail = CRLF2) then mret tt else throw (Incomplete "HttpRequest::parse").

(** ** [impl_accept] *)
Section accept.
Context {I K X E : Type} `{AsyncRead I, AsyncWrite I}.
Abbreviation Acc := (Accepting HttpRequest I).

Definition http_loop (fuel : nat) : ST Acc accept_error unit :=
  accept_loop "HttpRequest::accept unable to accept before EOF" http_parse (mret true) fuel.

(** [port.to_string()]. *)
Fixpoint dec_digits (fuel : nat) (n : Z) : list Z :=
  match fuel with
  | 0 => []
  | S fuel' => (if decide (n < 10)%Z then [] else dec_digits fuel' (n / 10)%Z) ++ [48 + n mod 10]%Z
  end.
Definition port_string (p : Z) : list Z := dec_digits 5 p.

(** What is sent to the target ahead of the user's bytes. *)
Definition http_p0 (addr : MixAddrType) : outcome accept_error (list Z) :=
  '(host, port) ← Mix.as_host addr;
  mret (HEADER0 ++ host ++ [58]%Z ++ port_string port ++ HEADER1).

Definition http_impl_accept (fuel : nat) : ST Acc accept_error (ClientConnectionRequest I K X E) :=
  http_loop fuel;;
  s ← st_get;
  p0 ← (if h_is_https (acc_req s) then
          on_io (write_all ESTABLISHED);; on_io poll_flush;; mret None
        else p0 ← st_lift (http_p0 (h_addr (acc_req s))); mret (Some p0));
  s ← st_get;
  mret (TCP (new_client_tcp_stream (acc_io s) p0)).

(** [accept]. *)
Definition http_accept (fuel : nat) : ST Acc accept_error (ClientConnectionRequest I K X E * MixAddrType) :=
  req ← http_impl_accept fuel;
  s ← st_get;
  mret (req, h_addr (acc_req s)).
End accept.
End parse.

Definition http_start {I : Type} (inbound : I) : Accepting HttpRequest I :=
  mkAccepting HttpRequest_new (vec_with_capacity 200) inbound.

(** ** The request line, run by run *)
Section head.
Context (oc : bool).

Lemma from_http_header_some https buf a :
  Mix.from_http_header oc https buf = Ok a → Mix.is_none a = false.
Proof. intros (p & c & _ & _ & _ & [(_ & ? & _ & ->)|[[_ ->]|(? & _ & ->)]])%Mix.from_http_header_inv; done. Qed.

(** [set_host] knows the target when it succeeds and only then; the cursor grows. *)
Lemma set_host_frame buf r :
  Mix.is_none (h_addr r) = true →
  post (set_host oc buf) r (λ res r', h_cursor r ≤ h_cursor r' ∧
    Mix.is_none (h_addr r') = match res with Ok _ => false | _ => true end).
Proof.
  intros Hn. unfold set_host. apply post_bind, post_modify.
  set (r1 := h_set_cursor _ r). assert (Mix.is_none (h_addr r1) = true) as Hn1 by done.
  assert (h_cursor r ≤ h_cursor r1) as Hc1 by (cbn; lia). clearbody r1.
  apply post_bind, post_get. apply post_bind.
  eapply (post_mono _ _ (λ res r', h_cursor r ≤ h_cursor r' ∧ Mix.is_none (h_addr r') = true)).
  { destruct (h_is_https r1); [by apply post_ret|]. case_decide; [|by apply post_lift].
    rewrite slice_Ok by lia. apply post_bind, post_lift. cbn beta iota. case_decide; [|by apply post_ret].
    apply post_modify. cbn. split; [lia|done]. }
  intros [[]| | | |] r2 [Hc2 Hn2]; try done. apply post_bind, post_get. case_decide; [by apply post_lift|].
  apply post_bind, post_lift. destruct (slice _ _ _) as [target| | | |]; try done.
  apply post_bind, post_lift. destruct (Mix.from_http_header _ _ _) as [a| | | |] eqn:Ha; try done.
  apply post_modify. split; [done|]. by eapply from_http_header_some.
Qed.

Lemma set_stream_type_frame buf r :
  post (set_stream_type buf) r (λ res r', h_addr r' = h_addr r ∧
    match res with Ok _ => h_cursor r' ≠ 0 | Err _ => r' = r | _ => False end).
Proof.
  unfold set_stream_type. repeat (case_decide; [first [by apply post_lift|by apply post_modify]|]).
  by apply post_lift.
Qed.

(** Once the target is known the request line is not looked at again. *)
Lemma http_head_known buf r :
  h_cursor r ≠ 0 → Mix.is_none (h_addr r) = false → http_head oc buf r = (Ok tt, r).
Proof. intros Hc Hn. unfold http_head. rewrite st_get_bind, decide_False by done. st_simpl. by rewrite Hn. Qed.

Lemma http_head_unknown buf r :
  Mix.is_none (h_addr r) = true →
  post (http_head oc buf) r (λ res r',
    match res with
    | Ok _ => h_cursor r' ≠ 0 ∧ Mix.is_none (h_addr r') = false
    | _ => Mix.is_none (h_addr r') = true
    end).
Proof.
  intros Hn. unfold http_head. apply post_bind, post_get, post_bind.
  eapply (post_mono _ _ (λ res r', Mix.is_none (h_addr r') = true ∧
    match res with Ok _ => h_cursor r' ≠ 0 | _ => True end)).
  { case_decide as Hc; [|by apply post_ret].
    eapply post_mono; [apply set_stream_type_frame|]. intros res r' (-> & Hr). split; [done|]. by destruct res. }
  intros [[]| | | |] r1 (Hn1 & Hc1); try done. apply post_bind, post_get. rewrite Hn1.
  eapply post_mono; [by apply set_host_frame|]. intros res r2 (Hc2 & Hn2). destruct res; [|done..].
  split; [lia|done].
Qed.
End head.

(** ** Keeping four bytes *)
Lemma last_four_app {E} pre v :
  4 ≤ length v → last_four (E:=E) (pre ++ v) = last_four v.
Proof.
  intros Hv. unfold last_four. rewrite length_app, !decide_False by lia.
  rewrite !slice_from_Ok by (rewrite ?length_app; lia).
  rewrite drop_app_ge by lia. by replace (length pre + length v - 4 - length pre) with (length v - 4) by lia.
Qed.

Section keeping.
Context (oc : bool).

(** The parser on the left keeps four bytes of what the one on the right keeps. *)
Definition keeps_tail (p p' : HttpRequest * Vec) : Prop :=
  p.1 = p'.1 ∧
  if Mix.is_none (h_addr p.1) then vdata p.2 = vdata p'.2
  else h_cursor p.1 ≠ 0 ∧ 4 ≤ vec_len p.2 ∧ ∃ pre, vdata p'.2 = pre ++ vdata p.2.

(** The check for the empty line, once the target is known. *)
Lemma integrity_keeps r v v' pre :
  Mix.is_none (h_addr r) = false → h_cursor r ≠ 0 → vdata v' = pre ++ vdata v → 4 ≤ vec_len v →
  let run (m : ST (HttpRequest * Vec) ParserError unit) v :=
    (tail ← st_lift (last_four (vdata v)); if decide (tail = CRLF2) then mret tt else m) (r, v) in
  let '(o, p) := run (kept ← st_lift (copy_down (vec_len v - 4) 4 (vdata v));
      st_modify (λ p, (p.1, vec_set_len 4 (mkVec kept (vcap v))));;
      throw (Incomplete "HttpRequest::parse")) v in
  let '(o', p') := run (throw (Incomplete "HttpRequest::parse")) v' in
  o = o' ∧ p.1 = p'.1 ∧ (∀ e, o = Err e → keeps_tail p p').
Proof.
  intros Hn Hc Hv Hl. unfold vec_len in *. cbn zeta. rewrite Hv, last_four_app by done.
  unfold last_four. rewrite decide_False, slice_from_Ok, !st_lift_Ok_bind by lia.
  case_decide as Ht; [done|]. rewrite copy_down_Ok, st_lift_Ok_bind by lia.
  split; [done|]. split; [done|]. intros e _. split; [done|]. cbn [fst snd st_modify]. rewrite Hn.
  split; [done|]. set (l := drop (length (vdata v) - 4) (vdata v)) in *.
  assert (length l = 4) as Hl4 by (unfold l; rewrite length_drop; lia).
  unfold vec_len, vec_set_len. cbn [vdata].
  rewrite (take_ge l 4), take_app_length' by lia. split; [lia|].
  exists (pre ++ take (length (vdata v) - 4) (vdata v)). unfold l.
  rewrite Hv, <- app_assoc. by rewrite take_drop.
Qed.

Lemma on_head_run buf (p : HttpRequest * Vec) :
  on_head oc buf p = ((http_head oc buf p.1).1, ((http_head oc buf p.1).2, p.2)).
Proof. unfold on_head. by rewrite st_zoom_run. Qed.

Lemma parse_keeps p p' bs :
  keeps_tail p p' →
  let '(o, q) := http_parse oc (p.1, vec_filled bs p.2) in
  let '(o', q') := http_parse_whole oc (p'.1, vec_filled bs p'.2) in
  o = o' ∧ q.1 = q'.1 ∧ (∀ e, o = Err e → keeps_tail q q').
Proof.
  destruct p as [r v], p' as [r' v']. intros [Hr Hk]. cbn [fst snd] in Hr, Hk |- *. subst r'.
  unfold http_parse, http_parse_whole. rewrite !st_get_bind, !(st_bind_split (on_head _ _)), !on_head_run.
  cbn [fst snd]. rewrite !vec_filled_data. destruct (Mix.is_none (h_addr r)) eqn:Hn.
  - rewrite Hk. pose proof (http_head_unknown oc (vdata v' ++ bs) r Hn) as Hp. unfold post in Hp.
    destruct (http_head oc (vdata v' ++ bs) r) as [o r1]. cbn [fst snd] in Hp |- *.
    assert (∀ o, Mix.is_none (h_addr r1) = true →
      o = o ∧ r1 = r1 ∧ (∀ e : ParserError, o = Err (A:=unit) e → keeps_tail (r1, vec_filled bs v) (r1, vec_filled bs v'))) as Hfail.
    { intros o' Hn1. split; [done|]. split; [done|]. intros e _. split; [done|]. cbn [fst snd]. rewrite Hn1.
      by rewrite !vec_filled_data, Hk. }
    destruct o as [[]| | | |]; try by apply Hfail. destruct Hp as [Hc1 Hn1].
    destruct (decide (length (vdata v' ++ bs) < 4)) as [Hs|Hs].
    { unfold last_four. rewrite decide_True by done. done. }
    pose proof (integrity_keeps r1 (vec_filled bs v) (vec_filled bs v') [] Hn1 Hc1) as Hi.
    unfold vec_len in Hi. rewrite !vec_filled_data, Hk in Hi. apply Hi; [done|lia].
  - destruct Hk as (Hc & Hl & pre & Hpre). rewrite !http_head_known by done. cbn [fst snd].
    pose proof (integrity_keeps r (vec_filled bs v) (vec_filled bs v') pre Hn Hc) as Hi.
    unfold vec_len in *. rewrite !vec_filled_data, Hpre in Hi. rewrite Hpre. apply Hi; [by rewrite <- app_assoc|].
    rewrite length_app. lia.
Qed.

Lemma feed_keeps reads p p' :
  keeps_tail p p' →
  (feed (http_parse oc) p reads).1 = (feed (http_parse_whole oc) p' reads).1 ∧
  (feed (http_parse oc) p reads).2.1 = (feed (http_parse_whole oc) p' reads).2.1.
Proof.
  revert p p'. induction reads as [|bs reads IH]; intros p p' Hk; [by destruct Hk|].
  cbn [feed]. pose proof (parse_keeps p p' bs Hk) as Hp.
  destruct (http_parse oc _) as [o q], (http_parse_whole oc _) as [o' q'].
  destruct Hp as (<- & Hq & Hnext). destruct o as [?|[]| | |]; try done. by eapply IH, Hnext.
Qed.
End keeping.

(** ** What is accepted *)
Section accepted.
Context (oc : bool).

Definition method (https : bool) : list Z := bytes_of_string (if https then "CONNECT " else "GET ").

(** What may stand between the method and the target: spaces, and for GET a scheme
    each time the parser resumes. *)
Inductive skipped (https : bool) : list Z → Prop :=
| skip_nil : skipped https []
| skip_space l : skipped https l → skipped https (l ++ [32%Z])
| skip_scheme l scheme : https = false → map ascii_lower scheme = bytes_of_string "http://" →
    skipped https l → skipped https (l ++ scheme).

(** A request line whose target has arrived whole. *)
Definition http_line (T : list Z) (https : bool) (addr : MixAddrType) : Prop :=
  ∃ skip target c rest, T = method https ++ skip ++ target ++ c :: rest ∧ skipped https skip ∧
    Forall in_target target ∧ in_target c = false ∧
    Mix.from_http_header oc https target = Ok addr.

(** What the parser knows of the bytes [T] between two reads. *)
Definition line_state (r : HttpRequest) (T : list Z) : Prop :=
  if Mix.is_none (h_addr r) then
    h_cursor r = 0 ∨ ∃ skip rest, T = method (h_is_https r) ++ skip ++ rest ∧ skipped (h_is_https r) skip ∧
      h_cursor r = length (method (h_is_https r) ++ skip)
  else h_cursor r ≠ 0 ∧ http_line T (h_is_https r) (h_addr r).

Lemma count_while_spec p l :
  ∃ pre rest, l = pre ++ rest ∧ length pre = count_while p l ∧ Forall p pre ∧
    match rest with c :: _ => p c = false | [] => True end.
Proof.
  induction l as [|x l IH]; [by exists [], []|]. cbn. destruct (p x) eqn:Hx; [|by exists [], (x :: l)].
  destruct IH as (pre & rest & -> & Hl & Hf & Hr). exists (x :: pre), rest. cbn. rewrite Hl.
  split; [done|]. split; [done|]. split; [|done]. constructor; [by rewrite Hx|done].
Qed.

Lemma skipped_spaces https skip pre : skipped https skip → Forall is_space pre → skipped https (skip ++ pre).
Proof.
  intros Hs Hp. revert skip Hs. induction Hp as [|x pre Hx Hp IH]; intros skip Hs; [by rewrite app_nil_r|].
  apply bool_decide_unpack in Hx as ->. rewrite (app_assoc skip [32%Z] pre : skip ++ 32%Z :: pre = _).
  apply IH. by constructor.
Qed.

Lemma line_state_app r T more : line_state r T → line_state r (T ++ more).
Proof.
  unfold line_state. destruct (Mix.is_none (h_addr r)).
  - intros [?|(skip & rest & -> & Hs & Hc)]; [by left|right]. exists skip, (rest ++ more). by rewrite <- !app_assoc.
  - intros (Hc & skip & target & c & rest & -> & Hs). split; [done|].
    exists skip, target, c, (rest ++ more). by rewrite <- !app_assoc.
Qed.

Lemma set_host_line buf r skip rest :
  Mix.is_none (h_addr r) = true → buf = method (h_is_https r) ++ skip ++ rest →
  skipped (h_is_https r) skip → h_cursor r = length (method (h_is_https r) ++ skip) →
  post (set_host oc buf) r (λ res r', line_state r' buf).
Proof.
  intros Hn Hb Hs Hc. unfold set_host. apply post_bind, post_modify.
  destruct (count_while_spec is_space (drop (h_cursor r) buf)) as (sp & rest1 & Hd & Hl & Hsp & _).
  rewrite <- Hl. set (https := h_is_https r) in *.
  assert (rest = sp ++ rest1) as ->.
  { by rewrite Hc, Hb, app_assoc, drop_app_length in Hd. }
  set (r1 := h_set_cursor _ r).
  assert (∃ skip1, buf = method https ++ skip1 ++ rest1 ∧ skipped https skip1 ∧
    h_cursor r1 = length (method https ++ skip1)) as (skip1 & Hb1 & Hs1 & Hc1).
  { exists (skip ++ sp). rewrite Hb, <- !app_assoc. split; [done|]. split; [by apply skipped_spaces|].
    unfold r1. cbn [h_cursor h_set_cursor]. rewrite Hc, !length_app. lia. }
  assert (h_is_https r1 = https ∧ Mix.is_none (h_addr r1) = true) as [Hh1 Hn1] by done. clearbody r1 https.
  apply post_bind, post_get, post_bind.
  eapply (post_mono _ _ (λ res r2, h_is_https r2 = https ∧ Mix.is_none (h_addr r2) = true ∧
    ∃ skip2 rest2, buf = method https ++ skip2 ++ rest2 ∧ skipped https skip2 ∧
      h_cursor r2 = length (method https ++ skip2))).
  { rewrite Hh1. destruct https; [apply post_ret; by eauto 10|].
    case_decide as Hlen; [|apply post_lift; by eauto 10].
    rewrite slice_Ok by lia. apply post_bind, post_lift. cbn beta iota.
    replace (h_cursor r1 + 7 - h_cursor r1) with 7 by lia.
    assert (drop (h_cursor r1) buf = rest1) as Hd1 by (by rewrite Hb1, app_assoc, Hc1, drop_app_length).
    rewrite Hd1. case_decide as Hsch; [|apply post_ret; by eauto 10].
    apply post_modify. split; [done|]. split; [done|]. exists (skip1 ++ take 7 rest1), (drop 7 rest1).
    split; [by rewrite <- (app_assoc skip1), take_drop|]. split; [by apply skip_scheme|].
    cbn [h_cursor h_set_cursor]. apply (f_equal length) in Hd1. rewrite length_drop in Hd1.
    rewrite Hc1, !length_app, length_take in *. lia. }
  intros res r2 (Hh2 & Hn2 & skip2 & rest2 & Hb2 & Hs2 & Hc2).
  assert (line_state r2 buf) as Hline2 by (unfold line_state; rewrite Hn2, Hh2; eauto 10).
  destruct res as [[]| | | |]; try done. apply post_bind, post_get.
  assert (drop (h_cursor r2) buf = rest2) as Hd2 by (by rewrite Hb2, app_assoc, Hc2, drop_app_length).
  rewrite Hd2. destruct (count_while_spec in_target rest2) as (target & tail & Ht & Hlt & Hin & Htail).
  rewrite <- Hlt. case_decide as Hend; [by apply post_lift|].
  assert (length buf = h_cursor r2 + length target + length tail) as Hlb.
  { pose proof (f_equal length Hb2) as L1. pose proof (f_equal length Ht) as L2. rewrite !length_app in *. lia. }
  rewrite slice_Ok by lia. apply post_bind, post_lift. cbn beta iota.
  rewrite Hd2, Ht, Nat.add_comm, Nat.add_sub, take_app_length.
  apply post_bind, post_lift. destruct (Mix.from_http_header oc (h_is_https r2) target) as [a| | | |] eqn:Ha; try done.
  apply post_modify. destruct tail as [|c tail]; [cbn in Hlb; lia|].
  unfold line_state. cbn [h_addr h_is_https h_cursor h_set_addr].
  rewrite (from_http_header_some oc _ _ _ Ha), Hh2 in *.
  split; [rewrite Hc2; unfold method; by destruct https|].
  exists skip2, target, c, tail. by rewrite <- Ht.
Qed.

(** Parsing a target ends. *)
Definition ends {E A} (r : outcome E A) : Prop :=
  match r with Pending | OutOfFuel => False | _ => True end.

Lemma ends_bind {E A B} (m : outcome E A) (f : A → outcome E B) :
  ends m → (∀ a, ends (f a)) → ends (m ≫= f).
Proof. destruct m; cbn; auto. Qed.

Lemma parse_port_ends digits : ends (Mix.parse_port oc digits).
Proof.
  unfold Mix.parse_port. assert (ends (Ok (E:=ParserError) 0%Z)) as Ha by done. revert Ha.
  generalize (Ok (E:=ParserError) 0%Z) as acc. induction digits as [|d ds IH]; intros acc Ha; [done|].
  cbn [foldl]. apply IH. apply ends_bind; [done|]. intros p. case_decide; [|done].
  assert (∀ z, ends (Mix.u16_arith oc z)) as Hu.
  { intros z. unfold Mix.u16_arith. case_decide; [done|]. by destruct oc. }
  apply ends_bind; auto.
Qed.

Lemma from_http_header_ends https buf : ends (Mix.from_http_header oc https buf).
Proof.
  unfold Mix.from_http_header. apply ends_bind.
  - unfold Mix.header_port. repeat (case_decide; [try (by destruct https)|]). apply parse_port_ends.
  - intros p. unfold Mix.header_addr, slice. case_decide; [|done]. cbn [mbind outcome_bind].
    unfold index. destruct (_ !! _); [|done]. cbn [mbind outcome_bind].
    case_decide; [destruct (utf8_valid _); [|done]; by destruct (NetParser.parse_socket_addr_v6 _)|].
    destruct (Mix.is_alpha _); destruct (utf8_valid _); try done. by destruct (NetParser.parse_socket_addr_v4 _).
Qed.

Lemma set_host_ends buf r : ends (set_host oc buf r).1.
Proof.
  unfold set_host. rewrite st_modify_bind, st_get_bind, st_bind_split.
  set (r1 := h_set_cursor _ r). clearbody r1.
  assert (ends ((if h_is_https r1 then mret tt
    else if decide (h_cursor r1 + 7 < length buf) then
      scheme ← st_lift (slice buf (h_cursor r1) (h_cursor r1 + 7));
      if decide (map ascii_lower scheme = bytes_of_string "http://")
      then st_modify (h_set_cursor (h_cursor r1 + 7)) else mret tt
    else throw (Incomplete "HttpRequest::set_host")) r1).1) as H1.
  { destruct (h_is_https r1); [done|]. case_decide; [|done]. rewrite slice_Ok, st_lift_Ok_bind by lia.
    by case_decide. }
  destruct (_ r1) as [[[]| | | |] r2] in H1 |- *; try done. rewrite st_get_bind.
  case_decide; [done|]. unfold slice. case_decide; [|done]. rewrite st_lift_Ok_bind, st_bind_split.
  pose proof (from_http_header_ends (h_is_https r2)
    (take (h_cursor r2 + count_while in_target (drop (h_cursor r2) buf) - h_cursor r2) (drop (h_cursor r2) buf))) as Hf.
  unfold st_lift at 1. by destruct (Mix.from_http_header _ _ _).
Qed.

Lemma http_head_line r T :
  line_state r T →
  post (http_head oc T) r (λ res r', line_state r' T ∧ ends res ∧
    match res with Ok _ => Mix.is_none (h_addr r') = false | _ => True end).
Proof.
  intros Hl. destruct (Mix.is_none (h_addr r)) eqn:Hn.
  2:{ unfold line_state in Hl. rewrite Hn in Hl. destruct Hl as [Hc Hl]. unfold post.
    rewrite http_head_known by done. unfold line_state. cbn [fst snd]. by rewrite Hn. }
  unfold http_head. apply post_bind, post_get, post_bind.
  eapply (post_mono _ _ (λ res r', Mix.is_none (h_addr r') = true ∧ line_state r' T ∧ ends res ∧
    match res with Ok _ => h_cursor r' ≠ 0 | _ => True end)).
  { case_decide as Hc; [|by apply post_ret]. unfold set_stream_type.
    assert (∀ m https, method https = m → take (length m) T = m →
      line_state (h_set_stream https (length m) r) T) as Hm.
    { intros m https Hm Ht. unfold line_state. cbn [h_addr h_is_https h_cursor h_set_stream]. rewrite Hn. right.
      exists [], (drop (length m) T). rewrite Hm, app_nil_r. cbn [app].
      split; [rewrite <- Ht at 1; by rewrite take_drop|]. split; [apply skip_nil|done]. }
    case_decide; [by apply post_lift|]. case_decide as Hg.
    { apply post_modify. split; [done|]. split; [by apply (Hm (bytes_of_string "GET ") false)|done]. }
    case_decide; [by apply post_lift|]. case_decide as Hco; [|by apply post_lift].
    apply post_modify. split; [done|]. split; [by apply (Hm (bytes_of_string "CONNECT ") true)|done]. }
  intros [[]| | | |] r1 (Hn1 & Hl1 & He1 & Hc1); try done. apply post_bind, post_get. rewrite Hn1.
  unfold line_state in Hl1. rewrite Hn1 in Hl1. destruct Hl1 as [?|(skip & rest & HT & Hs & Hc)]; [done|].
  pose proof (set_host_line T r1 skip rest Hn1 HT Hs Hc) as Ha. pose proof (set_host_ends T r1) as He.
  pose proof (set_host_frame oc T r1 Hn1) as Hf. unfold post in *.
  destruct (set_host oc T r1) as [res r2]. cbn [fst snd] in *. split; [done|]. split; [done|].
  destruct Hf as [_ Hf]. by destruct res.
Qed.

(** The parser that keeps everything, between two reads and when it is done. *)
Lemma parse_whole_line r v :
  line_state r (vdata v) → (Mix.is_none (h_addr r) = false → 4 ≤ vec_len v) →
  let '(res, (r', v')) := http_parse_whole oc (r, v) in
  v' = v ∧ line_state r' (vdata v) ∧ ends res ∧
  match res with
  | Ok _ => http_line (vdata v) (h_is_https r') (h_addr r') ∧ CRLF2 `suffix_of` vdata v
  | Err _ => Mix.is_none (h_addr r') = false → 4 ≤ vec_len v
  | _ => True
  end.
Proof.
  intros Hl H4. unfold http_parse_whole. rewrite st_get_bind, st_bind_split, on_head_run.
  pose proof (http_head_line r (vdata v) Hl) as Hp. unfold post in Hp.
  pose proof (http_head_unknown oc (vdata v) r) as Hu. unfold post in Hu. cbn [fst snd] in *.
  assert (Mix.is_none (h_addr r) = false → (http_head oc (vdata v) r).2 = r) as Hk.
  { intros Hn. unfold line_state in Hl. rewrite Hn in Hl. destruct Hl as [Hc _]. by rewrite http_head_known. }
  destruct (http_head oc (vdata v) r) as [res r1]. cbn [fst snd] in *. destruct Hp as (Hl1 & He & Hn1).
  assert (Mix.is_none (h_addr r1) = false → match res with Ok _ => True | _ => 4 ≤ vec_len v end) as H4'.
  { intros Hn. destruct (Mix.is_none (h_addr r)) eqn:Hn0.
    - specialize (Hu eq_refl). destruct res; [done|congruence..].
    - rewrite (Hk eq_refl) in *. destruct res; auto. }
  destruct res as [[]|e| |msg|]; try done.
  unfold last_four. case_decide as Hs; [done|]. rewrite slice_from_Ok, st_lift_Ok_bind by lia.
  case_decide as Hcr.
  - split; [done|]. split; [done|]. split; [done|]. unfold line_state in Hl1. rewrite Hn1 in Hl1.
    split; [apply Hl1|]. exists (take (length (vdata v) - 4) (vdata v)). by rewrite <- Hcr, take_drop.
  - split; [done|]. split; [done|]. split; [done|]. intros _. unfold vec_len. lia.
Qed.

Lemma feed_whole_state reads r v :
  line_state r (vdata v) → (Mix.is_none (h_addr r) = false → 4 ≤ vec_len v) →
  let '(d, (q, v')) := feed (http_parse_whole oc) (r, v) reads in
  ends d ∧ match d with
  | Ok _ => ∃ front bs rest, reads = front ++ bs :: rest ∧ vdata v' = vdata v ++ concat front ++ bs ∧
      http_line (vdata v') (h_is_https q) (h_addr q) ∧ CRLF2 `suffix_of` vdata v'
  | Err (Incomplete _) => vdata v' = vdata v ++ concat reads ∧ line_state q (vdata v') ∧
      (Mix.is_none (h_addr q) = false → 4 ≤ vec_len v')
  | _ => True
  end.
Proof.
  revert r v. induction reads as [|bs reads IH]; intros r v Hl H4; cbn [feed fst snd].
  { split; [done|]. cbn [concat]. by rewrite app_nil_r. }
  pose proof (parse_whole_line r (vec_filled bs v)) as Hp. unfold vec_len in *. rewrite vec_filled_data in Hp.
  specialize (Hp (line_state_app _ _ _ Hl)).
  assert (Mix.is_none (h_addr r) = false → 4 ≤ length (vdata v ++ bs)) as H4'
    by (intros Hn; specialize (H4 Hn); rewrite length_app; lia). specialize (Hp H4').
  destruct (http_parse_whole oc _) as [d [q v1]]. destruct Hp as (-> & Hl1 & He & Hd).
  destruct d as [[]|[]| | |]; try done.
  - split; [done|]. exists [], bs, reads. by rewrite vec_filled_data.
  - specialize (IH q (vec_filled bs v)). rewrite vec_filled_data in IH. specialize (IH Hl1 Hd).
    destruct (feed _ _ _) as [d [q2 v2]]. destruct IH as [He2 Hd2]. split; [done|].
    destruct d as [[]|[]| | |]; try done; cbn [concat].
    + destruct Hd2 as (front & bs' & rest & -> & Hv & Hline). exists (bs :: front), bs', rest. cbn [concat].
      rewrite <- app_assoc. by rewrite <- app_assoc in Hv.
    + by rewrite app_assoc.
Qed.

Lemma feed_app (parse : ST (HttpRequest * Vec) ParserError unit) front reads st :
  wants_more (feed parse st front).1 → feed parse st (front ++ reads) = feed parse (feed parse st front).2 reads.
Proof.
  revert st. induction front as [|bs front IH]; intros st Hw; [done|]. cbn [app feed] in *.
  destruct (parse _) as [[[]|[]| | |] st']; cbn in Hw; try done. by apply IH.
Qed.

(** What the loop accepts, in terms of all the bytes it read. *)
Lemma http_loop_spec {I} `{AsyncReadOk I, !AsyncWrite I, !AsyncWriteOk I} fuel (io : I) :
  serves (http_loop oc fuel) (http_start io) (λ r q b ins outs, outs = [] ∧
    match r with
    | Ok _ => http_line ins (h_is_https q) (h_addr q) ∧ CRLF2 `suffix_of` ins
    | Err (AcceptParser (Incomplete _)) => False
    | OutOfFuel => fuel ≤ length ins
    | _ => True
    end).
Proof.
  eapply serves_mono; [apply accept_loop_feed|]. intros r q b ins outs (-> & reads & -> & Hr).
  split; [done|]. cbn [acc_req acc_buf http_start] in Hr.
  set (st := (HttpRequest_new, vec_with_capacity 200)) in *. cbn zeta in Hr.
  assert (keeps_tail st st) as Hk by done.
  assert (line_state HttpRequest_new (vdata (vec_with_capacity 200))) as Hl by (by left).
  assert (∀ reads, let '(d, (q, v')) := feed (http_parse_whole oc) st reads in _) as Hw
    by (intros; by apply (feed_whole_state _ HttpRequest_new (vec_with_capacity 200) Hl)).
  destruct (feed_keeps oc reads st st Hk) as [Hd Hq]. specialize (Hw reads) as Hwr.
  destruct r as [[]|[[]|]| |msg|]; try done.
  - destruct Hr as (Hf & front & last & -> & Hmore). rewrite Hf in Hd, Hq. cbn [fst snd] in Hd, Hq.
    destruct (feed_keeps oc front st st Hk) as [Hd1 _]. rewrite Hd1 in Hmore.
    rewrite feed_app in Hwr, Hd, Hq by done. specialize (Hw front).
    destruct (feed (http_parse_whole oc) st front) as [d1 [q1 v1]]. cbn [fst snd] in *.
    destruct Hw as [_ Hw]. destruct d1 as [?|[]| | |]; try done. destruct Hw as (Hv1 & Hl1 & H41).
    pose proof (feed_whole_state [last] q1 v1 Hl1 H41) as Hlast.
    destruct (feed (http_parse_whole oc) (q1, v1) [last]) as [d2 [q2 v2]] eqn:E2. cbn [fst snd] in *.
    subst d2 q2. destruct Hlast as [_ (fr & bs & rest & Hfr & Hv2 & Hline & Hsuf)].
    assert (fr = [] ∧ bs = last) as [-> ->].
    { destruct fr as [|? [|]]; [by injection Hfr as <- _|done..]. }
    rewrite Hv1 in Hv2. cbn [concat app vdata vec_with_capacity] in Hv2.
    rewrite Hv2 in Hline, Hsuf. rewrite concat_app. cbn [concat]. by rewrite app_nil_r.
  - destruct Hr as [Hr|Hr]; [done|]. rewrite Hd in Hr. destruct (feed _ st reads) as [d [q1 v1]].
    cbn [fst] in Hr. subst d. by destruct Hwr.
Qed.

(** The session, as [post] has it. *)
Lemma http_accept_spec {I K X E} `{AsyncReadOk I, !AsyncWrite I, !AsyncWriteOk I} fuel (io : I) :
  post (http_accept (K:=K) (X:=X) (E:=E) oc fuel) (http_start io) (λ r s, ∃ ins outs, io_trace io ins outs (acc_io s) ∧
    match r with
    | Ok (req, addr) => ∃ https, http_line ins https addr ∧ CRLF2 `suffix_of` ins ∧
        if https then outs = ESTABLISHED ∧ req = TCP (new_client_tcp_stream (acc_io s) None)
        else outs = [] ∧ ∃ host port, addr = Hostname host port ∧
          req = TCP (new_client_tcp_stream (acc_io s)
            (Some (HEADER0 ++ host ++ [58]%Z ++ port_string port ++ HEADER1)))
    | Err (AcceptParser (Invalid _)) => outs = []
    | Err (AcceptParser (Incomplete _)) => False
    | OutOfFuel => fuel ≤ length ins
    | _ => True
    end).
Proof.
  unfold post. destruct (http_accept _ _ _) as [r s] eqn:Hrun. cbn [fst snd]. revert Hrun.
  unfold http_accept, http_impl_accept. rewrite st_bind_assoc, st_bind_split.
  pose proof (http_loop_spec fuel io) as Hl. unfold serves, post in Hl.
  destruct (http_loop oc fuel (http_start io)) as [r1 s1]. cbn [fst snd acc_io http_start] in Hl.
  destruct Hl as (ins & outs & Ht & -> & Hr).
  destruct r1 as [[]|[[]|]| |msg|]; try done; intros Hrun; try (injection Hrun as <- <-; by exists ins, []).
  destruct Hr as [Hline Hsuf]. rewrite st_bind_assoc, st_get_bind, st_bind_assoc in Hrun.
  destruct (h_is_https (acc_req s1)) eqn:Hh.
  - rewrite st_bind_assoc, st_bind_split in Hrun.
    pose proof (write_all_serves ESTABLISHED s1) as Hw. unfold serves, post in Hw.
    destruct (on_io (write_all ESTABLISHED) s1) as [r2 s2]. cbn [fst snd] in Hw.
    destruct Hw as (i2 & o2 & Ht2 & Hq2 & _ & -> & _ & Hr2).
    pose proof (io_trace_trans _ _ _ _ _ _ _ Ht Ht2) as Ht02. rewrite app_nil_r in Ht02. cbn [app] in Ht02.
    destruct r2 as [[]|[]| | |]; try done; try (injection Hrun as <- <-; by exists ins, o2). subst o2.
    rewrite st_bind_assoc, st_bind_split in Hrun.
    pose proof (flush_serves s2) as Hf. unfold serves, post in Hf.
    destruct (on_io poll_flush s2) as [r3 s3]. cbn [fst snd] in Hf.
    destruct Hf as (i3 & o3 & Ht3 & Hq3 & _ & -> & -> & Hr3).
    pose proof (io_trace_trans _ _ _ _ _ _ _ Ht02 Ht3) as Ht03. rewrite !app_nil_r in Ht03.
    destruct r3 as [[]|[]| | |]; try done; injection Hrun as <- <-; try by exists ins, ESTABLISHED.
    exists ins, ESTABLISHED. split; [done|]. exists true. by rewrite Hq3, Hq2.
  - unfold http_p0 in Hrun. destruct (h_addr (acc_req s1)) as [| |host port|] eqn:Ha;
      try (injection Hrun as <- <-; by exists ins, []).
    injection Hrun as <- <-. exists ins, []. split; [done|]. exists false. rewrite Ha.
    split; [done|]. split; [done|]. split; [done|]. by exists host, port.
Qed.

(** C14: an HTTP session: what is granted, and what is sent to the user and to the
    target first, as a function of the bytes the user sent. A session is granted for
    the target of a request line CONNECT or GET at the front of those bytes, once they
    end with an empty line. A CONNECT is answered; of a GET nothing but host and port
    goes on: the target is sent a request for its root in its place. A session
    refused for what the user sent has sent nothing. *)
Theorem http_accept_exact {I K X E} `{AsyncReadOk I, !AsyncWrite I, !AsyncWriteOk I} fuel (io : I) r s :
  http_accept (K:=K) (X:=X) (E:=E) oc fuel (http_start io) = (r, s) →
  ∃ ins outs, io_trace io ins outs (acc_io s) ∧
    match r with
    | Ok (req, addr) => ∃ https, http_line ins https addr ∧ CRLF2 `suffix_of` ins ∧
        if https then outs = ESTABLISHED ∧ req = TCP (new_client_tcp_stream (acc_io s) None)
        else outs = [] ∧ ∃ host port, addr = Hostname host port ∧
          req = TCP (new_client_tcp_stream (acc_io s)
            (Some (HEADER0 ++ host ++ [58]%Z ++ port_string port ++ HEADER1)))
    | Err (AcceptParser (Invalid _)) => outs = []
    | Err (AcceptParser (Incomplete _)) => False
    | OutOfFuel => fuel ≤ length ins
    | _ => True
    end.
Proof. intros Hrun. by eapply post_run in Hrun; [|apply http_accept_spec]. Qed.
End accepted.

(** C36: the buffer [parse] cuts down to its last four bytes is enough: over any
    sequence of reads it decides as the parser that keeps every byte, at the same
    read and with the same target. *)
Theorem http_four_bytes_enough oc reads :
  let cut := feed (http_parse oc) (HttpRequest_new, vec_with_capacity 200) reads in
  let whole := feed (http_parse_whole oc) (HttpRequest_new, vec_with_capacity 200) reads in
  cut.1 = whole.1 ∧ cut.2.1 = whole.2.1.
Proof. by apply feed_keeps. Qed.

(** The port is printed in decimal. *)
Lemma dec_digits_value fuel n :
  (0 ≤ n < 10 ^ Z.of_nat fuel)%Z → 0 < fuel →
  Forall Mix.is_digit (dec_digits fuel n) ∧ Mix.dec_value (dec_digits fuel n) = n.
Proof.
  revert n. induction fuel as [|fuel IH]; intros n Hn Hf; [lia|]. cbn [dec_digits].
  pose proof (Z.mod_pos_bound n 10 ltac:(lia)) as Hm. pose proof (Z.div_mod n 10 ltac:(lia)) as Hd.
  assert (Mix.is_digit (48 + n mod 10)) as Hdig by (unfold Mix.is_digit; lia).
  case_decide as H10.
  - cbn [app]. split; [by constructor|]. unfold Mix.dec_value. cbn [foldl]. rewrite Z.mod_small by lia. lia.
  - destruct (decide (fuel = 0)) as [->|Hf0]; [cbn in Hn; lia|].
    destruct (IH (n / 10)%Z) as [Hdi Hv]; [|lia|].
    { split; [apply Z.div_pos; lia|]. apply Z.div_lt_upper_bound; [lia|].
      rewrite Nat2Z.inj_succ, Z.pow_succ_r in Hn by lia. lia. }
    split; [apply Forall_app; split; [done|by constructor]|].
    unfold Mix.dec_value in *. rewrite foldl_app, Hv. cbn [foldl]. lia.
Qed.

Lemma port_string_value p :
  is_u16 p → Forall Mix.is_digit (port_string p) ∧ Mix.dec_value (port_string p) = p.
Proof. intros Hp. apply dec_digits_value; [unfold is_u16 in Hp; cbn; lia|lia]. Qed.

(** ** Examples *)
Definition ex_connect : list Z := bytes_of_string "CONNECT example.com:443 HTTP/1.1" ++ CRLF2.

(** The head cut inside the target's name. *)
Lemma http_accept_exact_witness :
  ∃ s : Accepting HttpRequest Script,
  http_accept (K:=unit) (X:=unit) (E:=unit) false 5
    (http_start (script_of [take 12 ex_connect; drop 12 ex_connect])) =
      (Ok (TCP (new_client_tcp_stream (acc_io s) None), Hostname (bytes_of_string "example.com") 443%Z), s) ∧
  ∃ ins outs, io_trace (script_of [take 12 ex_connect; drop 12 ex_connect]) ins outs (acc_io s) ∧
    ∃ https, http_line false ins https (Hostname (bytes_of_string "example.com") 443%Z) ∧
      CRLF2 `suffix_of` ins ∧
      if https then outs = ESTABLISHED ∧
        TCP (U:=Socks5UdpStream unit unit) (E:=unit) (new_client_tcp_stream (acc_io s) None) =
          TCP (new_client_tcp_stream (acc_io s) None)
      else outs = [] ∧ ∃ host port, Hostname (bytes_of_string "example.com") 443%Z = Hostname host port ∧
        TCP (U:=Socks5UdpStream unit unit) (E:=unit) (new_client_tcp_stream (acc_io s) None) =
          TCP (new_client_tcp_stream (acc_io s)
            (Some (HEADER0 ++ host ++ [58]%Z ++ port_string port ++ HEADER1))).
Proof.
  assert (∃ s, http_accept (K:=unit) (X:=unit) (E:=unit) false 5
    (http_start (script_of [take 12 ex_connect; drop 12 ex_connect])) =
      (Ok (TCP (new_client_tcp_stream (acc_io s) None), Hostname (bytes_of_string "example.com") 443%Z), s))
    as [s H1].
  { exists (http_accept (K:=unit) (X:=unit) (E:=unit) false 5
      (http_start (script_of [take 12 ex_connect; drop 12 ex_connect]))).2. vm_compute. reflexivity. }
  exists s. split; [exact H1|]. exact (http_accept_exact false 5 _ _ _ H1).
Defined.

(** Only a head that ends a read is accepted: with the first bytes of a body behind
    it the session waits, although the whole head has arrived. *)
Example http_body_with_head_waits :
  (http_accept (K:=unit) (X:=unit) (E:=unit) false 5
    (http_start (script_of [bytes_of_string "GET http://example.com/ HTTP/1.1" ++ CRLF2 ++ [1]%Z]))).1 = Pending.
Proof. vm_compute. reflexivity. Qed.

(** An IPv4 target with a port in two parts passes [from_http_header]; the plain
    request for it panics. *)
Example http_plain_ipv4_panics :
  (http_accept (K:=unit) (X:=unit) (E:=unit) false 5
    (http_start (script_of [bytes_of_string "GET http://1.2.3.4:80:80/ HTTP/1.1" ++ CRLF2]))).1 =
  Panic "only Hostname can use this method".
Proof. vm_compute. reflexivity. Qed.
