(* ===== verification/DnsResolver.v ===== *)
(** The DNS resolver of the server: src/src/utils/dns_utils/dns_resolver.rs.

    One task answers queries from a cache or spawns a task that looks the name up,
    answers, and sends the result back to the cache. The step relation interleaves
    the arms of the resolver's [select!], the spawned tasks, the senders of queries
    and the clock in any order; a query is named by a number standing for its
    [oneshot::Sender]. *)
From stdpp Require Import relations.
From S2P Require Import Prelude MixAddr.

(** ** The timer *)
Definition DNS_UPDATE_PERIOD_SEC : Z := 60 * 4.
Definition BLACK_HOLE_LOCAL_ADDR : IpAddr := IpV4 [192; 0; 2; 0]%Z.

Record Timer := mkTimer { t_instant : Z; t_counter : nat; t_slow : nat }.

Module Tm.
Definition new (now : Z) : Timer := mkTimer now 0 0.
(** When [sleep] ends. *)
Definition sleep (t : Timer) : Z :=
  t_instant t + (if decide (t_slow t = 0) then DNS_UPDATE_PERIOD_SEC * 20 else DNS_UPDATE_PERIOD_SEC).
Definition update (now : Z) (t : Timer) : Timer := mkTimer now (S (t_counter t)) (t_slow t).
Definition slower (t : Timer) : Timer := mkTimer (t_instant t) (t_counter t) (t_slow t - 1).
Definition faster (t : Timer) : Timer := mkTimer (t_instant t) (t_counter t) 2.
End Tm.

(** ** The state *)
Abbreviation Query := (list Z * nat)%type.

(** [dn_tasks] are the spawned tasks that await [lookup_host], [dn_sending] those
    that have answered and await room in the update channel. [dn_answers] lists the
    answers given, [dn_results] the names looked up with what [lookup_host] returned for
    them, an error being [None]: histories, which the code does not keep. *)
Record Resolver := mkResolver {
  dn_cache : gmap (list Z) (IpAddr * nat);
  dn_timer : Timer;
  dn_now : Z;
  dn_incoming : list Query;
  dn_updates : list (list Z * IpAddr);
  dn_tasks : list Query;
  dn_sending : list (list Z * IpAddr);
  dn_answers : list (Query * IpAddr);
  dn_results : list (list Z * option (list IpAddr));
}.

Definition CHANNEL_CAPACITY : nat := 100.

Definition Resolver_new (now : Z) : Resolver :=
  mkResolver ∅ (Tm.new now) now [] [] [] [] [] [].

Definition dn_set_timer (f : Timer → Timer) (s : Resolver) : Resolver :=
  mkResolver (dn_cache s) (f (dn_timer s)) (dn_now s) (dn_incoming s) (dn_updates s) (dn_tasks s)
    (dn_sending s) (dn_answers s) (dn_results s).
Definition dn_set_incoming (q : list Query) (s : Resolver) : Resolver :=
  mkResolver (dn_cache s) (dn_timer s) (dn_now s) q (dn_updates s) (dn_tasks s)
    (dn_sending s) (dn_answers s) (dn_results s).
Definition dn_answer (q : Query) (ip : IpAddr) (s : Resolver) : Resolver :=
  mkResolver (dn_cache s) (dn_timer s) (dn_now s) (dn_incoming s) (dn_updates s) (dn_tasks s)
    (dn_sending s) (dn_answers s ++ [(q, ip)]) (dn_results s).
Definition dn_spawn (q : Query) (s : Resolver) : Resolver :=
  mkResolver (dn_cache s) (dn_timer s) (dn_now s) (dn_incoming s) (dn_updates s) (dn_tasks s ++ [q])
    (dn_sending s) (dn_answers s) (dn_results s).

(** ** The arms of the loop *)
Definition usize_sub {E} (a b : nat) : outcome E nat :=
  if decide (b ≤ a) then Ok (a - b) else Panic "attempt to subtract with overflow".

(** [timer.sleep()]. *)
Definition on_tick (s : Resolver) : Resolver :=
  dn_set_timer (λ t, Tm.slower (Tm.update (dn_now s) t)) s.

(** [update_cache_rx.recv()]. *)
Definition on_cache_update (s : Resolver) : Resolver :=
  match dn_updates s with
  | (query, ip) :: rest =>
      mkResolver (<[query := (ip, t_counter (dn_timer s))]> (dn_cache s)) (dn_timer s) (dn_now s)
        (dn_incoming s) rest (dn_tasks s) (dn_sending s) (dn_answers s) (dn_results s)
  | [] => s
  end.

(** [incoming_tasks.recv()]: a query is answered at once from an entry of the cache
    that has seen fewer than two ticks. *)
Definition on_task : ST Resolver unit unit :=
  st_modify (dn_set_timer Tm.faster);;
  s ← st_get;
  match dn_incoming s with
  | [] => mret tt
  | q :: rest =>
      st_modify (dn_set_incoming rest);;
      match dn_cache s !! q.1 with
      | Some (ip, timestamp) =>
          age ← st_lift (usize_sub (t_counter (dn_timer s)) timestamp);
          if decide (age < 2) then st_modify (dn_answer q ip) else st_modify (dn_spawn q)
      | None => st_modify (dn_spawn q)
      end
  end.

(** ** [single_resolve_task] *)

(** The address taken from what [lookup_host] returned. *)
Definition resolved (lookup : option (list IpAddr)) : IpAddr :=
  match lookup with
  | Some (ip :: _) => ip
  | _ => BLACK_HOLE_LOCAL_ADDR
  end.

(** The task at place [i] with the result of its lookup: it answers and turns to the
    update channel. *)
Definition on_lookup (i : nat) (lookup : option (list IpAddr)) (s : Resolver) : Resolver :=
  match dn_tasks s !! i with
  | Some q =>
      let res := resolved lookup in
      mkResolver (dn_cache s) (dn_timer s) (dn_now s) (dn_incoming s) (dn_updates s)
        (delete i (dn_tasks s)) (dn_sending s ++ [(q.1, res)]) (dn_answers s ++ [(q, res)])
        (dn_results s ++ [(q.1, lookup)])
  | None => s
  end.

(** [update_cache_tx.send]: it waits while the channel is full. *)
Definition on_send_update (i : nat) (s : Resolver) : Resolver :=
  match dn_sending s !! i with
  | Some u =>
      mkResolver (dn_cache s) (dn_timer s) (dn_now s) (dn_incoming s) (dn_updates s ++ [u]) (dn_tasks s)
        (delete i (dn_sending s)) (dn_answers s) (dn_results s)
  | None => s
  end.

(** ** Steps *)
Inductive dns_label : Type := LClock | LQuery (q : Query) | LTick | LUpdate | LTask | LLookup | LSend.

(** The numbers of the queries sent so far. *)
Definition dn_ids (s : Resolver) : list nat :=
  map snd (dn_incoming s) ++ map snd (dn_tasks s) ++ map (λ a, snd (fst a)) (dn_answers s).

#[export] Instance dns_label_eq_dec : EqDecision dns_label.
Proof. solve_decision. Defined.

Inductive dns_step : dns_label → Resolver → Resolver → Prop :=
| step_clock s t : (dn_now s ≤ t)%Z →
    dns_step LClock s (mkResolver (dn_cache s) (dn_timer s) t (dn_incoming s) (dn_updates s)
      (dn_tasks s) (dn_sending s) (dn_answers s) (dn_results s))
| step_query s name id : length (dn_incoming s) < CHANNEL_CAPACITY → id ∉ dn_ids s →
    dns_step (LQuery (name, id)) s (dn_set_incoming (dn_incoming s ++ [(name, id)]) s)
| step_tick s : (Tm.sleep (dn_timer s) ≤ dn_now s)%Z → dns_step LTick s (on_tick s)
| step_update s : dn_updates s ≠ [] → dns_step LUpdate s (on_cache_update s)
| step_task s s' : dn_incoming s ≠ [] → on_task s = (Ok tt, s') → dns_step LTask s s'
| step_lookup s i lookup : i < length (dn_tasks s) → dns_step LLookup s (on_lookup i lookup s)
| step_send s i : i < length (dn_sending s) → length (dn_updates s) < CHANNEL_CAPACITY →
    dns_step LSend s (on_send_update i s).

Definition dns_run : Resolver → Resolver → Prop := rtc (λ s s', ∃ l, dns_step l s s').
Definition dns_reachable (s : Resolver) : Prop := ∃ now, dns_run (Resolver_new now) s.

(** ** Invariant *)

(** The address a lookup stands for: its first, or the black hole when it failed or
    found none. *)
Inductive gave : option (list IpAddr) → IpAddr → Prop :=
| gave_first ip rest : gave (Some (ip :: rest)) ip
| gave_none_found : gave (Some []) BLACK_HOLE_LOCAL_ADDR
| gave_failed : gave None BLACK_HOLE_LOCAL_ADDR.

Lemma resolved_gave lookup : gave lookup (resolved lookup).
Proof. destruct lookup as [[|ip rest]|]; constructor. Qed.

(** [u.2] is what a lookup of the name [u.1] that ended stands for. *)
Definition looked_up (s : Resolver) (u : list Z * IpAddr) : Prop :=
  ∃ lookup, (u.1, lookup) ∈ dn_results s ∧ gave lookup u.2.

Definition cache_ok (s : Resolver) : Prop :=
  map_Forall (λ name e, e.2 ≤ t_counter (dn_timer s) ∧ looked_up s (name, e.1)) (dn_cache s).

Record dns_ok (s : Resolver) : Prop := {
  ok_cache : cache_ok s;
  ok_updates : ∀ u, u ∈ dn_updates s ++ dn_sending s → looked_up s u;
  ok_answers : ∀ q ip, (q, ip) ∈ dn_answers s → looked_up s (q.1, ip);
  ok_ids : NoDup (dn_ids s);
}.

(** What [on_task] does with the first query. *)
Lemma on_task_run s q rest :
  cache_ok s → dn_incoming s = q :: rest →
  let s1 := dn_set_incoming rest (dn_set_timer Tm.faster s) in
  on_task s = (Ok tt, dn_spawn q s1) ∨
  ∃ ip, looked_up s (q.1, ip) ∧ on_task s = (Ok tt, dn_answer q ip s1).
Proof.
  intros Hc Hq s1. unfold on_task. rewrite st_modify_bind, st_get_bind. cbn [dn_incoming dn_set_timer].
  rewrite Hq, st_modify_bind. fold s1. cbn [dn_cache dn_set_timer].
  destruct (dn_cache s !! q.1) as [[ip ts]|] eqn:He; [|by left].
  destruct (Hc _ _ He) as [Hts Hres]. cbn [fst snd] in Hts, Hres.
  unfold usize_sub. cbn [dn_timer dn_set_timer Tm.faster t_counter].
  rewrite decide_True, st_lift_Ok_bind by done. case_decide; [right; by exists ip|by left].
Qed.

Lemma dn_ids_task s q rest s' :
  dn_incoming s = q :: rest →
  (s' = dn_spawn q (dn_set_incoming rest (dn_set_timer Tm.faster s)) ∨
   ∃ ip, s' = dn_answer q ip (dn_set_incoming rest (dn_set_timer Tm.faster s))) →
  dn_ids s' ≡ₚ dn_ids s.
Proof.
  intros Hq [->|[ip ->]]; unfold dn_ids; cbn; rewrite Hq, ?map_app; cbn;
    rewrite ?map_app; cbn; solve_Permutation.
Qed.

Lemma dns_ok_new now : dns_ok (Resolver_new now).
Proof. split; [apply map_Forall_empty|set_solver..|constructor]. Qed.

(** Results are never forgotten. *)
Lemma cache_ok_mono s s' :
  cache_ok s → dn_cache s' = dn_cache s → t_counter (dn_timer s) ≤ t_counter (dn_timer s') →
  (∀ u, looked_up s u → looked_up s' u) → cache_ok s'.
Proof. intros Hc He Ht Hr name e Hl. rewrite He in Hl. destruct (Hc _ _ Hl). split; [lia|auto]. Qed.

Lemma dns_step_ok l s s' : dns_step l s s' → dns_ok s → dns_ok s'.
Proof.
  intros Hs [Hc Hu Ha Hi]. destruct Hs as [s t Ht|s name id Hl Hid|s Ht|s Hne|s s' Hne Hrun|s i lookup Hi'|s i Hi' Hl].
  - by split.
  - split; [exact Hc|done|done|]. unfold dn_ids in *. cbn. rewrite map_app, <- app_assoc. cbn.
    rewrite <- Permutation_middle. by constructor.
  - split; [|done|done|done]. eapply cache_ok_mono; [exact Hc|done|cbn; lia|done].
  - unfold on_cache_update. destruct (dn_updates s) as [|[name ip] rest] eqn:Eu; [done|].
    assert (looked_up s (name, ip)) as Hr by (apply Hu; rewrite elem_of_app, elem_of_cons; auto).
    split; cbn; [|intros u Hin; apply Hu; rewrite elem_of_app, elem_of_cons in *; tauto|done|done].
    apply map_Forall_insert_2; [by split|exact Hc].
  - destruct (dn_incoming s) as [|q rest] eqn:Eq; [done|].
    destruct (on_task_run s q rest Hc Eq) as [Hr|(ip & Hres & Hr)]; rewrite Hrun in Hr; injection Hr as ->.
    + split; [eapply cache_ok_mono; [exact Hc|done..]|done|done|].
      rewrite dn_ids_task by eauto. done.
    + split; [eapply cache_ok_mono; [exact Hc|done..]|done| |rewrite dn_ids_task by eauto; done].
      intros q' ip'. cbn. rewrite elem_of_app, list_elem_of_singleton. intros [?|[= -> ->]]; [by apply Ha|done].
  - unfold on_lookup. destruct (lookup_lt_is_Some_2 _ _ Hi') as [q Hq]. rewrite Hq.
    set (s' := mkResolver _ _ _ _ _ _ _ _ _).
    assert (∀ u, looked_up s u → looked_up s' u) as Hmono
      by (intros u (l & Hin & Hg); exists l; cbn; rewrite elem_of_app; auto).
    assert (looked_up s' (q.1, resolved lookup)) as Hnew.
    { exists lookup. cbn. rewrite elem_of_app, list_elem_of_singleton. split; [by right|apply resolved_gave]. }
    split; [eapply cache_ok_mono; [exact Hc|done..]| | |]; cbn [dn_updates dn_sending dn_answers s'].
    + intros u. rewrite app_assoc, elem_of_app, list_elem_of_singleton. intros [Hin| ->]; [by apply Hmono, Hu|done].
    + intros q' ip'. rewrite elem_of_app, list_elem_of_singleton. intros [Hin|[= -> ->]]; [by apply Hmono, Ha|done].
    + unfold dn_ids in *. cbn. rewrite map_app. cbn.
      rewrite (delete_Permutation _ _ _ Hq) in Hi. cbn in Hi.
      eapply (NoDup_Permutation_proper _ _); [|exact Hi]. solve_Permutation.
  - unfold on_send_update. destruct (lookup_lt_is_Some_2 _ _ Hi') as [u Hu']. rewrite Hu'.
    split; [exact Hc| |done|done]. cbn. intros u'. rewrite <- app_assoc. cbn.
    rewrite elem_of_app. intros Hin. apply Hu. rewrite elem_of_app. destruct Hin as [?|Hin]; [by left|right].
    rewrite (delete_Permutation _ _ _ Hu'). done.
Qed.

Lemma dns_reachable_ok s : dns_reachable s → dns_ok s.
Proof.
  intros [now Hrun]. pose proof (dns_ok_new now) as Hok.
  induction Hrun as [|s1 s2 s3 [l Hs] _ IH]; [done|]. by eapply IH, dns_step_ok.
Qed.

(** ** Where a query is *)
Definition answered (q : Query) (s : Resolver) : Prop := ∃ ip, (q, ip) ∈ dn_answers s.

(** An answer stays; a task answers or stays. *)
Lemma answer_step l s s' a : dns_step l s s' → a ∈ dn_answers s → a ∈ dn_answers s'.
Proof.
  intros Hs Hin. assert (∀ x, a ∈ dn_answers s ++ x) as Happ by (intros; rewrite elem_of_app; by left).
  destruct Hs as [s t Ht|s name id Hl Hid|s Ht|s Hne|s s' Hne Hrun|s i lookup Hi'|s i Hi' Hl]; try done.
  - unfold on_cache_update. by destruct (dn_updates s) as [|[]].
  - unfold on_task in Hrun. rewrite st_modify_bind, st_get_bind in Hrun. cbn [dn_incoming dn_set_timer] in Hrun.
    destruct (dn_incoming s) as [|q' rest]; [done|]. rewrite st_modify_bind in Hrun.
    cbn [dn_cache dn_set_timer] in Hrun.
    destruct (dn_cache s !! q'.1) as [[ip' ts]|]; [|by injection Hrun as <-].
    unfold usize_sub in Hrun. case_decide; [|done]. rewrite st_lift_Ok_bind in Hrun.
    case_decide; injection Hrun as <-; [apply Happ|done].
  - unfold on_lookup. destruct (dn_tasks s !! i); [apply Happ|done].
  - unfold on_send_update. by destruct (dn_sending s !! i).
Qed.

Lemma answered_step l s s' q : dns_step l s s' → answered q s → answered q s'.
Proof. intros Hs [ip Hin]. exists ip. by eapply answer_step. Qed.

Lemma task_step l s s' q :
  dns_ok s → dns_step l s s' → q ∈ dn_tasks s → q ∈ dn_tasks s' ∨ answered q s'.
Proof.
  intros Hok Hs Hin.
  destruct Hs as [s t Ht|s name id Hl Hid|s Ht|s Hne|s s' Hne Hrun|s i lookup Hi'|s i Hi' Hl]; [by left..| | | |].
  - left. unfold on_cache_update. by destruct (dn_updates s) as [|[]].
  - left. destruct (dn_incoming s) as [|q' rest] eqn:Eq; [done|].
    destruct (on_task_run s q' rest (ok_cache _ Hok) Eq) as [Hr|(ip & _ & Hr)]; rewrite Hrun in Hr; injection Hr as ->;
      cbn; [rewrite elem_of_app; by left|done].
  - unfold on_lookup. destruct (dn_tasks s !! i) as [q'|] eqn:Hq; [|by left]. cbn.
    rewrite (delete_Permutation _ _ _ Hq), elem_of_cons in Hin. destruct Hin as [->|?]; [right|by left].
    eexists. cbn. rewrite elem_of_app, list_elem_of_singleton. by right.
  - left. unfold on_send_update. by destruct (dn_sending s !! i).
Qed.

(** A query moves towards the front of the channel, with every [LTask] and with
    nothing else. *)
Lemma incoming_step l s s' q k :
  dns_ok s → dns_step l s s' → dn_incoming s !! k = Some q →
  if decide (l = LTask) then
    match k with
    | 0 => q ∈ dn_tasks s' ∨ answered q s'
    | S k' => dn_incoming s' !! k' = Some q
    end
  else dn_incoming s' !! k = Some q.
Proof.
  intros Hok Hs Hq.
  destruct Hs as [s t Ht|s name id Hl Hid|s Ht|s Hne|s s' Hne Hrun|s i lookup Hi'|s i Hi' Hl]; try done.
  - rewrite decide_False by done. cbn. by apply lookup_app_l_Some.
  - rewrite decide_False by done. unfold on_cache_update. by destruct (dn_updates s) as [|[]].
  - rewrite decide_True by done. destruct (dn_incoming s) as [|q' rest] eqn:Eq; [done|].
    destruct (on_task_run s q' rest (ok_cache _ Hok) Eq) as [Hr|(ip & _ & Hr)]; rewrite Hrun in Hr; injection Hr as ->;
      destruct k as [|k]; cbn in Hq |- *; try done; injection Hq as ->.
    + left. rewrite elem_of_app, list_elem_of_singleton. by right.
    + right. exists ip. cbn. rewrite elem_of_app, list_elem_of_singleton. by right.
  - rewrite decide_False by done. unfold on_lookup. by destruct (dn_tasks s !! i).
  - rewrite decide_False by done. unfold on_send_update. by destruct (dn_sending s !! i).
Qed.

Lemma query_step q s s' : dns_step (LQuery q) s s' → dn_incoming s' = dn_incoming s ++ [q].
Proof. inversion 1; subst. done. Qed.

(** ** Endless runs *)
Section trace.
Context (tr : nat → Resolver) (lb : nat → dns_label) (now : Z).
Context (Hstart : tr 0 = Resolver_new now) (Hstep : ∀ n, dns_step (lb n) (tr n) (tr (S n))).

(** The [select!] does not pass over a waiting query for ever, and every lookup that
    was started ends. *)
Context (fair_loop : ∀ n, dn_incoming (tr n) ≠ [] → ∃ m, n ≤ m ∧ lb m = LTask).
Context (lookups_end : ∀ n q, q ∈ dn_tasks (tr n) → ∃ m, n ≤ m ∧ q ∉ dn_tasks (tr m)).

Lemma trace_ok n : dns_ok (tr n).
Proof.
  induction n as [|n IH]; [rewrite Hstart; apply dns_ok_new|]. by eapply dns_step_ok.
Qed.

Lemma task_answered n q : q ∈ dn_tasks (tr n) → ∃ m, n ≤ m ∧ answered q (tr m).
Proof.
  intros Hin. destruct (lookups_end n q Hin) as (m & Hm & Hout).
  assert (∀ d, q ∈ dn_tasks (tr (n + d)) ∨ answered q (tr (n + d))) as Hd.
  { intros d. induction d as [|d IH]; [rewrite Nat.add_0_r; by left|]. rewrite Nat.add_succ_r.
    destruct IH as [IH|IH]; [by eapply task_step; [apply trace_ok|..]|right; by eapply answered_step]. }
  exists m. split; [done|]. destruct (Hd (m - n)) as [Hq|Hq]; rewrite Nat.add_comm, Nat.sub_add in Hq by done; done.
Qed.

(** A query in the channel is still at its place when the loop next takes one. *)
Lemma incoming_taken k n q :
  dn_incoming (tr n) !! k = Some q → ∃ m, n ≤ m ∧ lb m = LTask ∧ dn_incoming (tr m) !! k = Some q.
Proof.
  intros Hq. destruct (fair_loop n) as (m & Hm & Hl); [intros He; by rewrite He in Hq|].
  assert (∀ d, dn_incoming (tr (n + d)) !! k = Some q ∨
    ∃ m, n ≤ m ∧ lb m = LTask ∧ dn_incoming (tr m) !! k = Some q) as Hd.
  { intros d. induction d as [|d [IH|IH]]; [rewrite Nat.add_0_r; by left| |by right]. rewrite Nat.add_succ_r.
    pose proof (incoming_step _ _ _ _ _ (trace_ok (n + d)) (Hstep (n + d)) IH) as Hi.
    case_decide; [right; exists (n + d); split; [lia|done]|by left]. }
  destruct (Hd (m - n)) as [Hq'|Hx]; [|done]. rewrite Nat.add_comm, Nat.sub_add in Hq' by done. by exists m.
Qed.

Lemma incoming_answered k n q : dn_incoming (tr n) !! k = Some q → ∃ m, n ≤ m ∧ answered q (tr m).
Proof.
  revert n. induction k as [|k IH]; intros n Hq; destruct (incoming_taken _ _ _ Hq) as (m & Hm & Hl & Hqm);
    pose proof (incoming_step _ _ _ _ _ (trace_ok m) (Hstep m) Hqm) as Hi; rewrite decide_True in Hi by done.
  - destruct Hi as [Hi|Hi].
    + destruct (task_answered _ _ Hi) as (m' & Hm' & Ha). exists m'. split; [lia|done].
    + exists (S m). split; [lia|done].
  - destruct (IH _ Hi) as (m' & Hm' & Ha). exists m'. split; [lia|done].
Qed.

End trace.

(** C15: in every endless run in which the loop keeps taking queries and every
    lookup ends, each query that is sent is answered: once, with the first address
    that some lookup of its name returned, or, if that lookup failed or returned none,
    with the black-hole address. *)
Theorem dns_every_query_answered (tr : nat → Resolver) (lb : nat → dns_label) now n q :
  tr 0 = Resolver_new now → (∀ n, dns_step (lb n) (tr n) (tr (S n))) →
  (∀ n, dn_incoming (tr n) ≠ [] → ∃ m, n ≤ m ∧ lb m = LTask) →
  (∀ n q, q ∈ dn_tasks (tr n) → ∃ m, n ≤ m ∧ q ∉ dn_tasks (tr m)) →
  lb n = LQuery q →
  ∃ m ip, n ≤ m ∧ (q, ip) ∈ dn_answers (tr m) ∧
    (∃ lookup, (q.1, lookup) ∈ dn_results (tr m) ∧ gave lookup ip) ∧
    ∀ m' q' ip', m ≤ m' → (q', ip') ∈ dn_answers (tr m') → q'.2 = q.2 → (q', ip') = (q, ip).
Proof.
  intros Hstart Hstep fair_loop lookups_end Hl. pose proof (trace_ok tr lb now Hstart Hstep) as Hok.
  pose proof (Hstep n) as Hs. rewrite Hl in Hs. apply query_step in Hs.
  destruct (incoming_answered tr lb now Hstart Hstep fair_loop lookups_end (length (dn_incoming (tr n))) (S n) q) as (m & Hm & [ip Hin]).
  { by rewrite Hs, lookup_app_r, Nat.sub_diag by done. }
  exists m, ip. split; [lia|]. split; [done|]. split; [exact (ok_answers _ (Hok m) q ip Hin)|].
  intros m' q' ip' Hm' Hin' Hids.
  assert ((q, ip) ∈ dn_answers (tr m')) as Hinm.
  { clear -Hm' Hin Hstep. induction Hm' as [|m' Hm' IH]; [done|]. by eapply answer_step. }
  pose proof (ok_ids _ (Hok m')) as Hnd. unfold dn_ids in Hnd.
  apply list.NoDup_app in Hnd as (_ & _ & (_ & _ & Hnd)%list.NoDup_app).
  apply list_elem_of_lookup in Hinm as [i Hi], Hin' as [j Hj].
  assert (i = j) as <-; [|congruence].
  eapply NoDup_lookup; [exact Hnd|..].
  - change (map ?f ?l) with (f <$> l). rewrite list_lookup_fmap, Hi. done.
  - change (map ?f ?l) with (f <$> l). rewrite list_lookup_fmap, Hj. cbn. by rewrite Hids.
Qed.

(** C37: what the resolver never gets wrong, in any interleaving: no query is answered
    twice; every answer is the first address that a lookup of the name asked returned,
    or the black-hole address if that lookup failed or returned none; and taking a
    query never panics: the timestamps in the cache are not ahead of the timer. *)
Theorem dns_answers_sound s :
  dns_reachable s →
  NoDup (map (λ a, snd (fst a)) (dn_answers s)) ∧
  (∀ q ip, (q, ip) ∈ dn_answers s → ∃ lookup, (q.1, lookup) ∈ dn_results s ∧ gave lookup ip) ∧
  ∃ s', on_task s = (Ok tt, s').
Proof.
  intros [Hc Hu Ha Hi]%dns_reachable_ok. unfold dn_ids in Hi.
  apply list.NoDup_app in Hi as (_ & _ & (_ & _ & Hnd)%list.NoDup_app). split; [done|]. split; [done|].
  destruct (dn_incoming s) as [|q rest] eqn:Eq.
  - eexists. unfold on_task. rewrite st_modify_bind, st_get_bind. cbn [dn_incoming dn_set_timer]. by rewrite Eq.
  - destruct (on_task_run s q rest Hc Eq) as [Hr|(ip & _ & Hr)]; by eexists.
Qed.

(** ** Examples *)
Definition ex_name : list Z := bytes_of_string "example.com".
Definition ex_q : Query := (ex_name, 7).
Definition ex_ip : IpAddr := IpV4 [93; 184; 216; 34]%Z.

(** A query, taken, looked up and answered; then time passes. *)
Definition ex_s1 : Resolver := dn_set_incoming [ex_q] (Resolver_new 0).
Definition ex_s2 : Resolver := (on_task ex_s1).2.
Definition ex_s3 : Resolver := on_lookup 0 (Some [ex_ip]) ex_s2.
Definition ex_trace (n : nat) : Resolver :=
  match n with 0 => Resolver_new 0 | 1 => ex_s1 | 2 => ex_s2 | _ => ex_s3 end.
Definition ex_labels (n : nat) : dns_label :=
  match n with 0 => LQuery ex_q | 1 => LTask | 2 => LLookup | _ => LClock end.

Lemma ex_steps n : dns_step (ex_labels n) (ex_trace n) (ex_trace (S n)).
Proof.
  destruct n as [|[|[|n]]]; cbn [ex_labels ex_trace].
  - apply (step_query (Resolver_new 0)); [cbn; unfold CHANNEL_CAPACITY; lia|set_solver].
  - apply step_task; done.
  - apply (step_lookup ex_s2 0 (Some [ex_ip])). vm_compute. lia.
  - apply (step_clock ex_s3 0%Z). vm_compute. done.
Qed.

(** A lookup that fails is answered, and kept in the cache, like one that succeeds. *)
Example dns_failed_lookup_cached :
  let s := on_lookup 0 None ex_s2 in
  dn_answers s = [(ex_q, BLACK_HOLE_LOCAL_ADDR)] ∧
  dn_cache (on_cache_update (on_send_update 0 s)) !! ex_name = Some (BLACK_HOLE_LOCAL_ADDR, 0).
Proof. split; vm_compute; reflexivity. Qed.

Lemma dns_every_query_answered_witness :
  ex_labels 0 = LQuery ex_q ∧
  ∃ m ip, 0 ≤ m ∧ (ex_q, ip) ∈ dn_answers (ex_trace m) ∧
    (∃ lookup, (ex_q.1, lookup) ∈ dn_results (ex_trace m) ∧ gave lookup ip) ∧
    ∀ m' q' ip', m ≤ m' → (q', ip') ∈ dn_answers (ex_trace m') → q'.2 = ex_q.2 → (q', ip') = (ex_q, ip).
Proof.
  split; [reflexivity|].
  refine (dns_every_query_answered ex_trace ex_labels 0%Z 0 ex_q eq_refl ex_steps _ _ eq_refl).
  - intros [|[|[|n]]] Hne; [done| |done..]. by exists 1.
  - intros n q _. exists (n + 3). split; [lia|]. rewrite Nat.add_comm. cbn [Nat.add ex_trace]. vm_compute. intros Hin. inversion Hin.
Defined.

Lemma dns_answers_sound_witness :
  dns_reachable ex_s3 ∧
  NoDup (map (λ a, snd (fst a)) (dn_answers ex_s3)) ∧
  (∀ q ip, (q, ip) ∈ dn_answers ex_s3 → ∃ lookup, (q.1, lookup) ∈ dn_results ex_s3 ∧ gave lookup ip) ∧
  ∃ s', on_task ex_s3 = (Ok tt, s').
Proof.
  assert (dns_reachable ex_s3) as Hr.
  { exists 0%Z. do 3 (eapply rtc_l; [eexists; first [apply (ex_steps 0)|apply (ex_steps 1)|apply (ex_steps 2)]|]). apply rtc_refl. }
  split; [exact Hr|]. exact (dns_answers_sound ex_s3 Hr).
Defined.
