(* ===== verification/Fallback.v ===== *)
(** The fallback of the server: src/src/server/outbound/fallback.rs.

    A rejected connection is handed to a local service, with what was read of it
    so far; two [copy_forked] futures (src/src/utils/forked_copy/copy_buf.rs) then
    run in a [select!] until the first of them ends. *)
From stdpp Require Import relations.
From S2P Require Import Prelude Vec MixAddr Io Copy.

(** The streams and the two [Copy] futures. *)
Record FallbackSt (I O : Type) := mkFallback {
  fb_down : CopyBuffer;
  fb_up : CopyBuffer;
  fb_in : I;
  fb_out : O;
}.
Arguments mkFallback {I O}.
Arguments fb_down {I O}.
Arguments fb_up {I O}.
Arguments fb_in {I O}.
Arguments fb_out {I O}.

Inductive FallbackBranch : Type := FbDown | FbUp.

Section fallback.
Context {I O : Type} `{AsyncRead I, AsyncWrite I, AsyncRead O, AsyncWrite O}.
(** [TcpStream::connect]. *)
Context (tcp_connect : SocketAddr → outcome io_error O).

(** What happens before the [select!]: [write_all_buf] of everything read so far. *)
Definition fallback_start (buf : list Z) (fallback_port : Z) (inbound : I) : outcome io_error (FallbackSt I O) :=
  outbound ← tcp_connect (SocketV4 [127; 0; 0; 1]%Z fallback_port);
  let '(r, outbound) := write_all buf outbound in
  _ ← r;
  mret (mkFallback CopyBuffer_new CopyBuffer_new inbound outbound).

(** [Copy::poll] of each direction. *)
Definition fallback_branch (fuel : nat) (b : FallbackBranch) : ST (FallbackSt I O) io_error Z :=
  match b with
  | FbDown => st_zoom (λ s, mkCopySt (fb_down s) (fb_out s) (fb_in s))
      (λ c s, mkFallback (cs_buf c) (fb_up s) (cs_wr c) (cs_rd c)) (Forked.poll_copy fuel)
  | FbUp => st_zoom (λ s, mkCopySt (fb_up s) (fb_in s) (fb_out s))
      (λ c s, mkFallback (fb_down s) (cs_buf c) (cs_rd c) (cs_wr c)) (Forked.poll_copy fuel)
  end.

(** One poll of the [select!]; an error of a direction ends it as its end does. *)
Fixpoint fallback_select (fuel : nat) (order : list FallbackBranch) : ST (FallbackSt I O) io_error FallbackBranch :=
  match order with
  | [] => st_lift Pending
  | b :: rest =>
      res ← st_try (fallback_branch fuel b);
      match res with
      | Pending => fallback_select fuel rest
      | Ok _ | Err _ => mret b
      | Panic msg => panic msg
      | OutOfFuel => st_lift OutOfFuel
      end
  end.

Definition fallback_pending (fuel : nat) (s s' : FallbackSt I O) : Prop :=
  ∃ order, fallback_select fuel order s = (Pending, s').
End fallback.

(** ** What the service and the client see *)
Section exact.
Context {I O : Type} `{AsyncReadOk I, !AsyncWrite I, !AsyncWriteOk I}.
Context `{AsyncReadOk O, !AsyncWrite O, !AsyncWriteOk O}.
Implicit Types s : FallbackSt I O.

(** From [s] to [s'] the two streams were moved with nothing lost between them. *)
Definition fb_moved s s' : Prop :=
  relay_buf_wf (fb_up s) ∧ relay_buf_wf (fb_down s) →
  (relay_buf_wf (fb_up s') ∧ relay_buf_wf (fb_down s')) ∧
  ∃ iin iout oin oout,
    io_trace (fb_in s) iin iout (fb_in s') ∧ io_trace (fb_out s) oin oout (fb_out s') ∧
    unsent (fb_up s) ++ iin = oout ++ unsent (fb_up s') ∧
    unsent (fb_down s) ++ oin = iout ++ unsent (fb_down s').

#[export] Instance fb_moved_preorder : PreOrder fb_moved.
Proof.
  split.
  - intros s Hwf. split; [done|]. exists [], [], [], []. rewrite !app_nil_r. auto using io_refl.
  - intros s1 s2 s3 H12 H23 Hwf. apply H12 in Hwf as (Hwf & i1 & j1 & o1 & p1 & Hi1 & Ho1 & E1 & F1).
    apply H23 in Hwf as (Hwf & i2 & j2 & o2 & p2 & Hi2 & Ho2 & E2 & F2). split; [done|].
    exists (i1 ++ i2), (j1 ++ j2), (o1 ++ o2), (p1 ++ p2). split_and!; eauto using io_trace_trans.
    + rewrite app_assoc, E1, <- !app_assoc. by f_equal.
    + rewrite app_assoc, F1, <- !app_assoc. by f_equal.
Qed.

Lemma fallback_branch_moved fuel b s : fb_moved s (fallback_branch fuel b s).2.
Proof.
  intros [Hu Hd]. unfold fallback_branch. destruct b; rewrite st_zoom_run; cbn [snd fb_up fb_down fb_in fb_out].
  - destruct (copy_loop_copies true Forked.read_step fuel forked_read_contract
      (mkCopySt (fb_down s) (fb_out s) (fb_in s)) Hd (tracked_true _)) as (Hwf & _ & ins & outs & Hr & Hw & E).
    cbn [cs_buf cs_rd cs_wr] in *. split; [done|]. exists [], outs, ins, []. by rewrite app_nil_r.
  - destruct (copy_loop_copies true Forked.read_step fuel forked_read_contract
      (mkCopySt (fb_up s) (fb_in s) (fb_out s)) Hu (tracked_true _)) as (Hwf & _ & ins & outs & Hr & Hw & E).
    cbn [cs_buf cs_rd cs_wr] in *. split; [done|]. exists ins, [], [], outs. by rewrite app_nil_r.
Qed.

Lemma fallback_select_moved fuel order s : fb_moved s (fallback_select fuel order s).2.
Proof.
  revert s. induction order as [|b order IH]; intros s; [done|]. cbn [fallback_select]. rewrite st_try_bind.
  pose proof (fallback_branch_moved fuel b s) as Hb.
  destruct (fallback_branch fuel b s) as [r s1]. cbn [fst snd] in *. etrans; [exact Hb|]. by destruct r.
Qed.

Lemma fallback_run_moved fuel s s' : rtc (fallback_pending fuel) s s' → fb_moved s s'.
Proof.
  induction 1 as [|s s1 s2 [order Ho] _ IH]; [done|]. etrans; [|exact IH].
  pose proof (fallback_select_moved fuel order s) as Hm. by rewrite Ho in Hm.
Qed.

(** The relay of a connection whose first bytes, [buf], were read by someone else. *)
Lemma fallback_carried (tcp_connect : SocketAddr → outcome io_error O) fuel order buf port (inbound : I) s0 s r s' :
  fallback_start tcp_connect buf port inbound = Ok s0 →
  rtc (fallback_pending fuel) s0 s → fallback_select fuel order s = (r, s') →
  ∃ outbound iin iout oin oout, tcp_connect (SocketV4 [127; 0; 0; 1]%Z port) = Ok outbound ∧
    io_trace inbound iin iout (fb_in s') ∧ io_trace outbound oin oout (fb_out s') ∧
    buf ++ iin = oout ++ unsent (fb_up s') ∧ oin = iout ++ unsent (fb_down s') ∧
    length (unsent (fb_up s')) ≤ RELAY_BUFFER_SIZE ∧ length (unsent (fb_down s')) ≤ RELAY_BUFFER_SIZE.
Proof.
  unfold fallback_start. intros Hs Hrun Hsel. apply outcome_bind_Ok in Hs as (o & Hc & Hs).
  pose proof (write_all_spec buf o) as Hw. unfold post in Hw. destruct (write_all buf o) as [rw o1].
  cbn [fst snd] in Hw. apply outcome_bind_Ok in Hs as ([] & -> & [= <-]).
  destruct Hw as (_ & outs & rest & Hwt & Hb & Hrest). rewrite (Hrest eq_refl), app_nil_r in Hb. subst outs.
  apply fallback_run_moved in Hrun. pose proof (fallback_select_moved fuel order s) as Hm. rewrite Hsel in Hm.
  destruct (transitivity Hrun Hm) as ([Hu Hd] & iin & iout & oin & oout & Hi & Ho & E & F);
    [split; apply relay_buf_new_wf|]. cbn [fb_in fb_out fb_up fb_down unsent] in *.
  exists o, iin, iout, oin, (buf ++ oout). split; [done|]. split; [done|].
  split; [by eapply (io_trace_trans _ [] buf), Ho; apply write_trace_io|].
  change (unsent CopyBuffer_new) with (@nil Z) in E, F. cbn [app] in E, F.
  split; [by rewrite <- app_assoc, E|]. split; [done|].
  split; [apply (in_flight_bounded (Running (fb_up s')))|apply (in_flight_bounded (Running (fb_down s')))]; done.
Qed.
End exact.
