(* ===== verification/Connector.v ===== *)
(** The outbound side of the server: src/src/server/outbound/connector.rs, with
    [TcpOption::forward] of src/src/server/utils/lite_tls.rs and
    [handle_tcp_tls_connection] of src/src/server/inbound/handler.rs.

    [handle_outbound] runs up to the point where something is relayed, and
    [serve_poll] is one poll from there on. Which connection is served how, and with
    which streams, is the composition of the acceptor (Acceptor.v), the Lite TLS
    endpoint (LiteTls.v) and the relays (Adapter.v). *)
From stdpp Require Import relations.
From S2P Require Import Prelude Vec MixAddr Io Copy UdpTraits UdpCopy TrojanUdp.
From S2P Require Import Acceptor UdpSockets Timeout Adapter LiteTls Fallback.

Definition TCP_MAX_IDLE_TIMEOUT : Z := 10 * 60.

(** [anyhow::Error] as [handle_outbound] makes it; the context messages are left out. *)
Inductive server_error : Type :=
| SvParser (e : ParserError)
| SvIo (e : io_error)
| SvTls (e : tls_error)
| SvResolve
| SvElapsed.

(** [timeout(..).await?] of a future that never ends by itself. *)
Definition or_elapsed {A} (m : outcome server_error A) : outcome server_error A :=
  match m with Pending => Err SvElapsed | _ => m end.

(** The echo task: the stream, and the bytes read and not yet written. *)
Record Echo (I : Type) := mkEcho { ec_stream : BufferedRecv I; ec_num : option (list Z) }.
Arguments mkEcho {I}.
Arguments ec_stream {I}.
Arguments ec_num {I}.

(** What a connection is doing once it is accepted and its outbound end is there. *)
Inductive Serving (T X I O TI K D DT : Type) : Type :=
| ServeClosed
| ServeTcp (r : Relay T X (BufferedRecv I) O CopyBuffer)
| ServeLite (r : Relay T X TI O CopyBuffer)
| ServeUdp (r : Relay T X (TrojanUdpStream I) (ServerUdpStream K D DT) UdpCopyBuf)
| ServeEcho (e : Echo I) (shutdown : X).
Arguments ServeClosed {T X I O TI K D DT}.
Arguments ServeTcp {T X I O TI K D DT}.
Arguments ServeLite {T X I O TI K D DT}.
Arguments ServeUdp {T X I O TI K D DT}.
Arguments ServeEcho {T X I O TI K D DT}.

Section connector.
Context {T X I O TI K D DT : Type} `{Sleep T, Signal X, AsyncRead I, AsyncWrite I, LeaveTls I TI}.
Context `{AsyncRead O, AsyncWrite O, AsyncRead TI, AsyncWrite TI, UdpSocket K, Dns D DT}.
Abbreviation Serve := (Serving T X I O TI K D DT).

(** The resolver's answers, the operating system's sockets, the clock, and the
    channel to the resolver. *)
Context (dns : list Z → outcome server_error IpAddr) (tcp_connect : SocketAddr → outcome io_error O).
Context (set_nodelay : O → outcome io_error unit) (udp_bind : outcome io_error K).
Context (clock : nat → Z) (dns_tx : D).
(** The order in which a Lite TLS handshake finds its streams ready, and the bounds
    on its reads. *)
Context (reads : nat) (sched : nat → Direction) (hs_fuel : nat).

Definition outbound_connect (target_host : MixAddrType) : outcome server_error O :=
  target_socket_addr ← Mix.resolve dns target_host;
  outbound ← map_err SvIo (tcp_connect target_socket_addr);
  _ ← map_err SvIo (set_nodelay outbound);
  mret outbound.

(** [adapt!] with the idle timeout. *)
Definition adapt_tcp {C} (inbound : C) (outbound : O) (shutdown : X) : Relay T X C O CopyBuffer :=
  relay_start (set_timeout TCP_MAX_IDLE_TIMEOUT Adapter_new) clock CopyBuffer_new CopyBuffer_new
    inbound outbound shutdown.

Definition forward (request : TcpOption (BufferedRecv I)) (outbound : O) (shutdown : X)
    : outcome server_error Serve :=
  match request with
  | TLS inbound => mret (ServeTcp (adapt_tcp inbound outbound shutdown))
  | LiteTLS inbound =>
      next ← map_err SvTls (server_forward_lite reads sched hs_fuel inbound outbound);
      match next with
      | Closed => mret ServeClosed
      | RelayLite inbound outbound => mret (ServeLite (adapt_tcp inbound outbound shutdown))
      | RelayTls inbound outbound => mret (ServeTcp (adapt_tcp inbound outbound shutdown))
      end
  end.

(** [conn_id] is the value of the counter of the relay's kind. *)
Definition handle_outbound (fuel : nat) (password : list Z) (fallback_port : Z) (conn_id : nat)
    (shutdown : X) (stream : I) : outcome server_error Serve * AcceptSt I :=
  let '(req, s) := accept fuel (accept_new password fallback_port stream) in
  (req ← or_elapsed (map_err SvParser req);
   match req with
   | TCP inbound =>
       outbound ← or_elapsed (outbound_connect (ta_host (ac_acceptor s)));
       forward inbound outbound shutdown
   | UDP inbound =>
       outbound ← map_err SvIo udp_bind;
       mret (ServeUdp (relay_start (set_timeout TCP_MAX_IDLE_TIMEOUT Adapter_new) clock
         (UdpCopyBuf_new (Some conn_id)) (UdpCopyBuf_new None) inbound
         (ServerUdpStream_new outbound dns_tx) shutdown))
   | ECHO inbound => mret (ServeEcho (mkEcho inbound None) shutdown)
   | PHANTOM _ => Panic "internal error: entered unreachable code: "
   end, s).

(** [incoming]: the TLS handshake of the library. *)
Definition handle_tcp_tls_connection (fuel : nat) (password : list Z) (fallback_port : Z) (conn_id : nat)
    (shutdown : X) (incoming : outcome io_error I) : outcome server_error Serve :=
  stream ← or_elapsed (map_err SvIo incoming);
  (handle_outbound fuel password fallback_port conn_id shutdown stream).1.

(** ** One poll *)

(** The echo block: it ends when a read or a write fails. *)
Fixpoint echo_poll (fuel : nat) : ST (Echo I) server_error unit :=
  match fuel with
  | 0 => st_lift OutOfFuel
  | S fuel' =>
      e ← st_get;
      num ← st_try (match ec_num e with
        | Some bs => st_lift (Ok bs)
        | None => st_zoom ec_stream (λ b e, mkEcho b (ec_num e)) (poll_read 256)
        end);
      match num with
      | Ok bs =>
          st_modify (λ e, mkEcho (ec_stream e) (Some bs));;
          written ← st_try (st_zoom ec_stream (λ b e, mkEcho b (ec_num e)) (poll_write bs));
          match written with
          | Ok _ => st_modify (λ e, mkEcho (ec_stream e) None);; echo_poll fuel'
          | Err _ => mret tt
          | Pending => st_lift Pending
          | Panic msg => panic msg
          | OutOfFuel => st_lift OutOfFuel
          end
      | Err _ => mret tt
      | Pending => st_lift Pending
      | Panic msg => panic msg
      | OutOfFuel => st_lift OutOfFuel
      end
  end.

Context (overflow_checks : bool) (fuel inner_fuel : nat).

(** The [select!] of the echo connection has two branches. *)
Fixpoint echo_select (order : list Branch) : ST (Echo I * X) server_error unit :=
  match order with
  | [] => st_lift Pending
  | BDuplex :: rest =>
      res ← st_try (st_zoom fst (λ e s, (e, s.2)) (echo_poll fuel));
      match res with
      | Pending => echo_select rest
      | _ => st_lift res
      end
  | BShutdown :: rest =>
      '(_, shutdown) ← st_get;
      let '(received, shutdown') := try_recv shutdown in
      st_modify (λ s, (s.1, shutdown'));;
      if received : bool then mret tt else echo_select rest
  | BTimeout :: rest => echo_select rest
  end.

(** The reason of the end is only logged. *)
Definition serve_poll (order : list Branch) : ST Serve server_error unit := λ s,
  match s with
  | ServeClosed => (Ok tt, s)
  | ServeTcp r =>
      let '(res, r') := relay_tcp overflow_checks fuel order r in
      (reason ← map_err SvIo res; mret tt, ServeTcp r')
  | ServeLite r =>
      let '(res, r') := relay_tcp overflow_checks fuel order r in
      (reason ← map_err SvIo res; mret tt, ServeLite r')
  | ServeUdp r =>
      let '(res, r') := relay_udp overflow_checks inner_fuel fuel order r in
      (reason ← map_err SvIo res; mret tt, ServeUdp r')
  | ServeEcho e shutdown =>
      let '(res, (e', shutdown')) := echo_select order (e, shutdown) in
      (res, ServeEcho e' shutdown')
  end.

Definition serve_pending (s s' : Serve) : Prop :=
  ∃ order, order ≡ₚ [BDuplex; BTimeout; BShutdown] ∧ serve_poll order s = (Pending, s').
End connector.

(** ** The echo connection at the end of its input

    A stream at its end delivers nothing, again and again, and takes everything. *)
#[local] Instance ended_read : AsyncRead unit := λ _ s, (Ok [], s).
#[local] Instance ended_write : AsyncWrite unit := {
  poll_write b := λ s, (Ok (length b), s);
  poll_flush := mret tt;
  poll_shutdown := mret tt;
}.

(** The echo loop does not stop there: it never returns from a poll. *)
Lemma echo_never_ends fuel : (echo_poll fuel (mkEcho (BufferedRecv_new tt None) None)).1 = OutOfFuel.
Proof. induction fuel as [|fuel IH]; [done|]. cbn. exact IH. Qed.

(** A request that came with more than 256 bytes does not fit its buffer. *)
Example echo_long_request_panics :
  is_panic (echo_poll 1 (mkEcho (BufferedRecv_new tt (Some (0, replicate 257 7%Z))) None)).1 = true.
Proof. reflexivity. Qed.
