(* ===== verification/Client.v ===== *)
(** The outbound side of the client: [forward] of src/src/client/outbound/connect.rs,
    [trojan_auth] of trojan_auth.rs, [TrojanTcpTlsConnector] of tcp_tls.rs, and the
    two relays of src/src/client/utils/data_transfer.rs.

    [client_forward] runs up to the point where something is relayed; [client_poll]
    is one poll from there on. *)
From stdpp Require Import relations.
From S2P Require Import Prelude Vec MixAddr Io Copy UdpTraits UdpCopy TrojanUdp.
From S2P Require Import Acceptor UdpSockets Timeout Adapter LiteTls Inbound.

Inductive client_error : Type :=
| ClAccept (e : accept_error)
| ClConnect
| ClIo (e : io_error)
| ClTls (e : tls_error).

(** The connection to the server. *)
Inductive ClientServerConnection (SS RS S : Type) : Type :=
| ConnQuic (p : SS * RS)
| ConnTcpTLS (s : S)
| ConnLiteTLS (s : S).
Arguments ConnQuic {SS RS S}.
Arguments ConnTcpTLS {SS RS S}.
Arguments ConnLiteTLS {SS RS S}.

Definition mode_of {SS RS S} (c : ClientServerConnection SS RS S) : ConnectionMode :=
  match c with ConnQuic _ => Quic | ConnTcpTLS _ => TcpTLS | ConnLiteTLS _ => LiteTLSMode end.

(** What the client relays for one request of the user. *)
Inductive Relaying (T X U SS RS S TS K XR E : Type) : Type :=
| RelClosed
| RelTcp (r : Relay T X (BufferedRecv U) S CopyBuffer)
| RelTcpQuic (r : Relay T X (BufferedRecv U) (WRTuple SS RS) CopyBuffer)
| RelLite (r : Relay T X U TS CopyBuffer)
| RelUdp (r : Relay T X (Socks5UdpStream K XR) (TrojanUdpStream S) UdpCopyBuf)
| RelUdpQuic (r : Relay T X (Socks5UdpStream K XR) (TrojanUdpStream (WRTuple SS RS)) UdpCopyBuf)
| RelEcho (p : SS * RS) (echo_rx : E).
Arguments RelClosed {T X U SS RS S TS K XR E}.
Arguments RelTcp {T X U SS RS S TS K XR E}.
Arguments RelTcpQuic {T X U SS RS S TS K XR E}.
Arguments RelLite {T X U SS RS S TS K XR E}.
Arguments RelUdp {T X U SS RS S TS K XR E}.
Arguments RelUdpQuic {T X U SS RS S TS K XR E}.
Arguments RelEcho {T X U SS RS S TS K XR E}.

Section client.
Context {T X U SS RS S TS K XR E : Type} `{Sleep T, Signal X, AsyncRead U, AsyncWrite U}.
Context `{AsyncWrite SS, AsyncRead RS, AsyncRead S, AsyncWrite S, AsyncRead TS, AsyncWrite TS}.
Context `{UdpSocket K, Signal XR}.
Abbreviation Conn := (ClientServerConnection SS RS S).
Abbreviation Rel := (Relaying T X U SS RS S TS K XR E).

(** The socket under a TLS stream. *)
Context (into_inner : S → TS) (clock : nat → Z).
Context (reads : nat) (sched : nat → Direction) (hs_fuel : nat).

Definition trojan_auth (mode : Z) (addr : MixAddrType) (outbound : Conn) (password : list Z)
    : outcome io_error unit * Conn :=
  match outbound with
  | ConnQuic (out_write, out_read) =>
      let '(r, out_write) := send_trojan_auth mode addr password out_write in
      (r, ConnQuic (out_write, out_read))
  | ConnTcpTLS s => let '(r, s) := send_trojan_auth mode addr password s in (r, ConnTcpTLS s)
  | ConnLiteTLS s => let '(r, s) := send_trojan_auth mode addr password s in (r, ConnLiteTLS s)
  end.

(** [adapt!] without a timeout. *)
Definition adapt_tcp_until {I O} (inbound : I) (outbound : O) (shutdown : X) : Relay T X I O CopyBuffer :=
  relay_start Adapter_new clock CopyBuffer_new CopyBuffer_new inbound outbound shutdown.
Definition adapt_udp_until {I O} (conn_id : nat) (inbound : I) (outbound : O) (shutdown : X)
    : Relay T X I O UdpCopyBuf :=
  relay_start Adapter_new clock (UdpCopyBuf_new (Some conn_id)) (UdpCopyBuf_new None) inbound outbound shutdown.

Definition client_relay_tcp (inbound : BufferedRecv U) (outbound : Conn) (shutdown : X)
    : outcome client_error Rel :=
  match outbound with
  | ConnQuic p => mret (RelTcpQuic (adapt_tcp_until inbound (from_wr_tuple p) shutdown))
  | ConnTcpTLS s => mret (RelTcp (adapt_tcp_until inbound s shutdown))
  | ConnLiteTLS s =>
      next ← map_err ClTls (client_forward_lite into_inner reads sched hs_fuel inbound s);
      match next with
      | Closed => mret RelClosed
      | RelayLite inbound outbound => mret (RelLite (adapt_tcp_until inbound outbound shutdown))
      | RelayTls inbound outbound => mret (RelTcp (adapt_tcp_until inbound outbound shutdown))
      end
  end.

Definition client_relay_udp (inbound : Socks5UdpStream K XR) (outbound : Conn) (shutdown : X) (conn_id : nat)
    : outcome client_error Rel :=
  match outbound with
  | ConnQuic p =>
      mret (RelUdpQuic (adapt_udp_until conn_id inbound (TrojanUdpStream_new (from_wr_tuple p) None) shutdown))
  | ConnTcpTLS s | ConnLiteTLS s =>
      mret (RelUdp (adapt_udp_until conn_id inbound (TrojanUdpStream_new s None) shutdown))
  end.

(** [incomming] and [connecting] are awaited first; [conn_id] is the value of the
    counter of the relay's kind. *)
Definition client_forward (incomming : outcome accept_error (ClientConnectionRequest U K XR E * MixAddrType))
    (connecting : outcome client_error Conn) (password : list Z) (conn_id : nat) (shutdown : X)
    : outcome client_error Rel :=
  '(conn_req, addr) ← map_err ClAccept incomming;
  outbound ← connecting;
  connection_cmd ← get_cmd conn_req (mode_of outbound);
  let '(r, outbound) := trojan_auth connection_cmd addr outbound password in
  _ ← map_err ClIo r;
  match conn_req with
  | TCP inbound => client_relay_tcp inbound outbound shutdown
  | UDP inbound => client_relay_udp inbound outbound shutdown conn_id
  | ECHO echo_rx =>
      match outbound with
      | ConnQuic p => mret (RelEcho p echo_rx)
      | _ => Panic "internal error: entered unreachable code"
      end
  | PHANTOM _ => Panic "internal error: entered unreachable code"
  end.

(** [TrojanTcpTlsConnector::connect]: the TCP connection to [remote_socket_addr], then
    the TLS handshake of the library. *)
Definition tls_connect {TCPS} (is_lite : bool) (remote_socket_addr : option SocketAddr)
    (tcp_connect : SocketAddr → outcome io_error TCPS) (set_nodelay : TCPS → outcome io_error unit)
    (connect : TCPS → outcome io_error S) : outcome client_error Conn :=
  match remote_socket_addr with
  | None => Panic "called `Option::unwrap()` on a `None` value"
  | Some remote =>
      stream ← map_err ClIo (tcp_connect remote);
      _ ← map_err ClIo (set_nodelay stream);
      stream ← map_err ClIo (connect stream);
      mret (if is_lite then ConnLiteTLS stream else ConnTcpTLS stream)
  end.

(** ** One poll *)
Context (overflow_checks : bool) (fuel inner_fuel : nat).

(** [send_echo], which takes over an echo connection, is the echo task of Quic.v. *)
Definition client_poll (order : list Branch) : ST Rel client_error unit := λ s,
  match s with
  | RelClosed => (Ok tt, s)
  | RelEcho _ _ => (Pending, s)
  | RelTcp r =>
      let '(res, r') := relay_tcp overflow_checks fuel order r in
      (reason ← map_err ClIo res; mret tt, RelTcp r')
  | RelTcpQuic r =>
      let '(res, r') := relay_tcp overflow_checks fuel order r in
      (reason ← map_err ClIo res; mret tt, RelTcpQuic r')
  | RelLite r =>
      let '(res, r') := relay_tcp overflow_checks fuel order r in
      (reason ← map_err ClIo res; mret tt, RelLite r')
  | RelUdp r =>
      let '(res, r') := relay_udp overflow_checks inner_fuel fuel order r in
      (reason ← map_err ClIo res; mret tt, RelUdp r')
  | RelUdpQuic r =>
      let '(res, r') := relay_udp overflow_checks inner_fuel fuel order r in
      (reason ← map_err ClIo res; mret tt, RelUdpQuic r')
  end.

Definition client_pending (s s' : Rel) : Prop :=
  ∃ order, order ≡ₚ [BDuplex; BTimeout; BShutdown] ∧ client_poll order s = (Pending, s').
End client.
