(* ===== verification/Tunnel.v ===== *)
(** The whole path of a connection: the client's relay, the server's acceptor and the
    server's relay together, and the path of a connection the server rejects.

    The streams are recorded: [Logged] keeps what a stream delivered and accepted, and
    how much short writes left, so that a theorem can speak of the bytes each party saw. A [Transcript] is a stream of
    which that is known: a recorded one, or the two recorded halves of a QUIC stream. *)
From stdpp Require Import relations.
From S2P Require Import Prelude Vec MixAddr Io Copy UdpTraits UdpCopy TrojanUdp Acceptor.
From S2P Require Import UdpSockets Timeout Adapter LiteTls LiteTlsHandshake Fallback Connector Inbound Client.

(** ** Recorded streams *)
Record Logged (S : Type) := mkLogged { lg_io : S; lg_in : list Z; lg_out : list Z; lg_short : nat }.
Arguments mkLogged {S}.
Arguments lg_io {S}.
Arguments lg_in {S}.
Arguments lg_out {S}.
Arguments lg_short {S}.

Definition fresh {S} (s : S) : Logged S := mkLogged s [] [] 0.

(** The bytes that a write was handed and did not take. *)
Definition short_by (b : list Z) (r : outcome io_error nat) : nat :=
  length (bytes_handed b r) - length (bytes_accepted b r).

#[export] Instance Logged_AsyncRead {S} `{AsyncRead S} : AsyncRead (Logged S) := λ room l,
  let '(r, s') := poll_read room (lg_io l) in (r, mkLogged s' (lg_in l ++ bytes_read r) (lg_out l) (lg_short l)).

Definition logged_unit {S} (m : ST S io_error unit) : ST (Logged S) io_error unit :=
  st_zoom lg_io (λ s l, mkLogged s (lg_in l) (lg_out l) (lg_short l)) m.

#[export] Instance Logged_AsyncWrite {S} `{AsyncWrite S} : AsyncWrite (Logged S) := {
  poll_write b := λ l,
    let '(r, s') := poll_write b (lg_io l) in
    (r, mkLogged s' (lg_in l) (lg_out l ++ bytes_accepted b r) (lg_short l + short_by b r));
  poll_flush := logged_unit poll_flush;
  poll_shutdown := logged_unit poll_shutdown;
}.

Lemma logged_read {S} `{AsyncRead S} room (l : Logged S) :
  poll_read room l = ((poll_read room (lg_io l)).1,
    mkLogged (poll_read room (lg_io l)).2 (lg_in l ++ bytes_read (poll_read room (lg_io l)).1) (lg_out l) (lg_short l)).
Proof. unfold poll_read at 1, Logged_AsyncRead. by destruct (poll_read room (lg_io l)). Qed.

Lemma logged_write {S} `{AsyncWrite S} b (l : Logged S) :
  poll_write b l = ((poll_write b (lg_io l)).1,
    mkLogged (poll_write b (lg_io l)).2 (lg_in l) (lg_out l ++ bytes_accepted b (poll_write b (lg_io l)).1)
      (lg_short l + short_by b (poll_write b (lg_io l)).1)).
Proof. unfold poll_write at 1, Logged_AsyncWrite. by destruct (poll_write b (lg_io l)). Qed.

#[export] Instance Logged_AsyncReadOk {S} `{AsyncReadOk S} : AsyncReadOk (Logged S).
Proof.
  split; intros room l.
  - intros bs l'. rewrite logged_read. intros [= Hr _]. exact (read_fits_fst room (lg_io l) bs Hr).
  - rewrite logged_read. cbn [fst]. apply poll_read_returns.
Qed.

#[export] Instance Logged_AsyncWriteOk {S} `{AsyncWriteOk S} : AsyncWriteOk (Logged S).
Proof.
  split.
  - intros b l n l'. rewrite logged_write. intros [= Hw _]. exact (write_fits_fst b (lg_io l) n Hw).
  - intros b l. rewrite logged_write. cbn [fst]. apply poll_write_returns.
  - intros l. cbn [poll_flush Logged_AsyncWrite]. unfold logged_unit. rewrite st_zoom_run. cbn [fst]. apply poll_flush_returns.
  - intros l. cbn [poll_shutdown Logged_AsyncWrite]. unfold logged_unit. rewrite st_zoom_run. cbn [fst]. apply poll_shutdown_returns.
Qed.

(** The log of a stream is its history. *)
Lemma logged_trace {S} `{AsyncRead S, AsyncWrite S} (l : Logged S) ins outs l' :
  io_trace l ins outs l' → lg_in l' = lg_in l ++ ins ∧ lg_out l' = lg_out l ++ outs.
Proof.
  induction 1 as [l|l room ins outs l'' Htr IH|l b ins outs l'' Htr IH|l ins outs l'' Htr IH|l ins outs l'' Htr IH].
  - by rewrite !app_nil_r.
  - rewrite logged_read in IH. rewrite logged_read. cbn [fst snd lg_in lg_out] in *. by rewrite app_assoc.
  - rewrite logged_write in IH. rewrite logged_write. cbn [fst snd lg_in lg_out] in *. by rewrite (app_assoc (lg_out l)).
  - cbn [poll_flush Logged_AsyncWrite] in IH. unfold logged_unit in IH. by rewrite st_zoom_run in IH.
  - cbn [poll_shutdown Logged_AsyncWrite] in IH. unfold logged_unit in IH. by rewrite st_zoom_run in IH.
Qed.

Lemma fresh_trace {S} `{AsyncRead S, AsyncWrite S} (s : S) ins outs l' :
  io_trace (fresh s) ins outs l' → lg_in l' = ins ∧ lg_out l' = outs.
Proof. apply logged_trace. Qed.

Lemma logged_written {S} `{AsyncWrite S} (l : Logged S) outs l' :
  write_trace l outs l' → lg_in l' = lg_in l ∧ lg_out l' = lg_out l ++ outs.
Proof.
  induction 1 as [l|l b outs l'' _ IH|l outs l'' _ IH|l outs l'' _ IH]; [by rewrite app_nil_r|..].
  - rewrite logged_write in *. cbn [fst snd lg_in lg_out] in *. by rewrite (app_assoc (lg_out l)).
  - cbn [poll_flush Logged_AsyncWrite] in IH. unfold logged_unit in IH. by rewrite st_zoom_run in IH.
  - cbn [poll_shutdown Logged_AsyncWrite] in IH. unfold logged_unit in IH. by rewrite st_zoom_run in IH.
Qed.

(** ** Streams of which is known how much their short writes left

    One law per poll; what a history did follows. *)
Class Watched (S : Type) `{AsyncRead S, AsyncWrite S} := {
  seen_short : S → nat;
  short_read (l : S) room : seen_short (poll_read room l).2 = seen_short l;
  short_write (l : S) b : seen_short (poll_write b l).2 = seen_short l + short_by b (poll_write b l).1;
  short_flush (l : S) : seen_short (poll_flush l).2 = seen_short l;
  short_shutdown (l : S) : seen_short (poll_shutdown l).2 = seen_short l;
}.

#[export, refine] Instance Logged_Watched {S} `{AsyncRead S, AsyncWrite S} : Watched (Logged S) := {
  seen_short := lg_short;
}.
Proof.
  - intros l room. by rewrite logged_read.
  - intros l b. by rewrite logged_write.
  - intros l. cbn [poll_flush Logged_AsyncWrite]. unfold logged_unit. by rewrite st_zoom_run.
  - intros l. cbn [poll_shutdown Logged_AsyncWrite]. unfold logged_unit. by rewrite st_zoom_run.
Defined.

#[export, refine] Instance BufferedRecv_Watched {S} `{Watched S} : Watched (BufferedRecv S) := {
  seen_short b := seen_short (br_inner b);
}.
Proof.
  - intros b room. pose proof (poll_read_buffered room b) as Hp. destruct (buffered_request b) as [[i v]|].
    + by destruct Hp as [[-> _]|[msg ->]].
    + rewrite Hp. apply short_read.
  - intros b bs. cbn [poll_write BufferedRecv_AsyncWrite]. rewrite st_zoom_run. apply short_write.
  - intros b. cbn [poll_flush BufferedRecv_AsyncWrite]. rewrite st_zoom_run. apply short_flush.
  - intros b. cbn [poll_shutdown BufferedRecv_AsyncWrite]. rewrite st_zoom_run. apply short_shutdown.
Defined.

Lemma short_by_length b r : short_by b r + length (bytes_accepted b r) = length (bytes_handed b r).
Proof. unfold short_by. pose proof (sublist_length _ _ (accepted_handed b r)). lia. Qed.

Lemma handed_short {S} `{Watched S} (l : S) ins handed took l' :
  io_handed l ins handed took l' → seen_short l' + length took = seen_short l + length handed.
Proof.
  induction 1 as [l|l room ins handed took l'' _ IH|l b ins handed took l'' _ IH|l ins handed took l'' _ IH
    |l ins handed took l'' _ IH]; [done|..].
  - by rewrite short_read in IH.
  - rewrite short_write in IH. pose proof (short_by_length b (poll_write b l).1) as Hb. rewrite !length_app. lia.
  - by rewrite short_flush in IH.
  - by rewrite short_shutdown in IH.
Qed.

(** No write was short: the stream took all it was handed. *)
Lemma handed_whole {S} `{Watched S} (l : S) ins handed took l' :
  io_handed l ins handed took l' → seen_short l' = 0 → io_trace l ins handed l' ∧ seen_short l = 0.
Proof.
  intros Hh Hl. pose proof (handed_short _ _ _ _ _ Hh) as Hs. pose proof (io_handed_took _ _ _ _ _ Hh) as Ht.
  pose proof (sublist_length _ _ Ht). rewrite <- (sublist_same_length _ _ Ht) by lia.
  split; [by eapply io_handed_trace|lia].
Qed.

Lemma read_short {S} `{Watched S} (l : S) bs l' : read_trace l bs l' → seen_short l' = seen_short l.
Proof. intros Ht%read_trace_handed%handed_short. cbn in Ht. lia. Qed.

(** ** Connections of which is known what they delivered and accepted *)
Class Transcript (S : Type) `{AsyncRead S, AsyncWrite S} := {
  seen_in : S → list Z;
  seen_out : S → list Z;
  seen_trace (l : S) ins outs l' :
    io_trace l ins outs l' → seen_in l' = seen_in l ++ ins ∧ seen_out l' = seen_out l ++ outs;
}.

#[export] Instance Logged_Transcript {S} `{AsyncRead S, AsyncWrite S} : Transcript (Logged S) := {
  seen_in := lg_in;
  seen_out := lg_out;
  seen_trace := logged_trace;
}.

(** The two halves of a QUIC stream. *)
#[export, refine] Instance WRTuple_Transcript {SS RS} `{AsyncWrite SS, AsyncRead RS}
    : Transcript (WRTuple (Logged SS) (Logged RS)) := {
  seen_in t := lg_in (wr_r t);
  seen_out t := lg_out (wr_w t);
}.
Proof.
  intros l ins outs l'. induction 1 as [[w r]|[w r] room ins outs l'' _ IH|[w r] b ins outs l'' _ IH
    |[w r] ins outs l'' _ IH|[w r] ins outs l'' _ IH]; [by rewrite !app_nil_r|..].
  - unfold poll_read, WRTuple_AsyncRead in *. rewrite st_zoom_run, logged_read in *. cbn in *. by rewrite app_assoc.
  - cbn [poll_write WRTuple_AsyncWrite] in *. rewrite st_zoom_run, logged_write in *. cbn in *. by rewrite (app_assoc (lg_out w)).
  - cbn [poll_flush WRTuple_AsyncWrite] in *. rewrite st_zoom_run in IH. cbn in IH. unfold logged_unit in IH.
    by rewrite st_zoom_run in IH.
  - cbn [poll_shutdown WRTuple_AsyncWrite] in *. rewrite st_zoom_run in IH. cbn in IH. unfold logged_unit in IH.
    by rewrite st_zoom_run in IH.
Defined.

(** ** What a Lite TLS handshake does to its streams: it polls them *)
Definition polled {S} `{AsyncRead S, AsyncWrite S} : relation S := λ s s', ∃ ins outs, io_trace s ins outs s'.

#[export] Instance polled_preorder {S} `{AsyncRead S, AsyncWrite S} : PreOrder (polled (S:=S)).
Proof.
  split; [by intros s; exists [], []; apply io_refl|].
  intros s1 s2 s3 (i1 & o1 & H1) (i2 & o2 & H2). exists (i1 ++ i2), (o1 ++ o2). by eapply io_trace_trans.
Qed.

Section polls.
Context {I O : Type} `{AsyncRead I, AsyncWrite I, AsyncRead O, AsyncWrite O}.

Definition pipe_polled : relation (PipeSt I O) := λ s s', polled (pp_rd s) (pp_rd s') ∧ polled (pp_wr s) (pp_wr s').
Definition hs_polled : relation (HsSt I O) := λ s s', polled (hs_in s) (hs_in s') ∧ polled (hs_out s) (hs_out s').

#[export] Instance pipe_polled_preorder : PreOrder pipe_polled.
Proof. split; [done|]. intros s1 s2 s3 [] []. split; by etrans. Qed.

#[export] Instance hs_polled_preorder : PreOrder hs_polled.
Proof. split; [done|]. intros s1 s2 s3 [] []. split; by etrans. Qed.

Lemma pp_on_buf_polled {E A} (m : ST TlsRelayBuffer E A) : respects pipe_polled (pp_on_buf m).
Proof. apply respects_zoom. done. Qed.

Lemma pp_read_polled room : respects pipe_polled (pp_on_rd (poll_read room)).
Proof.
  apply respects_map_err, respects_zoom. intros s. split; [|done]. cbn. do 2 eexists. apply io_trace_read1.
Qed.

Lemma pp_write_polled b : respects pipe_polled (pp_on_wr (poll_write b)).
Proof.
  apply respects_map_err, respects_zoom. intros s. split; [done|]. cbn. do 2 eexists. apply io_trace_write1.
Qed.

Lemma pp_flush_polled : respects pipe_polled (pp_on_wr poll_flush).
Proof.
  apply respects_map_err, respects_zoom. intros s. split; [done|]. cbn. do 2 eexists. apply io_trace_flush1.
Qed.

#[local] Hint Resolve pp_on_buf_polled pp_read_polled pp_write_polled pp_flush_polled : respects.

Lemma read_buf_polled : respects pipe_polled read_buf.
Proof. unfold read_buf. respect. Qed.
#[local] Hint Resolve read_buf_polled : respects.

Lemma flush_checked_polled : respects pipe_polled flush_checked.
Proof. unfold flush_checked. cbn zeta. respect. Qed.
#[local] Hint Resolve flush_checked_polled : respects.

Lemma read_some_polled : respects pipe_polled read_some.
Proof. unfold read_some. respect. Qed.
#[local] Hint Resolve read_some_polled : respects.

Lemma need_header_polled fuel : respects pipe_polled (need_header fuel).
Proof. induction fuel as [|fuel IH]; cbn [need_header]; respect. Qed.

Lemma need_bytes_polled fuel next : respects pipe_polled (need_bytes fuel next).
Proof. induction fuel as [|fuel IH]; cbn [need_bytes]; respect. Qed.
#[local] Hint Resolve need_header_polled need_bytes_polled : respects.

Lemma relay_until_0xff_polled reads fuel : respects pipe_polled (relay_until_0xff reads fuel).
Proof. induction fuel as [|fuel IH]; cbn [relay_until_0xff]; respect. Qed.
End polls.
#[export] Hint Resolve pp_on_buf_polled pp_read_polled pp_write_polled pp_flush_polled read_buf_polled
  flush_checked_polled read_some_polled need_header_polled need_bytes_polled relay_until_0xff_polled : respects.

Section handshake_polls.
Context {I O : Type} `{AsyncRead I, AsyncWrite I, AsyncRead O, AsyncWrite O}.
Abbreviation R := (hs_polled (I:=I) (O:=O)).

Lemma with_pipe_polled {A} d (m_in : ST (PipeSt I O) tls_error A) (m_out : ST (PipeSt O I) tls_error A) :
  respects pipe_polled m_in → respects pipe_polled m_out → respects R (with_pipe d m_in m_out).
Proof.
  intros Hi Ho. destruct d; apply respects_zoom; intros s.
  - destruct (Hi (mkPipe (inbound_buf (hs_lite s)) (hs_in s) (hs_out s))). done.
  - destruct (Ho (mkPipe (outbound_buf (hs_lite s)) (hs_out s) (hs_in s))). done.
Qed.

Lemma on_dir_buf_polled {E A} d (m : ST TlsRelayBuffer E A) : respects R (on_dir_buf d m).
Proof. by apply respects_zoom. Qed.

Lemma on_lite_polled f : respects R (on_lite f).
Proof. by intros s. Qed.

Lemma find_key_packets_polled d : respects R (find_key_packets_of d).
Proof. by apply respects_zoom. Qed.

#[local] Hint Resolve on_dir_buf_polled on_lite_polled find_key_packets_polled : respects.

Lemma write_to_polled d b : respects R (write_to d b).
Proof. apply with_pipe_polled; auto with respects. Qed.
Lemma flush_to_polled d : respects R (flush_to d).
Proof. apply with_pipe_polled; auto with respects. Qed.
Lemma read_from_polled d : respects R (read_from d).
Proof. apply with_pipe_polled; auto with respects. Qed.
Lemma relay_pending_polled d : respects R (relay_pending d).
Proof. apply with_pipe_polled; auto with respects. Qed.
Lemma relay_0xff_polled d reads fuel : respects R (with_pipe d (relay_until_0xff reads fuel) (relay_until_0xff reads fuel)).
Proof. apply with_pipe_polled; auto with respects. Qed.

#[local] Hint Resolve write_to_polled flush_to_polled read_from_polled relay_pending_polled relay_0xff_polled : respects.

Lemma client_hello_polled fuel : respects R (client_hello fuel).
Proof. induction fuel as [|fuel IH]; cbn [client_hello]; respect. Qed.
Lemma active_polled reads fuel : respects R (handshake_tls12_active reads fuel).
Proof. unfold handshake_tls12_active. cbn zeta. respect. Qed.
Lemma passive_polled : respects R handshake_tls12_passive.
Proof. unfold handshake_tls12_passive. cbn zeta. respect. Qed.
Lemma select_read_polled d : respects R (select_read d).
Proof. unfold select_read. respect. Qed.

#[local] Hint Resolve client_hello_polled active_polled passive_polled select_read_polled : respects.

Lemma handshake_loop_polled reads sched fuel : respects R (handshake_loop reads sched fuel).
Proof. induction fuel as [|fuel IH]; cbn [handshake_loop]; respect. Qed.

#[local] Hint Resolve handshake_loop_polled : respects.

Lemma handshake_polled reads sched fuel : respects R (handshake reads sched fuel).
Proof. unfold handshake. respect. Qed.

#[local] Hint Resolve handshake_polled : respects.

Lemma handshake_timeout_polled reads sched fuel : respects R (handshake_timeout reads sched fuel).
Proof. unfold handshake_timeout. respect. Qed.

Lemma flush_non_tls_polled : respects R flush_non_tls.
Proof. unfold flush_non_tls, flush_whole. cbn zeta. respect. Qed.

(** A connection that stays in the tunnel goes on with the streams it had. *)
Lemma forward_lite_polled {TI TO} `{AsyncRead TI, AsyncWrite TI, AsyncRead TO, AsyncWrite TO}
    (leave_in : I → outcome tls_error TI) (leave_out : O → outcome tls_error TO)
    reads sched fuel side other_error (i i' : I) (o o' : O) :
  (∀ e, match other_error e with Ok (RelayTls _ _) => False | _ => True end) →
  forward_lite leave_in leave_out reads sched fuel side other_error i o = Ok (RelayTls i' o') →
  polled i i' ∧ polled o o'.
Proof.
  intros Hother. unfold forward_lite.
  pose proof (handshake_timeout_polled reads sched fuel (mkHs (new_endpoint side) i o)) as Hh.
  destruct (handshake_timeout reads sched fuel _) as [r s]. cbn [snd] in Hh.
  assert (∀ e, other_error e ≠ Ok (RelayTls i' o')) as Hne.
  { intros e He. specialize (Hother e). by rewrite He in Hother. }
  destruct r as [[]|[[msg|msg]|e|]| | |]; try done.
  - destruct (lite_version (hs_lite s)); [|done].
    destruct (leave_in (hs_in s)), (leave_out (hs_out s)); try done. cbn. by destruct (flush_tls _) as [[] ?].
  - intros Hx. by destruct (Hne (TlsParser (Incomplete msg))).
  - pose proof (flush_non_tls_polled s) as Hf. destruct (flush_non_tls s) as [[] s2]; try done. cbn.
    intros [= <- <-]. exact (transitivity Hh Hf).
  - intros Hx. by destruct (Hne (TlsIo e)).
  - intros Hx. by destruct (Hne Elapsed).
Qed.
End handshake_polls.

(** ** The relays of the two ends *)

(** A system that stays in one of its states, and runs as the part in it does. *)
Lemma rtc_embed {V R} (RV : relation V) (RR : relation R) (K : R → V) r v :
  (∀ r v, RV (K r) v → ∃ r', v = K r' ∧ RR r r') → rtc RV (K r) v → ∃ r', v = K r' ∧ rtc RR r r'.
Proof.
  intros HK Hrun. remember (K r) as v0 eqn:E. revert r E.
  induction Hrun as [v|v0 v1 v2 Hs _ IH]; intros r ->; [exists r; split; [done|apply rtc_refl]|].
  destruct (HK _ _ Hs) as (r1 & -> & Hr). destruct (IH r1 eq_refl) as (r' & -> & Hr').
  exists r'. split; [done|]. by eapply rtc_l.
Qed.

(** A poll that is a relay's. *)
Ltac relay_embeds :=
  let r := fresh "r" in let v := fresh "v" in let order := fresh "order" in let Hs := fresh "Hs" in
  let res := fresh "res" in let r1 := fresh "r1" in let Er := fresh "Er" in
  apply rtc_embed; intros r v (order & ? & Hs); cbn [serve_poll client_poll] in Hs;
  match type of Hs with (let '(_, _) := ?p in _) = _ => destruct p as [res r1] eqn:Er end;
  destruct res; try done; injection Hs as <-; exists r1; split; [done|by exists order].

Section ends.
Context {T X I O TI K D DT : Type} `{Sleep T} `{Signal X}.

Lemma serve_run `{AsyncRead I, AsyncWrite I, AsyncRead O, AsyncWrite O, AsyncRead TI, AsyncWrite TI}
    `{UdpSocket K, Dns D DT} oc fuel inner_fuel r0 (v : Serving T X I O TI K D DT) :
  rtc (serve_pending oc fuel inner_fuel) (ServeTcp r0) v →
  ∃ r, v = ServeTcp r ∧ rtc (select_pending oc (tcp_duplex fuel)) r0 r.
Proof. relay_embeds. Qed.
End ends.

Section client_end.
Context {T X U SS RS S TS K XR E : Type} `{Sleep T} `{Signal X}.
Context `{AsyncRead U, AsyncWrite U, AsyncWrite SS, AsyncRead RS, AsyncRead S, AsyncWrite S}.
Context `{AsyncRead TS, AsyncWrite TS, UdpSocket K, Signal XR} (oc : bool) (fuel inner_fuel : nat).
Implicit Types c : Relaying T X U SS RS S TS K XR E.

Lemma client_run r0 c :
  rtc (client_pending oc fuel inner_fuel) (RelTcp r0) c →
  ∃ r, c = RelTcp r ∧ rtc (select_pending oc (tcp_duplex fuel)) r0 r.
Proof. relay_embeds. Qed.

Lemma client_run_quic r0 c :
  rtc (client_pending oc fuel inner_fuel) (RelTcpQuic r0) c →
  ∃ r, c = RelTcpQuic r ∧ rtc (select_pending oc (tcp_duplex fuel)) r0 r.
Proof. relay_embeds. Qed.
End client_end.

(** Bytes in flight in a relay, each way. *)
Definition going_up {T X I O} (r : Relay T X I O CopyBuffer) : list Z := in_flight unsent (bi_upload (rl_bidi r)).
Definition going_down {T X I O} (r : Relay T X I O CopyBuffer) : list Z := in_flight unsent (bi_download (rl_bidi r)).
(** The two streams of a relay. *)
Definition inner_in {T X I O} (r : Relay T X (BufferedRecv I) O CopyBuffer) : I := br_inner (bi_i (rl_bidi r)).
Definition held_in {T X I O} (r : Relay T X (BufferedRecv I) O CopyBuffer) : list Z := buffered_bytes (bi_i (rl_bidi r)).
Definition outer {T X I O} (r : Relay T X I O CopyBuffer) : O := under (bi_o (rl_bidi r)).

(** What the streams of a relay delivered and accepted, and what the relay holds. *)
Record Seen := mkSeen {
  inner_delivered : list Z;
  inner_accepted : list Z;
  outer_delivered : list Z;
  outer_accepted : list Z;
  on_way_up : list Z;
  on_way_down : list Z;
}.

Definition seen_of {T X I O} `{Transcript O} (r : Relay T X (BufferedRecv (Logged I)) O CopyBuffer) : Seen :=
  mkSeen (lg_in (inner_in r)) (lg_out (inner_in r)) (seen_in (outer r)) (seen_out (outer r))
    (going_up r ++ held_in r) (going_down r).

(** How many bytes the writes on the two streams of a relay have left, from the
    streams' first use on. *)
Definition relay_short {T X I O} `{Watched I, Watched O} (r : Relay T X I O CopyBuffer) : nat :=
  seen_short (bi_i (rl_bidi r)) + seen_short (outer r).

Lemma relay_start_short {T X I O} `{Sleep T} `{Watched I, Watched O} a clock bi bo (i : I) (o : O) (shutdown : X) :
  relay_short (relay_start (T:=T) a clock bi bo i o shutdown) = 0 → seen_short i = 0 ∧ seen_short o = 0.
Proof. unfold relay_short, relay_start, outer. destruct (ad_timeout a); rewrite ?monitored_run; cbn; lia. Qed.

(** A relay of two recorded streams, which what came before it already relayed [X] and
    [Y] between: from what they had seen before that. *)
Lemma relay_logged {T X I O} `{Sleep T, Signal X} `{AsyncReadOk I, !AsyncWrite I, !AsyncWriteOk I}
    `{AsyncReadOk O, !AsyncWrite O, !AsyncWriteOk O, !Transcript O} (b0 : BufferedRecv (Logged I)) (o0 : O) xs ys
    oc fuel a clock (b : BufferedRecv (Logged I)) (o : O) (shutdown : X) order s r s' :
  io_trace b0 xs ys b → io_trace o0 ys xs o → order ≡ₚ [BDuplex; BTimeout; BShutdown] →
  rtc (select_pending (T:=T) oc (tcp_duplex fuel))
    (relay_start a clock CopyBuffer_new CopyBuffer_new b o shutdown) s →
  relay_tcp oc fuel order s = (r, s') →
  ∃ iin iout oin oout,
    lg_in (inner_in s') = lg_in (br_inner b0) ++ iin ∧ lg_out (inner_in s') = lg_out (br_inner b0) ++ iout ∧
    seen_in (outer s') = seen_in o0 ++ oin ∧ seen_out (outer s') = seen_out o0 ++ oout ∧
    buffered_bytes b0 ++ iin = oout ++ going_up s' ++ held_in s' ∧
    oin = iout ++ going_down s'.
Proof.
  intros Hb Ho Hperm Hrun Hpoll.
  destruct (relay_tcp_carried _ _ _ _ _ _ _ _ _ _ _ Hperm Hrun Hpoll)
    as (iin & iout & oin & oout & Ti & To & E1 & E2 & _).
  apply (io_trace_trans _ _ _ _ _ _ _ Hb), buffered_io_trace in Ti as (iin' & Ti & Eb).
  apply logged_trace in Ti as [Hi1 Hi2].
  apply (io_trace_trans _ _ _ _ _ _ _ Ho), seen_trace in To as [Ho1 Ho2].
  exists iin', (ys ++ iout), (ys ++ oin), (xs ++ oout). do 4 (split; [done|]).
  rewrite Eb, E1, E2. split; by rewrite <- !app_assoc.
Qed.

Lemma carried_packet cmd a hash :
  carried_addr a → auth_packet (E:=io_error) cmd a hash = Ok (packet cmd a hash).
Proof. intros [Hwf Ha]. apply auth_packet_spec; [by destruct a|exact Hwf]. Qed.

(** ** The server's side *)
Section server.
Context {T X I O TI K D DT : Type} `{Sleep T} `{Signal X}.
Context `{AsyncReadOk I, !AsyncWrite I, !AsyncWriteOk I, !LeaveTls (Logged I) TI}.
Context `{AsyncReadOk O, !AsyncWrite O, !AsyncWriteOk O, AsyncRead TI, AsyncWrite TI, UdpSocket K, Dns D DT}.
Context (dns : list Z → outcome server_error IpAddr) (connect : SocketAddr → outcome io_error O).
Context (set_nodelay : Logged O → outcome io_error unit) (udp_bind : outcome io_error K).
Context (clock : nat → Z) (dns_tx : D) (reads : nat) (sched : nat → Direction) (hs_fuel : nat).

(** The socket of the target, recorded. *)
Definition logged_connect (addr : SocketAddr) : outcome io_error (Logged O) := o ← connect addr; mret (fresh o).

Abbreviation handle := (handle_outbound (T:=T) (X:=X) (I:=Logged I) (O:=Logged O) (TI:=TI) (K:=K) (D:=D) (DT:=DT)
  dns logged_connect set_nodelay udp_bind clock dns_tx reads sched hs_fuel).

(** The streams of a connection that is relayed in the tunnel. A Lite TLS handshake
    has passed on what it read, if no write was short. *)
Lemma forward_shape b0 tls (outbound : Logged O) shutdown v0 :
  tls = TLS b0 ∨ tls = LiteTLS b0 →
  forward (T:=T) (X:=X) (TI:=TI) (K:=K) (D:=D) (DT:=DT) clock reads sched hs_fuel tls outbound shutdown = Ok (ServeTcp v0) →
  ∃ b o, polled (S:=BufferedRecv (Logged I)) b0 b ∧ v0 = adapt_tcp (T:=T) clock b o shutdown ∧
    ((tls = LiteTLS b0 → relay_short v0 = 0) → ∃ xs ys, io_trace b0 xs ys b ∧ io_trace outbound ys xs o).
Proof.
  intros [->| ->].
  - intros [= <-]. exists b0, outbound. split_and!; [done..|]. intros _. exists [], []. split; apply io_refl.
  - cbn [forward]. unfold server_forward_lite.
    destruct (forward_lite _ _ _ _ _ _ _ b0 outbound) as [next| | | |] eqn:Ef; try done.
    destruct next as [|i o|i o]; try done. intros [= <-]. exists i, o.
    pose proof Ef as [Hp _]%forward_lite_polled; [|done]. split_and!; [done..|].
    intros HW. destruct (relay_start_short _ _ _ _ _ _ _ (HW eq_refl)).
    apply lite_tls_non_tls_transparent in Ef as (ins & took & [Hi _]%handed_whole & [Ho _]%handed_whole); [|done..].
    eauto.
Qed.

(** A TCP request the server accepted: the stream it goes on with, and what the server
    knows when the connection began with the packet of a TCP request. *)
Lemma handle_outbound_stream fuel hash port conn_id shutdown (i : I) v st :
  handle fuel hash port conn_id shutdown (fresh i) = (Ok v, st) →
  match v with ServeUdp _ | ServeEcho _ _ => False | _ => True end →
  let i1 := ac_inbound st in
  lg_out i1 = [] ∧
  ∃ held tls outbound, let b0 := BufferedRecv_new i1 held in
    (tls = TLS b0 ∨ tls = LiteTLS b0) ∧
    forward (T:=T) (X:=X) (TI:=TI) (K:=K) (D:=D) (DT:=DT) clock reads sched hs_fuel tls outbound shutdown = Ok v ∧
    ∀ cmd a p payload rest, length hash = HASH_LEN → carried_addr a → cmd = TCP_REQUEST_CMD ∨ cmd = LITE_TLS_REQUEST_CMD →
      auth_packet (E:=io_error) cmd a hash = Ok p → lg_in i1 ++ rest = p ++ payload →
      (∃ addr o, Mix.resolve dns a = Ok addr ∧ connect addr = Ok o ∧ outbound = fresh o) ∧
      (tls = LiteTLS b0 → cmd = LITE_TLS_REQUEST_CMD) ∧ buffered_bytes b0 ++ rest = payload.
Proof.
  unfold handle_outbound. destruct (accept fuel (accept_new hash port (fresh i))) as [req s] eqn:Eacc. intros [= Hv <-] Hkind.
  destruct (post_run _ _ _ _ _ (accept_spec fuel _ (waiting_new hash port (fresh i))) Eacc) as (ins & Htr & _ & He).
  apply read_trace_io, fresh_trace in Htr as [Hi Hout]. split; [done|].
  assert (∃ cmd tls held, req = Ok (request_for cmd (ac_inbound s) held) ∧
    request_for cmd (ac_inbound s) held = TCP tls ∧
    (tls = TLS (BufferedRecv_new (ac_inbound s) held) ∨ tls = LiteTLS (BufferedRecv_new (ac_inbound s) held)))
    as (cmd0 & tls & held & -> & Hreq & Htls).
  { destruct req as [req|e| | |]; try done. destruct He as (cmd & host & c & _ & _ & -> & _).
    set (held := leftover c _) in *. clearbody held. cbn [map_err or_elapsed mbind outcome_bind] in Hv.
    assert (cmd = TCP_REQUEST_CMD ∨ cmd = LITE_TLS_REQUEST_CMD) as [->| ->].
    { unfold request_for in Hv. case_decide; [destruct udp_bind; try done; by injection Hv as <-|].
      do 2 (case_decide; [by auto|]). by injection Hv as <-. }
    - exists TCP_REQUEST_CMD, (TLS (BufferedRecv_new (ac_inbound s) held)), held. auto.
    - exists LITE_TLS_REQUEST_CMD, (LiteTLS (BufferedRecv_new (ac_inbound s) held)), held. auto. }
  cbn [map_err or_elapsed mbind outcome_bind] in Hv. rewrite Hreq in Hv.
  destruct (or_elapsed (outbound_connect _ _ _ _)) as [o| | | |] eqn:Eo; try done. cbn [mbind outcome_bind] in Hv.
  exists held, tls, o. split; [done|]. split; [done|].
  intros cmd a p payload rest Hh Ha Hcmd Hp Hrest.
  destruct (accept_packet (fresh i) hash port cmd a p payload fuel _ s Hh
    ltac:(destruct Hcmd as [->| ->]; unfold addressed_cmd; auto) Ha Hp Eacc) as (ins' & Htr' & Hdec).
  apply read_trace_io, fresh_trace in Htr' as [<- _].
  destruct (Hdec rest Hrest) as (held' & Hhost & Hreq' & Hheld). rewrite Hhost in Eo.
  assert (held' = held ∧ (tls = LiteTLS (BufferedRecv_new (ac_inbound s) held) → cmd = LITE_TLS_REQUEST_CMD)) as [-> Hlite].
  { rewrite Hreq in Hreq'. unfold request_for in Hreq'. destruct Hcmd as [->| ->];
      repeat (case_decide; [try done|]); try done; destruct Htls as [->| ->]; unfold BufferedRecv_new in *; simplify_eq; (split; [done|intros ?; done]). }
  unfold outbound_connect, logged_connect in Eo.
  destruct (Mix.resolve dns a) as [addr|e| | |] eqn:Er; try done. cbn in Eo.
  destruct (connect addr) as [o'|e| | |] eqn:Ec; try done. cbn in Eo.
  destruct (set_nodelay (fresh o')) as [[]|e| | |]; try done. cbn in Eo. injection Eo as <-.
  by split; [exists addr, o'|].
Qed.

(** The same for a connection that is relayed in the tunnel: the streams of the relay. *)
Lemma handle_outbound_tcp fuel hash port conn_id shutdown (i : I) v0 st :
  handle fuel hash port conn_id shutdown (fresh i) = (Ok (ServeTcp v0), st) →
  let i1 := ac_inbound st in
  lg_out i1 = [] ∧
  (∃ held b o, polled (BufferedRecv_new i1 held) b ∧ v0 = adapt_tcp clock b o shutdown) ∧
  ∀ cmd a p payload rest, length hash = HASH_LEN → carried_addr a → cmd = TCP_REQUEST_CMD ∨ cmd = LITE_TLS_REQUEST_CMD →
    auth_packet (E:=io_error) cmd a hash = Ok p → (cmd = LITE_TLS_REQUEST_CMD → relay_short v0 = 0) →
    lg_in i1 ++ rest = p ++ payload →
    ∃ held addr o b o1 xs ys, Mix.resolve dns a = Ok addr ∧ connect addr = Ok o ∧ v0 = adapt_tcp clock b o1 shutdown ∧
      io_trace (BufferedRecv_new i1 held) xs ys b ∧ io_trace (fresh o) ys xs o1 ∧
      buffered_bytes (BufferedRecv_new i1 held) ++ rest = payload.
Proof.
  intros Hho. destruct (handle_outbound_stream _ _ _ _ _ _ _ _ Hho Logic.I) as (Hi1 & held & tls & o & Htls & Hf & Hdec).
  split; [done|]. destruct (forward_shape _ _ _ _ _ Htls Hf) as (b & o1 & Hb & -> & Hexact). split; [by eauto|].
  intros cmd a p payload rest Hh Ha Hcmd Hp HW Hrest.
  destruct (Hdec cmd a p payload rest Hh Ha Hcmd Hp Hrest) as ((addr & o' & Hr & Hc & ->) & Hlite & Hpay).
  destruct Hexact as (xs & ys & Hx & Hy); [by intros Ht; apply HW, Hlite|].
  by exists held, addr, o', b, o1, xs, ys.
Qed.
End server.

(** ** The client's side *)

(** The command of a TCP request. *)
Definition tcp_cmd (mode : ConnectionMode) : Z :=
  match mode with LiteTLSMode => LITE_TLS_REQUEST_CMD | _ => TCP_REQUEST_CMD end.

Section conn.
Context {SS RS W : Type} `{AsyncWrite SS, AsyncWrite W, !AsyncWriteOk SS, !AsyncWriteOk W}.

(** What a connection to the server delivered and accepted so far. *)
Definition conn_carried (c : ClientServerConnection (Logged SS) (Logged RS) (Logged W)) (ins outs : list Z) : Prop :=
  match c with
  | ConnQuic (ss, rs) => lg_in rs = ins ∧ lg_out ss = outs
  | ConnTcpTLS w | ConnLiteTLS w => lg_in w = ins ∧ lg_out w = outs
  end.

Lemma trojan_auth_sent mode a conn hash p conn' :
  conn_carried conn [] [] → auth_packet (E:=io_error) mode a hash = Ok p →
  trojan_auth mode a conn hash = (Ok tt, conn') → conn_carried conn' [] p ∧ mode_of conn' = mode_of conn.
Proof.
  intros Hc Hp. unfold trojan_auth, send_trojan_auth. rewrite Hp.
  destruct conn as [[ss rs]|w|w]; destruct Hc as [Hi Ho]; rewrite st_lift_Ok_bind.
  1: pose proof (write_all_spec p ss) as Hw. 2,3: pose proof (write_all_spec p w) as Hw.
  all: unfold post in Hw; destruct (write_all p _) as [r s]; cbn [fst snd] in Hw;
    destruct Hw as (_ & outs & rest & Htr & -> & Hr); intros [= -> <-];
    apply logged_written in Htr as [Hin Hout]; rewrite (Hr eq_refl), app_nil_r; cbn; rewrite Hout, Ho, ?Hin; done.
Qed.
End conn.

Definition client_seen {T X U SS RS W TS K XR E} `{AsyncWrite SS, AsyncRead RS, AsyncRead W, AsyncWrite W}
    (c : Client.Relaying T X (Logged U) (Logged SS) (Logged RS) (Logged W) TS K XR E) : option Seen :=
  match c with
  | RelTcp r => Some (seen_of r)
  | RelTcpQuic r => Some (seen_of r)
  | _ => None
  end.

(** * Properties *)
Section tunnel.
(** The client: the user's stream, the connection to the server. *)
Context {Tc Xc U SS RS W TS Kc XR E : Type} `{Sleep Tc} `{Signal Xc}.
Context `{AsyncReadOk U, !AsyncWrite U, !AsyncWriteOk U, AsyncReadOk W, !AsyncWrite W, !AsyncWriteOk W}.
Context `{AsyncWrite SS, !AsyncWriteOk SS, AsyncReadOk RS, AsyncRead TS, AsyncWrite TS, UdpSocket Kc, Signal XR}.
Abbreviation Conn := (ClientServerConnection (Logged SS) (Logged RS) (Logged W)).
Context (into_inner : Logged W → TS) (clock_c : nat → Z) (reads_c : nat) (sched_c : nat → Direction) (hs_c : nat).
(** The server: the accepted stream, the target's socket. *)
Context {T X I O TI K D DT : Type} `{Sleep T} `{Signal X}.
Context `{AsyncReadOk I, !AsyncWrite I, !AsyncWriteOk I, !LeaveTls (Logged I) TI}.
Context `{AsyncReadOk O, !AsyncWrite O, !AsyncWriteOk O, AsyncRead TI, AsyncWrite TI, UdpSocket K, Dns D DT}.
Context (dns : list Z → outcome server_error IpAddr) (connect : SocketAddr → outcome io_error O).
Context (set_nodelay : Logged O → outcome io_error unit) (udp_bind : outcome io_error K).
Context (clock : nat → Z) (dns_tx : D) (reads : nat) (sched : nat → Direction) (hs_fuel : nat).

(** A TCP request as the client relays it. *)
Lemma client_forward_tcp br (u : Logged U) a (conn : Conn) hash p conn_id shutdown c0 :
  auth_packet (E:=io_error) (tcp_cmd (mode_of conn)) a hash = Ok p → conn_carried conn [] [] →
  client_forward (T:=Tc) (X:=Xc) (K:=Kc) (XR:=XR) (E:=E) into_inner clock_c reads_c sched_c hs_c
    (Ok (TCP (mkBufferedRecv br u), a)) (Ok conn) hash conn_id shutdown = Ok c0 →
  ∃ conn1, conn_carried conn1 [] p ∧ mode_of conn1 = mode_of conn ∧
    client_relay_tcp into_inner clock_c reads_c sched_c hs_c (mkBufferedRecv br u) conn1 shutdown = Ok c0.
Proof.
  intros Hp Hc. unfold client_forward. cbn [map_err mbind outcome_bind].
  assert (get_cmd (TCP (mkBufferedRecv br u)) (mode_of conn) = Ok (tcp_cmd (mode_of conn))) as -> by by destruct conn.
  cbn [mbind outcome_bind]. destruct (trojan_auth (tcp_cmd (mode_of conn)) a conn hash) as [r conn1] eqn:Ht.
  destruct r as [[]|e| | |]; try done. destruct (trojan_auth_sent _ _ _ _ _ _ Hc Hp Ht) as [Hc1 Hm1].
  cbn [map_err mbind outcome_bind]. intros Hr. by exists conn1.
Qed.

(** What the client's relay has seen after any number of polls and one more. *)
Lemma client_tcp_seen br (u : Logged U) (conn1 : Conn) p sh oc fuel ifc order c0 c rc c' :
  conn_carried conn1 [] p → (mode_of conn1 = LiteTLSMode → ∃ r0, c0 = RelTcp r0 ∧ relay_short r0 = 0) →
  order ≡ₚ [BDuplex; BTimeout; BShutdown] →
  client_relay_tcp (T:=Tc) (X:=Xc) (K:=Kc) (XR:=XR) (E:=E) into_inner clock_c reads_c sched_c hs_c
    (mkBufferedRecv br u) conn1 sh = Ok c0 →
  rtc (client_pending oc fuel ifc) c0 c → client_poll oc fuel ifc order c = (rc, c') →
  ∃ cs iin iout oout, client_seen c' = Some cs ∧ outer_accepted cs = p ++ oout ∧
    inner_delivered cs = lg_in u ++ iin ∧ inner_accepted cs = lg_out u ++ iout ∧
    buffered_bytes (mkBufferedRecv br u) ++ iin = oout ++ on_way_up cs ∧
    outer_delivered cs = iout ++ on_way_down cs.
Proof.
  intros Hc Hm Ho Hrel Hrun Hpoll.
  assert ((∃ ss rs, conn1 = ConnQuic (ss, rs) ∧
      c0 = RelTcpQuic (adapt_tcp_until clock_c (mkBufferedRecv br u) (from_wr_tuple (ss, rs)) sh)) ∨
    (∃ w b o xs ys, (conn1 = ConnTcpTLS w ∨ conn1 = ConnLiteTLS w) ∧ c0 = RelTcp (adapt_tcp_until clock_c b o sh) ∧
      io_trace (mkBufferedRecv br u) xs ys b ∧ io_trace w ys xs o))
    as [(ss & rs & -> & ->)|(w & b & o & xs & ys & Hw & -> & Hb & Hob)].
  { destruct conn1 as [[ss rs]|w|w]; cbn [client_relay_tcp] in Hrel.
    - left. injection Hrel as <-. by exists ss, rs.
    - right. injection Hrel as <-. exists w, (mkBufferedRecv br u), w, [], [].
      split_and!; [by left|done|apply io_refl..].
    - right. destruct (Hm eq_refl) as (r0 & -> & Hshort). unfold client_forward_lite in Hrel.
      destruct (forward_lite _ _ _ _ _ _ _ _ w) as [[|? ?|b o]| | | |] eqn:Ef; try done; injection Hrel as <-.
      destruct (relay_start_short _ _ _ _ _ _ _ Hshort).
      apply lite_tls_non_tls_transparent in Ef as (ins & took & [Hb _]%handed_whole & [Hob _]%handed_whole); [|done..].
      exists w, b, o, (ins Inbound), (ins Outbound). split_and!; [by right|done..]. }
  1: destruct (client_run_quic oc fuel ifc _ c Hrun) as (rl & -> & Hrl).
  2: destruct (client_run oc fuel ifc _ c Hrun) as (rl & -> & Hrl).
  all: cbn [client_poll] in Hpoll; destruct (relay_tcp oc fuel order rl) as [res rlc] eqn:Erc; injection Hpoll as _ <-.
  1: destruct (relay_logged (mkBufferedRecv br u) (from_wr_tuple (ss, rs)) [] [] oc fuel _ _ _ _ _ _ _ _ _
       (io_refl _) (io_refl _) Ho Hrl Erc) as (iin & iout & oin & oout & C1 & C2 & C3 & C4 & C5 & C6).
  2: destruct (relay_logged _ _ _ _ oc fuel _ _ _ _ _ _ _ _ _ Hb Hob Ho Hrl Erc) as (iin & iout & oin & oout & C1 & C2 & C3 & C4 & C5 & C6);
    assert (lg_in w = [] ∧ lg_out w = p) as Hc' by (by destruct Hw as [-> | ->]); clear Hc; rename Hc' into Hc.
  all: destruct Hc as [Hc1 Hc2]; cbn in C3, C4; rewrite Hc1 in C3; rewrite Hc2 in C4;
    cbn [br_inner app] in C1, C2, C3;
    exists (seen_of rlc), iin, iout, oout; split; [done|]; split; [exact C4|]; cbn;
    split; [exact C1|]; split; [exact C2|]; split; [exact C5|by rewrite C3].
Qed.

(** A request whose user's stream has a history: what the front end did on it. *)
Lemma tunnel_carried br (u : Logged U) (conn : Conn) (i : I) a hash port conn_id conn_id' sh sh' fuel_a fuel_c fuel_s ifc ifs
    oc ocs order_c order_s c0 c rc c' v0 v rv v' st :
  length hash = HASH_LEN → carried_addr a → conn_carried conn [] [] →
  order_c ≡ₚ [BDuplex; BTimeout; BShutdown] → order_s ≡ₚ [BDuplex; BTimeout; BShutdown] →
  client_forward (T:=Tc) (X:=Xc) (K:=Kc) (XR:=XR) (E:=E) into_inner clock_c reads_c sched_c hs_c
    (Ok (TCP (mkBufferedRecv br u), a)) (Ok conn) hash conn_id sh = Ok c0 →
  (mode_of conn = LiteTLSMode → ∃ r0, c0 = RelTcp r0 ∧ relay_short r0 = 0 ∧ relay_short v0 = 0) →
  rtc (client_pending oc fuel_c ifc) c0 c → client_poll oc fuel_c ifc order_c c = (rc, c') →
  handle_outbound (T:=T) (X:=X) (TI:=TI) (DT:=DT) dns (logged_connect connect) set_nodelay udp_bind clock dns_tx
    reads sched hs_fuel fuel_a hash port conn_id' sh' (fresh i) = (Ok (ServeTcp v0), st) →
  rtc (serve_pending ocs fuel_s ifs) (ServeTcp v0) v → serve_poll ocs fuel_s ifs order_s v = (rv, v') →
  ∃ cs rls iin iout, client_seen c' = Some cs ∧ v' = ServeTcp rls ∧
  inner_delivered cs = lg_in u ++ iin ∧ inner_accepted cs = lg_out u ++ iout ∧ let ss := seen_of rls in ∀ up down,
    outer_accepted cs = inner_delivered ss ++ up →
    inner_accepted ss = outer_delivered cs ++ down →
    (∃ addr o, Mix.resolve dns a = Ok addr ∧ connect addr = Ok o) ∧
    buffered_bytes (mkBufferedRecv br u) ++ iin =
      outer_accepted ss ++ on_way_up ss ++ up ++ on_way_up cs ∧
    outer_delivered ss = iout ++ on_way_down cs ++ down ++ on_way_down ss.
Proof.
  intros Hh Ha Hconn Hoc Hos Hfwd Hlite Hrc Hpc Hho Hrs Hps.
  set (cmd := tcp_cmd (mode_of conn)).
  pose proof (carried_packet cmd a hash Ha) as Hp.
  assert (cmd = TCP_REQUEST_CMD ∨ cmd = LITE_TLS_REQUEST_CMD) as Hcmd by (subst cmd; destruct (mode_of conn); auto).
  assert (cmd = LITE_TLS_REQUEST_CMD → mode_of conn = LiteTLSMode) as Hcm by (subst cmd; by destruct (mode_of conn)).
  destruct (client_forward_tcp br u a conn hash _ conn_id sh c0 Hp Hconn Hfwd) as (conn1 & Hconn1 & Hmode1 & Hrel).
  destruct (client_tcp_seen br u conn1 _ sh oc fuel_c ifc order_c c0 c rc c' Hconn1
    ltac:(rewrite Hmode1; intros Hm; destruct (Hlite Hm) as (? & ? & ? & _); eauto) Hoc Hrel Hrc Hpc)
    as (cs & iin & iout & oout & Hcs & C4 & C1 & C2 & C5 & C6).
  destruct (serve_run ocs fuel_s ifs _ v Hrs) as (rl' & -> & Hrl').
  cbn [serve_poll] in Hps. destruct (relay_tcp ocs fuel_s order_s rl') as [res' rls] eqn:Ers. injection Hps as _ <-.
  exists cs, rls, iin, iout. do 4 (split; [done|]). intros ss up down Hup Hdown.
  destruct (handle_outbound_tcp dns connect set_nodelay udp_bind clock dns_tx reads sched hs_fuel
    fuel_a hash port conn_id' sh' i v0 st Hho) as (Hi1 & (held & b & o & Hb & Hv0) & Hdec).
  (* What the server has read is a part of what the client sent. *)
  pose proof Hrl' as Hrl0. rewrite Hv0 in Hrl0.
  destruct (relay_logged b o [] [] ocs fuel_s _ _ _ _ _ _ _ _ _ (io_refl _) (io_refl _) Hos Hrl0 Ers) as (jin & _ & _ & _ & S1' & _).
  destruct Hb as (kin & kout & Hb). apply buffered_io_trace in Hb as (kin' & Hk & _). apply logged_trace in Hk as [Hk _].
  cbn [br_inner BufferedRecv_new] in Hk.
  destruct (Hdec cmd a _ oout (kin' ++ jin ++ up) Hh Ha Hcmd Hp) as (held' & addr & o' & b' & o1 & xs & ys & Hres & Hcon & Hv & Hx & Hy & Hpay).
  { intros Hc%Hcm. by destruct (Hlite Hc) as (? & _ & _ & ?). }
  { rewrite <- C4, Hup. cbn [ss seen_of inner_delivered]. rewrite S1', Hk, <- !app_assoc. done. }
  clear Hv0 Hrl0. rewrite Hv in Hrl'.
  destruct (relay_logged _ _ _ _ ocs fuel_s _ _ _ _ _ _ _ _ _ Hx Hy Hos Hrl' Ers)
    as (lin & lout & oin' & oout' & S1 & S2 & S3 & S4 & S5 & S6).
  cbn [br_inner BufferedRecv_new fresh lg_in lg_out seen_in seen_out Logged_Transcript app] in S1, S2, S3, S4.
  rewrite Hi1 in S2. cbn [app] in S2.
  assert (kin' ++ jin = lin) as Elin.
  { apply (app_inv_head (lg_in (ac_inbound st))). by rewrite <- S1, app_assoc, <- Hk, <- S1'. }
  subst ss. cbn [seen_of inner_delivered inner_accepted outer_delivered outer_accepted on_way_up on_way_down] in *.
  cbn [seen_in seen_out Logged_Transcript] in *. split; [by exists addr, o'|]. split.
  - rewrite C5, S4, <- Hpay, (app_assoc kin'), Elin, (app_assoc (buffered_bytes _)), S5. by rewrite <- !app_assoc.
  - rewrite S3, S6, <- S2, Hdown, C6. by rewrite <- !app_assoc.
Qed.
(** C1: a request through the whole tunnel. The user's request for target [a], an IPv4
    address or a host name of at most 255 bytes ([carried_addr]), is relayed by the
    client over a new TLS connection or QUIC stream to the server, which accepts it
    with the same password and relays it in turn; each relay has been polled any
    number of times. Let [up] and [down] be the bytes the connection between the two
    holds. Then the server connected to the address of [a], and in each direction what
    one end delivered is exactly what the other end was sent, followed by what the two
    relays and the connection hold: nothing is lost, repeated, reordered or added. In
    Lite TLS mode this holds of a connection that stays in the tunnel on both sides,
    with whatever their handshakes read before, when no write was short before the two
    relays started (the handshake loses what a short write leaves). *)
Theorem tunnel_exact br (u : U) (conn : Conn) (i : I) a hash port conn_id conn_id' sh sh' fuel_a fuel_c fuel_s ifc ifs
    oc ocs order_c order_s c0 c rc c' v0 v rv v' st :
  length hash = HASH_LEN → carried_addr a → conn_carried conn [] [] →
  order_c ≡ₚ [BDuplex; BTimeout; BShutdown] → order_s ≡ₚ [BDuplex; BTimeout; BShutdown] →
  client_forward (T:=Tc) (X:=Xc) (K:=Kc) (XR:=XR) (E:=E) into_inner clock_c reads_c sched_c hs_c
    (Ok (TCP (mkBufferedRecv br (fresh u)), a)) (Ok conn) hash conn_id sh = Ok c0 →
  (mode_of conn = LiteTLSMode → ∃ r0, c0 = RelTcp r0 ∧ relay_short r0 = 0 ∧ relay_short v0 = 0) →
  rtc (client_pending oc fuel_c ifc) c0 c → client_poll oc fuel_c ifc order_c c = (rc, c') →
  handle_outbound (T:=T) (X:=X) (TI:=TI) (DT:=DT) dns (logged_connect connect) set_nodelay udp_bind clock dns_tx
    reads sched hs_fuel fuel_a hash port conn_id' sh' (fresh i) = (Ok (ServeTcp v0), st) →
  rtc (serve_pending ocs fuel_s ifs) (ServeTcp v0) v → serve_poll ocs fuel_s ifs order_s v = (rv, v') →
  ∃ cs rls, client_seen c' = Some cs ∧ v' = ServeTcp rls ∧ let ss := seen_of rls in ∀ up down,
    outer_accepted cs = inner_delivered ss ++ up →
    inner_accepted ss = outer_delivered cs ++ down →
    (∃ addr o, Mix.resolve dns a = Ok addr ∧ connect addr = Ok o) ∧
    buffered_bytes (mkBufferedRecv br u) ++ inner_delivered cs =
      outer_accepted ss ++ on_way_up ss ++ up ++ on_way_up cs ∧
    outer_delivered ss = inner_accepted cs ++ on_way_down cs ++ down ++ on_way_down ss.
Proof.
  intros Hh Ha Hconn Hoc Hos Hfwd Hlite Hrc Hpc Hho Hrs Hps.
  destruct (tunnel_carried br (fresh u) conn i a hash port conn_id conn_id' sh sh' fuel_a fuel_c fuel_s ifc ifs
    oc ocs order_c order_s c0 c rc c' v0 v rv v' st Hh Ha Hconn Hoc Hos Hfwd Hlite Hrc Hpc Hho Hrs Hps)
    as (cs & rls & iin & iout & Hc & Hv & Hi & Ho & Heq).
  exists cs, rls. cbn [fresh lg_in lg_out app] in Hi, Ho. by rewrite Hi, Ho.
Qed.
End tunnel.

Section rejected.
Context {T X I O TI K D DT : Type} `{Sleep T} `{Signal X}.
Context `{AsyncReadOk I, !AsyncWrite I, !AsyncWriteOk I, !LeaveTls (Logged I) TI}.
Context `{AsyncReadOk O, !AsyncWrite O, !AsyncWriteOk O, AsyncRead TI, AsyncWrite TI, UdpSocket K, Dns D DT}.
Context (dns : list Z → outcome server_error IpAddr) (connect : SocketAddr → outcome io_error O).
Context (set_nodelay : Logged O → outcome io_error unit) (udp_bind : outcome io_error K).
Context (clock : nat → Z) (dns_tx : D) (reads : nat) (sched : nat → Direction) (hs_fuel : nat).

(** C5: a connection the server rejects is indistinguishable from one to the fallback
    service: over any number of polls of the fallback, the service on the local port
    was sent every byte the client sent, from the first, and the client every byte of
    the service, less at most one buffer in flight each way, and nothing else; the
    server itself says nothing to it. The bytes it was rejected for do not form a
    request with the server's password. *)
Theorem server_fallback_exact (i : I) hash port conn_id shutdown fuel e st buf fport stream fuel_f f0 f order r f' :
  handle_outbound (T:=T) (X:=X) (TI:=TI) (DT:=DT) dns (logged_connect connect) set_nodelay udp_bind clock dns_tx
    reads sched hs_fuel fuel hash port conn_id shutdown (fresh i) = (Err e, st) →
  ac_fallback st = Some (buf, fport, stream) →
  fallback_start (logged_connect connect) buf fport stream = Ok f0 →
  rtc (fallback_pending fuel_f) f0 f → fallback_select fuel_f order f = (r, f') →
  (∃ o, connect (SocketV4 [127; 0; 0; 1]%Z port) = Ok o) ∧
  (∃ msg, parse_spec hash buf = Err (Invalid msg)) ∧ buf `prefix_of` lg_in (fb_in f') ∧
  lg_in (fb_in f') = lg_out (fb_out f') ++ unsent (fb_up f') ∧
  lg_in (fb_out f') = lg_out (fb_in f') ++ unsent (fb_down f') ∧
  length (unsent (fb_up f')) ≤ RELAY_BUFFER_SIZE ∧ length (unsent (fb_down f')) ≤ RELAY_BUFFER_SIZE.
Proof.
  unfold handle_outbound. destruct (accept fuel (accept_new hash port (fresh i))) as [req s] eqn:Eacc.
  intros Hho Hfb Hstart Hrun Hsel. assert (st = s) as -> by congruence. clear Hho.
  destruct (post_run _ _ _ _ _ (accept_spec fuel _ (waiting_new hash port (fresh i))) Eacc) as (ins & Htr & _ & He).
  apply read_trace_io, fresh_trace in Htr as [Hi1 Hi2].
  cbn [ac_acceptor accept_new TrojanAcceptor_new ta_bytes ta_buf vec_with_capacity vdata app
    ta_password_hash ta_fallback_port] in He.
  assert (buf = ins ∧ fport = port ∧ stream = ac_inbound s ∧ ∃ msg, parse_spec hash ins = Err (Invalid msg))
    as (-> & -> & -> & Hinv).
  { destruct req as [req|[msg|msg]| |msg|]; cbn [accept_exit] in He.
    - destruct He as (? & ? & ? & _ & _ & _ & Hn). congruence.
    - destruct He as (Hn & _). congruence.
    - destruct He as [(Hs & Hinv)|[Hn _]]; [|congruence]. rewrite Hs in Hfb. by injection Hfb as <- <- <-.
    - destruct He as ((_ & _ & _ & Hn & _) & _). congruence.
    - destruct He as (Hn & _). congruence.
    - destruct He as (Hn & _). congruence. }
  destruct (fallback_carried _ _ _ _ _ _ _ _ _ _ Hstart Hrun Hsel)
    as (o & iin & iout & oin & oout & Hc & Ti & To & E & F & Bu & Bd).
  unfold logged_connect in Hc. destruct (connect _) as [o0| | | |]; try done. injection Hc as <-.
  apply fresh_trace in To as [-> ->]. apply logged_trace in Ti as [-> ->]. rewrite Hi1, Hi2.
  split; [by exists o0|]. split; [done|]. split; [by apply prefix_app_r|]. split; [done|]. by split.
Qed.
End rejected.

(** ** An example: the user sends three bytes, the target answers two *)
#[local] Instance ex_leave : LeaveTls (Logged Script) Script := λ l, Ok (lg_io l).
Definition ex_packet : list Z := packet TCP_REQUEST_CMD ex_target ex_hash.
Definition ex_user : Script := script_of [[1; 2; 3]%Z].
Definition ex_client_tls : Script := script_of [[7; 8]%Z].
Definition ex_server_tls : Script := script_of [take 60 ex_packet; drop 60 ex_packet ++ [1]%Z; [2; 3]%Z].
Definition ex_target_socket : Script := script_of [[7; 8]%Z].
Definition ex_dns (name : list Z) : outcome server_error IpAddr := Ok (IpV4 [93; 184; 216; 34]%Z).
Definition ex_connect (addr : SocketAddr) : outcome io_error Script := Ok ex_target_socket.

Abbreviation ExConnection := (ClientServerConnection (Logged Script) (Logged Script) (Logged Script)).
(** A QUIC stream; [ex_tls_conn] is the same over TLS. *)
Definition ex_conn : ExConnection := ConnQuic (fresh (script_of []), fresh ex_client_tls).
Definition ex_tls_conn : ExConnection := ConnTcpTLS (fresh ex_client_tls).

Definition ex_forwarded (user : Script) (conn : ExConnection) : outcome client_error
    (Relaying Z bool (Logged Script) (Logged Script) (Logged Script) (Logged Script) Script SockScript bool unit) :=
  client_forward lg_io ticking 5 (λ _, Inbound) 5 (Ok (TCP (mkBufferedRecv None (fresh user)), ex_target))
    (Ok conn) ex_hash 1 false.
Definition ex_seen (user : Script) (conn : ExConnection) : option Seen :=
  client_seen (client_poll true 10 10 ex_order (match ex_forwarded user conn with Ok c => c | _ => RelClosed end)).2.
Definition ex_client0 := match ex_forwarded ex_user ex_conn with Ok c => c | _ => RelClosed end.
Definition ex_client1 := client_poll true 10 10 ex_order ex_client0.
Example tunnel_over_tls : ex_seen ex_user ex_tls_conn = client_seen ex_client1.2.
Proof. vm_compute. reflexivity. Qed.

(** In Lite TLS mode, a user who does not speak TLS stays in the tunnel. *)
Definition ex_plain_user : Script := script_of [[71; 69; 84; 32; 47]%Z; [1]%Z].
Example tunnel_over_lite_tls :
  ex_seen ex_plain_user (ConnLiteTLS (fresh ex_client_tls)) =
    Some (mkSeen [71; 69; 84; 32; 47; 1]%Z [7; 8]%Z [7; 8]%Z
      (packet LITE_TLS_REQUEST_CMD ex_target ex_hash ++ [71; 69; 84; 32; 47; 1]%Z) [] []).
Proof. vm_compute. reflexivity. Qed.

(** The handshake's writes are whole there. *)
Example tunnel_over_lite_tls_whole :
  match ex_forwarded ex_plain_user (ConnLiteTLS (fresh ex_client_tls)) with
  | Ok (RelTcp r0) => relay_short r0 = 0
  | _ => False
  end.
Proof. vm_compute. reflexivity. Qed.

Definition ex_handled : outcome server_error
    (Serving Z bool (Logged Script) (Logged Script) Script SockScript (list (answer IpAddr)) (list (answer IpAddr)))
    * AcceptSt (Logged Script) :=
  handle_outbound ex_dns (logged_connect ex_connect) (λ _, Ok tt) (Err OtherKind) ticking [] 5 (λ _, Inbound) 5
    10 ex_hash 80%Z 1 false (fresh ex_server_tls).
Definition ex_server1 := match ex_handled.1 with Ok v => serve_poll true 10 10 ex_order v | _ => (Pending, ServeClosed) end.

Lemma tunnel_exact_witness :
  ∃ cs (rls : Relay Z bool (BufferedRecv (Logged Script)) (Logged Script) CopyBuffer),
  client_seen ex_client1.2 = Some cs ∧ ex_server1.2 = ServeTcp rls ∧ let ss := seen_of rls in
  outer_accepted ss = [1; 2; 3]%Z ∧ inner_accepted cs = [7; 8]%Z ∧
  ∀ up down,
    outer_accepted cs = inner_delivered ss ++ up → inner_accepted ss = outer_delivered cs ++ down →
    (∃ addr o, Mix.resolve ex_dns ex_target = Ok addr ∧ ex_connect addr = Ok o) ∧
    buffered_bytes (mkBufferedRecv None ex_user) ++ inner_delivered cs =
      outer_accepted ss ++ on_way_up ss ++ up ++ on_way_up cs ∧
    outer_delivered ss = inner_accepted cs ++ on_way_down cs ++ down ++ on_way_down ss.
Proof.
  assert (∃ v0 st, ex_handled = (Ok (ServeTcp v0), st) ∧ ex_server1 = serve_poll true 10 10 ex_order (ServeTcp v0))
    as (v0 & st & Hh & Hs).
  { assert (match ex_handled.1 with Ok (ServeTcp _) => true | _ => false end = true) as Ht by (vm_compute; reflexivity).
    unfold ex_server1. destruct ex_handled as [[[|v0| | |]|e| |msg|] st]; try discriminate Ht.
    exists v0, st. split; reflexivity. }
  destruct (tunnel_exact (TS:=Script) (Kc:=SockScript) (XR:=bool) (E:=unit)
    lg_io ticking 5 (λ _, Inbound) 5 (T:=Z) (X:=bool) (TI:=Script)
    ex_dns ex_connect (λ _, Ok tt) (Err OtherKind) ticking [] 5 (λ _, Inbound) 5
    None ex_user ex_conn ex_server_tls ex_target ex_hash 80%Z 1 1 false false 10 10 10 10 10 true true
    ex_order ex_order ex_client0 ex_client0 ex_client1.1 ex_client1.2 v0 (ServeTcp v0) ex_server1.1 ex_server1.2 st)
    as (cs & rls & Hc & Hv & Heq).
  - apply ex_hash_length.
  - apply ex_target_carried.
  - split; reflexivity.
  - apply ex_order_ok.
  - apply ex_order_ok.
  - vm_compute. reflexivity.
  - discriminate.
  - apply rtc_refl.
  - apply surjective_pairing.
  - exact Hh.
  - apply rtc_refl.
  - rewrite <- Hs. apply surjective_pairing.
  - exists cs, rls. split; [exact Hc|]. split; [exact Hv|]. cbv zeta.
    assert (inner_accepted <$> client_seen ex_client1.2 = Some [7; 8]%Z) as H1 by (vm_compute; reflexivity).
    assert (match ex_server1.2 with ServeTcp r => outer_accepted (seen_of r) = [1; 2; 3]%Z | _ => False end) as H2
      by (vm_compute; reflexivity).
    rewrite Hc in H1. injection H1 as H1. rewrite Hv in H2. split; [exact H2|]. split; [exact H1|exact Heq].
Defined.

(** A browser that opens the server's port gets the page of the fallback service. *)
Definition ex_get : list Z := bytes_of_string "GET / HTTP/1.1 Host: localhost; an ordinary request, not ours".
Definition ex_page (addr : SocketAddr) : outcome io_error Script := Ok (script_of [[60; 62]%Z]).

Lemma server_fallback_exact_witness :
  ∃ f' : FallbackSt (Logged Script) (Logged Script),
  lg_out (fb_out f') = ex_get ++ [5]%Z ∧ lg_out (fb_in f') = [60; 62]%Z ∧
  (∃ o, ex_page (SocketV4 [127; 0; 0; 1]%Z 80%Z) = Ok o) ∧
  (∃ msg, parse_spec ex_hash ex_get = Err (Invalid msg)) ∧ ex_get `prefix_of` lg_in (fb_in f') ∧
  lg_in (fb_in f') = lg_out (fb_out f') ++ unsent (fb_up f') ∧
  lg_in (fb_out f') = lg_out (fb_in f') ++ unsent (fb_down f') ∧
  length (unsent (fb_up f')) ≤ RELAY_BUFFER_SIZE ∧ length (unsent (fb_down f')) ≤ RELAY_BUFFER_SIZE.
Proof.
  assert (∃ st : AcceptSt (Logged Script), (handle_outbound (T:=Z) (X:=bool) (TI:=Script) (K:=SockScript) (D:=list (answer IpAddr))
      (DT:=list (answer IpAddr)) ex_dns (logged_connect ex_page) (λ _, Ok tt)
      (Err OtherKind) ticking [] 5 (λ _, Inbound) 5 10 ex_hash 80%Z 1 false (fresh (script_of [ex_get; [5]%Z]))) =
      (Err (SvParser (Invalid "Target::verify hash invalid")), st) ∧
      ac_fallback st = Some (ex_get, 80%Z, mkLogged (script_of [[5]%Z]) ex_get [] 0)) as (st & Hh & Hfb).
  { eexists. split; vm_compute; reflexivity. }
  set (stream := mkLogged (script_of [[5]%Z]) ex_get [] 0) in *.
  assert (∃ f0, fallback_start (logged_connect ex_page) ex_get 80%Z stream = Ok f0 ∧
    (fallback_select 10 [FbDown; FbUp] f0).1 = Pending ∧
    lg_out (fb_out (fallback_select 10 [FbDown; FbUp] f0).2) = ex_get ++ [5]%Z ∧
    lg_out (fb_in (fallback_select 10 [FbDown; FbUp] f0).2) = [60; 62]%Z) as (f0 & Hf & Hs & H1 & H2).
  { eexists. split; [reflexivity|]. split_and!; vm_compute; reflexivity. }
  exists (fallback_select 10 [FbDown; FbUp] f0).2. split; [exact H1|]. split; [exact H2|].
  exact (server_fallback_exact (T:=Z) (X:=bool) (TI:=Script) (K:=SockScript) (D:=list (answer IpAddr)) (DT:=list (answer IpAddr))
    ex_dns ex_page (λ _, Ok tt) (Err OtherKind) ticking [] 5 (λ _, Inbound) 5
    (script_of [ex_get; [5]%Z]) ex_hash 80%Z 1 false 10 _ st ex_get 80%Z stream 10 f0 f0 [FbDown; FbUp]
    Pending _ Hh Hfb Hf (rtc_refl _ _) (surjective_run _ _ _ Hs)).
Defined.
