(* ===== verification/LiteTlsTunnel.v ===== *)
(** The whole path of a connection that leaves the tunnel in Lite TLS mode, on both
    sides: what went inside the tunnel, what outside, and what either end was sent.

    [Left] is a stream that was left: the socket under it, recorded from there on, and
    what the tunnel had seen. *)
From stdpp Require Import relations.
From S2P Require Import Prelude Vec MixAddr Io Copy UdpTraits UdpCopy TrojanUdp Acceptor.
From S2P Require Import UdpSockets Timeout Adapter LiteTls LiteTlsPipe LiteTlsHandshake Fallback Connector.
From S2P Require Import Inbound Client Tunnel.

(** ** Where a stream of records ends *)

(** The ends of records form a chain. *)
Lemma aligned_above T k :
  (∀ j, aligned T j → j < k → j + (5 + record_len T j) ≤ k) →
  ∀ j, aligned T j → k < j → k + (5 + record_len T k) ≤ j.
Proof.
  intros Hbelow j. induction 1 as [|j Hj IH Hl]; [lia|]. intros Hk.
  destruct (Nat.lt_trichotomy j k) as [Hlt|[->|Hgt]]; [|lia|].
  - specialize (Hbelow j Hj Hlt). lia.
  - specialize (IH Hgt). lia.
Qed.

Lemma aligned_below T k : aligned T k → ∀ j, aligned T j → j < k → j + (5 + record_len T j) ≤ k.
Proof.
  induction 1 as [|k Hk IH Hl]; intros j Hj Hlt; [lia|].
  destruct (Nat.lt_trichotomy j k) as [Hjk|[->|Hjk]]; [specialize (IH j Hj Hjk); lia|lia|].
  pose proof (aligned_above T k IH j Hj Hjk). lia.
Qed.

Lemma aligned_prefix T more k : aligned (T ++ more) k → k ≤ length T → aligned T k.
Proof.
  induction 1 as [|k Hk IH Hl]; intros Hle; [constructor|].
  rewrite record_len_app by lia. apply al_record; [apply IH|]; lia.
Qed.

Lemma record_len_behind X Y : record_len (X ++ Y) (length X) = record_len Y 0.
Proof. pose proof (record_len_drop (X ++ Y) (length X) 0) as Hd. by rewrite drop_app_length, Nat.add_0_r in Hd. Qed.

(** Whole records, none of them the leave command's type. *)
Definition clean (Q : list Z) : Prop := aligned Q (length Q) ∧ ∀ k, aligned Q k → Q !! k ≠ Some 0xff%Z.

(** The first record 0xff behind clean records is the leave command. *)
Lemma leave_found Q S X :
  clean Q → S = Q ++ LEAVE_TLS_COMMAND → aligned S (length X) → X `prefix_of` S →
  S !! length X = Some 0xff%Z → X = Q.
Proof.
  intros [Hq Hff] HS Ha [rest HX] Hx.
  assert (length X < length S) as Hlt by (apply lookup_lt_is_Some; eauto).
  assert (aligned S (length Q)) as Hq' by (rewrite HS; by apply aligned_app).
  assert (record_len S (length Q) = 1) as H1.
  { by rewrite HS, record_len_behind. }
  assert (length S = length Q + 6) as HlS by (rewrite HS, length_app; done).
  destruct (Nat.lt_trichotomy (length X) (length Q)) as [Hc|[Hc|Hc]].
  - exfalso. rewrite HS in Ha, Hx. apply aligned_prefix in Ha; [|lia]. rewrite lookup_app_l in Hx by done. by apply (Hff _ Ha).
  - rewrite HX in HS. by apply app_inj_1 in HS as [-> _].
  - pose proof (aligned_below S _ Ha _ Hq' Hc). lia.
Qed.

(** ** One direction

    Side [A] sends direction [d] as its first hand, side [B] receives it as its second
    hand; [t] is what the tunnel still holds of it. *)
Section hop.
Context (A B : LiteTlsEndpointSide) (insA sentA ins2A sent2A insB sentB ins2B sent2B : Direction → list Z).
Context (QA keptA QB keptB : list Z).
Context (HA : left_with A insA sentA ins2A sent2A QA keptA) (HB : left_with B insB sentB ins2B sent2B QB keptB).

(** What [A] read goes on inside the tunnel and outside, but for the start of a header
    it drops if it left passively. *)
Lemma hop_sent : ∃ lost, insA (first_hand A) = QA ++ lost ++ sent2A (first_hand A) ∧ length lost < 5.
Proof.
  destruct HA as (_ & Hin & _ & [(Hs & _)|(held & cmd & more & _ & _ & _ & _ & _ & _ & _ & Hs & Hk)]); rewrite Hin, Hs.
  - exists []. split; [done|cbn; lia].
  - exists keptA. by rewrite app_nil_r.
Qed.

(** [B] sends on what [A] sent inside the tunnel, then what it got outside. *)
Lemma hop_received t :
  second_hand B = first_hand A → clean QA → sentA (first_hand A) = insB (second_hand B) ++ t →
  t = [] ∧ sentB (second_hand B) ++ sent2B (second_hand B) = QA ++ ins2B (second_hand B).
Proof.
  intros Hd Hcl Ht. destruct HA as (HS & _). rewrite HS in Ht.
  destruct HB as (_ & _ & _ & [(_ & (rest & Hin & Hff & Hal & Hlen) & -> & ->)|
    (held & cmd & more & Hin & Hlen & Hff & Hal & -> & -> & _)]).
  - assert (sentB (second_hand B) = QA) as HX.
    { apply (leave_found QA (insB (second_hand B) ++ t)); [done..|by apply aligned_app| |].
      - rewrite Hin, <- app_assoc. by apply prefix_app_r.
      - rewrite Hin, <- app_assoc, lookup_app_r, Nat.sub_diag, lookup_app_l by (destruct rest; cbn in *; lia || done). done. }
    rewrite HX, app_nil_r. split; [|done].
    assert (record_len (insB (second_hand B)) (length QA) = 1) as H1.
    { rewrite <- (record_len_app _ t) by (rewrite Hin, HX, length_app; lia). by rewrite <- Ht, record_len_behind. }
    rewrite HX in Hlen. rewrite H1 in Hlen. apply (f_equal length) in Ht. rewrite Hin, HX, !length_app in Ht. cbn in Ht.
    destruct t; [done|cbn in Ht; lia].
  - rewrite (app_assoc (sentB _)) in Hin |- *.
    assert (sentB (second_hand B) ++ held = QA) as HX.
    { apply (leave_found QA (insB (second_hand B) ++ t)); [done..|by apply aligned_app| |].
      - rewrite Hin, <- app_assoc. by apply prefix_app_r.
      - rewrite Hin, <- app_assoc, lookup_app_r, Nat.sub_diag, lookup_app_l by (destruct cmd; cbn in *; lia || done). done. }
    rewrite HX. split; [|done]. apply (f_equal length) in Ht. rewrite Hin, HX, !length_app in Ht. cbn in Ht.
    destruct t; [done|cbn in Ht; lia].
Qed.
End hop.

(** ** Streams that were left *)
Record Left (S : Type) := mkLeft { lf_raw : Logged S; lf_in : list Z; lf_out : list Z; lf_short : nat }.
Arguments mkLeft {S}.
Arguments lf_raw {S}.
Arguments lf_in {S}.
Arguments lf_out {S}.
Arguments lf_short {S}.

Definition on_raw {S A} (m : ST (Logged S) io_error A) : ST (Left S) io_error A :=
  st_zoom lf_raw (λ r l, mkLeft r (lf_in l) (lf_out l) (lf_short l)) m.

#[export] Instance Left_AsyncRead {S} `{AsyncRead S} : AsyncRead (Left S) := λ room, on_raw (poll_read room).

#[export] Instance Left_AsyncWrite {S} `{AsyncWrite S} : AsyncWrite (Left S) := {
  poll_write b := on_raw (poll_write b);
  poll_flush := on_raw poll_flush;
  poll_shutdown := on_raw poll_shutdown;
}.

Lemma on_raw_run {S A} (m : ST (Logged S) io_error A) l :
  on_raw m l = ((m (lf_raw l)).1, mkLeft (m (lf_raw l)).2 (lf_in l) (lf_out l) (lf_short l)).
Proof. unfold on_raw. by rewrite st_zoom_run. Qed.

#[export] Instance Left_AsyncReadOk {S} `{AsyncReadOk S} : AsyncReadOk (Left S).
Proof.
  split; intros room l; unfold poll_read, Left_AsyncRead; rewrite on_raw_run.
  - intros bs t [= Hr _]. exact (read_fits_fst room (lf_raw l) bs Hr).
  - exact (poll_read_returns room (lf_raw l)).
Qed.

#[export] Instance Left_AsyncWriteOk {S} `{AsyncWriteOk S} : AsyncWriteOk (Left S).
Proof.
  split; cbn [poll_write poll_flush poll_shutdown Left_AsyncWrite]; [intros b l n l'|intros b l|intros l|intros l];
    rewrite on_raw_run; cbn [fst].
  - intros [= Hw _]. exact (write_fits_fst b (lf_raw l) n Hw).
  - apply poll_write_returns.
  - apply poll_flush_returns.
  - apply poll_shutdown_returns.
Qed.

#[export, refine] Instance Left_Watched {S} `{AsyncRead S, AsyncWrite S} : Watched (Left S) := {
  seen_short l := lf_short l + lg_short (lf_raw l);
}.
Proof.
  - intros l room. unfold poll_read, Left_AsyncRead. rewrite on_raw_run. cbn [snd lf_short lf_raw].
    f_equal. exact (short_read (lf_raw l) room).
  - intros l b. cbn [poll_write Left_AsyncWrite]. rewrite on_raw_run. cbn [fst snd lf_short lf_raw].
    rewrite <- Nat.add_assoc. f_equal. exact (short_write (lf_raw l) b).
  - intros l. cbn [poll_flush Left_AsyncWrite]. rewrite on_raw_run. cbn [snd lf_short lf_raw].
    f_equal. exact (short_flush (lf_raw l)).
  - intros l. cbn [poll_shutdown Left_AsyncWrite]. rewrite on_raw_run. cbn [snd lf_short lf_raw].
    f_equal. exact (short_shutdown (lf_raw l)).
Defined.

(** What is left of the tunnel stays as it is. *)
Lemma left_trace {S} `{AsyncRead S, AsyncWrite S} (l : Left S) ins outs l' :
  io_trace l ins outs l' →
  lf_in l' = lf_in l ∧ lf_out l' = lf_out l ∧
  lg_in (lf_raw l') = lg_in (lf_raw l) ++ ins ∧ lg_out (lf_raw l') = lg_out (lf_raw l) ++ outs.
Proof.
  intros Ht. enough (io_trace (lf_raw l) ins outs (lf_raw l') ∧ lf_in l' = lf_in l ∧ lf_out l' = lf_out l)
    as ([]%logged_trace & ? & ?) by done.
  induction Ht as [l|l room ins outs l'' _ IH|l b ins outs l'' _ IH|l ins outs l'' _ IH|l ins outs l'' _ IH]; [by auto using io_refl|..].
  all: unfold poll_read, Left_AsyncRead in *; cbn [poll_write poll_flush poll_shutdown Left_AsyncWrite] in *;
    rewrite on_raw_run in *; cbn [fst snd lf_raw lf_in lf_out] in *; (split; [|apply IH]); constructor; apply IH.
Qed.

(** The socket under a recorded tunnel. *)
Definition left_of {S R} (raw : S → R) (l : Logged S) : Left R := mkLeft (fresh (raw (lg_io l))) (lg_in l) (lg_out l) (lg_short l).

#[export] Instance Logged_LeaveTls {I P} `{LeaveTls I P} : LeaveTls (Logged I) (Left P) := λ l,
  p ← leave (lg_io l); mret (mkLeft (fresh p) (lg_in l) (lg_out l) (lg_short l)).

(** Once something was read of it, a buffered request is spent. *)
Lemma buffered_spent {S} `{AsyncRead S, AsyncWrite S} (b : BufferedRecv S) ins outs b' :
  io_trace b ins outs b' →
  (buffered_request b = None → buffered_request b' = None) ∧ (ins ≠ [] → buffered_request b' = None).
Proof.
  induction 1 as [b|b room ins outs b'' _ IH|b bs ins outs b'' _ IH|b ins outs b'' _ IH|b ins outs b'' _ IH]; [done|..].
  2-4: cbn [poll_write poll_flush poll_shutdown BufferedRecv_AsyncWrite] in IH; by rewrite st_zoom_run in IH.
  pose proof (poll_read_buffered room b) as Hp. destruct (buffered_request b) as [[i v]|].
  - destruct Hp as [[Hp _]|[msg Hp]]; rewrite Hp in *; cbn in *; [|destruct IH as [_ IH]; by split].
    split; [done|]. intros _. destruct IH as [IH _]. by apply IH.
  - rewrite Hp in IH. destruct IH as [IH _]. split; intros; by apply IH.
Qed.

(** ** A side that leaves *)
Section sides.
Context (reads : nat) (sched : nat → Direction) (fuel : nat).

(** The client: what the user's stream, the tunnel and the socket under it have seen
    when the relay outside the tunnel starts. *)
Lemma client_leaves {U W R} `{AsyncReadOk U, !AsyncWrite U, !AsyncWriteOk U}
    `{AsyncReadOk W, !AsyncWrite W, !AsyncWriteOk W} `{AsyncReadOk R, !AsyncWrite R, !AsyncWriteOk R}
    (raw : W → R) br (u : Logged U) (w : Logged W) (ui : Logged U) (to : Left R) :
  client_forward_lite (left_of raw) reads sched fuel (mkBufferedRecv br u) w = Ok (RelayLite ui to) →
  seen_short ui = 0 → seen_short to = 0 →
  ∃ iin ins sent ins2 sent2 Q kept, left_with ClientSide ins sent ins2 sent2 Q kept ∧
    lg_in ui = lg_in u ++ iin ∧ buffered_bytes (mkBufferedRecv br u) ++ iin = ins Inbound ∧
    lg_out ui = lg_out u ++ sent Outbound ++ sent2 Outbound ∧
    lf_in to = lg_in w ++ ins Outbound ∧ lf_out to = lg_out w ++ sent Inbound ∧
    lg_in (lf_raw to) = ins2 Outbound ∧ lg_out (lf_raw to) = sent2 Inbound.
Proof.
  intros (i1 & o1 & ti1 & to1 & ins & sent & took & ins2 & sent2 & took2 & Q & kept & Hi & Ho & [= <-] & [= <-] & Hi2 & Ho2 & Hl & Hne)%leaves_shape
    Hsi Hso; [|done].
  destruct (handed_whole _ _ _ _ _ Hi2 Hsi) as [Ti2 Hsi1], (handed_whole _ _ _ _ _ Ho2 Hso) as [To2 Hso1].
  cbn in Hso1. rewrite Nat.add_0_r in Hso1.
  change (seen_short i1 = 0) in Hsi1. change (seen_short o1 = 0) in Hso1.
  destruct (handed_whole _ _ _ _ _ Hi Hsi1) as [Ti _], (handed_whole _ _ _ _ _ Ho Hso1) as [To _].
  clear Hi Ho Hi2 Ho2. rename Ti into Hi, To into Ho, Ti2 into Hi2, To2 into Ho2.
  pose proof (buffered_spent _ _ _ _ Hi) as [_ Hsp]. specialize (Hsp Hne).
  apply buffered_io_trace in Hi as (iin & [Hu1 Hu2]%logged_trace & Hb).
  apply logged_trace in Ho as [Ho Hw2], Hi2 as [Hv1 Hv2]. apply left_trace in Ho2 as (Hf1 & Hf2 & Hr1 & Hr2).
  cbn in Hu1, Hu2, Hv1, Hv2, Hf1, Hf2, Hr1, Hr2.
  exists iin, ins, sent, ins2, sent2, Q, kept. split; [done|].
  assert (ins2 Inbound = []) as Hn by (by destruct Hl as (_ & _ & Hn & _)).
  unfold buffered_bytes in Hb at 2. rewrite Hsp, app_nil_r in Hb.
  rewrite Hv1, Hu1, Hn, app_nil_r, Hv2, Hu2, <- app_assoc, Hf1, Hf2, Ho, Hw2. done.
Qed.

(** The server, of which [held] may not all have been read. *)
Lemma server_leaves {I O P} `{AsyncReadOk I, !AsyncWrite I, !AsyncWriteOk I}
    `{AsyncReadOk O, !AsyncWrite O, !AsyncWriteOk O} `{AsyncReadOk P, !AsyncWrite P, !AsyncWriteOk P}
    `{!LeaveTls I P} (i1 : Logged I) held (o : Logged O) (ti : Left P) (to : Logged O) :
  server_forward_lite reads sched fuel (BufferedRecv_new i1 held) o = Ok (RelayLite ti to) →
  seen_short ti = 0 → seen_short to = 0 →
  ∃ iin unread ins sent ins2 sent2 Q kept, left_with ServerSide ins sent ins2 sent2 Q kept ∧
    lf_in ti = lg_in i1 ++ iin ∧ buffered_bytes (BufferedRecv_new i1 held) ++ iin = ins Inbound ++ unread ∧
    lf_out ti = lg_out i1 ++ sent Outbound ∧
    lg_in (lf_raw ti) = ins2 Inbound ∧ lg_out (lf_raw ti) = sent2 Outbound ∧
    lg_in to = lg_in o ++ ins Outbound ∧ lg_out to = lg_out o ++ sent Inbound ++ sent2 Inbound.
Proof.
  intros (b1 & o1 & ti1 & to1 & ins & sent & took & ins2 & sent2 & took2 & Q & kept & Hi & Ho & Hti & [= <-] & Hi2 & Ho2 & Hl & _)%leaves_shape
    Hsi Hso; [|done].
  unfold leave, Logged_LeaveTls in Hti. destruct (leave _) as [p| | | |]; try done. injection Hti as <-.
  destruct (handed_whole _ _ _ _ _ Hi2 Hsi) as [Ti2 Hsi1], (handed_whole _ _ _ _ _ Ho2 Hso) as [To2 Hso1].
  cbn in Hsi1. rewrite Nat.add_0_r in Hsi1.
  change (seen_short b1 = 0) in Hsi1.
  destruct (handed_whole _ _ _ _ _ Hi Hsi1) as [Ti _], (handed_whole (S:=Logged O) _ _ _ _ _ Ho Hso1) as [To _].
  clear Hi Ho Hi2 Ho2. rename Ti into Hi, To into Ho, Ti2 into Hi2, To2 into Ho2.
  apply buffered_io_trace in Hi as (iin & [Hu1 Hu2]%logged_trace & Hb).
  apply logged_trace in Ho as [Ho Hw2], Ho2 as [Hv1 Hv2]. apply left_trace in Hi2 as (Hf1 & Hf2 & Hr1 & Hr2).
  cbn in Hu1, Hu2, Hf1, Hf2, Hr1, Hr2.
  exists iin, (buffered_bytes b1), ins, sent, ins2, sent2, Q, kept. split; [done|].
  assert (ins2 Outbound = []) as Hn by (by destruct Hl as (_ & _ & Hn & _)).
  rewrite Hf1, Hf2, Hu1, Hu2, Hv1, Hv2, Hn, app_nil_r, Ho, Hw2, <- app_assoc. done.
Qed.
End sides.

(** ** The relays outside the tunnel *)
Definition inner {T X I O} (r : Relay T X I O CopyBuffer) : I := bi_i (rl_bidi r).

Section runs.
Context {T X : Type} `{Sleep T} `{Signal X} (oc : bool) (fuel inner_fuel : nat).

Lemma client_run_lite {U SS RS S TS K XR E} `{AsyncRead U, AsyncWrite U, AsyncWrite SS, AsyncRead RS, AsyncRead S, AsyncWrite S}
    `{AsyncRead TS, AsyncWrite TS, UdpSocket K, Signal XR} r0 (c : Relaying T X U SS RS S TS K XR E) :
  rtc (client_pending oc fuel inner_fuel) (RelLite r0) c →
  ∃ r, c = RelLite r ∧ rtc (select_pending oc (tcp_duplex fuel)) r0 r.
Proof. relay_embeds. Qed.

Lemma serve_run_lite {I O TI K D DT} `{AsyncRead I, AsyncWrite I, AsyncRead O, AsyncWrite O, AsyncRead TI, AsyncWrite TI}
    `{UdpSocket K, Dns D DT} r0 (v : Serving T X I O TI K D DT) :
  rtc (serve_pending oc fuel inner_fuel) (ServeLite r0) v →
  ∃ r, v = ServeLite r ∧ rtc (select_pending oc (tcp_duplex fuel)) r0 r.
Proof. relay_embeds. Qed.
End runs.

(** Of the bytes [from] one end delivered, the other was sent [to] and [way] is on its
    way: all, but for less than a record's header [lost] behind the bytes [Q] that
    went inside the tunnel. *)
Definition switched (Q from to way : list Z) : Prop :=
  ∃ lost rest, from = Q ++ lost ++ rest ++ way ∧ to = Q ++ rest ∧ length lost < 5.

Lemma switched_hop A B insA sentA ins2A sent2A insB sentB ins2B sent2B QA keptA QB keptB t oA iB oB wayA wayB up :
  left_with A insA sentA ins2A sent2A QA keptA → left_with B insB sentB ins2B sent2B QB keptB →
  second_hand B = first_hand A → clean QA → sentA (first_hand A) = insB (second_hand B) ++ t →
  sent2A (first_hand A) ++ oA = ins2B (second_hand B) ++ iB ++ up → iB = oB ++ wayB →
  t = [] ∧ switched QA (insA (first_hand A) ++ oA ++ wayA)
    (sentB (second_hand B) ++ sent2B (second_hand B) ++ oB) (wayB ++ up ++ wayA).
Proof.
  intros HA HB Hd Hcl Ht Hraw ->.
  destruct (hop_sent _ _ _ _ _ _ _ HA) as (lost & Hin & Hlost).
  destruct (hop_received _ _ _ _ _ _ _ _ _ _ _ _ _ _ HA HB t Hd Hcl Ht) as [-> Hout].
  split; [done|]. exists lost, (ins2B (second_hand B) ++ oB). split; [|split; [|done]].
  - rewrite Hin, <- !app_assoc. do 2 f_equal. by rewrite (app_assoc (sent2A _)), Hraw, <- !app_assoc.
  - by rewrite (app_assoc (sentB _)), Hout, <- app_assoc.
Qed.

(** * Properties *)
Section leaving.
(** As in Tunnel.v; [raw] is the socket under the client's tunnel. *)
Context {Tc Xc U SS RS W R Kc XR E : Type} `{Sleep Tc} `{Signal Xc}.
Context `{AsyncReadOk U, !AsyncWrite U, !AsyncWriteOk U, AsyncReadOk W, !AsyncWrite W, !AsyncWriteOk W}.
Context `{AsyncReadOk R, !AsyncWrite R, !AsyncWriteOk R}.
Context `{AsyncWrite SS, !AsyncWriteOk SS, AsyncReadOk RS, UdpSocket Kc, Signal XR}.
Context (raw : W → R) (clock_c : nat → Z) (reads_c : nat) (sched_c : nat → Direction) (hs_c : nat).
Context {T X I O P K D DT : Type} `{Sleep T} `{Signal X}.
Context `{AsyncReadOk I, !AsyncWrite I, !AsyncWriteOk I, !LeaveTls I P}.
Context `{AsyncReadOk O, !AsyncWrite O, !AsyncWriteOk O}.
Context `{AsyncReadOk P, !AsyncWrite P, !AsyncWriteOk P, UdpSocket K, Dns D DT}.
Context (dns : list Z → outcome server_error IpAddr) (connect : SocketAddr → outcome io_error O).
Context (set_nodelay : Logged O → outcome io_error unit) (udp_bind : outcome io_error K).
Context (clock : nat → Z) (dns_tx : D) (reads : nat) (sched : nat → Direction) (hs_fuel : nat).

(** The client, after any number of polls. *)
Lemma client_left br (u : Logged U) (w : W) a hash conn_id sh fuel_c ifc oc order_c r0
    (c : Relaying Tc Xc (Logged U) (Logged SS) (Logged RS) (Logged W) (Left R) Kc XR E) rc c' :
  carried_addr a → order_c ≡ₚ [BDuplex; BTimeout; BShutdown] →
  client_forward (T:=Tc) (X:=Xc) (SS:=Logged SS) (RS:=Logged RS) (K:=Kc) (XR:=XR) (E:=E) (left_of raw) clock_c reads_c sched_c hs_c
    (Ok (TCP (mkBufferedRecv br u), a)) (Ok (ConnLiteTLS (fresh w))) hash conn_id sh = Ok (RelLite r0) → relay_short r0 = 0 →
  rtc (client_pending oc fuel_c ifc) (RelLite r0) c → client_poll oc fuel_c ifc order_c c = (rc, c') →
  ∃ r iin iout oout ins sent ins2 sent2 Q kept, c' = RelLite r ∧ left_with ClientSide ins sent ins2 sent2 Q kept ∧
    lg_in (inner r) = lg_in u ++ iin ∧ buffered_bytes (mkBufferedRecv br u) ++ iin = ins Inbound ++ oout ++ going_up r ∧
    lg_out (inner r) = lg_out u ++ sent Outbound ++ sent2 Outbound ++ iout ∧
    lf_in (outer r) = ins Outbound ∧ lf_out (outer r) = packet LITE_TLS_REQUEST_CMD a hash ++ sent Inbound ∧
    lg_in (lf_raw (outer r)) = ins2 Outbound ++ iout ++ going_down r ∧ lg_out (lf_raw (outer r)) = sent2 Inbound ++ oout.
Proof.
  intros Ha Hoc Hfwd Hsh Hrc Hpc.
  pose proof (carried_packet LITE_TLS_REQUEST_CMD a hash Ha) as Hp.
  destruct (client_forward_tcp (SS:=SS) (RS:=RS) (left_of raw) clock_c reads_c sched_c hs_c br u a (ConnLiteTLS (fresh w)) hash _
    conn_id sh (RelLite r0) Hp ltac:(done) Hfwd) as (conn1 & Hc1 & Hm & Hrel).
  destruct conn1 as [?|?|w1]; try done. destruct Hc1 as [Hw1 Hw2]. cbn [client_relay_tcp] in Hrel.
  destruct (client_forward_lite _ _ _ _ _ w1) as [[|ui to|]| | | |] eqn:Ec; try done.
  assert (r0 = adapt_tcp_until clock_c ui to sh) as -> by by injection Hrel.
  destruct (relay_start_short _ _ _ _ _ _ _ Hsh) as [Hsi Hso].
  destruct (client_leaves _ _ _ _ _ _ _ _ _ Ec Hsi Hso)
    as (iin1 & ins & sent & ins2 & sent2 & Q & kept & HC & Cu & Cb & Co & Ct & Cs & Cr & Cr').
  destruct (client_run_lite _ _ _ _ _ Hrc) as (rl & -> & Hrl). cbn [client_poll] in Hpc.
  destruct (relay_tcp oc fuel_c order_c rl) as [res r] eqn:Er. injection Hpc as _ <-.
  destruct (relay_tcp_carried _ _ _ _ _ _ _ _ _ _ _ Hoc Hrl Er)
    as (iin & iout & oin & oout & [Ti1 Ti2]%logged_trace & (To1 & To2 & To3 & To4)%left_trace & E1 & E2 & _).
  exists r, (iin1 ++ iin), iout, oout, ins, sent, ins2, sent2, Q, kept. unfold inner, outer.
  split; [done|]. split; [done|].
  rewrite Ti1, Ti2, To1, To2, To3, To4, Cu, Co, Ct, Cs, Cr, Cr', Hw1, Hw2, (app_assoc (buffered_bytes _)), Cb, E1, E2, <- !app_assoc. repeat (split; [reflexivity|]). reflexivity.
Qed.

(** The server; [unread] is what it had read of the tunnel with the request and did not
    look at. *)
Lemma server_left (i : I) hash port conn_id sh fuel_a fuel_s ifs oc order_s q0
    (v : Serving T X (Logged I) (Logged O) (Left P) K D DT) rv v' st :
  order_s ≡ₚ [BDuplex; BTimeout; BShutdown] →
  handle_outbound (T:=T) (X:=X) (TI:=Left P) (DT:=DT) dns (logged_connect connect) set_nodelay udp_bind clock dns_tx
    reads sched hs_fuel fuel_a hash port conn_id sh (fresh i) = (Ok (ServeLite q0), st) → relay_short q0 = 0 →
  rtc (serve_pending oc fuel_s ifs) (ServeLite q0) v → serve_poll oc fuel_s ifs order_s v = (rv, v') →
  ∃ q (o : Logged O) iout oout unread ins sent ins2 sent2 Q kept, v' = ServeLite q ∧ left_with ServerSide ins sent ins2 sent2 Q kept ∧
    lf_out (inner q) = sent Outbound ∧
    lg_in (lf_raw (inner q)) = ins2 Inbound ++ oout ++ going_up q ∧ lg_out (lf_raw (inner q)) = sent2 Outbound ++ iout ∧
    lg_in (outer q) = lg_in o ++ ins Outbound ++ iout ++ going_down q ∧
    lg_out (outer q) = lg_out o ++ sent Inbound ++ sent2 Inbound ++ oout ∧
    ∀ a payload rest, length hash = HASH_LEN → carried_addr a →
      lf_in (inner q) ++ rest = packet LITE_TLS_REQUEST_CMD a hash ++ payload →
      (∃ addr o', Mix.resolve dns a = Ok addr ∧ connect addr = Ok o' ∧ o = fresh o') ∧ payload = ins Inbound ++ unread ++ rest.
Proof.
  intros Hos Hho Hsh Hrs Hps.
  destruct (handle_outbound_stream dns connect set_nodelay udp_bind clock dns_tx reads sched hs_fuel
    fuel_a hash port conn_id sh i _ st Hho Logic.I) as (Hi1 & held & tls & o & Htls & Hf & Hdec).
  destruct Htls as [->| ->]; [done|]. cbn [forward] in Hf.
  destruct (server_forward_lite _ _ _ _ o) as [[|ti tgt|]| | | |] eqn:Es; try done.
  assert (q0 = adapt_tcp clock ti tgt sh) as -> by by injection Hf.
  destruct (relay_start_short _ _ _ _ _ _ _ Hsh) as [Hsi Hsoo].
  destruct (server_leaves _ _ _ _ _ _ _ _ Es Hsi Hsoo)
    as (iin1 & unread & ins & sent & ins2 & sent2 & Q & kept & HS & Su & Sb & Ss & Sr & Sr' & St & St').
  destruct (serve_run_lite _ _ _ _ _ Hrs) as (ql & -> & Hql). cbn [serve_poll] in Hps.
  destruct (relay_tcp oc fuel_s order_s ql) as [res' q] eqn:Eq. injection Hps as _ <-.
  destruct (relay_tcp_carried _ _ _ _ _ _ _ _ _ _ _ Hos Hql Eq)
    as (iin & iout & oin & oout & (Vi1 & Vi2 & Vi3 & Vi4)%left_trace & [Vo1 Vo2]%logged_trace & E3 & E4 & _).
  exists q, o, iout, oout, unread, ins, sent, ins2, sent2, Q, kept. unfold inner, outer.
  split; [done|]. split; [done|].
  rewrite Vi1, Vi2, Vi3, Vi4, Vo1, Vo2, Su, Ss, Sr, Sr', St, St', Hi1, E3, E4, <- !app_assoc.
  do 5 (split; [done|]). intros a payload rest Hh Ha Hrest. rewrite <- app_assoc in Hrest.
  pose proof (carried_packet LITE_TLS_REQUEST_CMD a hash Ha) as Hp.
  destruct (Hdec LITE_TLS_REQUEST_CMD a _ payload (iin1 ++ rest) Hh Ha ltac:(by right) Hp Hrest) as (Hcon & _ & <-).
  split; [exact Hcon|]. by rewrite app_assoc, Sb, <- app_assoc.
Qed.

(** C4: a request for an IPv4 address or a host name of at most 255 bytes
    ([carried_addr]) whose connection leaves the tunnel on both sides, in Lite TLS mode,
    no write having been short before the relays outside it started ([relay_short]).
    Inside the tunnel, behind the packet of the request, the client sent the user's
    bytes [QC] and the leave command, the server the target's bytes [QS] and the leave
    command. If both are whole records none of which has the type 0xff ([clean]), and [up_t],
    [down_t] is what is left in the tunnel and [up], [down] what the sockets under it
    hold, then the tunnel was read to its end by both sides: they agree where it was
    left, whoever left it actively. Each end was sent exactly what the other
    delivered, whether it went inside or outside, less what is on its way and, from a
    side that left passively, at most the first four bytes of a record's header
    ([switched]). *)
Theorem lite_tls_tunnel_exact br (u : Logged U) (w : W) (i : I) a hash port conn_id conn_id' sh sh' fuel_a fuel_c fuel_s
    ifc ifs oc ocs order_c order_s r0 (c : Relaying Tc Xc (Logged U) (Logged SS) (Logged RS) (Logged W) (Left R) Kc XR E)
    rc c' q0 (v : Serving T X (Logged I) (Logged O) (Left P) K D DT) rv v' st :
  length hash = HASH_LEN → carried_addr a →
  order_c ≡ₚ [BDuplex; BTimeout; BShutdown] → order_s ≡ₚ [BDuplex; BTimeout; BShutdown] →
  client_forward (T:=Tc) (X:=Xc) (SS:=Logged SS) (RS:=Logged RS) (K:=Kc) (XR:=XR) (E:=E) (left_of raw) clock_c reads_c sched_c hs_c
    (Ok (TCP (mkBufferedRecv br u), a)) (Ok (ConnLiteTLS (fresh w))) hash conn_id sh = Ok (RelLite r0) → relay_short r0 = 0 →
  rtc (client_pending oc fuel_c ifc) (RelLite r0) c → client_poll oc fuel_c ifc order_c c = (rc, c') →
  handle_outbound (T:=T) (X:=X) (TI:=Left P) (DT:=DT) dns (logged_connect connect) set_nodelay udp_bind clock dns_tx
    reads sched hs_fuel fuel_a hash port conn_id' sh' (fresh i) = (Ok (ServeLite q0), st) → relay_short q0 = 0 →
  rtc (serve_pending ocs fuel_s ifs) (ServeLite q0) v → serve_poll ocs fuel_s ifs order_s v = (rv, v') →
  ∃ r q QC QS iin iout, c' = RelLite r ∧ v' = ServeLite q ∧
  lg_in (inner r) = lg_in u ++ iin ∧ lg_out (inner r) = lg_out u ++ iout ∧
  lf_out (outer r) = packet LITE_TLS_REQUEST_CMD a hash ++ QC ++ LEAVE_TLS_COMMAND ∧
  lf_out (inner q) = QS ++ LEAVE_TLS_COMMAND ∧
  (clean QC → clean QS → ∀ up_t down_t up down,
    lf_out (outer r) = lf_in (inner q) ++ up_t → lf_out (inner q) = lf_in (outer r) ++ down_t →
    lg_out (lf_raw (outer r)) = lg_in (lf_raw (inner q)) ++ up →
    lg_out (lf_raw (inner q)) = lg_in (lf_raw (outer r)) ++ down →
    up_t = [] ∧ down_t = [] ∧ (∃ addr o, Mix.resolve dns a = Ok addr ∧ connect addr = Ok o) ∧
    switched QC (buffered_bytes (mkBufferedRecv br u) ++ iin) (lg_out (outer q)) (going_up q ++ up ++ going_up r) ∧
    switched QS (lg_in (outer q)) iout (going_down r ++ down ++ going_down q)).
Proof.
  intros Hh Ha Hoc Hos Hfwd Hsc Hrc Hpc Hho Hss Hrs Hps.
  destruct (client_left _ _ _ _ _ _ _ _ _ _ _ _ _ _ _ Ha Hoc Hfwd Hsc Hrc Hpc)
    as (r & iin & ioutC & ooutC & insC & sentC & ins2C & sent2C & QC & keptC & -> & HC & C1 & C2 & C3 & C4 & C5 & C6 & C7).
  destruct (server_left _ _ _ _ _ _ _ _ _ _ _ _ _ _ _ Hos Hho Hss Hrs Hps)
    as (q & o & ioutS & ooutS & unread & insS & sentS & ins2S & sent2S & QS & keptS & -> & HS & S1 & S2 & S3 & S4 & S5 & Hdec).
  pose proof HC as (HsC & _). pose proof HS as (HsS & _). cbn [first_hand] in HsC, HsS.
  eexists r, q, QC, QS, iin, _. split; [done|]. split; [done|]. split; [done|]. split; [exact C3|].
  split; [by rewrite C5, HsC|]. split; [by rewrite S1, HsS|].
  intros HQC HQS up_t down_t up down Hup_t Hdown_t Hup Hdown.
  rewrite C5 in Hup_t. rewrite S1, C4 in Hdown_t. rewrite C7, S2, <- app_assoc in Hup. rewrite S3, C6, <- app_assoc in Hdown.
  destruct (Hdec a (sentC Inbound) up_t Hh Ha (eq_sym Hup_t)) as ((addr & o' & Hres & Hcon & ->) & Hpay).
  destruct (switched_hop ClientSide ServerSide _ _ _ _ _ _ _ _ _ _ _ _ (unread ++ up_t) ooutC (ooutS ++ going_up q) ooutS
    (going_up r) (going_up q) up HC HS eq_refl HQC Hpay Hup eq_refl) as [[_ ->]%app_nil Hsw].
  destruct (switched_hop ServerSide ClientSide _ _ _ _ _ _ _ _ _ _ _ _ down_t ioutS (ioutC ++ going_down r) ioutC
    (going_down q) (going_down r) down HS HC eq_refl HQS Hdown_t Hdown eq_refl) as [-> Hsw'].
  split; [done|]. split; [done|]. split; [by exists addr, o'|]. rewrite C2, S4, S5. by split.
Qed.
End leaving.

(** ** An example

    The user and the target exchange handshake records and a first record of data
    each; the server, which sees the second of these, leaves the tunnel actively, the
    client passively. The user's second record of data goes outside the tunnel. *)
Definition lt_up1 : list Z := ex_record 0x17 [1; 2; 3]%Z.
Definition lt_up2 : list Z := ex_record 0x17 [5]%Z.
Definition lt_down0 : list Z := ex_record 0x16 [9]%Z.
Definition lt_down1 : list Z := ex_record 0x17 [4]%Z.
Definition lt_user : Sink := mkSink [Gives ex_hello; Waits; Gives lt_up1; Waits; Gives lt_up2; Waits] [].
Definition lt_tunnel_c : Sink := mkSink [Gives lt_down0; Gives LEAVE_TLS_COMMAND] [].
Definition lt_raw_c (w : Sink) : Sink := mkSink [Gives lt_down1; Waits] [].
Definition lt_tunnel_s : Sink :=
  mkSink [Gives (packet LITE_TLS_REQUEST_CMD ex_target ex_hash ++ ex_hello); Waits; Gives lt_up1; Waits; Gives LEAVE_TLS_COMMAND] [].
#[local] Instance lt_raw_s : LeaveTls Sink Sink := λ _, Ok (mkSink [Gives lt_up2; Waits] []).
Definition lt_connect (a : SocketAddr) : outcome io_error Sink := Ok (mkSink [Gives lt_down0; Gives lt_down1; Waits] []).

Abbreviation LtRelaying :=
  (Relaying Z bool (Logged Sink) (Logged Sink) (Logged Sink) (Logged Sink) (Left Sink) SockScript bool unit).
Abbreviation LtServing :=
  (Serving Z bool (Logged Sink) (Logged Sink) (Left Sink) SockScript (list (answer IpAddr)) (list (answer IpAddr))).
Abbreviation lt_forwarded := (client_forward (left_of lt_raw_c) ticking 5 (λ _, Inbound) 9
  (Ok (TCP (mkBufferedRecv None (fresh lt_user)), ex_target)) (Ok (ConnLiteTLS (fresh lt_tunnel_c))) ex_hash 1 false
  : outcome client_error LtRelaying).
Definition lt_client := client_poll true 10 10 ex_order (match lt_forwarded with Ok c => c | _ => RelClosed end).
Abbreviation lt_handled := (handle_outbound ex_dns (logged_connect lt_connect) (λ _, Ok tt) (Err OtherKind) ticking [] 9
  (λ _, Inbound) 9 10 ex_hash 80%Z 1 false (fresh lt_tunnel_s)
  : outcome server_error LtServing * AcceptSt (Logged Sink)).
Definition lt_server := serve_poll true 10 10 ex_order (match lt_handled.1 with Ok v => v | _ => ServeClosed end).

(** The logs of the two sides: the user's stream, what the client sent in the tunnel
    and outside; the same of the server, and the target's stream. *)
Definition lt_client_logs (c : LtRelaying) :=
  match c with
  | RelLite r => Some (lg_in (inner r), lg_out (inner r), (lf_in (outer r), lf_out (outer r)),
      (lg_in (lf_raw (outer r)), lg_out (lf_raw (outer r))))
  | _ => None
  end.
Definition lt_server_logs (v : LtServing) :=
  match v with
  | ServeLite q => Some (lg_in (outer q), lg_out (outer q), (lf_in (inner q), lf_out (inner q)),
      (lg_in (lf_raw (inner q)), lg_out (lf_raw (inner q))))
  | _ => None
  end.

Example lt_client_seen :
  lt_client_logs lt_client.2 = Some (ex_hello ++ lt_up1 ++ lt_up2, lt_down0 ++ lt_down1,
    (lt_down0 ++ LEAVE_TLS_COMMAND, packet LITE_TLS_REQUEST_CMD ex_target ex_hash ++ (ex_hello ++ lt_up1) ++ LEAVE_TLS_COMMAND),
    (lt_down1, lt_up2)).
Proof. vm_compute. reflexivity. Qed.

Example lt_server_seen :
  lt_server_logs lt_server.2 = Some (lt_down0 ++ lt_down1, ex_hello ++ lt_up1 ++ lt_up2,
    (packet LITE_TLS_REQUEST_CMD ex_target ex_hash ++ (ex_hello ++ lt_up1) ++ LEAVE_TLS_COMMAND, lt_down0 ++ LEAVE_TLS_COMMAND),
    (lt_up2, lt_down1)).
Proof. vm_compute. reflexivity. Qed.

Lemma clean_records Q : aligned Q (length Q) → 255%Z ∉ Q → clean Q.
Proof. intros Ha Hn. split; [done|]. intros k _ Hk. by apply Hn, (list_elem_of_lookup_2 Q k). Qed.

Lemma lt_up_clean : clean (ex_hello ++ lt_up1).
Proof.
  apply clean_records; [|by apply (bool_decide_unpack _); vm_compute].
  apply (al_record (ex_hello ++ lt_up1) 7); [apply (al_record (ex_hello ++ lt_up1) 0); [constructor|]|]; cbn; lia.
Qed.
Lemma lt_down_clean : clean lt_down0.
Proof.
  apply clean_records; [|by apply (bool_decide_unpack _); vm_compute].
  apply (al_record lt_down0 0); [constructor|cbn; lia].
Qed.

Lemma lite_tls_tunnel_exact_witness :
  ∃ (r : Relay Z bool (Logged Sink) (Left Sink) CopyBuffer) (q : Relay Z bool (Left Sink) (Logged Sink) CopyBuffer),
  lt_client.2 = RelLite r ∧ lt_server.2 = ServeLite q ∧
  lg_out (outer q) = ex_hello ++ lt_up1 ++ lt_up2 ∧ lg_out (inner r) = lt_down0 ++ lt_down1 ∧
  switched (ex_hello ++ lt_up1) (lg_in (inner r)) (lg_out (outer q)) (going_up q ++ [] ++ going_up r) ∧
  switched lt_down0 (lg_in (outer q)) (lg_out (inner r)) (going_down r ++ [] ++ going_down q).
Proof.
  assert (∃ r0, lt_forwarded = Ok (RelLite r0) ∧ lt_client = client_poll true 10 10 ex_order (RelLite r0) ∧
    relay_short r0 = 0) as (r0 & Hf & Hc & Hsc).
  { assert (match lt_forwarded with Ok (RelLite r) => relay_short r =? 0 | _ => false end = true) as Ht by (vm_compute; reflexivity).
    unfold lt_client. destruct lt_forwarded as [[| | |r0| | |]|e| |msg|]; try discriminate Ht. exists r0.
    split; [reflexivity|]. split; [reflexivity|by apply Nat.eqb_eq]. }
  assert (∃ q0 st, lt_handled = (Ok (ServeLite q0), st) ∧ lt_server = serve_poll true 10 10 ex_order (ServeLite q0) ∧
    relay_short q0 = 0) as (q0 & st & Hh & Hs & Hss).
  { assert (match lt_handled.1 with Ok (ServeLite r) => relay_short r =? 0 | _ => false end = true) as Ht by (vm_compute; reflexivity).
    unfold lt_server. destruct lt_handled as [[[| |q0| |]|e| |msg|] st]; try discriminate Ht. exists q0, st.
    split; [reflexivity|]. split; [reflexivity|by apply Nat.eqb_eq]. }
  destruct (lite_tls_tunnel_exact (Tc:=Z) (Xc:=bool) (SS:=Sink) (RS:=Sink) (Kc:=SockScript) (XR:=bool) (E:=unit)
    lt_raw_c ticking 5 (λ _, Inbound) 9 (T:=Z) (X:=bool) (P:=Sink)
    ex_dns lt_connect (λ _, Ok tt) (Err OtherKind) ticking [] 9 (λ _, Inbound) 9
    None (fresh lt_user) lt_tunnel_c lt_tunnel_s ex_target ex_hash 80%Z 1 1 false false 10 10 10 10 10 true true
    ex_order ex_order r0 (RelLite r0) lt_client.1 lt_client.2 q0 (ServeLite q0) lt_server.1 lt_server.2 st)
    as (r & q & QC & QS & iin & iout & Er & Eq & Hin & Hout & HQC & HQS & Heq).
  - apply ex_hash_length.
  - apply ex_target_carried.
  - apply ex_order_ok.
  - apply ex_order_ok.
  - exact Hf.
  - exact Hsc.
  - apply rtc_refl.
  - rewrite <- Hc. apply surjective_pairing.
  - exact Hh.
  - exact Hss.
  - apply rtc_refl.
  - rewrite <- Hs. apply surjective_pairing.
  - pose proof lt_client_seen as Hcl. pose proof lt_server_seen as Hsl. rewrite Er in Hcl. rewrite Eq in Hsl.
    injection Hcl as C1 C2 C3 C4 C5 C6. injection Hsl as S1 S2 S3 S4 S5 S6.
    exists r, q. split; [exact Er|]. split; [exact Eq|]. split; [exact S2|]. split; [exact C2|].
    assert (QC = ex_hello ++ lt_up1) as ->.
    { apply (app_inv_tail LEAVE_TLS_COMMAND), (app_inv_head (packet LITE_TLS_REQUEST_CMD ex_target ex_hash)).
      rewrite <- HQC. exact C4. }
    assert (QS = lt_down0) as -> by (apply (app_inv_tail LEAVE_TLS_COMMAND); rewrite <- HQS; exact S4).
    destruct (Heq lt_up_clean lt_down_clean [] [] [] []) as (_ & _ & _ & Hup & Hdown).
    + by rewrite C4, S3, app_nil_r.
    + by rewrite S4, C3, app_nil_r.
    + by rewrite C6, S5, app_nil_r.
    + by rewrite S6, C5, app_nil_r.
    + rewrite Hin, Hout. split; [exact Hup|exact Hdown].
Defined.
