(* ===== verification/Session.v ===== *)
(** A user's session from its first byte: a front end accepts the request
    (Socks5.v, Http.v), and the tunnel carries what follows (Tunnel.v). *)
From stdpp Require Import relations.
From S2P Require Import Prelude Vec MixAddr Io Copy UdpTraits UdpCopy TrojanUdp Acceptor.
From S2P Require Import UdpSockets Timeout Adapter LiteTls LiteTlsHandshake Fallback Connector.
From S2P Require Import Inbound Socks5 Http Client Tunnel.

Section accept.
Context {U K XR E : Type} `{AsyncRead U, AsyncWrite U, LocalAddr U, LocalAddr K}.
Context (oc : bool) (udp_bind : IpAddr → io_error + K) (reset_rx : XR).

(** [Acceptor::new(stream).accept()], and the stream it leaves. *)
Definition user_accept (front : Front) (fuel : nat) (stream : U)
    : outcome accept_error (ClientConnectionRequest U K XR E * MixAddrType) * U :=
  match front with
  | HttpFront =>
      let '(r, s) := http_accept oc fuel (http_start stream) in (r, acc_io s)
  | Socks5Front =>
      let '(r, s) := s5_accept udp_bind reset_rx fuel (s5_start stream) in
      ('(req, _, addr) ← r; mret (req, addr), acc_io s)
  end.
End accept.

(** What a front end reads of a session, what it replies, and what it sends to the
    target [a] ahead of the user's bytes. *)
Definition granted_for (oc : bool) (front : Front) (head reply ahead : list Z) (a : MixAddrType) : Prop :=
  match front with
  | Socks5Front => ∃ hello request bound, head = hello ++ request ∧ greeting_ok hello ∧ request_ok request false a ∧
      reply = PHASE1_SERVER_REPLY ++ PHASE2_SERVER_REPLY ++ Mix.encoded (Mix.from_socket_addr bound) ∧ ahead = []
  | HttpFront => ∃ https, http_line oc head https a ∧ CRLF2 `suffix_of` head ∧
      if https then reply = ESTABLISHED ∧ ahead = []
      else reply = [] ∧ ∃ host port, a = Hostname host port ∧
        ahead = HEADER0 ++ host ++ [58]%Z ++ port_string port ++ HEADER1
  end.

Section granted.
Context {U K XR E : Type} `{AsyncReadOk U, !AsyncWrite U, !AsyncWriteOk U, LocalAddr U, LocalAddr K}.
Context (oc : bool) (udp_bind : IpAddr → io_error + K) (reset_rx : XR).
Context (Hlocal : ∀ (i : U) a, local_addr i = inr a → wf_socket_addr a).
Context (Hbound : ∀ (k : K) a, local_addr k = inr a → wf_socket_addr a).

(** A TCP session that was granted. *)
Lemma user_accept_granted front fuel (u : U) b a l :
  user_accept (E:=E) oc udp_bind reset_rx front fuel u = (Ok (TCP b, a), l) →
  ∃ head reply br, io_trace u head reply l ∧ b = mkBufferedRecv br l ∧
    granted_for oc front head reply (buffered_bytes b) a.
Proof.
  destruct front; cbn [user_accept].
  - pose proof (http_accept_spec oc (K:=K) (X:=XR) (E:=E) fuel u) as Hp. unfold post in Hp.
    destruct (http_accept _ _ _) as [r s]. cbn [fst snd] in Hp. intros [= -> <-].
    destruct Hp as (ins & outs & Ht & https & Hline & Hsuf & Hr).
    destruct https.
    + destruct Hr as [-> [= ->]]. exists ins, ESTABLISHED, None. split; [done|]. split; [done|]. by exists true.
    + destruct Hr as (-> & host & port & -> & [= ->]). eexists ins, [], _. split; [done|]. split; [done|].
      exists false. split_and!; [done..|]. exists host, port. done.
  - pose proof (s5_accept_spec (E:=E) Hlocal Hbound udp_bind reset_rx fuel u) as Hp. unfold post in Hp.
    destruct (s5_accept _ _ _ _) as [r s]. cbn [fst snd] in Hp.
    destruct r as [[[req task] addr]|e| | |]; try done. intros [= -> -> <-].
    destruct Hp as (ins & outs & Ht & hello & request & udp & bound & -> & Hg & Hreq & -> & io1 & local & _ & Hr).
    destruct udp; [by destruct Hr as (? & _ & _ & ? & _)|]. destruct Hr as (_ & [= ->] & _).
    eexists _, _, None. split; [exact Ht|]. split; [done|]. by exists hello, request, bound.
Qed.
End granted.

(** * Properties *)
Section session.
(** As in Tunnel.v. *)
Context {Tc Xc U SS RS W TS Kc XR E : Type} `{Sleep Tc} `{Signal Xc}.
Context `{AsyncReadOk U, !AsyncWrite U, !AsyncWriteOk U, AsyncReadOk W, !AsyncWrite W, !AsyncWriteOk W}.
Context `{AsyncWrite SS, !AsyncWriteOk SS, AsyncReadOk RS, AsyncRead TS, AsyncWrite TS, UdpSocket Kc, Signal XR}.
Context (into_inner : Logged W → TS) (clock_c : nat → Z) (reads_c : nat) (sched_c : nat → Direction) (hs_c : nat).
Context {T X I O TI K D DT : Type} `{Sleep T} `{Signal X}.
Context `{AsyncReadOk I, !AsyncWrite I, !AsyncWriteOk I, !LeaveTls (Logged I) TI}.
Context `{AsyncReadOk O, !AsyncWrite O, !AsyncWriteOk O, AsyncRead TI, AsyncWrite TI, UdpSocket K, Dns D DT}.
Context (dns : list Z → outcome server_error IpAddr) (connect : SocketAddr → outcome io_error O).
Context (set_nodelay : Logged O → outcome io_error unit) (udp_bind : outcome io_error K).
Context (clock : nat → Z) (dns_tx : D) (reads : nat) (sched : nat → Direction) (hs_fuel : nat).
(** The addresses of the user's socket and of the socket of an association. *)
Context `{LocalAddr (Logged U), LocalAddr Kc} (ocp : bool) (udp_bind_c : IpAddr → io_error + Kc) (reset_rx : XR).
Context (Hlocal : ∀ (i : Logged U) a, local_addr i = inr a → wf_socket_addr a).
Context (Hbound : ∀ (k : Kc) a, local_addr k = inr a → wf_socket_addr a).

(** C3: a user's session, from its first byte. A front end, SOCKS5 or HTTP, grants the
    user target [a], an IPv4 address or a host name of at most 255 bytes
    ([carried_addr]); the request goes through the whole tunnel over TLS, over QUIC, or
    in Lite TLS mode while it stays in the tunnel and no write was short before the
    relays started. Then the user's stream is the [head] the front end read, followed by what is relayed; what
    was written to it is the front end's [reply], followed by what is relayed; the
    server connected to the address of the target that [head] names; the target was
    sent what the front end sends [ahead] (of a plain HTTP request its new head,
    otherwise nothing), then what the user sent behind [head]; and nothing else went
    to either, less what the two relays and the connection hold. *)
Theorem user_session_exact front fuel_u (u : U) b a l (conn : ClientServerConnection (Logged SS) (Logged RS) (Logged W))
    (i : I) hash port conn_id conn_id' sh sh' fuel_a fuel_c fuel_s ifc ifs oc ocs order_c order_s c0 c rc c' v0 v rv v' st :
  user_accept (E:=E) ocp udp_bind_c reset_rx front fuel_u (fresh u) = (Ok (TCP b, a), l) →
  length hash = HASH_LEN → carried_addr a → conn_carried conn [] [] →
  order_c ≡ₚ [BDuplex; BTimeout; BShutdown] → order_s ≡ₚ [BDuplex; BTimeout; BShutdown] →
  client_forward (T:=Tc) (X:=Xc) into_inner clock_c reads_c sched_c hs_c
    (user_accept (E:=E) ocp udp_bind_c reset_rx front fuel_u (fresh u)).1 (Ok conn) hash conn_id sh = Ok c0 →
  (mode_of conn = LiteTLSMode → ∃ r0, c0 = RelTcp r0 ∧ relay_short r0 = 0 ∧ relay_short v0 = 0) →
  rtc (client_pending oc fuel_c ifc) c0 c → client_poll oc fuel_c ifc order_c c = (rc, c') →
  handle_outbound (T:=T) (X:=X) (TI:=TI) (DT:=DT) dns (logged_connect connect) set_nodelay udp_bind clock dns_tx
    reads sched hs_fuel fuel_a hash port conn_id' sh' (fresh i) = (Ok (ServeTcp v0), st) →
  rtc (serve_pending ocs fuel_s ifs) (ServeTcp v0) v → serve_poll ocs fuel_s ifs order_s v = (rv, v') →
  ∃ cs rls head reply ahead iin iout, client_seen c' = Some cs ∧ v' = ServeTcp rls ∧
  granted_for ocp front head reply ahead a ∧
  inner_delivered cs = head ++ iin ∧ inner_accepted cs = reply ++ iout ∧ let ss := seen_of rls in ∀ up down,
    outer_accepted cs = inner_delivered ss ++ up →
    inner_accepted ss = outer_delivered cs ++ down →
    (∃ addr o, Mix.resolve dns a = Ok addr ∧ connect addr = Ok o) ∧
    ahead ++ iin = outer_accepted ss ++ on_way_up ss ++ up ++ on_way_up cs ∧
    outer_delivered ss = iout ++ on_way_down cs ++ down ++ on_way_down ss.
Proof.
  intros Hacc Hh Ha Hconn Hoc Hos Hfwd Hlite Hrc Hpc Hho Hrs Hps. rewrite Hacc in Hfwd. cbn [fst] in Hfwd.
  destruct (user_accept_granted ocp udp_bind_c reset_rx Hlocal Hbound front fuel_u (fresh u) b a l Hacc)
    as (head & reply & br & [Hin Hout]%fresh_trace & -> & Hg).
  destruct (tunnel_carried into_inner clock_c reads_c sched_c hs_c dns connect set_nodelay udp_bind clock dns_tx
    reads sched hs_fuel br l conn i a hash port conn_id conn_id' sh sh' fuel_a fuel_c fuel_s ifc ifs oc ocs order_c
    order_s c0 c rc c' v0 v rv v' st Hh Ha Hconn Hoc Hos Hfwd Hlite Hrc Hpc Hho Hrs Hps)
    as (cs & rls & iin & iout & Hc & Hv & Hi & Ho & Heq).
  rewrite Hin in Hi. rewrite Hout in Ho. by exists cs, rls, head, reply, (buffered_bytes (mkBufferedRecv br l)), iin, iout.
Qed.
End session.

(** ** An example: a browser's plain request, over QUIC *)
#[local] Instance ex_local_addr : LocalAddr (Logged Script) := λ _, inr (SocketV4 [127; 0; 0; 1]%Z 8888%Z).
#[local] Instance ex_bound_addr : LocalAddr SockScript := λ _, inr (SocketV4 [127; 0; 0; 1]%Z 4000%Z).
#[local] Instance ex_leave_raw : LeaveTls (Logged Script) Script := λ l, Ok (lg_io l).

Lemma ex_addr_wf p : (0 ≤ p < 65536)%Z → wf_socket_addr (SocketV4 [127; 0; 0; 1]%Z p).
Proof. intros Hp. split; [done|]. split; [|exact Hp]. repeat (constructor; [done|]). constructor. Qed.

Lemma ex_session_user_wf (i : Logged Script) a : local_addr i = inr a → wf_socket_addr a.
Proof. intros [= <-]. by apply ex_addr_wf. Qed.
Lemma ex_session_bound_wf (k : SockScript) a : local_addr k = inr a → wf_socket_addr a.
Proof. intros [= <-]. by apply ex_addr_wf. Qed.

Definition ex_head : list Z := bytes_of_string "GET http://t.io/ HTTP/1.1" ++ CRLF2.
Definition ex_host : MixAddrType := Hostname (bytes_of_string "t.io") 80%Z.
Definition ex_ahead : list Z := HEADER0 ++ bytes_of_string "t.io:80" ++ HEADER1.
Definition ex_browser : Script := script_of [take 9 ex_head; drop 9 ex_head; [1; 2; 3]%Z].
Definition ex_sent : list Z := packet TCP_REQUEST_CMD ex_host ex_hash ++ ex_ahead.
Definition ex_accepted := user_accept (U:=Logged Script) (K:=SockScript) (XR:=bool) (E:=unit) false (λ _, inl OtherKind) true
  HttpFront 5 (fresh ex_browser).
Definition ex_relaying : outcome client_error
    (Relaying Z bool (Logged Script) (Logged Script) (Logged Script) (Logged Script) Script SockScript bool unit) :=
  client_forward lg_io ticking 5 (λ _, Inbound) 5 ex_accepted.1 (Ok ex_conn) ex_hash 1 false.
Definition ex_relay0 := match ex_relaying with Ok c => c | _ => RelClosed end.
Definition ex_relay1 := client_poll true 10 10 ex_order ex_relay0.
Definition ex_served : outcome server_error
    (Serving Z bool (Logged Script) (Logged Script) Script SockScript (list (answer IpAddr)) (list (answer IpAddr)))
    * AcceptSt (Logged Script) :=
  handle_outbound ex_dns (logged_connect Tunnel.ex_connect) (λ _, Ok tt) (Err OtherKind) ticking [] 5 (λ _, Inbound) 5
    10 ex_hash 80%Z 1 false (fresh (script_of [ex_sent; [1; 2; 3]%Z])).
Definition ex_serving := match ex_served.1 with Ok v => serve_poll true 10 10 ex_order v | _ => (Pending, ServeClosed) end.

Example ex_target_sent :
  match ex_serving.2 with ServeTcp rls => outer_accepted (seen_of rls) | _ => [] end = ex_ahead ++ [1; 2; 3]%Z.
Proof. vm_compute. reflexivity. Qed.

Lemma user_session_exact_witness :
  ∃ cs (rls : Relay Z bool (BufferedRecv (Logged Script)) (Logged Script) CopyBuffer) head reply ahead iin iout,
  client_seen ex_relay1.2 = Some cs ∧ ex_serving.2 = ServeTcp rls ∧
  outer_accepted (seen_of rls) = ex_ahead ++ [1; 2; 3]%Z ∧
  granted_for false HttpFront head reply ahead ex_host ∧
  inner_delivered cs = head ++ iin ∧ inner_accepted cs = reply ++ iout ∧ let ss := seen_of rls in ∀ up down,
    outer_accepted cs = inner_delivered ss ++ up →
    inner_accepted ss = outer_delivered cs ++ down →
    (∃ addr o, Mix.resolve ex_dns ex_host = Ok addr ∧ Tunnel.ex_connect addr = Ok o) ∧
    ahead ++ iin = outer_accepted ss ++ on_way_up ss ++ up ++ on_way_up cs ∧
    outer_delivered ss = iout ++ on_way_down cs ++ down ++ on_way_down ss.
Proof.
  assert (∃ b l, ex_accepted = (Ok (TCP b, ex_host), l)) as (b & l & Hacc) by (do 2 eexists; vm_compute; reflexivity).
  assert (∃ v0 st, ex_served = (Ok (ServeTcp v0), st) ∧ ex_serving = serve_poll true 10 10 ex_order (ServeTcp v0))
    as (v0 & st & Hh & Hs).
  { assert (match ex_served.1 with Ok (ServeTcp _) => true | _ => false end = true) as Ht by (vm_compute; reflexivity).
    unfold ex_serving. destruct ex_served as [[[|v0| | |]|e| |msg|] st]; try discriminate Ht.
    exists v0, st. split; reflexivity. }
  destruct (user_session_exact (Tc:=Z) (Xc:=bool) (TS:=Script) (Kc:=SockScript) (XR:=bool) (E:=unit)
    lg_io ticking 5 (λ _, Inbound) 5 (T:=Z) (X:=bool) (TI:=Script)
    ex_dns Tunnel.ex_connect (λ _, Ok tt) (Err OtherKind) ticking [] 5 (λ _, Inbound) 5
    false (λ _, inl OtherKind) true
    ex_session_user_wf ex_session_bound_wf
    HttpFront 5 ex_browser b ex_host l ex_conn (script_of [ex_sent; [1; 2; 3]%Z]) ex_hash 80%Z 1 1 false false
    10 10 10 10 10 true true ex_order ex_order ex_relay0 ex_relay0 ex_relay1.1 ex_relay1.2
    v0 (ServeTcp v0) ex_serving.1 ex_serving.2 st)
    as (cs & rls & head & reply & ahead & iin & iout & Hc & Hv & Hrest).
  - exact Hacc.
  - apply ex_hash_length.
  - unfold carried_addr, wf_addr. cbn. split_and!; [|done|unfold is_u16; lia|lia].
    repeat constructor; unfold is_u8; lia.
  - split; reflexivity.
  - apply ex_order_ok.
  - apply ex_order_ok.
  - vm_compute. reflexivity.
  - discriminate.
  - apply rtc_refl.
  - apply surjective_pairing.
  - exact Hh.
  - apply rtc_refl.
  - rewrite <- Hs. apply surjective_pairing.
  - exists cs, rls, head, reply, ahead, iin, iout. split; [exact Hc|]. split; [exact Hv|]. split; [|exact Hrest].
    pose proof ex_target_sent as Ht. by rewrite Hv in Ht.
Defined.
