(* ===== verification/UdpEnds.v ===== *)
(** The datagram ends of the program, as [datagram_end]s (UdpPackets.v): the SOCKS5
    end and the server's socket over recorded sockets, and [TrojanUdpStream] over a
    stream with a [Transcript].

    [Recorded] keeps the datagrams a socket handed over and took; a [Transcript]
    (Tunnel.v) the bytes of a stream. *)
From stdpp Require Import relations.
From S2P Require Import Prelude Vec MixAddr Io Copy UdpTraits UdpCopy TrojanUdp.
From S2P Require Import UdpSockets UdpPackets Tunnel.

(** ** Recorded sockets *)
Record Recorded (K : Type) := mkRecorded {
  rs_io : K;
  rs_rx : list (list Z * SocketAddr);
  rs_tx : list (SocketAddr * list Z);
}.
Arguments mkRecorded {K}.
Arguments rs_io {K}.
Arguments rs_rx {K}.
Arguments rs_tx {K}.

Definition unused {K} (k : K) : Recorded K := mkRecorded k [] [].

#[export] Instance Recorded_UdpSocket `{UdpSocket K} : UdpSocket (Recorded K) := {
  poll_recv_from room := λ s,
    let '(r, k) := poll_recv_from room (rs_io s) in
    (r, mkRecorded k (rs_rx s ++ match r with Ok d => [d] | _ => [] end) (rs_tx s));
  poll_send_to b a := λ s,
    let '(r, k) := poll_send_to b a (rs_io s) in (r, mkRecorded k (rs_rx s) (rs_tx s ++ sent_of b a r));
}.

#[export] Instance Recorded_UdpSocketOk `{UdpSocketOk K} : UdpSocketOk (Recorded K).
Proof.
  split.
  - intros room s bs a s'. cbn. destruct (poll_recv_from room (rs_io s)) as [r k'] eqn:E. intros [= -> _].
    by eapply recv_fits.
  - intros b a s n s'. cbn. destruct (poll_send_to b a (rs_io s)) as [r k'] eqn:E. intros [= -> _].
    by eapply send_whole.
  - intros b a s r s'. cbn. destruct (poll_send_to b a (rs_io s)) as [r' k'] eqn:E. intros [= -> _].
    by eapply send_returns.
Qed.

Section recorded.
Context {K : Type} `{UdpSocket K}.
Implicit Types k : Recorded K.

Lemma recorded_recv room k :
  poll_recv_from room k = ((poll_recv_from room (rs_io k)).1, mkRecorded (poll_recv_from room (rs_io k)).2
    (rs_rx k ++ match (poll_recv_from room (rs_io k)).1 with Ok d => [d] | _ => [] end) (rs_tx k)).
Proof. cbn. by destruct (poll_recv_from room (rs_io k)). Qed.

Lemma recorded_send b a k :
  poll_send_to b a k = ((poll_send_to b a (rs_io k)).1, mkRecorded (poll_send_to b a (rs_io k)).2 (rs_rx k)
    (rs_tx k ++ sent_of b a (poll_send_to b a (rs_io k)).1)).
Proof. cbn. by destruct (poll_send_to b a (rs_io k)). Qed.

Lemma recorded_sent k ds k' : send_trace k ds k' → rs_tx k' = rs_tx k ++ ds.
Proof.
  induction 1 as [k|k room ds k' _ IH|k b a ds k' _ IH]; [by rewrite app_nil_r| |].
  - rewrite recorded_recv in IH. exact IH.
  - rewrite recorded_send in IH |- *. cbn [fst snd rs_tx] in *. by rewrite IH, app_assoc.
Qed.
End recorded.

(** ** The SOCKS5 end *)

(** The datagram in what the user sent: reserved bytes, address, payload. *)
Definition request (bs : list Z) : option Datagram :=
  if decide (length bs < 3) then None
  else match Mix.from_encoded_bytes (drop 3 bs) with
       | Ok (a, n) => Some (a, drop n (drop 3 bs))
       | _ => None
       end.

Section socks5.
Context {K X : Type} `{UdpSocketOk K, Signal X}.
Implicit Types s : Socks5UdpStream (Recorded K) X.

Definition socks5_end (ins outs : list Datagram) (cur : option Datagram) s : Prop :=
  let k := server_udp_socket s in
  ins = omap request (map fst (rs_rx k)) ∧ Forall (λ d, client_udp_addr s = Some d.2) (rs_rx k) ∧
  sb_ok s ∧ map (uncurry socks5_frame) outs = map snd (rs_tx k) ++ waiting s ∧
  Forall (λ d, client_udp_addr s = Some d.1) (rs_tx k).

Definition same_rx : relation (Socks5UdpStream (Recorded K) X) :=
  λ s s', rs_rx (server_udp_socket s') = rs_rx (server_udp_socket s).
#[local] Instance same_rx_preorder : PreOrder same_rx.
Proof. split; [done|]. unfold same_rx. intros s1 s2 s3. congruence. Qed.

Lemma s5_on_buffer_rx {A} (m : ST Socks5UdpSpecifiedBuffer io_error A) :
  respects same_rx (s5_on_buffer (K:=Recorded K) (X:=X) m).
Proof. apply respects_zoom. by unfold same_rx. Qed.

Lemma s5_send_rx b a : respects same_rx (s5_on_socket (poll_send_to b a)).
Proof. apply respects_zoom. intros s. by rewrite recorded_send. Qed.
#[local] Hint Resolve s5_on_buffer_rx s5_send_rx : respects.

Lemma socks5_poll_write_rx : respects same_rx socks5_poll_write.
Proof. unfold socks5_poll_write. respect. Qed.
#[local] Hint Resolve socks5_poll_write_rx : respects.

Lemma socks5_write_rx buf addr : respects same_rx (socks5_udp_write buf addr).
Proof. unfold socks5_udp_write. respect. Qed.

(** What a read that counts delivers, and that it comes from the client. *)
Lemma socks5_end_read fuel s b ins outs cur :
  UdpRelay.wf b → UdpRelay.queue b = [] → socks5_end ins outs cur s →
  post (poll_proxy_stream_read fuel) (s, b) (λ r p, match r with
    | Ok MNone | Pending => socks5_end ins outs cur p.1
    | Ok a => socks5_end (ins ++ [(a, UdpRelay.queue p.2)]) outs cur p.1
    | _ => True
    end).
Proof.
  intros Hb Hq (-> & Hrx & Hsb & Hout & Htx). unfold post, poll_proxy_stream_read, Socks5UdpStream_UdpRead.
  rewrite socks5_udp_read_run. cbv zeta. destruct (UdpRelay.as_read_buf_queue b Hb) as (Hb0 & Hq0 & _).
  rewrite Hq in Hq0. destruct (try_recv (signal_reset s)) as [reset x]. rewrite recorded_recv.
  set (room := UdpRelay.room _). pose proof (λ bs src k, recv_fits room (rs_io (server_udp_socket s)) bs src k) as Hfit.
  destruct (poll_recv_from room (rs_io (server_udp_socket s))) as [r k]. cbn [fst snd].
  destruct reset; [by split_and!|].
  destruct r as [[bs src]|e| |msg|]; [|done| |done..]; [|by rewrite app_nil_r; split_and!].
  specialize (Hfit bs src k eq_refl). set (s1 := mkSocks5UdpStream _ _ _ _).
  destruct (foreign s1 src) eqn:Ef; [unfold socks5_received; by rewrite Ef|].
  assert (client_udp_addr s = Some src ∨ (client_udp_addr s = None ∧ rs_rx (server_udp_socket s) = [] ∧
    rs_tx (server_udp_socket s) = [])) as Hc.
  { unfold foreign, s1 in Ef. cbn in Ef. destruct (client_udp_addr s) as [c|].
    - left. by apply bool_decide_eq_false, dec_stable in Ef as ->.
    - right. split; [done|]. destruct (rs_rx _); [|by inversion Hrx]. split; [done|].
      destruct (rs_tx _); [done|by inversion Htx]. }
  assert (∀ ins', ins' = omap request (map fst (rs_rx (server_udp_socket s) ++ [(bs, src)])) →
    socks5_end ins' outs cur (s5_pin src s1)) as Hto.
  { intros ins' ->. unfold socks5_end. cbn. split_and!; [done| |done|done|].
    - apply Forall_app. split; [|by constructor]. destruct Hc as [<-|(_ & -> & _)]; [done|constructor].
    - destruct Hc as [<-|(_ & _ & ->)]; [done|constructor]. }
  rewrite map_app, omap_app in Hto. cbn [map omap list_omap fst] in Hto.
  destruct (decide (length bs < 3)) as [H3|H3].
  { unfold socks5_received. rewrite Ef, decide_True by done. cbn [fst snd]. apply Hto. cbn.
    unfold request. by rewrite decide_True, app_nil_r by done. }
  destruct (socks5_received_decodes s1 _ bs src Hb0 Hq0 Hfit ltac:(lia) Ef) as (b' & -> & Hw & Hd).
  pose proof (Mix.from_encoded_bytes_total (drop 3 bs)) as Ht. cbn [fst snd].
  destruct (Mix.from_encoded_bytes (drop 3 bs)) as [[a n]|e| |msg|] eqn:Ed; try done.
  destruct Ht as (_ & _ & Hne & _). specialize (Hd a n eq_refl).
  assert (socks5_end (omap request (map fst (rs_rx (server_udp_socket s))) ++ [(a, UdpRelay.queue b')]) outs cur
    (s5_pin src s1)) as Hgo.
  { apply Hto. cbn. unfold request. by rewrite decide_False, Ed, Hd by done. }
  by destruct a.
Qed.

Lemma socks5_datagram_end : datagram_end socks5_end.
Proof.
  split.
  - apply socks5_end_read.
  - intros s [a buf] ins outs cur Hne _ _ (-> & Hrx & Hsb & Hout & Htx). cbn [fst snd] in *.
    cbn [poll_proxy_stream_write Socks5UdpStream_UdpWrite].
    pose proof (socks5_udp_write_spec s buf a Hne Hsb) as Hw. unfold post in Hw |- *.
    pose proof (socks5_write_rx buf a s) as Hr. unfold same_rx in Hr.
    destruct (socks5_udp_write buf a s) as [r s']. cbn [fst snd] in *.
    destruct Hw as (Hsb' & Hc & ds & Ht & Heq & HF & _ & _ & Hp & Ho). apply recorded_sent in Ht.
    assert (∀ fs, waiting s ++ fs = map snd ds ++ waiting s' → ∀ os, map (uncurry socks5_frame) os = fs → ∀ cur',
      socks5_end (omap request (map fst (rs_rx (server_udp_socket s)))) (outs ++ os) cur' s') as Hto.
    { intros fs Hfs os Hos cur'. unfold socks5_end. rewrite Hr, Hc, Ht. split_and!; [done..| |].
      - rewrite !map_app, Hout, Hos, <- !app_assoc. by rewrite Hfs.
      - apply Forall_app. by split. }
    destruct r as [n|e| |msg|]; try done.
    + destruct (Ho n eq_refl) as [Htk ->]. right. split; [done|]. rewrite Htk in Heq. by eapply Hto.
    + exists None. split; [by left|]. rewrite (Hp eq_refl) in Heq. specialize (Hto _ Heq [] eq_refl None).
      by rewrite app_nil_r in Hto.
  - intros s ins outs cur HE. by intros _.
  - intros s ins outs cur HE. by intros _.
Qed.

Lemma socks5_end_new (sock : K) (rx : X) : socks5_end [] [] None (Socks5UdpStream_new (unused sock) rx).
Proof. by split_and!. Qed.
End socks5.

(** ** The server's socket *)

(** The datagram in what a target sent: an empty one counts as the end. *)
Definition target_datagram (d : list Z * SocketAddr) : option Datagram :=
  if decide (d.1 = []) then None else Some (Mix.from_socket_addr d.2, d.1).

Section server.
Context {K D T : Type} `{UdpSocketOk K, Dns D T}.
Context (Hres : resolver_ok (D:=D) (T:=T)).
Implicit Types s : ServerUdpStream (Recorded K) D T.

(** A datagram went to the address it was for. *)
Definition sent_to (p : Datagram) (d : SocketAddr * list Z) : Prop :=
  destination (D:=D) (T:=T) p.1 d.1 ∧ d.2 = p.2.

Definition server_end (ins outs : list Datagram) (cur : option Datagram) s : Prop :=
  let k := su_inner s in
  ins = omap target_datagram (rs_rx k) ∧ Forall2 sent_to outs (rs_tx k) ∧
  match cur with
  | None => addr_task s = ResolveNone
  | Some p => task_for (D:=D) p.1 (addr_task s)
  end.

Definition server_same_rx : relation (ServerUdpStream (Recorded K) D T) :=
  λ s s', rs_rx (su_inner s') = rs_rx (su_inner s).
#[local] Instance server_same_rx_preorder : PreOrder server_same_rx.
Proof. split; [done|]. unfold server_same_rx. intros s1 s2 s3. congruence. Qed.

Lemma su_modify_rx {E} f : (∀ s, su_inner (f s) = su_inner s) → respects (E:=E) server_same_rx (st_modify f).
Proof. intros Hf s. unfold server_same_rx. cbn. by rewrite Hf. Qed.

Lemma su_send_rx b a : respects server_same_rx (su_on_socket (poll_send_to b a)).
Proof. apply respects_zoom. intros s. by rewrite recorded_send. Qed.

Lemma start_resolving_rx addr : respects server_same_rx (start_resolving addr).
Proof.
  unfold start_resolving. respect; apply su_modify_rx; [done..|]. intros s. by destruct (dns_send _ _).
Qed.
#[local] Hint Resolve su_send_rx start_resolving_rx : respects.

Lemma server_write_rx fuel buf addr : respects server_same_rx (server_write_loop fuel buf addr).
Proof.
  induction fuel as [|fuel IH]; cbn [server_write_loop]; respect; try by apply su_modify_rx.
Qed.

Lemma server_datagram_end : datagram_end server_end.
Proof.
  split.
  - intros fuel s b ins outs cur Hb Hq (-> & Hout & Hcur).
    unfold post, poll_proxy_stream_read, ServerUdpStream_UdpRead. rewrite server_udp_read_run. cbv zeta.
    destruct (UdpRelay.as_read_buf_queue b Hb) as (Hb0 & Hq0 & _). rewrite Hq in Hq0. rewrite recorded_recv.
    set (room := UdpRelay.room _). pose proof (λ bs src k, recv_fits room (rs_io (su_inner s)) bs src k) as Hfit.
    destruct (poll_recv_from room (rs_io (su_inner s))) as [r k]. cbn [fst snd].
    destruct r as [[bs src]|e| |msg|]; [|done| |done..]; [|by rewrite app_nil_r; split_and!].
    specialize (Hfit bs src k eq_refl). destruct (UdpRelay.advance_mut_queue bs _ Hb0 Hfit) as [_ Hq1].
    rewrite Hq0 in Hq1. cbn [app] in Hq1. case_decide as Hl; cbn [fst snd].
    + apply nil_length_inv in Hl as ->. split_and!; [|done..]. cbn. rewrite omap_app. cbn.
      by rewrite app_nil_r.
    + assert (server_end (omap target_datagram (rs_rx (su_inner s)) ++
        [(Mix.from_socket_addr src, bs)]) outs cur
        (mkServerUdpStream (mkRecorded k (rs_rx (su_inner s) ++ [(bs, src)]) (rs_tx (su_inner s)))
          (addr_task s) (su_dns s) (su_wakes s))) as Hgo.
      { split_and!; [|done..]. cbn. rewrite omap_app. f_equal. cbn. unfold target_datagram. cbn.
        by destruct bs. }
      rewrite Hq1. by destruct src.
  - intros s [a buf] ins outs cur Hne _ Hcur (-> & Hout & Htask). cbn [fst snd] in *.
    assert (task_for (D:=D) a (addr_task s)) as Ht by (destruct Hcur as [->| ->]; [by rewrite Htask|done]).
    assert (passes_left s ≤ 3) as H3 by (unfold passes_left; destruct (addr_task s); lia).
    pose proof (server_write_loop_spec 3 buf a s Hres Hne H3 Ht) as Hw.
    pose proof (server_write_rx 3 buf a s) as Hr. unfold server_same_rx in Hr. unfold post in Hw |- *.
    change (poll_proxy_stream_write buf a s) with (server_write_loop 3 buf a s).
    destruct (server_write_loop 3 buf a s) as [r s']. cbn [fst snd] in *.
    destruct Hw as (_ & _ & ds & Hs & Hds). apply recorded_sent in Hs.
    destruct r as [n|e| |msg|]; try done.
    + destruct Hds as [[_ ?]|(d & Hd & -> & -> & Hn)]; [by left|right]. split; [done|].
      split_and!; [by rewrite Hr| |done]. rewrite Hs. apply Forall2_app; [done|]. by constructor.
    + destruct Hds as (-> & Htk & _). exists (Some (a, buf)). split; [by right|].
      rewrite app_nil_r in Hs. split_and!; [by rewrite Hr|by rewrite Hs|done].
  - intros s ins outs cur HE. by intros _.
  - intros s ins outs cur HE. by intros _.
Qed.

Lemma server_end_new (sock : K) (dns : D) : server_end [] [] None (ServerUdpStream_new (unused sock) dns).
Proof. split_and!; [done|constructor|done]. Qed.
End server.

(** ** [TrojanUdpStream] over a stream with a transcript *)
Section trojan.
Context {S : Type} `{AsyncReadOk S, !AsyncWrite S, !AsyncWriteOk S, !Transcript S}.
Implicit Types s : TrojanUdpStream S.

(** [src]: the bytes that came with the request; [in0] and [out0] what the stream had
    seen before. Whatever datagrams the incoming bytes turn out to be the frames of,
    those delivered come first among them. *)
Definition trojan_end (src in0 out0 : list Z) (ins outs : list Datagram) (cur : option Datagram) s : Prop :=
  let lg := br_inner (tu_inner s) in
  (∃ got used, seen_in lg = in0 ++ got ∧ src ++ got = used ++ buffered_bytes (tu_inner s) ∧
     ∀ ps fut, Forall framable ps → frames ps = used ++ fut →
       ∃ ps1 ps2, ps = ps1 ++ ps2 ∧ ins = map received_as ps1 ∧ awaits s ps2 fut) ∧
  send_wf s ∧
  match cur with
  | None => idle s ∧ seen_out lg = out0 ++ concat (map raw_frame outs)
  | Some p => ¬ idle s ∧ tu_data_len s = length p.2 ∧ ∃ part,
      raw_frame p = part ++ UdpRelay.queue (tu_send_buffer s) ∧
      seen_out lg = out0 ++ concat (map raw_frame outs) ++ part
  end.

Context (src in0 out0 : list Z).

Lemma trojan_end_read fuel s b ins outs cur :
  UdpRelay.wf b → UdpRelay.queue b = [] → trojan_end src in0 out0 ins outs cur s →
  post (poll_proxy_stream_read fuel) (s, b) (λ r p, match r with
    | Ok MNone | Pending => trojan_end src in0 out0 ins outs cur p.1
    | Ok a => trojan_end src in0 out0 (ins ++ [(a, UdpRelay.queue p.2)]) outs cur p.1
    | _ => True
    end).
Proof.
  intros Hb Hq ((got & used & Hin & Hsrc & Hps) & Hwf & Hcur).
  pose proof (trojan_udp_read_spec fuel s b) as Hr. pose proof (read_keeps_send fuel (s, b)) as Hk.
  unfold post in Hr |- *. change (poll_proxy_stream_read fuel (s, b)) with (trojan_udp_read fuel (s, b)).
  destruct (trojan_udp_read fuel (s, b)) as [r [s' b']]. cbn [fst snd] in *.
  destruct Hr as (bs & Htr & Hout). apply read_trace_io, buffered_io_trace in Htr as (bs' & Htr & Hbs).
  apply seen_trace in Htr as [Hi Ho]. rewrite app_nil_r in Ho.
  assert (∀ ins', (∀ ps fut, Forall framable ps → frames ps = used ++ bs ++ fut →
      ∃ ps1 ps2, ps = ps1 ++ ps2 ∧ ins' = map received_as ps1 ∧ awaits s' ps2 fut) →
    trojan_end src in0 out0 ins' outs cur s') as Hto.
  { intros ins' Hps'. unfold send_half in Hk. injection Hk as Hk1 Hk2. split; [|split].
    - exists (got ++ bs'), (used ++ bs). split_and!; [by rewrite Hi, Hin, app_assoc| |].
      + rewrite app_assoc, Hsrc, <- !app_assoc. by rewrite Hbs.
      + intros ps fut Hfr Hf. apply Hps'; [done|]. by rewrite app_assoc.
    - unfold send_wf, idle in *. by rewrite Hk1.
    - unfold idle in *. by rewrite Hk1, Hk2, Ho. }
  assert (∀ ps fut, Forall framable ps → frames ps = used ++ bs ++ fut → ∃ ps1 ps2, ps = ps1 ++ ps2 ∧
    ins = map received_as ps1 ∧ read_outcome ps2 fut b r (s', b')) as Hall.
  { intros ps fut Hfr Hf. destruct (Hps ps (bs ++ fut) Hfr Hf) as (ps1 & ps2 & -> & -> & Haw).
    exists ps1, ps2. split_and!; [done..|]. apply Hout; [|done]. by apply Forall_app in Hfr as [_ ?]. }
  assert (∀ a, r = Ok a → a ≠ MNone → trojan_end src in0 out0 (ins ++ [(a, UdpRelay.queue b')]) outs cur s') as Hok.
  { intros a -> Hne. apply Hto. intros ps fut Hfr Hf.
    destruct (Hall ps fut Hfr Hf) as (ps1 & ps2 & -> & -> & Hr).
    assert (∃ a0 pl ps', a = Mix.as_decoded a0 ∧ ps2 = (a0, pl) :: ps' ∧ b' = UdpRelay.udp_extend pl b ∧
      awaits s' ps' fut) as (a0 & pl & ps' & -> & -> & -> & Haw) by by destruct a.
    destruct (UdpRelay.extend_queue pl b Hb) as [_ ->]. rewrite Hq. exists (ps1 ++ [(a0, pl)]), ps'.
    rewrite <- app_assoc, map_app. done. }
  assert (r = Ok MNone ∨ r = Pending → trojan_end src in0 out0 ins outs cur s') as Hkeep.
  { intros Hr. apply Hto. intros ps fut Hfr Hf. destruct (Hall ps fut Hfr Hf) as (ps1 & ps2 & -> & -> & Hro).
    exists ps1, ps2. split_and!; [done..|]. destruct Hr as [-> | ->]; by destruct Hro as (_ & ? & _). }
  destruct r as [a|e| |msg|]; try done; [destruct a; try (by apply Hok)|]; auto.
Qed.

Lemma trojan_end_write s (p : Datagram) ins outs cur :
  p.1 ≠ MNone → full p → cur = None ∨ cur = Some p → trojan_end src in0 out0 ins outs cur s →
  post (poll_proxy_stream_write p.2 p.1) s (λ r s', match r with
    | Ok n => n = 0 ∨ (n = length p.2 ∧ trojan_end src in0 out0 ins (outs ++ [p]) None s')
    | Pending => ∃ cur', (cur' = None ∨ cur' = Some p) ∧ trojan_end src in0 out0 ins outs cur' s'
    | _ => True
    end).
Proof.
  destruct p as [a buf]. cbn [fst snd]. intros Hne _ Hcur (Hrd & Hwf & Hsend).
  pose proof (trojan_udp_write_spec s a buf Hwf Hne) as Hw. pose proof (write_keeps_recv buf a s) as Hk.
  unfold post in Hw |- *. change (poll_proxy_stream_write buf a s) with (trojan_udp_write buf a s).
  destruct (trojan_udp_write buf a s) as [r s']. cbn [fst snd] in *.
  destruct Hw as (Hwf' & wr & Htr & Hr). apply write_trace_io, seen_trace in Htr as [Hi Ho].
  rewrite app_nil_r in Hi.
  assert (due_len s buf = length buf ∧ ∃ part, raw_frame (a, buf) = part ++ due s (a, buf) ∧
      seen_out (br_inner (tu_inner s)) = out0 ++ concat (map raw_frame outs) ++ part) as (Hlen & part & Hdue & Hlog).
  { unfold due, due_len. unfold idle in Hsend. destruct Hcur as [->| ->].
    - destruct Hsend as [-> ->]. split; [done|]. exists []. by rewrite app_nil_r.
    - destruct Hsend as (Hni & Hl & Hq). by destruct (UdpRelay.is_empty _); [destruct Hni|]. }
  assert (∀ outs' cur', match cur' with
    | None => idle s' ∧ seen_out (br_inner (tu_inner s')) = out0 ++ concat (map raw_frame outs')
    | Some p => ¬ idle s' ∧ tu_data_len s' = length p.2 ∧ ∃ part,
        raw_frame p = part ++ UdpRelay.queue (tu_send_buffer s') ∧
        seen_out (br_inner (tu_inner s')) = out0 ++ concat (map raw_frame outs') ++ part
    end → trojan_end src in0 out0 ins outs' cur' s') as Hto.
  { intros outs' cur' Hc. split; [|by split]. destruct Hrd as (got & used & Hg & Hs & Hps).
    exists got, used. pose proof Hk as [= Hbr _ _ _ _]. unfold buffered_bytes. rewrite Hbr, Hi.
    split_and!; [done..|]. intros ps fut Hfr Hf. destruct (Hps ps fut Hfr Hf) as (ps1 & ps2 & ? & ? & Haw).
    exists ps1, ps2. split_and!; [done..|]. by eapply awaits_recv_half. }
  destruct r as [n|e| |msg|]; try done.
  - destruct Hr as [(-> & Hid & ->)|[? _]]; [right|by left]. split; [done|]. apply Hto. split; [done|].
    rewrite Ho, Hlog, map_app, concat_app, <- !app_assoc. cbn [map concat]. by rewrite <- Hdue, app_nil_r.
  - destruct Hr as (Hr & Hni & Hl). exists (Some (a, buf)). split; [by right|]. apply Hto.
    split_and!; [done|by rewrite Hl|]. exists (part ++ wr). split; [by rewrite <- app_assoc, <- Hr|].
    by rewrite Ho, Hlog, <- !app_assoc.
Qed.

Lemma trojan_end_idle (m : ST (BufferedRecv S) io_error unit) s ins outs cur :
  (∀ b, buffered_request (m b).2 = buffered_request b ∧ seen_in (br_inner (m b).2) = seen_in (br_inner b) ∧
     seen_out (br_inner (m b).2) = seen_out (br_inner b)) →
  trojan_end src in0 out0 ins outs cur s → trojan_end src in0 out0 ins outs cur (on_inner m s).2.
Proof.
  intros Hm Hs. unfold on_inner. rewrite st_zoom_run. cbn [snd]. destruct (Hm (tu_inner s)) as (Hb & Hi & Ho).
  unfold trojan_end in *. cbn [tu_inner tu_set_inner tu_send_buffer tu_data_len]. unfold buffered_bytes in *.
  by rewrite Hb, Hi, Ho.
Qed.

Lemma trojan_datagram_end : datagram_end (trojan_end src in0 out0).
Proof.
  split; [apply trojan_end_read|apply trojan_end_write| |];
    intros s ins outs cur Hs; unfold post; intros _; apply trojan_end_idle; [|done| |done]; intros b;
    cbn [poll_flush poll_shutdown BufferedRecv_AsyncWrite]; rewrite !st_zoom_run; cbn [snd br_set_inner buffered_request br_inner].
  - destruct (seen_trace _ _ _ _ (io_trace_flush1 (br_inner b))) as [-> ->]. by rewrite !app_nil_r.
  - destruct (seen_trace _ _ _ _ (io_trace_shutdown1 (br_inner b))) as [-> ->]. by rewrite !app_nil_r.
Qed.

Lemma trojan_end_new (w : S) held :
  buffered_bytes (BufferedRecv_new w held) = src → seen_in w = in0 → seen_out w = out0 →
  trojan_end src in0 out0 [] [] None (TrojanUdpStream_new w held).
Proof.
  intros Hsrc Hin Hout. split; [|split].
  - exists [], []. cbn. split_and!; [by rewrite app_nil_r|by rewrite app_nil_r|].
    intros ps fut _ <-. exists [], ps. split_and!; [done..|]. apply awaits_new.
  - split; [apply UdpRelay.wf_new|by intros []].
  - split; [done|]. cbn. by rewrite app_nil_r.
Qed.
End trojan.
