(* ===== verification/UdpTunnel.v ===== *)
(** The whole path of a datagram: the client's relay between the SOCKS5 application and
    the connection to the server, and the server's relay between that connection and
    the targets. *)
From stdpp Require Import relations.
From S2P Require Import Prelude Vec MixAddr Io Copy UdpTraits UdpCopy TrojanUdp Acceptor.
From S2P Require Import UdpSockets Timeout Adapter UdpPackets LiteTls Connector Inbound Client Tunnel UdpEnds.

(** ** Datagrams the tunnel carries *)

(** What a socket hands over: bytes, as many as a datagram can have, from an address. *)
Definition received_ok (d : list Z * SocketAddr) : Prop :=
  Forall is_u8 d.1 ∧ (Z.of_nat (length d.1) < 65536)%Z ∧ wf_socket_addr d.2.

Lemma decoded_encodable bs a n :
  Forall is_u8 bs → Mix.from_encoded_bytes bs = Ok (a, n) → Mix.encodable a.
Proof.
  intros Hbs Hd. pose proof (Mix.from_encoded_bytes_total bs) as Ht. rewrite Hd in Ht.
  destruct Ht as (_ & _ & Hne & _). destruct a as [ip p|ip p|h p|]; try done. cbn.
  destruct bs as [|b0 [|b1 t]]; [done| |].
  { unfold Mix.from_encoded_bytes in Hd. by rewrite expect_buf_len_Err in Hd by (cbn; lia). }
  rewrite !Forall_cons_iff in Hbs. destruct Hbs as (_ & Hb1 & _). unfold is_u8 in Hb1.
  destruct (decide (b0 = 3)%Z) as [->|H3].
  - apply Mix.decoded_host_length in Hd. lia.
  - exfalso. unfold Mix.from_encoded_bytes in Hd. rewrite (expect_buf_len_Ok _ 2) in Hd by (cbn; lia).
    cbn -[expect_buf_len slice Mix.read_v6u16 u16_from_be Z.eqb] in Hd.
    destruct (b0 =? 1)%Z eqn:E1; [|destruct (b0 =? 3)%Z eqn:E3; [lia|destruct (b0 =? 4)%Z; [|done]]].
    + apply outcome_bind_Ok in Hd as ([] & _ & Hd). st_inv. done.
    + apply outcome_bind_Ok in Hd as ([] & _ & Hd). st_inv. done.
Qed.

Lemma request_framable rx : Forall received_ok rx → Forall framable (omap request (map fst rx)).
Proof.
  induction 1 as [|[bs src] rx (Hbs & Hlen & _) _ IH]; [done|]. cbn [map fst] in *.
  cbn [omap list_omap]. destruct (request bs) as [[a pl]|] eqn:Er; [|done]. constructor; [|done].
  unfold request in Er. case_decide; [done|].
  destruct (Mix.from_encoded_bytes (drop 3 bs)) as [[a' n]| | | |] eqn:Ed; try done. injection Er as <- <-.
  pose proof (Mix.from_encoded_bytes_total (drop 3 bs)) as Ht. rewrite Ed in Ht.
  assert (Forall is_u8 (drop 3 bs)) as Hu by by apply Forall_drop.
  destruct Ht as (_ & _ & _ & Hwf). split; [by apply Hwf|]. split; [|by eapply decoded_encodable].
  cbn [snd]. rewrite !length_drop. lia.
Qed.

Lemma target_framable rx : Forall received_ok rx → Forall framable (omap target_datagram rx).
Proof.
  induction 1 as [|[bs src] rx (Hbs & Hlen & Hwf) _ IH]; [done|].
  cbn [omap list_omap]. unfold target_datagram at 1. cbn [fst snd] in *. case_decide; [done|].
  constructor; [|done]. by destruct src.
Qed.

(** ** One direction of the connection *)

(** Nothing that arrived waits to be cut into datagrams. *)
Definition drained {S} (s : TrojanUdpStream S) : Prop :=
  tu_want_to_extract s = false ∧ buffered_bytes (tu_inner s) = [].

Lemma frames_app ps qs : frames (ps ++ qs) = frames ps ++ frames qs.
Proof. unfold frames. by rewrite map_app, concat_app. Qed.

Lemma raw_frames ps : Forall framable ps → concat (map raw_frame ps) = frames ps.
Proof. induction 1 as [|p ps Hp _ IH]; [done|]. cbn. by rewrite IH, raw_frame_frame. Qed.

Lemma map_received_full ps : filter full (map received_as ps) = map received_as (filter full ps).
Proof.
  induction ps as [|[a p] ps IH]; [done|]. cbn [map received_as fst snd].
  destruct (decide (p = [])) as [->|Hp]; [by rewrite !filter_cons_False by (intros Hf; by apply Hf)|].
  rewrite !filter_cons_True by done. by rewrite IH.
Qed.

(** The datagrams a reader has still to cut out, when all the stream holds for it is
    the rest of the frame being sent. *)
Lemma incomplete_last (ps ps' qs : list Datagram) p rest :
  ps ++ [p] = ps' ++ qs → length rest ≤ length (frame p) → incomplete qs rest → length qs ≤ 1.
Proof.
  intros Hps Hrest Hinc. destruct qs as [|x [|y l]]; [cbn; lia..|]. exfalso. cbn [incomplete] in Hinc.
  destruct (exists_last (l:=y :: l)) as (l' & z & El); [done|]. rewrite El in Hinc, Hps.
  rewrite app_comm_cons, app_assoc in Hps. apply app_inj_tail in Hps as [_ <-].
  rewrite frames_app, length_app in Hinc. unfold frames in Hinc at 2. cbn [map concat] in Hinc.
  rewrite app_nil_r in Hinc. lia.
Qed.

(** What the relay of a sending end [s] has taken in and sent on its way: the datagrams
    [on] whose frames are on the connection or, for the last, still in the send buffer. *)
Lemma sending_frames {S} `{Transcript S} src in1 out1 ins outs cur (s : TrojanUdpStream S) ds st :
  trojan_end src in1 out1 ins outs cur s → passes ds outs cur st → Forall framable (filter full ds) →
  ∃ on off wire rest, filter full ds = on ++ off ∧ seen_out (br_inner (tu_inner s)) = out1 ++ wire ∧
    wire ++ rest = frames on ∧
    (rest = [] ∧ length off ≤ 1 ∨ ∃ ps p, off = [] ∧ on = ps ++ [p] ∧ length rest ≤ length (frame p)).
Proof.
  intros (_ & _ & Hsend) Hst Hfr. destruct cur as [p|].
  - destruct Hsend as (_ & _ & part & Hp & Hlog).
    assert (filter full ds = outs ++ [p]) as Hf.
    { destruct st; [|by destruct Hst..]. destruct Hst as (_ & -> & [?|(p' & -> & ?)]); congruence. }
    rewrite Hf in Hfr |- *. exists (outs ++ [p]), [], (concat (map raw_frame outs) ++ part), (UdpRelay.queue (tu_send_buffer s)).
    pose proof Hfr as [Ho Hp'%Forall_inv]%Forall_app. rewrite raw_frame_frame in Hp by done.
    split_and!; [by rewrite app_nil_r|done| |].
    + rewrite frames_app, (raw_frames _ Ho), <- app_assoc, <- Hp. unfold frames at 3. cbn. by rewrite app_nil_r.
    + right. exists outs, p. rewrite Hp, length_app. split_and!; [done..|lia].
  - destruct Hsend as [_ Hlog]. destruct (passes_length _ _ _ _ Hst) as [[off Hf] Hlen].
    exists outs, off, (concat (map raw_frame outs)), []. rewrite Hf in Hlen, Hfr. rewrite length_app in Hlen.
    apply Forall_app in Hfr as [Hfr _]. split_and!; [done..|by rewrite app_nil_r, raw_frames|]. left. split; [done|lia].
Qed.

(** A sending and a receiving end joined by a connection that holds [link], each with
    its relay: what one relay took in, against what the other gave out. *)
Lemma link_exact {S1 S2} `{Transcript S1, Transcript S2} src1 in1 out1 ins1 outs1 cur1 (s : TrojanUdpStream S1)
    src2 in2 out2 ins2 o2 c2 (t : TrojanUdpStream S2) link ds st1 outs2 cur2 st2 :
  trojan_end src1 in1 out1 ins1 outs1 cur1 s → trojan_end src2 in2 out2 ins2 o2 c2 t →
  passes ds outs1 cur1 st1 → passes ins2 outs2 cur2 st2 → Forall framable ds →
  (∀ got wire, seen_in (br_inner (tu_inner t)) = in2 ++ got → seen_out (br_inner (tu_inner s)) = out1 ++ wire →
     wire = src2 ++ got ++ link) →
  ∃ sent mid, filter full ds = sent ++ mid ∧ outs2 = map received_as sent ∧
    (link = [] → drained t → length mid ≤ 2).
Proof.
  intros Hs ((got & used & Hin & Hsrc & Hps) & _) Hst1 Hst2 Hfr Hwire.
  pose proof (Forall_full _ _ Hfr) as Hfr'.
  destruct (sending_frames _ _ _ _ _ _ _ _ _ Hs Hst1 Hfr') as (on & off & wire & rest & Hds & Hlog & Hon & Hrest).
  specialize (Hwire got wire Hin Hlog).
  assert (Forall framable on) as Hfron by (rewrite Hds in Hfr'; by apply Forall_app in Hfr' as [? _]).
  pose proof (filter_full_app _ _ _ Hds) as Hfull.
  destruct (Hps on (buffered_bytes (tu_inner t) ++ link ++ rest)) as (ps1 & ps2 & -> & -> & Haw); [done| |].
  { rewrite <- Hon, Hwire, <- !app_assoc. rewrite (app_assoc src2), Hsrc, <- !app_assoc. done. }
  destruct (passes_length _ _ _ _ Hst2) as [[d Hpre] Hlen]. rewrite map_received_full in Hpre, Hlen.
  rewrite (filter_full_app _ _ _ Hfull) in Hpre, Hlen. rewrite Hpre in Hlen. rewrite length_app in Hlen.
  apply map_eq_app in Hpre as (sent & m & -> & <- & <-). rewrite !length_map in Hlen.
  exists sent, (m ++ ps2 ++ off). rewrite Hds, <- !app_assoc. split_and!; [done..|]. intros -> [Hwant Hbuf].
  destruct Haw as (_ & Hinc & _). specialize (Hinc Hwant). rewrite Hbuf in Hinc. cbn [app] in Hinc.
  rewrite !length_app. destruct Hrest as [[-> Hoff]|(ps & p & -> & Hps2 & Hrest)].
  - destruct ps2 as [|q ps2]; [cbn; lia|]. cbn in Hinc. lia.
  - pose proof (incomplete_last _ _ _ _ _ (eq_sym Hps2) Hrest Hinc). cbn. lia.
Qed.

(** ** The relays of the two ends *)
Section ends.
Context {T X I O TI K D DT : Type} `{Sleep T} `{Signal X}.

Lemma serve_run_udp `{AsyncRead I, AsyncWrite I, AsyncRead O, AsyncWrite O, AsyncRead TI, AsyncWrite TI}
    `{UdpSocket K, Dns D DT} oc fuel inner_fuel r0 (v : Serving T X I O TI K D DT) :
  rtc (serve_pending oc fuel inner_fuel) (ServeUdp r0) v →
  ∃ r, v = ServeUdp r ∧ rtc (select_pending oc (udp_duplex inner_fuel fuel)) r0 r.
Proof. relay_embeds. Qed.
End ends.

Section client_end.
Context {T X U SS RS S TS K XR E : Type} `{Sleep T} `{Signal X}.
Context `{AsyncRead U, AsyncWrite U, AsyncWrite SS, AsyncRead RS, AsyncRead S, AsyncWrite S}.
Context `{AsyncRead TS, AsyncWrite TS, UdpSocket K, Signal XR} (oc : bool) (fuel inner_fuel : nat).
Implicit Types c : Relaying T X U SS RS S TS K XR E.

Lemma client_run_udp r0 c :
  rtc (client_pending oc fuel inner_fuel) (RelUdp r0) c →
  ∃ r, c = RelUdp r ∧ rtc (select_pending oc (udp_duplex inner_fuel fuel)) r0 r.
Proof. relay_embeds. Qed.

Lemma client_run_udp_quic r0 c :
  rtc (client_pending oc fuel inner_fuel) (RelUdpQuic r0) c →
  ∃ r, c = RelUdpQuic r ∧ rtc (select_pending oc (udp_duplex inner_fuel fuel)) r0 r.
Proof. relay_embeds. Qed.
End client_end.

(** The two ends of a relay. *)
Definition inbound_of {T X I O} (r : Relay T X I O UdpCopyBuf) : I := bi_i (rl_bidi r).
Definition outbound_of {T X I O} (r : Relay T X I O UdpCopyBuf) : O := under (bi_o (rl_bidi r)).
(** The stream under a framing end. *)
Definition stream_of {S} (s : TrojanUdpStream S) : S := br_inner (tu_inner s).

(** What the client's relay has of its association: the end of the user, what the
    connection delivered and accepted, and whether its reader has cut out all it can. *)
Section client_view.
Context {T X U SS RS W TS K XR E : Type} `{AsyncWrite SS, AsyncRead RS, AsyncRead W, AsyncWrite W}.
Implicit Types c : Client.Relaying T X U (Logged SS) (Logged RS) (Logged W) TS K XR E.

Definition client_user c : option (Socks5UdpStream K XR) :=
  match c with RelUdp r => Some (inbound_of r) | RelUdpQuic r => Some (inbound_of r) | _ => None end.
Definition client_delivered c : list Z :=
  match c with
  | RelUdp r => seen_in (stream_of (outbound_of r))
  | RelUdpQuic r => seen_in (stream_of (outbound_of r))
  | _ => []
  end.
Definition client_accepted c : list Z :=
  match c with
  | RelUdp r => seen_out (stream_of (outbound_of r))
  | RelUdpQuic r => seen_out (stream_of (outbound_of r))
  | _ => []
  end.
Definition client_drained c : Prop :=
  match c with RelUdp r => drained (outbound_of r) | RelUdpQuic r => drained (outbound_of r) | _ => False end.
End client_view.

(** ** The server's side *)
Section server.
Context {T X I O TI K D DT : Type} `{Sleep T} `{Signal X}.
Context `{AsyncReadOk I, !AsyncWrite I, !AsyncWriteOk I, !LeaveTls (Logged I) TI}.
Context `{AsyncRead O, !AsyncWrite O, AsyncRead TI, AsyncWrite TI, UdpSocketOk K, Dns D DT}.
Context (dns : list Z → outcome server_error IpAddr) (connect : SocketAddr → outcome io_error O).
Context (set_nodelay : O → outcome io_error unit) (udp_bind : outcome io_error K).
Context (clock : nat → Z) (dns_tx : D) (reads : nat) (sched : nat → Direction) (hs_fuel : nat).

(** The socket towards the targets, recorded. *)
Definition recorded_bind : outcome io_error (Recorded K) := k ← udp_bind; mret (unused k).

(** A connection the server relays datagrams for, and what it knows when the connection
    began with the packet of such a request. *)
Lemma handle_outbound_udp fuel hash port conn_id shutdown (i : I) v0 st :
  handle_outbound (T:=T) (X:=X) (TI:=TI) (DT:=DT) dns connect set_nodelay recorded_bind clock dns_tx
    reads sched hs_fuel fuel hash port conn_id shutdown (fresh i) = (Ok (ServeUdp v0), st) →
  let i1 := ac_inbound st in
  lg_out i1 = [] ∧ ∃ held k, udp_bind = Ok k ∧
    v0 = relay_start (set_timeout TCP_MAX_IDLE_TIMEOUT Adapter_new) clock (UdpCopyBuf_new (Some conn_id))
      (UdpCopyBuf_new None) (TrojanUdpStream_new i1 held) (ServerUdpStream_new (unused k) dns_tx) shutdown ∧
    ∀ a p payload rest, length hash = HASH_LEN → carried_addr a →
      auth_packet (E:=io_error) UDP_REQUEST_CMD a hash = Ok p → lg_in i1 ++ rest = p ++ payload →
      buffered_bytes (BufferedRecv_new i1 held) ++ rest = payload.
Proof.
  unfold handle_outbound. destruct (accept fuel (accept_new hash port (fresh i))) as [req s] eqn:Eacc.
  intros [= Hv <-].
  destruct (post_run _ _ _ _ _ (accept_spec fuel _ (waiting_new hash port (fresh i))) Eacc) as (ins & Htr & _ & He).
  apply read_trace_io, fresh_trace in Htr as [Hi Hout]. split; [done|].
  destruct req as [req|e| | |]; try done. destruct He as (cmd & host & c & _ & _ & Hreq & _).
  set (held := leftover c _) in *. clearbody held. cbn [map_err or_elapsed mbind outcome_bind] in Hv. rewrite Hreq in Hv.
  unfold request_for in Hv, Hreq. case_decide as Hcmd.
  2: { exfalso. case_decide; [|case_decide; [|done]];
    (destruct (or_elapsed (outbound_connect _ _ _ _)) as [o| | | |]; [|done..]); cbn in Hv; [done|].
    destruct (map_err SvTls _) as [[]| | | |]; done. }
  unfold recorded_bind in Hv. destruct udp_bind as [k|e| | |] eqn:Ek; try done. exists held, k. split; [done|].
  split; [by injection Hv as <-|]. intros a p payload rest Hh Ha Hp Hrest.
  destruct (accept_packet (fresh i) hash port UDP_REQUEST_CMD a p payload fuel _ s Hh
    (or_intror (or_introl eq_refl)) Ha Hp Eacc) as (ins' & Htr' & Hdec).
  apply read_trace_io, fresh_trace in Htr' as [<- _].
  destruct (Hdec rest Hrest) as (held' & _ & Hreq' & Hheld). unfold request_for in Hreq'.
  rewrite decide_True in Hreq' by done. rewrite Hreq in Hreq'. injection Hreq' as <-. exact Hheld.
Qed.
End server.

(** ** Both sides *)

(** Datagrams through the tunnel, for the ends of the user and of the targets, the
    server's reader, whether the client's has cut out all it can, and the bytes [up]
    and [down] the connection holds. *)
Definition datagrams_exact {Kc XR S K D DT} `{Dns D DT} (user : Socks5UdpStream (Recorded Kc) XR) (cut : Prop)
    (server : TrojanUdpStream S) (target : ServerUdpStream (Recorded K) D DT) (up down : list Z) : Prop :=
  let requests := rs_rx (server_udp_socket user) in let answers := rs_rx (su_inner target) in
  (∃ sent mid, filter full (omap request (map fst requests)) = sent ++ mid ∧
     Forall2 (sent_to (D:=D) (T:=DT)) (map received_as sent) (rs_tx (su_inner target)) ∧
     (up = [] → drained server → length mid ≤ 2)) ∧
  (∃ sent mid, filter full (omap target_datagram answers) = sent ++ mid ∧
     map (uncurry socks5_frame) (map received_as sent) =
       map snd (rs_tx (server_udp_socket user)) ++ UdpSockets.waiting user ∧
     (down = [] → cut → length mid ≤ 2)) ∧
  Forall (λ src, client_udp_addr user = Some src) (map snd requests ++ map fst (rs_tx (server_udp_socket user))).

Lemma relays_exact {Tc Xc Kc XR S1 T X S2 K D DT} `{UdpSocketOk Kc, Signal XR, Transcript S1, Transcript S2, Dns D DT}
    (rlc : Relay Tc Xc (Socks5UdpStream (Recorded Kc) XR) (TrojanUdpStream S1) UdpCopyBuf)
    (rls : Relay T X (TrojanUdpStream S2) (ServerUdpStream (Recorded K) D DT) UdpCopyBuf) p src in1 up down :
  relay_carries socks5_end (trojan_end [] [] p) rlc → relay_carries (trojan_end src in1 []) (server_end (D:=D) (T:=DT)) rls →
  let client := outbound_of rlc in let server := inbound_of rls in
  (∀ wire got, seen_out (stream_of client) = p ++ wire → seen_in (stream_of server) = in1 ++ got → src ++ got ++ up = wire) →
  seen_out (stream_of server) = seen_in (stream_of client) ++ down →
  Forall received_ok (rs_rx (server_udp_socket (inbound_of rlc))) → Forall received_ok (rs_rx (su_inner (outbound_of rls))) →
  datagrams_exact (inbound_of rlc) (drained client) server (outbound_of rls) up down.
Proof.
  intros (iin & iout & icur & oin & oout & ocur & Hus & Hcl%behind_under & Hcu & Hcd)
    (jin & jout & jcur & pin & pout & pcur & Hsv & Htg%behind_under & Hsu & Hsd) client server Hup Hdown Hreq Hans.
  destruct Hus as (Hiin & Hpin1 & _ & Hframes & Hpin2). destruct Htg as (Hpin & Hsent & _).
  split; [|split].
  - destruct (link_exact _ _ _ _ _ _ _ _ _ _ _ _ _ _ up _ _ _ _ _ Hcl Hsv Hcu Hsu) as (sent & mid & Hds & -> & Hmid).
    + rewrite Hiin. by apply request_framable.
    + intros got wire Hgot Hwire. symmetry. by apply (Hup wire got).
    + rewrite Hiin in Hds. by exists sent, mid.
  - destruct (link_exact _ _ _ _ _ _ _ _ _ _ _ _ _ _ down _ _ _ _ _ Hsv Hcl Hsd Hcd) as (sent & mid & Hds & -> & Hmid).
    + rewrite Hpin. by apply target_framable.
    + intros got wire Hgot Hwire. cbn [app] in *. by rewrite <- Hwire, <- Hgot.
    + rewrite Hpin in Hds. by exists sent, mid.
  - apply Forall_app. split; by apply Forall_map.
Qed.

(** * Properties *)
Section tunnel.
(** The client: the socket of the SOCKS5 association, the connection to the server. *)
Context {Tc Xc U SS RS W TS Kc XR E : Type} `{Sleep Tc} `{Signal Xc}.
Context `{AsyncReadOk W, !AsyncWrite W, !AsyncWriteOk W, AsyncRead U, AsyncWrite U}.
Context `{AsyncWrite SS, !AsyncWriteOk SS, AsyncReadOk RS, AsyncRead TS, AsyncWrite TS, UdpSocketOk Kc, Signal XR}.
Abbreviation Conn := (ClientServerConnection (Logged SS) (Logged RS) (Logged W)).
Context (into_inner : Logged W → TS) (clock_c : nat → Z) (reads_c : nat) (sched_c : nat → Direction) (hs_c : nat).
(** The server: the accepted stream, the socket towards the targets, the resolver. *)
Context {T X I O TI K D DT : Type} `{Sleep T} `{Signal X}.
Context `{AsyncReadOk I, !AsyncWrite I, !AsyncWriteOk I, !LeaveTls (Logged I) TI}.
Context `{AsyncRead O, !AsyncWrite O, AsyncRead TI, AsyncWrite TI, UdpSocketOk K, Dns D DT}.
Context (dns : list Z → outcome server_error IpAddr) (connect : SocketAddr → outcome io_error O).
Context (set_nodelay : O → outcome io_error unit) (udp_bind : outcome io_error K).
Context (clock : nat → Z) (dns_tx : D) (reads : nat) (sched : nat → Direction) (hs_fuel : nat).

(** A UDP association as the client relays it. *)
Lemma client_forward_udp (sock : Kc) (sig : XR) a (conn : Conn) hash p conn_id shutdown c0 :
  auth_packet (E:=io_error) UDP_REQUEST_CMD a hash = Ok p → conn_carried conn [] [] →
  client_forward (T:=Tc) (X:=Xc) (U:=U) (E:=E) into_inner clock_c reads_c sched_c hs_c
    (Ok (UDP (Socks5UdpStream_new (unused sock) sig), a)) (Ok conn) hash conn_id shutdown = Ok c0 →
  ∃ conn1, conn_carried conn1 [] p ∧
    client_relay_udp clock_c (Socks5UdpStream_new (unused sock) sig) conn1 shutdown conn_id = Ok c0.
Proof.
  intros Hp Hc. unfold client_forward. cbn [map_err mbind outcome_bind get_cmd].
  destruct (trojan_auth UDP_REQUEST_CMD a conn hash) as [r conn1] eqn:Ht.
  destruct r as [[]|e| | |]; try done. destruct (trojan_auth_sent _ _ _ _ _ _ Hc Hp Ht) as [Hc1 _].
  cbn [map_err mbind outcome_bind]. intros Hr. by exists conn1.
Qed.

(** A relay of the client that ran to [rl] and was polled once more. *)
Lemma client_relay_carries {S} `{AsyncReadOk S, !AsyncWrite S, !AsyncWriteOk S, !Transcript S} (sock : Kc) (sig : XR)
    (w1 : S) p conn_id (sh : Xc) oc fuel ifc order rl res rl' :
  seen_in w1 = [] → seen_out w1 = p →
  rtc (select_pending (T:=Tc) oc (udp_duplex ifc fuel))
    (adapt_udp_until clock_c conn_id (Socks5UdpStream_new (unused sock) sig) (TrojanUdpStream_new w1 None) sh) rl →
  relay_udp oc ifc fuel order rl = (res, rl') → tracked false res →
  relay_carries socks5_end (trojan_end [] [] p) rl'.
Proof.
  intros Hw1 Hw2 Hrl Er Ht.
  eapply (relay_udp_packets _ socks5_datagram_end _ (trojan_datagram_end [] [] p)); [..|exact Hrl|exact Er|exact Ht].
  - apply socks5_end_new.
  - by apply trojan_end_new.
Qed.

(** The same of the server's relay. *)
Lemma server_carries (i1 : Logged I) held (k : K) conn_id sh oc fuel ifc order v rv v' :
  resolver_ok (D:=D) (T:=DT) → lg_out i1 = [] →
  rtc (serve_pending (T:=T) (X:=X) (O:=O) (TI:=TI) (DT:=DT) oc fuel ifc)
    (ServeUdp (relay_start (set_timeout TCP_MAX_IDLE_TIMEOUT Adapter_new) clock (UdpCopyBuf_new (Some conn_id))
      (UdpCopyBuf_new None) (TrojanUdpStream_new i1 held) (ServerUdpStream_new (unused k) dns_tx) sh)) v →
  serve_poll oc fuel ifc order v = (rv, v') → tracked false rv →
  ∃ rl, v' = ServeUdp rl ∧
    relay_carries (trojan_end (buffered_bytes (BufferedRecv_new i1 held)) (lg_in i1) [])
      (server_end (D:=D) (T:=DT)) rl.
Proof.
  intros Hres Hi1 Hrun Hpoll Ht. destruct (serve_run_udp oc fuel ifc _ v Hrun) as (rl & -> & Hrl).
  cbn [serve_poll] in Hpoll. destruct (relay_udp oc ifc fuel order rl) as [res rl'] eqn:Er.
  injection Hpoll as <- <-. exists rl'. split; [done|].
  eapply (relay_udp_packets _ (trojan_datagram_end _ _ _) _ (server_datagram_end Hres)); [..|exact Hrl|exact Er|by destruct res].
  - by apply trojan_end_new.
  - apply server_end_new.
Qed.

End tunnel.

(** ** An example: the user asks a name server, which answers *)
#[local] Instance ex_leave : LeaveTls (Logged Script) Script := λ l, Ok (lg_io l).
Definition ex_question : Datagram := (V4 [8; 8; 8; 8]%Z 53%Z, [1; 2; 3]%Z).
Definition ex_answer : Datagram := (V4 [8; 8; 8; 8]%Z 53%Z, [9; 9]%Z).
Definition ex_associate : list Z := packet UDP_REQUEST_CMD ex_target ex_hash.
Definition ex_up : list Z := ex_associate ++ frame ex_question.
Definition ex_user_socket : SockScript := mkSockScript [Gives (example_request, example_client)] [] [].
Definition ex_target_udp : SockScript := mkSockScript [Gives ([9; 9]%Z, SocketV4 [8; 8; 8; 8]%Z 53%Z)] [] [].
Definition ex_udp_client_tls : Script := script_of [frame ex_answer].
Definition ex_udp_server_tls : Script := script_of [take 60 ex_up; drop 60 ex_up].

Definition ex_udp_conn : ExConnection := ConnQuic (fresh (script_of []), fresh ex_udp_client_tls).

Abbreviation ExRel := (Client.Relaying Z bool Script (Logged Script) (Logged Script) (Logged Script) Script (Recorded SockScript) bool unit).
Definition ex_udp_forwarded : outcome client_error ExRel :=
  client_forward lg_io ticking 5 (λ _, Inbound) 5
    (Ok (UDP (Socks5UdpStream_new (unused ex_user_socket) false), ex_target)) (Ok ex_udp_conn) ex_hash 1 false.
Definition ex_udp_client0 := match ex_udp_forwarded with Ok c => c | _ => RelClosed end.
Definition ex_udp_client1 := client_poll true 10 10 ex_order ex_udp_client0.
Definition ex_udp_handled : outcome server_error
    (Serving Z bool (Logged Script) Script Script (Recorded SockScript) (list (answer IpAddr)) (list (answer IpAddr)))
    * AcceptSt (Logged Script) :=
  handle_outbound ex_dns (λ _, Err OtherKind) (λ _, Ok tt) (recorded_bind (Ok ex_target_udp)) ticking [] 5
    (λ _, Inbound) 5 10 ex_hash 80%Z 1 false (fresh ex_udp_server_tls).
Definition ex_udp_server1 :=
  match ex_udp_handled.1 with Ok v => serve_poll true 10 10 ex_order v | _ => (Pending, ServeClosed) end.

(** What these two polls lead to. *)
Definition ex_client_ok (c : ExRel) : Prop :=
  match client_user c with
  | Some user =>
      rs_rx (server_udp_socket user) = [(example_request, example_client)] ∧
      rs_tx (server_udp_socket user) = [(example_client, uncurry socks5_frame ex_answer)] ∧
      client_accepted c = ex_up ∧ client_delivered c = frame ex_answer
  | None => False
  end.
Lemma ex_client_seen c user : ex_client_ok c → client_user c = Some user →
  rs_rx (server_udp_socket user) = [(example_request, example_client)] ∧
  rs_tx (server_udp_socket user) = [(example_client, uncurry socks5_frame ex_answer)] ∧
  client_accepted c = ex_up ∧ client_delivered c = frame ex_answer.
Proof. unfold ex_client_ok. intros Hc Hu. by rewrite Hu in Hc. Qed.

Definition ex_server_ok (v : Serving Z bool (Logged Script) Script Script (Recorded SockScript) (list (answer IpAddr)) (list (answer IpAddr))) : Prop :=
  match v with
  | ServeUdp r => let target := su_inner (outbound_of r) in let s := stream_of (inbound_of r) in
      rs_rx target = [([9; 9], SocketV4 [8; 8; 8; 8] 53)]%Z ∧ rs_tx target = [(SocketV4 [8; 8; 8; 8] 53, [1; 2; 3])]%Z ∧
      lg_in s = ex_up ∧ lg_out s = frame ex_answer
  | _ => False
  end.

