(* ===== verification/Args.v ===== *)
(** The command line: src/src/args.rs, and what src/src/main.rs makes of it.

    [Args] is what the argument parser of the library hands over: the text of each
    option that was given. SHA-224 is a parameter. *)
From S2P Require Import Prelude MixAddr Io UdpTraits TrojanUdp Acceptor Http.

(** [str::to_lowercase]: outside ASCII it changes no text into one that the options
    are compared with. *)
Definition to_lowercase (l : list Z) : list Z := map ascii_lower l.

Inductive Level : Type := ERROR | WARN | INFO | DEBUG | TRACE.

#[export] Instance Level_eq_dec : EqDecision Level.
Proof. solve_decision. Defined.
#[export] Instance ConnectionMode_eq_dec : EqDecision ConnectionMode.
Proof. solve_decision. Defined.

Definition parse_log_level (l : list Z) : Level :=
  let l := to_lowercase l in
  if decide (l = bytes_of_string "info") then INFO else
  if decide (l = bytes_of_string "debug") then DEBUG else
  if decide (l = bytes_of_string "warn") then WARN else
  if decide (l = bytes_of_string "error") then ERROR else
  if decide (l = bytes_of_string "trace") then TRACE else INFO.

(** With all features: the arms after the first [_] are unreachable. *)
Definition parse_connection_mode (l : list Z) : ConnectionMode :=
  let l := to_lowercase l in
  if decide (l = bytes_of_string "tcp-tls") then TcpTLS else
  if decide (l = bytes_of_string "t") then TcpTLS else
  if decide (l = bytes_of_string "tcp") then TcpTLS else
  if decide (l = bytes_of_string "tcp_tls") then TcpTLS else
  if decide (l = bytes_of_string "quic") then Quic else
  if decide (l = bytes_of_string "q") then Quic else
  if decide (l = bytes_of_string "l") then LiteTLSMode else TcpTLS.

Section args.
Context {E : Type} (overflow_checks : bool).

(** Arithmetic on [u16]. *)
Definition arg_u16 (z : Z) : outcome E Z :=
  if decide (0 ≤ z < 65536)%Z then Ok z
  else if overflow_checks then Panic "arithmetic operation overflowed" else Ok (u16_wrap z).

Definition into_u16 (l : list Z) : outcome E Z :=
  foldl (λ acc i,
      res ← acc;
      if decide (i ≤ 57 ∧ 48 ≤ i)%Z then q ← arg_u16 (res * 10)%Z; arg_u16 (q + (i - 48))%Z
      else Panic "invalid port value")
    (Ok 0%Z) l.

(** [("127.0.0.1:" + l).parse::<SocketAddr>().unwrap()]: the standard library takes
    one or more decimal digits whose value fits a port. *)
Definition into_local_addr (l : list Z) : outcome E SocketAddr :=
  if decide (l ≠ [] ∧ Forall Mix.is_digit l ∧ Mix.dec_value l < 65536)%Z
  then Ok (SocketV4 [127; 0; 0; 1]%Z (Mix.dec_value l))
  else Panic "called `Result::unwrap()` on an `Err` value".
End args.

(** [write!(&mut s, "{:02x}", i)]. *)
Definition hex_digit (n : Z) : Z := if decide (n < 10)%Z then (48 + n)%Z else (87 + n)%Z.
Definition hex2 (b : Z) : list Z := [hex_digit (b / 16); hex_digit (b mod 16)].

Section options.
Context (sha224 : list Z → list Z).

Definition password_to_hash (s : list Z) : list Z := flat_map hex2 (sha224 s).

(** ** [Opt] *)
Record Opt := mkOpt {
  local_http_addr : SocketAddr;
  local_socks5_addr : SocketAddr;
  log_level : Level;
  opt_ca : option (list Z);
  server_hostname : list Z;
  server_port : Z;
  server_ip : list Z;
  opt_server : bool;
  opt_key : option (list Z);
  opt_cert : option (list Z);
  opt_password : list Z;
  fallback_port : Z;
  connection_mode : ConnectionMode;
  remote_socket_addr : option SocketAddr;
}.

Record Args := mkArgs {
  arg_http : option (list Z);
  arg_socks5 : option (list Z);
  arg_log : option (list Z);
  arg_ca : option (list Z);
  arg_hostname : option (list Z);
  arg_port : option (list Z);
  arg_ip : option (list Z);
  arg_server : bool;
  arg_key : option (list Z);
  arg_cert : option (list Z);
  arg_password : option (list Z);
  arg_fallback : option (list Z);
  arg_mode : option (list Z);
  arg_remote : option SocketAddr;
}.

Inductive usage_error : Type := MissingRequired | RequiresOther.

Definition or_default (arg : option (list Z)) (dflt : string) : list Z := default (bytes_of_string dflt) arg.

(** [Opt::from_args]: [key] and [cert] require each other, the password is required. *)
Definition from_args (overflow_checks : bool) (a : Args) : outcome usage_error Opt :=
  if negb (Bool.eqb (bool_decide (is_Some (arg_key a))) (bool_decide (is_Some (arg_cert a)))) then Err RequiresOther else
  match arg_password a with
  | None => Err MissingRequired
  | Some w =>
      http ← into_local_addr (or_default (arg_http a) "8888");
      socks5 ← into_local_addr (or_default (arg_socks5 a) "8889");
      port ← into_u16 overflow_checks (or_default (arg_port a) "443");
      fallback ← into_u16 overflow_checks (or_default (arg_fallback a) "0");
      mret (mkOpt http socks5 (parse_log_level (or_default (arg_log a) "info")) (arg_ca a)
        (or_default (arg_hostname a) "localhost") port (or_default (arg_ip a) "") (arg_server a)
        (arg_key a) (arg_cert a) (password_to_hash w) fallback
        (parse_connection_mode (or_default (arg_mode a) "t")) (arg_remote a))
  end.
End options.

(** ** [main] *)

(** [main]: the address of the server, looked up once. *)
Definition resolve_remote (to_socket_addrs : list Z → Z → outcome io_error (list SocketAddr)) (o : Opt)
    : outcome io_error Opt :=
  addrs ← to_socket_addrs (if decide (0 < length (server_ip o)) then server_ip o else server_hostname o) (server_port o);
  match addrs with
  | [] => Err OtherKind
  | remote :: _ =>
      mret (mkOpt (local_http_addr o) (local_socks5_addr o) (log_level o) (opt_ca o) (server_hostname o)
        (server_port o) (server_ip o) (opt_server o) (opt_key o) (opt_cert o) (opt_password o) (fallback_port o)
        (connection_mode o) (Some remote))
  end.

(** ** Ports *)
Section ports.
Context {E : Type} (oc : bool).

Lemma arg_u16_is_u16 z p : arg_u16 (E:=E) oc z = Ok p → is_u16 p.
Proof.
  unfold arg_u16, is_u16. case_decide; [intros [= <-]; done|]. destruct oc; [done|].
  intros [= <-]. unfold u16_wrap. by apply Z.mod_pos_bound.
Qed.

(** The same loop as that of [from_http_header], but for what it does to a character
    that is not a digit. *)
Lemma into_u16_parse_port l :
  into_u16 (E:=E) oc l = match Mix.parse_port oc l with
    | Ok p => Ok p | Err _ => Panic "invalid port value" | Panic msg => Panic msg
    | Pending => Pending | OutOfFuel => OutOfFuel end.
Proof.
  unfold into_u16, Mix.parse_port.
  set (f := λ r : outcome ParserError Z, match r with
    | Ok p => Ok p | Err _ => Panic "invalid port value" | Panic msg => Panic msg
    | Pending => Pending | OutOfFuel => OutOfFuel end : outcome E Z).
  change (Ok (E:=E) 0%Z) with (f (Ok 0%Z)). generalize (Ok (E:=ParserError) 0%Z) as acc.
  induction l as [|d l IH]; intros acc; [done|]. cbn [foldl]. rewrite <- IH. f_equal.
  destruct acc as [p|e| |msg|]; cbn; try done. unfold f, Mix.u16_arith, arg_u16.
  destruct (decide (d ≤ 57 ∧ 48 ≤ d)%Z), (decide (48 ≤ d ∧ d ≤ 57)%Z); try lia; try done.
  destruct (decide (0 ≤ p * 10 < 65536)%Z); cbn; [by repeat case_decide; destruct oc|].
  destruct oc; cbn; [done|]. by repeat case_decide.
Qed.

Lemma into_u16_is_u16 l p : into_u16 (E:=E) oc l = Ok p → is_u16 p.
Proof.
  destruct l as [|d l _] using rev_ind; [intros [= <-]; split; lia|].
  unfold into_u16. rewrite foldl_snoc. intros (q & _ & H)%outcome_bind_Ok. cbv beta in H.
  case_decide; [|done]. apply outcome_bind_Ok in H as (r & _ & H). by eapply arg_u16_is_u16.
Qed.

(** C39: an option that is a port: digits whose value fits 16 bits give that value,
    so that every port is read back from its decimal form; larger values panic in a
    debug build and wrap in a release build; anything else panics. *)
Theorem into_u16_exact l :
  (Forall Mix.is_digit l → into_u16 (E:=E) oc l =
     if decide (Mix.dec_value l < 65536)%Z then Ok (Mix.dec_value l)
     else if oc then Panic "arithmetic operation overflowed" else Ok (u16_wrap (Mix.dec_value l))) ∧
  (¬ Forall Mix.is_digit l → is_panic (into_u16 (E:=E) oc l) = true) ∧
  (∀ p, is_u16 p → into_u16 (E:=E) oc (port_string p) = Ok p).
Proof.
  assert (∀ l, Forall Mix.is_digit l → into_u16 (E:=E) oc l =
     if decide (Mix.dec_value l < 65536)%Z then Ok (Mix.dec_value l)
     else if oc then Panic "arithmetic operation overflowed" else Ok (u16_wrap (Mix.dec_value l))) as Hdig.
  { intros k Hd. rewrite into_u16_parse_port, Mix.parse_port_digits by done.
    case_decide; [done|]. by destruct oc. }
  split; [apply Hdig|]. split.
  - assert (∀ l msg, foldl (λ acc i, res ← acc;
      if decide (i ≤ 57 ∧ 48 ≤ i)%Z then q ← arg_u16 (E:=E) oc (res * 10)%Z; arg_u16 oc (q + (i - 48))%Z
      else Panic "invalid port value") (Panic msg) l = Panic msg) as Hpanic by (intros k; by induction k).
    unfold into_u16. generalize 0%Z as p. induction l as [|d l IH]; intros p Hnd; [by destruct Hnd|].
    cbn [foldl mbind outcome_bind]. case_decide as Hd; [|by rewrite Hpanic].
    assert (∀ z, (∃ q, arg_u16 (E:=E) oc z = Ok q) ∨ ∃ msg, arg_u16 (E:=E) oc z = Panic msg) as Hau.
    { intros z. unfold arg_u16. case_decide; [by left; eexists|]. destruct oc; [right|left]; by eexists. }
    destruct (Hau (p * 10)%Z) as [[q ->]|[msg ->]]; cbn [mbind outcome_bind]; [|by rewrite Hpanic].
    destruct (Hau (q + (d - 48))%Z) as [[r ->]|[msg ->]]; [|by rewrite Hpanic].
    apply IH. intros Hl. apply Hnd. constructor; [unfold Mix.is_digit; lia|done].
  - intros p Hp. destruct (port_string_value p Hp) as [Hd Hv]. rewrite Hdig, Hv by done.
    rewrite decide_True by (unfold is_u16 in Hp; lia). done.
Qed.
End ports.

(** ** Passwords *)
Definition is_lower_hex (c : Z) : Prop := (48 ≤ c ≤ 57 ∨ 97 ≤ c ≤ 102)%Z.

Lemma hex_digit_hex n : (0 ≤ n < 16)%Z → is_lower_hex (hex_digit n).
Proof. unfold hex_digit, is_lower_hex. case_decide; lia. Qed.

Lemma hex_digit_inj m n : (0 ≤ m < 16)%Z → (0 ≤ n < 16)%Z → hex_digit m = hex_digit n → m = n.
Proof. unfold hex_digit. repeat case_decide; lia. Qed.

Lemma hex2_bounds b : is_u8 b → (0 ≤ b / 16 < 16 ∧ 0 ≤ b mod 16 < 16)%Z.
Proof.
  unfold is_u8. intros Hb. pose proof (Z.mod_pos_bound b 16). pose proof (Z.div_mod b 16). lia.
Qed.

Lemma hex_encode_inj l k :
  Forall is_u8 l → Forall is_u8 k → flat_map hex2 l = flat_map hex2 k → l = k.
Proof.
  revert k. induction l as [|b l IH]; intros [|c k] Hl Hk; cbn; try done. intros [= H1 H2 H].
  apply Forall_cons_iff in Hl as [Hb Hl], Hk as [Hc Hk].
  apply hex2_bounds in Hb as [??], Hc as [??].
  apply hex_digit_inj in H1, H2; try done. f_equal; [|by apply IH].
  by rewrite (Z.div_mod b 16), (Z.div_mod c 16), H1, H2 by lia.
Qed.

Lemma hex_encode_length l : length (flat_map hex2 l) = 2 * length l.
Proof. induction l as [|b l IH]; cbn; [done|]. rewrite IH. lia. Qed.

Lemma hex_encode_hex l : Forall is_u8 l → Forall is_lower_hex (flat_map hex2 l).
Proof.
  induction 1 as [|b l Hb _ IH]; [constructor|]. cbn. apply hex2_bounds in Hb as [??].
  do 2 (constructor; [by apply hex_digit_hex|]). done.
Qed.

Section sha224.
Context (sha224 : list Z → list Z).
(** SHA-224 gives 28 bytes. *)
Context (sha224_bytes : ∀ s, length (sha224 s) = 28 ∧ Forall is_u8 (sha224 s)).

(** What the rest of the program relies on. *)
Definition local_port (a : SocketAddr) : Prop := ∃ p, a = SocketV4 [127; 0; 0; 1]%Z p ∧ is_u16 p.

Definition opt_wf (o : Opt) : Prop :=
  local_port (local_http_addr o) ∧ local_port (local_socks5_addr o) ∧
  is_u16 (server_port o) ∧ is_u16 (fallback_port o) ∧
  length (opt_password o) = HASH_LEN ∧ Forall is_lower_hex (opt_password o) ∧
  (is_Some (opt_key o) ↔ is_Some (opt_cert o)).

Lemma into_local_addr_local {E} l a : into_local_addr (E:=E) l = Ok a → local_port a.
Proof.
  unfold into_local_addr. case_decide as Hd; [|done]. intros [= <-]. destruct Hd as (_ & Hd & Hlt).
  exists (Mix.dec_value l). split; [done|]. split; [|done].
  clear Hlt. unfold Mix.dec_value. cut (∀ z, (0 ≤ z)%Z → (0 ≤ foldl (λ p d, p * 10 + (d - 48)) z l)%Z); [auto with lia|].
  induction Hd as [|d l Hd _ IH]; intros z Hz; [done|]. cbn. apply IH. unfold Mix.is_digit in Hd. lia.
Qed.

(** C38: the options are what the program takes them for: the front ends listen on
    the loopback address, ports fit 16 bits, key and certificate come together, and
    the password is the 56 lower-case hexadecimal digits that requests are
    authenticated with. Two servers accept each other's clients exactly if the
    digests of their passwords are equal. *)
Theorem from_args_wf oc a o :
  from_args sha224 oc a = Ok o →
  opt_wf o ∧ ∀ w w', arg_password a = Some w → opt_password o = password_to_hash sha224 w' ↔ sha224 w = sha224 w'.
Proof.
  unfold from_args. destruct (negb _) eqn:Hkc; [done|]. destruct (arg_password a) as [w|] eqn:Ew; [|done].
  intros (http & Hh & H)%outcome_bind_Ok. apply outcome_bind_Ok in H as (socks5 & Hs & H).
  apply outcome_bind_Ok in H as (port & Hp & H). apply outcome_bind_Ok in H as (fb & Hf & [= <-]).
  destruct (sha224_bytes w) as [Hl H8]. split.
  - unfold opt_wf. cbn. do 2 (split; [by eapply into_local_addr_local|]). do 2 (split; [by eapply into_u16_is_u16|]).
    split; [unfold password_to_hash; by rewrite hex_encode_length, Hl|]. split; [by apply hex_encode_hex|].
    apply negb_false_iff, Bool.eqb_prop in Hkc.
    by rewrite <- (bool_decide_eq_true (is_Some (arg_key a))), Hkc, bool_decide_eq_true.
  - intros w1 w' [= <-]. cbn. unfold password_to_hash. split; [|by intros ->].
    apply hex_encode_inj; [done|apply sha224_bytes].
Qed.
End sha224.

(** ** Examples *)
Definition ex_digest (s : list Z) : list Z := replicate 27 7%Z ++ [Z.of_nat (length s) mod 256]%Z.
Definition ex_args : Args :=
  mkArgs None (Some (bytes_of_string "1080")) None None None None None true None None
    (Some (bytes_of_string "secret")) None (Some (bytes_of_string "Q")) None.

Lemma ex_digest_bytes s : length (ex_digest s) = 28 ∧ Forall is_u8 (ex_digest s).
Proof.
  split; [unfold ex_digest; rewrite length_app, length_replicate; cbn [length]; lia|].
  apply Forall_app. split; [apply Forall_replicate; unfold is_u8; lia|].
  constructor; [|constructor]. unfold is_u8. apply Z.mod_pos_bound. lia.
Qed.

Lemma from_args_wf_witness :
  ∃ o, from_args ex_digest true ex_args = Ok o ∧ connection_mode o = Quic ∧ server_port o = 443%Z ∧
  opt_wf o ∧ ∀ w w', arg_password ex_args = Some w → opt_password o = password_to_hash ex_digest w' ↔ ex_digest w = ex_digest w'.
Proof.
  assert (∃ o, from_args ex_digest true ex_args = Ok o ∧ connection_mode o = Quic ∧ server_port o = 443%Z)
    as (o & Ho & Hm & Hp).
  { eexists. split; [vm_compute; reflexivity|]. split; reflexivity. }
  exists o. split; [exact Ho|]. split; [exact Hm|]. split; [exact Hp|].
  exact (from_args_wf ex_digest ex_digest_bytes true ex_args o Ho).
Defined.
