(* ===== verification/TlsConfig.v ===== *)
(** The set-up of TLS and QUIC: src/src/server/utils/rustls_utils.rs,
    src/src/server/inbound/quic.rs and tcp_tls.rs, [get_server_local_addr],
    src/src/client/utils/rustls_utils.rs, [tls_client_config], and [new_builder],
    [load_cert] and the first half of [EndpointManager::new] of
    src/src/client/outbound/quic.rs.

    The file system is the state, behind the class [Files]; the libraries that read
    PEM, make certificates and check them are behind [TlsLibrary]. *)
From stdpp Require Import gmap.
From S2P Require Import Prelude MixAddr Io Quic Args.

(** ** Paths of the standard library (Unix) *)
Fixpoint split_on (sep : Z) (l : list Z) : list (list Z) :=
  match l with
  | [] => [[]]
  | c :: l' =>
      let ws := split_on sep l' in
      if decide (c = sep) then [] :: ws else match ws with [] => [[c]] | w :: ws => (c :: w) :: ws end
  end.

Definition slash : Z := 47%Z.
Definition dot : Z := 46%Z.

(** [Path::file_name]: the last component, unless it is [..]. *)
Definition file_name (p : list Z) : option (list Z) :=
  match list.last (filter (λ c, c ≠ [] ∧ c ≠ [dot]) (split_on slash p)) with
  | Some name => if decide (name = [dot; dot]) then None else Some name
  | None => None
  end.

(** [Path::extension]: what follows the last dot of the file name, if something
    precedes it. *)
Definition extension (p : list Z) : option (list Z) :=
  match file_name p with
  | Some name =>
      match list_find (λ c, c = dot) (reverse name) with
      | Some (i, _) => if decide (S i = length name) then None else Some (drop (length name - i) name)
      | None => None
      end
  | None => None
  end.

(** [Path::join] with a relative path. *)
Definition join (dir : list Z) (name : list Z) : list Z :=
  match list.last dir with
  | None => name
  | Some c => if decide (c = slash) then dir ++ name else dir ++ slash :: name
  end.

Lemma join_inj dir : Inj (=) (=) (join dir).
Proof. intros a b. unfold join. destruct (list.last dir); [case_decide|]; intros; by simplify_list_eq. Qed.

(** A name that is a component of its own. *)
Definition plain (name : list Z) : Prop := name ≠ [] ∧ (slash ∉ name) ∧ name ≠ [dot] ∧ name ≠ [dot; dot].

#[export] Instance plain_dec name : Decision (plain name).
Proof. unfold plain. apply _. Defined.

(** ** The file system *)
Class Files (F : Type) := {
  fs_read : F → list Z → outcome io_error (list Z);
  fs_create_dir_all : list Z → F → outcome io_error unit * F;
  fs_write : list Z → list Z → F → outcome io_error unit * F;
}.

(** What a write leaves: all of it, or, when it fails, what was there or the first
    part of it; two names in a directory are two files. *)
Class FilesOk (F : Type) `{Files F} : Prop := {
  fs_create_reads dir (f : F) p x : (fs_read (fs_create_dir_all dir f).2 p = Ok x) ↔ (fs_read f p = Ok x);
  fs_write_reads p d (f : F) : (fs_write p d f).1 = Ok tt → fs_read (fs_write p d f).2 p = Ok d;
  fs_write_failed p d (f : F) x : fs_read (fs_write p d f).2 p = Ok x → fs_read f p = Ok x ∨ (x `prefix_of` d);
  fs_write_other dir a b d (f : F) x : plain a → plain b → a ≠ b →
    (fs_read (fs_write (join dir a) d f).2 (join dir b) = Ok x) ↔ (fs_read f (join dir b) = Ok x);
}.

(** ** The libraries

    Errors are numbers. [Generated] is what rcgen makes, [Anchor] what is kept of a
    trusted certificate. *)
Class TlsLibrary (Generated Anchor : Type) := {
  pkcs8_private_keys : list Z → outcome io_error (list (list Z));
  rsa_private_keys : list Z → outcome io_error (list (list Z));
  pem_certs : list Z → outcome io_error (list (list Z));
  serialize_private_key_der : Generated → list Z;
  serialize_der : Generated → outcome Z (list Z);
  with_single_cert : list (list Z) → list Z → outcome Z unit;
  trust_anchor : list Z → outcome Z Anchor;
  idle_timeout : Z → outcome Z Z;
  varint : Z → outcome Z Z;
}.

(** Numbers below 2^62 are QUIC's variable-length integers; DER states its length, so
    that a key that was cut off is refused. *)
Class TlsLibraryOk (Generated Anchor : Type) `{TlsLibrary Generated Anchor} : Prop := {
  idle_timeout_small z : (0 ≤ z < 2 ^ 62)%Z → idle_timeout z = Ok z;
  varint_small z : (0 ≤ z < 2 ^ 62)%Z → varint z = Ok z;
  key_cut_refused g k certs :
    k `prefix_of` serialize_private_key_der g → with_single_cert certs k = Ok tt → k = serialize_private_key_der g;
}.

(** ** Errors and constants *)
Inductive setup_error : Type :=
| SetupIo (context : string) (e : io_error)
| SetupTls (e : Z)
| SetupBail (msg : string) (e : option io_error).

Definition ALPN_QUIC_HTTP : list (list Z) := [bytes_of_string "hq-29"].
(** In milliseconds. *)
Definition QUIC_MAX_IDLE_TIMEOUT : Z := (600 * 1000)%Z.

Definition CERT_DER : list Z := bytes_of_string "cert.der".
Definition KEY_DER : list Z := bytes_of_string "key.der".

(** ** Configurations: what the program sets of them *)
Record ServerCrypto := mkServerCrypto {
  sc_certs : list (list Z);
  sc_key : list Z;
  sc_alpn : list (list Z);
  sc_ticketer : bool;
}.

Record TransportConfig := mkTransport {
  max_idle_timeout : option Z;
  persistent_congestion_threshold : Z;
  packet_threshold : Z;
  max_concurrent_bidi_streams : Z;
}.

Record QuicEndpoint := mkQuicEndpoint {
  qe_crypto : ServerCrypto;
  qe_transport : TransportConfig;
  qe_addr : SocketAddr;
}.

Record ClientCrypto (Anchor : Type) := mkClientCrypto {
  cc_roots : list Anchor;
  cc_alpn : list (list Z);
}.
Arguments mkClientCrypto {Anchor}.
Arguments cc_roots {Anchor}.
Arguments cc_alpn {Anchor}.

Record QuicClientConfig (Anchor : Type) := mkQuicClient {
  qc_crypto : ClientCrypto Anchor;
  qc_transport : TransportConfig;
}.
Arguments mkQuicClient {Anchor}.
Arguments qc_crypto {Anchor}.
Arguments qc_transport {Anchor}.

Definition get_server_local_addr (proxy_port : Z) : SocketAddr := SocketV4 [0; 0; 0; 0]%Z proxy_port.

Section setup.
Context {F G A : Type} `{Files F, TlsLibrary G A}.

(** ** The server *)

(** [path.extension().map_or(false, |x| x == "der")]. *)
Definition is_der (path : list Z) : bool := bool_decide (extension path = Some (bytes_of_string "der")).

Definition private_key_of_pem (key : list Z) : outcome setup_error (list Z) :=
  pkcs8 ← map_err (SetupIo "malformed PKCS #8 private key") (pkcs8_private_keys key);
  match pkcs8 with
  | x :: _ => mret x
  | [] =>
      rsa ← map_err (SetupIo "malformed PKCS #1 private key") (rsa_private_keys key);
      match rsa with
      | x :: _ => mret x
      | [] => Err (SetupBail "no private keys found" None)
      end
  end.

Definition get_server_certs_and_key (key_path cert_path : list Z) (f : F)
    : outcome setup_error (list (list Z) * list Z) :=
  key ← map_err (SetupIo "failed to read private key") (fs_read f key_path);
  key ← (if is_der key_path then mret key else private_key_of_pem key);
  cert_chain ← map_err (SetupIo "failed to read certificate chain") (fs_read f cert_path);
  cert_chain ← (if is_der cert_path then mret [cert_chain]
                else map_err (SetupIo "invalid PEM-encoded certificate") (pem_certs cert_chain));
  mret (cert_chain, key).

(** [generate_simple_self_signed] answers once in a start. [project_dirs] is
    [ProjectDirs::from(..)], the directory its [data_local_dir]. *)
Context (project_dirs : option (list Z)).

Definition generate_identity (generated : outcome Z G) (dir : list Z) : ST F setup_error (list Z * list Z) :=
  match generated with
  | Ok g =>
      let key := serialize_private_key_der g in
      match serialize_der g with
      | Ok cert =>
          st_map_err (SetupIo "failed to create certificate directory") (fs_create_dir_all dir);;
          st_map_err (SetupIo "failed to write certificate") (fs_write (join dir CERT_DER) cert);;
          st_map_err (SetupIo "failed to write private key") (fs_write (join dir KEY_DER) key);;
          mret (cert, key)
      | _ => panic "called `Result::unwrap()` on an `Err` value"
      end
  | _ => panic "called `Result::unwrap()` on an `Err` value"
  end.

(** The certificates and the key of [quic_tunnel_rx]. *)
Definition server_identity (generated : outcome Z G) (options : Opt)
    : ST F setup_error (list (list Z) * list Z) :=
  match opt_key options, opt_cert options with
  | Some key_path, Some cert_path => f ← st_get; st_lift (get_server_certs_and_key key_path cert_path f)
  | _, _ =>
      match project_dirs with
      | None => panic "called `Option::unwrap()` on a `None` value"
      | Some path =>
          f ← st_get;
          '(cert, key) ← match (cert ← fs_read f (join path CERT_DER); key ← fs_read f (join path KEY_DER); mret (cert, key)) with
            | Err e =>
                if decide (e = NotFound) then generate_identity generated path
                else throw (SetupBail "failed to read certificate" (Some e))
            | read => st_lift (map_err (SetupIo "") read)
            end;
          mret ([cert], key)
      end
  end.

(** The settings [quic_tunnel_rx] makes on its [transport_config]. *)
Definition server_transport : outcome setup_error TransportConfig :=
  idle ← map_err SetupTls (idle_timeout QUIC_MAX_IDLE_TIMEOUT);
  streams ← map_err SetupTls (varint (Z.of_nat MAX_CONCURRENT_BIDI_STREAMS));
  mret (mkTransport (Some idle) 6 4 streams).

(** [bind] is what the socket of [Endpoint::server] answers. *)
Definition quic_endpoint (certs : list (list Z)) (key : list Z) (bind : SocketAddr → outcome io_error unit) (options : Opt)
    : outcome setup_error QuicEndpoint :=
  _ ← map_err SetupTls (with_single_cert certs key);
  transport ← server_transport;
  let server_addr := get_server_local_addr (server_port options) in
  _ ← map_err (SetupIo "") (bind server_addr);
  mret (mkQuicEndpoint (mkServerCrypto certs key ALPN_QUIC_HTTP false) transport server_addr).

Definition quic_tunnel_rx (generated : outcome Z G) (bind : SocketAddr → outcome io_error unit) (options : Opt)
    : ST F setup_error QuicEndpoint :=
  '(certs, key) ← server_identity generated options;
  st_lift (quic_endpoint certs key bind options).

Definition tls_server_config (ticketer : outcome Z unit) (options : Opt) (f : F) : outcome setup_error ServerCrypto :=
  match opt_key options, opt_cert options with
  | Some key_path, Some cert_path =>
      '(cert, key) ← get_server_certs_and_key key_path cert_path f;
      _ ← map_err (λ _, SetupIo "" InvalidInput) (with_single_cert cert key);
      _ ← map_err SetupTls ticketer;
      mret (mkServerCrypto cert key [] true)
  | _, _ => Panic "called `Option::unwrap()` on a `None` value"
  end.

(** ** The client *)

(** [RootCertStore::add]. *)
Definition roots_add (roots : list A) (cert : list Z) : outcome Z (list A) :=
  a ← trust_anchor cert; mret (roots ++ [a]).

(** [native] is what the platform's store answers. *)
Definition get_rustls_config (native : outcome io_error (list (list Z))) (roots : list A)
    : outcome setup_error (ClientCrypto A) :=
  match native with
  | Ok certs =>
      roots ← foldl (λ r cert, roots ← r; match roots_add roots cert with
          | Ok roots => mret roots
          | _ => Panic "called `Result::unwrap()` on an `Err` value"
          end) (mret roots) certs;
      mret (mkClientCrypto roots [])
  | _ => Panic "could not load platform certs"
  end.

Definition tls_client_config (native : outcome io_error (list (list Z))) : outcome setup_error (ClientCrypto A) :=
  get_rustls_config native [].

Definition load_cert (options : Opt) (roots : list A) (f : F) : outcome setup_error (list A) :=
  match opt_ca options with
  | Some ca_path =>
      cert ← map_err (SetupIo "") (fs_read f ca_path);
      map_err SetupTls (roots_add roots cert)
  | None =>
      match project_dirs with
      | None => Panic "called `Option::unwrap()` on a `None` value"
      | Some path =>
          cert ← map_err (SetupIo "") (fs_read f (join path CERT_DER));
          map_err SetupTls (roots_add roots cert)
      end
  end.

(** The settings [new_builder] makes on its [transport_cfg]. *)
Definition client_transport : outcome setup_error TransportConfig :=
  idle ← map_err SetupTls (idle_timeout QUIC_MAX_IDLE_TIMEOUT);
  streams ← map_err SetupTls (varint (Z.of_nat MAX_CONCURRENT_BIDI_STREAMS));
  mret (mkTransport (Some idle) 6 4 streams).

Definition new_builder (native : outcome io_error (list (list Z))) (options : Opt) (f : F)
    : outcome setup_error (QuicClientConfig A) :=
  roots ← load_cert options [] f;
  crypto ← get_rustls_config native roots;
  transport ← client_transport;
  mret (mkQuicClient (mkClientCrypto (cc_roots crypto) ALPN_QUIC_HTTP) transport).

(** [EndpointManager::new] before it dials; [bound] is the answer of the socket. *)
Definition endpoint_setup (bound : outcome io_error unit) (native : outcome io_error (list (list Z)))
    (options : Opt) (f : F) : outcome setup_error (QuicClientConfig A) :=
  _ ← map_err (SetupIo "") bound;
  new_builder native options f.
End setup.

(** ** Starts of a server *)
Section starts.
Context {F G A : Type} `{FilesOk F, TlsLibrary G A}.
Context (dir : list Z).
Abbreviation cert_der := (join dir CERT_DER).
Abbreviation key_der := (join dir KEY_DER).
Abbreviation readable f p := (∃ x, fs_read f p = Ok x).

(** A server that was not given a key and a certificate. *)
Definition own_identity (o : Opt) : Prop := opt_key o = None ∨ opt_cert o = None.

(** What the data directory holds. *)
Definition holds_identity (f : F) (cert key : list Z) : Prop :=
  fs_read f cert_der = Ok cert ∧ fs_read f key_der = Ok key.

Definition read_identity (f : F) : outcome io_error (list Z * list Z) :=
  cert ← fs_read f cert_der; key ← fs_read f key_der; mret (cert, key).

Lemma holds_identity_read f cert key : holds_identity f cert key ↔ read_identity f = Ok (cert, key).
Proof.
  unfold holds_identity, read_identity.
  destruct (fs_read f cert_der); cbn -[CERT_DER KEY_DER]; try (split; [by intros [? ?]|done]).
  destruct (fs_read f key_der); cbn -[CERT_DER KEY_DER]; try (split; [by intros [? ?]|done]).
  split; [by intros [[= ->] [= ->]]|by intros [= -> ->]].
Qed.

Lemma server_identity_own generated o f :
  own_identity o → server_identity (Some dir) generated o f =
    ('(cert, key) ← match read_identity f with
      | Err e =>
          if decide (e = NotFound) then generate_identity generated dir
          else throw (SetupBail "failed to read certificate" (Some e))
      | read => st_lift (map_err (SetupIo "") read)
      end;
    mret ([cert], key)) f.
Proof. unfold server_identity, own_identity. destruct (opt_key o), (opt_cert o); try done. by intros []. Qed.

Lemma server_identity_read generated o f cert key :
  own_identity o → holds_identity f cert key → server_identity (Some dir) generated o f = (Ok ([cert], key), f).
Proof. intros Ho Hf%holds_identity_read. by rewrite server_identity_own, Hf. Qed.

Lemma plain_names : plain CERT_DER ∧ plain KEY_DER ∧ CERT_DER ≠ KEY_DER.
Proof. apply (bool_decide_eq_true_1 (plain CERT_DER ∧ plain KEY_DER ∧ CERT_DER ≠ KEY_DER)). by vm_compute. Qed.

Lemma write_key_other d (f : F) x :
  (fs_read (fs_write key_der d f).2 cert_der = Ok x) ↔ (fs_read f cert_der = Ok x).
Proof. destruct plain_names as (? & ? & ?). by apply fs_write_other. Qed.

Lemma write_cert_other d (f : F) x :
  (fs_read (fs_write cert_der d f).2 key_der = Ok x) ↔ (fs_read f key_der = Ok x).
Proof. destruct plain_names as (? & ? & ?). by apply fs_write_other. Qed.

(** The three operations of [generate_identity], with their exits. *)
Lemma generate_identity_run g cert f :
  serialize_der g = Ok cert →
  let f1 := (fs_create_dir_all dir f).2 in
  let f2 := (fs_write cert_der cert f1).2 in
  let w := fs_write key_der (serialize_private_key_der g) f2 in
  generate_identity (Ok g) dir f = (
    _ ← map_err (SetupIo "failed to create certificate directory") (fs_create_dir_all dir f).1;
    _ ← map_err (SetupIo "failed to write certificate") (fs_write cert_der cert f1).1;
    _ ← map_err (SetupIo "failed to write private key") w.1;
    mret (cert, serialize_private_key_der g),
    match (fs_create_dir_all dir f).1, (fs_write cert_der cert f1).1 with
    | Ok _, Ok _ => w.2
    | Ok _, _ => f2
    | _, _ => f1
    end).
Proof.
  intros Hg. cbv zeta. unfold generate_identity. rewrite Hg. unfold mbind, st_bind, st_map_err.
  destruct (fs_create_dir_all dir f) as [[] f1]; cbn; try done.
  destruct (fs_write _ cert f1) as [[] f2]; cbn; try done.
  by destruct (fs_write _ _ f2) as [[] f3].
Qed.

Lemma generate_identity_holds generated f cert key f' :
  generate_identity generated dir f = (Ok (cert, key), f') →
  ∃ g, generated = Ok g ∧ serialize_der g = Ok cert ∧ key = serialize_private_key_der g ∧ holds_identity f' cert key.
Proof.
  destruct generated as [g| | | |]; try done. destruct (serialize_der g) as [c| | | |] eqn:Hg;
    try (unfold generate_identity; rewrite Hg; done).
  rewrite (generate_identity_run g c) by done. set (f1 := (fs_create_dir_all dir f).2).
  set (f2 := (fs_write cert_der c f1).2). intros [= Hr <-].
  destruct (fs_create_dir_all dir f).1 as [[]| | | |]; try done.
  destruct (fs_write cert_der c f1).1 as [[]| | | |] eqn:Hc; try done.
  destruct (fs_write key_der _ f2).1 as [[]| | | |] eqn:Hk; try done. injection Hr as <- <-.
  exists g. split_and!; [done..|]. split; [|by apply fs_write_reads].
  apply write_key_other. by apply fs_write_reads.
Qed.

(** Where there is no key, an interrupted start leaves at most the certificate it made
    and the first part of its key. *)
Definition keyless (f : F) : Prop := ∀ k, fs_read f key_der ≠ Ok k.

Definition part_written (g : G) (f : F) : Prop :=
  ∃ cert key, serialize_der g = Ok cert ∧ holds_identity f cert key ∧ key `prefix_of` serialize_private_key_der g.

Lemma generate_identity_keyless generated f :
  keyless f → let f' := (generate_identity generated dir f).2 in
  keyless f' ∨ ∃ g, generated = Ok g ∧ part_written g f'.
Proof.
  intros Hf. destruct generated as [g| | | |]; try by left. destruct (serialize_der g) as [c| | | |] eqn:Hg;
    try (unfold generate_identity; rewrite Hg; by left).
  rewrite (generate_identity_run g c) by done. set (f1 := (fs_create_dir_all dir f).2).
  set (f2 := (fs_write cert_der c f1).2). cbn [snd].
  assert (keyless f1) as Hf1 by (intros k Hk%fs_create_reads; by apply (Hf k)).
  assert (keyless f2) as Hf2 by (intros k Hk%write_cert_other; by apply (Hf1 k)).
  destruct (fs_create_dir_all dir f).1; try by left.
  destruct (fs_write cert_der c f1).1 as [[]| | | |] eqn:Hc; try by left.
  destruct (fs_read (fs_write key_der (serialize_private_key_der g) f2).2 key_der) as [k| | | |] eqn:Hk;
    try (left; intros k'; rewrite Hk; done).
  right. exists g. split; [done|]. exists c, k. split_and!; [done|split; [|done]|].
  - apply write_key_other. by apply fs_write_reads.
  - apply fs_write_failed in Hk as [Hk|]; [by apply Hf2 in Hk|done].
Qed.

(** A start leaves the files as its identity was left, and one that succeeds found or
    made the identity the files now hold. *)
Lemma quic_tunnel_rx_state generated bind o f :
  (quic_tunnel_rx (Some dir) generated bind o f).2 = (server_identity (Some dir) generated o f).2.
Proof.
  unfold quic_tunnel_rx. rewrite st_bind_split.
  by destruct (server_identity _ _ _ _) as [[[]| | | |] ?].
Qed.

Lemma quic_tunnel_rx_Ok generated bind o f ep f' :
  own_identity o → quic_tunnel_rx (Some dir) generated bind o f = (Ok ep, f') →
  ∃ cert key, holds_identity f' cert key ∧ quic_endpoint [cert] key bind o = Ok ep ∧
    (f' = f ∨ ∃ g, generated = Ok g ∧ serialize_der g = Ok cert ∧ key = serialize_private_key_der g).
Proof.
  intros Ho. unfold quic_tunnel_rx. intros ([certs key] & s & Hi & Hq)%st_bind_Ok.
  injection Hq as Hq <-. rewrite server_identity_own in Hi by done.
  apply st_bind_Ok in Hi as ([cert key'] & s' & Hi & [= <- <- <-]).
  destruct (read_identity f) as [[c k]|e| |msg|] eqn:Hr; try discriminate Hi.
  - injection Hi as <- <- <-. exists c, k. split_and!; [by apply holds_identity_read|done|by left].
  - case_decide; [|discriminate Hi]. apply generate_identity_holds in Hi as (g & Hg & Hd & -> & Hh).
    exists cert, (serialize_private_key_der g). split_and!; [done..|]. right. by exists g.
Qed.

(** ** Restarting *)

(** An endpoint that was started on another port. *)
Definition rebound (ep : QuicEndpoint) (addr : SocketAddr) : QuicEndpoint :=
  mkQuicEndpoint (qe_crypto ep) (qe_transport ep) addr.

Lemma quic_endpoint_Ok certs key bind (o : Opt) ep :
  quic_endpoint certs key bind o = Ok ep →
  with_single_cert certs key = Ok tt ∧ server_transport = Ok (qe_transport ep) ∧
  ep = mkQuicEndpoint (mkServerCrypto certs key ALPN_QUIC_HTTP false) (qe_transport ep)
    (get_server_local_addr (server_port o)).
Proof.
  unfold quic_endpoint. intros ([] & Hw & Hq)%outcome_bind_Ok. apply outcome_bind_Ok in Hq as (tr & Ht & Hq).
  apply outcome_bind_Ok in Hq as (u & _ & [= <-]).
  split_and!; [|done..]. by destruct (with_single_cert certs key) as [[]| | | |].
Qed.

Lemma quic_endpoint_again certs key bind (o : Opt) bind' o' ep :
  quic_endpoint certs key bind o = Ok ep →
  let addr := get_server_local_addr (server_port o') in
  quic_endpoint certs key bind' o' = (_ ← map_err (SetupIo "") (bind' addr); mret (rebound ep addr)).
Proof.
  intros (Hw & Ht & Hep)%quic_endpoint_Ok. cbv zeta. unfold quic_endpoint, rebound. rewrite Hw, Ht. cbn.
  rewrite Hep. by destruct (bind' _).
Qed.

Lemma quic_tunnel_rx_again cert key bind (o : Opt) ep generated' bind' o' f :
  holds_identity f cert key → quic_endpoint [cert] key bind o = Ok ep → own_identity o' →
  let addr := get_server_local_addr (server_port o') in
  quic_tunnel_rx (Some dir) generated' bind' o' f = (_ ← map_err (SetupIo "") (bind' addr); mret (rebound ep addr), f).
Proof.
  intros Hh Hep Ho. cbv zeta. unfold quic_tunnel_rx.
  rewrite (st_bind_run _ _ _ ([cert], key) f) by (by apply server_identity_read).
  unfold st_lift. by erewrite quic_endpoint_again.
Qed.

(** C19: a QUIC server that was not given a certificate keeps its identity. Whatever
    its first successful start found or generated, every later start, with any options
    that give no certificate, presents the same certificate with the same key and
    writes nothing; and a client on that machine that is not given a certificate
    either trusts exactly this one besides the platform's, and uses the protocol name
    and the transport settings of the server. *)
Theorem quic_identity_persists generated bind o f ep f' :
  own_identity o → quic_tunnel_rx (Some dir) generated bind o f = (Ok ep, f') →
  ∃ cert, sc_certs (qe_crypto ep) = [cert] ∧
  (∀ generated' bind' o', own_identity o' →
    let addr := get_server_local_addr (server_port o') in
    quic_tunnel_rx (Some dir) generated' bind' o' f' =
      (_ ← map_err (SetupIo "") (bind' addr); mret (rebound ep addr), f')) ∧
  (∀ native o', opt_ca o' = None →
    new_builder (Some dir) native o' f' =
      (a ← map_err SetupTls (trust_anchor cert);
       crypto ← get_rustls_config native [a];
       mret (mkQuicClient (mkClientCrypto (cc_roots crypto) (sc_alpn (qe_crypto ep))) (qe_transport ep)))).
Proof.
  intros Ho Hq. apply quic_tunnel_rx_Ok in Hq as (cert & key & Hh & Hep & _); [|done].
  pose proof (quic_endpoint_Ok _ _ _ _ _ Hep) as (_ & Ht & Heq). exists cert. split_and!.
  - by rewrite Heq.
  - intros. by eapply quic_tunnel_rx_again.
  - intros native o' Hca. unfold new_builder, load_cert. rewrite Hca. destruct Hh as [-> _]. cbn.
    unfold roots_add. destruct (trust_anchor cert); cbn; try done.
    destruct (get_rustls_config native _); cbn; try done.
    change client_transport with server_transport. rewrite Ht. cbn. by rewrite Heq.
Qed.
(** *** Any number of starts *)
Record Start := mkStart {
  start_options : Opt;
  start_generated : outcome Z G;
  start_bind : SocketAddr → outcome io_error unit;
}.

Fixpoint start_all (ss : list Start) (f : F) : list (outcome setup_error QuicEndpoint) * F :=
  match ss with
  | [] => ([], f)
  | s :: ss' =>
      let '(r, f1) := quic_tunnel_rx (Some dir) (start_generated s) (start_bind s) (start_options s) f in
      let '(rs, f') := start_all ss' f1 in (r :: rs, f')
  end.

Definition presents (cert key : list Z) : ServerCrypto := mkServerCrypto [cert] key ALPN_QUIC_HTTP false.

(** One of the starts generated this pair. *)
Definition generated_in (ss : list Start) (c : ServerCrypto) : Prop :=
  ∃ s g cert, s ∈ ss ∧ start_generated s = Ok g ∧ serialize_der g = Ok cert ∧ c = presents cert (serialize_private_key_der g).

Lemma start_all_cons s ss f :
  start_all (s :: ss) f =
    let w := quic_tunnel_rx (Some dir) (start_generated s) (start_bind s) (start_options s) f in
    (w.1 :: (start_all ss w.2).1, (start_all ss w.2).2).
Proof. cbn [start_all]. destruct (quic_tunnel_rx _ _ _ _ _) as [r f1]. cbn [fst snd]. by destruct (start_all ss f1). Qed.

Lemma generated_in_cons s ss c : generated_in ss c → generated_in (s :: ss) c.
Proof. intros (t & g & cert & Ht & Hr). exists t, g, cert. split; [by right|done]. Qed.

(** Once there is an identity, a start that succeeds presents it. *)
Lemma start_all_held ss f cert key ep :
  Forall (λ s, own_identity (start_options s)) ss → holds_identity f cert key → Ok ep ∈ (start_all ss f).1 →
  qe_crypto ep = presents cert key ∧ with_single_cert [cert] key = Ok tt.
Proof.
  intros Hss Hh. induction Hss as [|s ss Hs _ IH]; [by intros Hin%not_elem_of_nil|].
  rewrite start_all_cons. cbv zeta.
  unfold quic_tunnel_rx. rewrite (st_bind_run _ _ _ ([cert], key) f) by (by apply server_identity_read).
  cbn [st_lift fst snd]. intros [Hep|Hin]%elem_of_cons; [|by apply IH].
  symmetry in Hep. apply quic_endpoint_Ok in Hep as (Hw & _ & ->). done.
Qed.

Lemma server_identity_keyless generated o f :
  own_identity o → keyless f → let f' := (server_identity (Some dir) generated o f).2 in
  keyless f' ∨ ∃ g, generated = Ok g ∧ part_written g f'.
Proof.
  intros Ho Hf. cbv zeta. rewrite server_identity_own by done.
  destruct (read_identity f) as [[c k]|e| |msg|] eqn:Hr; try by left.
  rewrite st_bind_split. case_decide; [|by left].
  pose proof (generate_identity_keyless generated f Hf) as Hg. cbv zeta in Hg.
  by destruct (generate_identity generated dir f) as [[[]| | | |] f'].
Qed.

Context `{!TlsLibraryOk G A}.

Lemma keyless_start_all ss f :
  Forall (λ s, own_identity (start_options s)) ss → keyless f →
  ∃ c, ∀ ep, Ok ep ∈ (start_all ss f).1 → qe_crypto ep = c ∧ generated_in ss c.
Proof.
  intros Hss. revert f. induction Hss as [|s ss Hs Hss IH]; intros f Hf.
  { exists (presents [] []). by intros ep Hin%not_elem_of_nil. }
  rewrite start_all_cons. cbv zeta. set (w := quic_tunnel_rx _ _ _ _ f).
  destruct w as [r f1] eqn:Hw; subst w. cbn [fst snd].
  destruct r as [ep0| | | |].
  { apply quic_tunnel_rx_Ok in Hw as (cert & key & Hh & Hep & [->|(g & Hg & Hd & ->)]); [| |done].
    { destruct Hh as [_ Hk]. by apply Hf in Hk. }
    assert (generated_in (s :: ss) (presents cert (serialize_private_key_der g))) as Hgen
      by (exists s, g, cert; split; [by left|done]).
    exists (presents cert (serialize_private_key_der g)). intros ep [Heq|Hin]%elem_of_cons; (split; [|done]).
    - injection Heq as ->. by apply quic_endpoint_Ok in Hep as (_ & _ & ->).
    - by eapply start_all_held. }
  all: pose proof (server_identity_keyless (start_generated s) (start_options s) f Hs Hf) as Hk; cbv zeta in Hk;
    rewrite <- (quic_tunnel_rx_state _ (start_bind s)), Hw in Hk; cbn [snd] in Hk.
  all: destruct Hk as [Hk|(g & Hg & cert & key & Hd & Hh & Hp)];
    [destruct (IH f1 Hk) as (c & Hc); exists c; intros ep [Heq|Hin]%elem_of_cons; [discriminate Heq|];
     destruct (Hc ep Hin); eauto using generated_in_cons|].
  all: exists (presents cert (serialize_private_key_der g)); intros ep [Heq|Hin]%elem_of_cons; [discriminate Heq|];
    destruct (start_all_held ss f1 cert key ep Hss Hh Hin) as [Hc Hw1];
    rewrite (key_cut_refused g key [cert] Hp Hw1) in Hc; split; [done|];
    exists s, g, cert; split; [by left|done].
Qed.

(** C18: a QUIC server whose data directory holds no key when it is first started has
    one identity. However its starts go (files that cannot be written or are written
    in part, a generator that fails, a port that is taken), all that succeed present
    the same certificate with the same key, which belong together: one of the starts
    generated them. *)
Theorem keyless_server_one_identity ss f :
  Forall (λ s, own_identity (start_options s)) ss → keyless f →
  ∀ ep ep', Ok ep ∈ (start_all ss f).1 → Ok ep' ∈ (start_all ss f).1 →
  qe_crypto ep = qe_crypto ep' ∧ generated_in ss (qe_crypto ep).
Proof.
  intros Hss Hf ep ep' Hin Hin'. destruct (keyless_start_all ss f Hss Hf) as (c & Hc).
  destruct (Hc ep Hin) as [-> Hg], (Hc ep' Hin') as [-> _]. done.
Qed.

(** C33: server and client agree on how they use a connection: the same protocol name
    and idle time, which is ten minutes, and the server admits as many streams at a time
    as the client's manager ever opens on a connection, so that opening one never
    waits for another to end. *)
Theorem quic_endpoints_agree pd pd' generated bind o f ep f' native o' fc (cfg : QuicClientConfig A) :
  quic_tunnel_rx pd generated bind o f = (Ok ep, f') → new_builder pd' native o' fc = Ok cfg →
  cc_alpn (qc_crypto cfg) = sc_alpn (qe_crypto ep) ∧ qc_transport cfg = qe_transport ep ∧
  max_idle_timeout (qe_transport ep) = Some (10 * 60 * 1000)%Z ∧
  ∀ T setup (env : Env T) es c,
    (Z.of_nat (opened_on c (quic_connection_daemon setup env es).1.2) ≤ max_concurrent_bidi_streams (qe_transport ep))%Z.
Proof.
  unfold quic_tunnel_rx. intros ([certs key] & s & _ & [= Hq <-])%st_bind_Ok.
  apply quic_endpoint_Ok in Hq as (_ & Ht & ->). unfold new_builder.
  intros (roots & _ & Hn)%outcome_bind_Ok. apply outcome_bind_Ok in Hn as (crypto & _ & Hn).
  unfold server_transport in Ht. unfold client_transport in Hn.
  rewrite idle_timeout_small, varint_small in Ht, Hn by done. injection Hn as <-. injection Ht as <-.
  split_and!; [done..|]. intros T setup env es c. destruct (daemon_log setup env es) as (_ & Hn & _).
  cbn [max_concurrent_bidi_streams qe_transport]. apply inj_le, Hn.
Qed.
End starts.

(** ** Examples *)

(** A disk with files that cannot be written. *)
Record Disk := mkDisk { disk_files : gmap (list Z) (list Z); disk_locked : list (list Z) }.

#[export] Instance Disk_Files : Files Disk := {
  fs_read d p := match disk_files d !! p with Some x => Ok x | None => Err NotFound end;
  fs_create_dir_all _ d := (Ok tt, d);
  fs_write p x d :=
    if decide (p ∈ disk_locked d) then (Err (Os 13), d)
    else (Ok tt, mkDisk (<[p:=x]> (disk_files d)) (disk_locked d));
}.

#[export] Instance Disk_FilesOk : FilesOk Disk.
Proof.
  split; cbn.
  - done.
  - intros p x d. case_decide; [done|]. cbn. by rewrite lookup_insert_eq.
  - intros p x d y. case_decide; cbn; [by left|]. rewrite lookup_insert_eq. intros [= ->]. by right.
  - intros dir a b x d y _ _ Hab. case_decide; [done|]. cbn.
    rewrite lookup_insert_ne; [done|]. by intros ?%join_inj.
Qed.

(** Keys and certificates of the examples: a length and that many bytes. *)
#[local] Instance ex_library : TlsLibrary (list Z) (list Z) := {
  pkcs8_private_keys _ := Ok [];
  rsa_private_keys _ := Ok [];
  pem_certs _ := Ok [];
  serialize_private_key_der g := Z.of_nat (length g) :: g;
  serialize_der g := Ok (0%Z :: g);
  with_single_cert _ key :=
    match key with n :: k => if decide (n = Z.of_nat (length k)) then Ok tt else Err 1%Z | [] => Err 1%Z end;
  trust_anchor cert := Ok cert;
  idle_timeout z := Ok z;
  varint z := if decide (z < 2 ^ 62)%Z then Ok z else Err 2%Z;
}.

#[local] Instance ex_library_ok : TlsLibraryOk (list Z) (list Z).
Proof.
  split; cbn.
  - done.
  - intros z [_ Hz]. by rewrite decide_True.
  - intros g [|n k] _ Hp Hw; [done|]. case_decide as Hn; [|done]. destruct Hp as [k' [= <- Hp]].
    apply Nat2Z.inj in Hn. rewrite Hp, length_app in Hn.
    destruct k'; [|cbn in Hn; lia]. by rewrite Hp, app_nil_r.
Qed.

Definition ex_dir : list Z := bytes_of_string "/data".
Definition ex_options (key cert : option (list Z)) : Opt :=
  mkOpt (SocketV4 [127; 0; 0; 1]%Z 8888) (SocketV4 [127; 0; 0; 1]%Z 8889) INFO None [] 443 [] true key cert [] 0 Acceptor.Quic None.
Definition ex_bind (ok : bool) (_ : SocketAddr) : outcome io_error unit := if ok then Ok tt else Err (Os 98).

(** A start on a port that is taken, and two that succeed. *)
Definition ex_starts : list (Start (G:=list Z)) :=
  [mkStart (ex_options None None) (Ok [1; 2]%Z) (ex_bind false);
   mkStart (ex_options None None) (Ok [3]%Z) (ex_bind true);
   mkStart (ex_options None None) (Err 7%Z) (ex_bind true)].

Definition ex_endpoint : QuicEndpoint :=
  mkQuicEndpoint (presents [0; 1; 2]%Z [2; 1; 2]%Z) (mkTransport (Some 600000%Z) 6 4 30) (SocketV4 [0; 0; 0; 0]%Z 443).

Lemma keyless_server_one_identity_witness :
  (start_all ex_dir ex_starts (mkDisk ∅ [])).1 = [Err (SetupIo "" (Os 98)); Ok ex_endpoint; Ok ex_endpoint] ∧
  generated_in ex_starts (qe_crypto ex_endpoint).
Proof.
  assert ((start_all ex_dir ex_starts (mkDisk ∅ [])).1 = [Err (SetupIo "" (Os 98)); Ok ex_endpoint; Ok ex_endpoint]) as Hr
    by (vm_compute; reflexivity).
  split; [exact Hr|].
  assert (Ok ex_endpoint ∈ (start_all ex_dir ex_starts (mkDisk ∅ [])).1) as Hin
    by (rewrite Hr; right; left).
  refine (proj2 (keyless_server_one_identity ex_dir ex_starts (mkDisk ∅ []) _ _ ex_endpoint ex_endpoint Hin Hin)).
  - repeat constructor.
  - intros k. vm_compute. discriminate.
Defined.

Lemma quic_identity_persists_witness :
  let '(r, f') := quic_tunnel_rx (Some ex_dir) (Ok [1; 2]%Z) (ex_bind true) (ex_options None None) (mkDisk ∅ []) in
  r = Ok ex_endpoint ∧
  (∀ generated', quic_tunnel_rx (Some ex_dir) generated' (ex_bind true) (ex_options None None) f' = (r, f')).
Proof.
  destruct (quic_tunnel_rx (Some ex_dir) (Ok [1; 2]%Z) (ex_bind true) (ex_options None None) (mkDisk ∅ [])) as [r f'] eqn:Hq.
  assert (r = Ok ex_endpoint) as -> by (change r with (r, f').1; rewrite <- Hq; vm_compute; reflexivity).
  split; [reflexivity|].
  destruct (quic_identity_persists ex_dir (Ok [1; 2]%Z) (ex_bind true) (ex_options None None) (mkDisk ∅ [])
    ex_endpoint f' (or_introl eq_refl) Hq) as (cert & _ & Hagain & _).
  intros generated'. exact (Hagain generated' (ex_bind true) (ex_options None None) (or_introl eq_refl)).
Defined.

Lemma quic_endpoints_agree_witness :
  ∃ cfg : QuicClientConfig (list Z),
  new_builder (Some ex_dir) (Ok []) (ex_options None None)
    (quic_tunnel_rx (Some ex_dir) (Ok [1; 2]%Z) (ex_bind true) (ex_options None None) (mkDisk ∅ [])).2 = Ok cfg ∧
  cc_roots (qc_crypto cfg) = [[0; 1; 2]%Z] ∧ qc_transport cfg = qe_transport ex_endpoint.
Proof.
  destruct (quic_tunnel_rx (Some ex_dir) (Ok [1; 2]%Z) (ex_bind true) (ex_options None None) (mkDisk ∅ [])) as [r f'] eqn:Hq.
  assert (r = Ok ex_endpoint) as -> by (change r with (r, f').1; rewrite <- Hq; vm_compute; reflexivity).
  exists (mkQuicClient (mkClientCrypto [[0; 1; 2]%Z] ALPN_QUIC_HTTP) (qe_transport ex_endpoint)).
  assert (new_builder (Some ex_dir) (Ok []) (ex_options None None) f'
    = Ok (mkQuicClient (mkClientCrypto [[0; 1; 2]%Z] ALPN_QUIC_HTTP) (qe_transport ex_endpoint))) as Hb
    by (change f' with (Ok (E:=setup_error) ex_endpoint, f').2; rewrite <- Hq; vm_compute; reflexivity).
  split; [exact Hb|]. split; [reflexivity|].
  exact (proj1 (proj2 (quic_endpoints_agree _ _ _ _ _ _ _ _ _ _ _ _ Hq Hb))).
Defined.

(** A key of an earlier identity that cannot be replaced: the first start writes a new
    certificate and fails; all later ones present it with the old key. *)
Example stale_key_mismatch :
  let key_der := join ex_dir KEY_DER in
  let '(rs, _) := start_all ex_dir ex_starts (mkDisk {[key_der := [1; 9]%Z]} [key_der]) in
  rs = [Err (SetupIo "failed to write private key" (Os 13));
        Ok (mkQuicEndpoint (presents [0; 1; 2]%Z [1; 9]%Z) (qe_transport ex_endpoint) (qe_addr ex_endpoint));
        Ok (mkQuicEndpoint (presents [0; 1; 2]%Z [1; 9]%Z) (qe_transport ex_endpoint) (qe_addr ex_endpoint))].
Proof. vm_compute. reflexivity. Qed.
