(* ===== verification/Simd.v ===== *)
(** The search for the end of a line: src/src/simd/simd_parse.rs.

    The module is not part of the build. [parse_simd_8] and [parse_simd_16] look for
    CRLF in blocks of 8 and 16 bytes with NEON instructions, modelled lane by lane
    and bit by bit; [parse_scalar] is the loop over the bytes. *)
From S2P Require Import Prelude.

(** ** The instructions *)

(** [vceq_u8], [vand_u8], [vaddv_u8] and the versions on 16 lanes. *)
Definition vceq (mask : Z) (data : list Z) : list Z := map (λ d, if decide (d = mask) then 255%Z else 0%Z) data.
Definition vand (a b : list Z) : list Z := zip_with Z.land a b.
Definition vaddv (a : list Z) : Z := u8_wrap (foldr Z.add 0%Z a).

(** A number from its bits, the lowest first. *)
Fixpoint of_bits (bs : list bool) : Z :=
  match bs with
  | [] => 0
  | b :: bs' => Z.b2z b + 2 * of_bits bs'
  end%Z.

(** [_rbit_u64] and [_clz_u64]. *)
Definition rbit64 (x : Z) : Z := of_bits (map (λ i, Z.testbit x (63 - Z.of_nat i)) (seq 0 64)).
Fixpoint leading_zeros (n : nat) (x : Z) : nat :=
  match n with
  | 0 => 0
  | S n' => if Z.testbit x (Z.of_nat n') then 0 else S (leading_zeros n' x)
  end.
Definition clz64 (x : Z) : nat := leading_zeros 64 x.

(** ** The blocks *)
Definition BYTE_MASK_DATA : list Z := [1; 2; 4; 8; 16; 32; 64; 128]%Z.
Definition BYTE_MASK_DATA_HIGH : list Z := replicate 8 0%Z ++ BYTE_MASK_DATA.
Definition BYTE_MASK_DATA_LOW : list Z := BYTE_MASK_DATA ++ replicate 8 0%Z.

(** [neon_move_mask!]. *)
Definition neon_move_mask_8 (mask filter : list Z) : Z := vaddv (vand mask filter).
Definition neon_move_mask_16 (mask filter_high filter_low : list Z) : Z :=
  (Z.shiftl (vaddv (vand mask filter_high)) 8 + vaddv (vand mask filter_low))%Z.

Definition block_8 (data : list Z) : nat :=
  let bits1 := neon_move_mask_8 (vceq 13 data) BYTE_MASK_DATA in
  let bits2 := neon_move_mask_8 (vceq 10 data) BYTE_MASK_DATA in
  clz64 (Z.lor (rbit64 (Z.land (Z.shiftr bits2 1) bits1)) (Z.shiftl 1 55)).

Definition block_16 (data : list Z) : nat :=
  let bits1 := neon_move_mask_16 (vceq 13 data) BYTE_MASK_DATA_HIGH BYTE_MASK_DATA_LOW in
  let bits2 := neon_move_mask_16 (vceq 10 data) BYTE_MASK_DATA_HIGH BYTE_MASK_DATA_LOW in
  clz64 (Z.lor (rbit64 (Z.land (Z.shiftr bits2 1) bits1)) (Z.shiftl 1 47)).

(** [while buf.len() >= w { .. }]. *)
Fixpoint simd_loop (w : nat) (block : list Z → nat) (fuel res : nat) (buf : list Z) : outcome unit nat :=
  match fuel with
  | 0 => OutOfFuel
  | S fuel' =>
      if decide (w ≤ length buf) then
        let ret := block (take w buf) in
        let res := res + ret in
        if decide (ret ≠ w) then Ok res else simd_loop w block fuel' res (drop w buf)
      else Ok res
  end.

(** Every turn drops a block. *)
Definition parse_simd_8 (buf : list Z) : outcome unit nat := simd_loop 8 block_8 (S (length buf)) 0 buf.
Definition parse_simd_16 (buf : list Z) : outcome unit nat := simd_loop 16 block_16 (S (length buf)) 0 buf.

(** The loop of [parse_scalar] with [n] turns left. *)
Fixpoint scalar_loop (buf : list Z) (i n : nat) : outcome unit nat :=
  match n with
  | 0 => Ok (length buf)
  | S n' =>
      a ← index buf i;
      b ← (if decide (a = 13%Z) then index buf (i + 1) else mret 0%Z);
      if decide (a = 13%Z ∧ b = 10%Z) then Ok i else scalar_loop buf (i + 1) n'
  end.

(** [0..buf.len() - 1]: on an empty buffer the subtraction panics, or wraps and the
    first access panics. *)
Definition parse_scalar (buf : list Z) : outcome unit nat :=
  if decide (length buf = 0) then Panic "attempt to subtract with overflow"
  else scalar_loop buf 0 (length buf - 1).

(** ** The first CRLF *)
Definition crlf_at (buf : list Z) (i : nat) : Prop := buf !! i = Some 13%Z ∧ buf !! S i = Some 10%Z.

(** Its place, the length of the buffer if there is none. *)
Fixpoint first_crlf (buf : list Z) : nat :=
  match buf with
  | [] => 0
  | a :: buf' => if decide (a = 13%Z ∧ buf' !! 0 = Some 10%Z) then 0 else S (first_crlf buf')
  end.

Lemma first_crlf_spec buf :
  first_crlf buf ≤ length buf ∧ (∀ i, i < first_crlf buf → ¬ crlf_at buf i) ∧
  (first_crlf buf = length buf ∨ crlf_at buf (first_crlf buf)).
Proof.
  induction buf as [|a buf (Hl & Hn & Hr)]; cbn [first_crlf length]; [split_and!; [lia|lia|by left]|].
  case_decide as Hc.
  - split_and!; [lia|lia|]. right. destruct Hc as [-> Hb]. done.
  - split_and!; [lia| |].
    + intros [|i] Hi; [intros [[= ->] Hb]; by apply Hc|]. apply (Hn i). lia.
    + destruct Hr as [->|Hr]; [by left|by right].
Qed.

(** The place is determined. *)
Lemma first_crlf_unique buf r :
  r ≤ length buf → (∀ i, i < r → ¬ crlf_at buf i) → (r = length buf ∨ crlf_at buf r) → r = first_crlf buf.
Proof.
  intros Hl Hn Hr. destruct (first_crlf_spec buf) as (Hl' & Hn' & Hr').
  destruct (Nat.lt_trichotomy r (first_crlf buf)) as [Hlt|[?|Hlt]]; [|done|].
  - destruct Hr as [->|Hr]; [lia|]. by destruct (Hn' r Hlt).
  - destruct Hr' as [Hr'|Hr']; [lia|]. by destruct (Hn _ Hlt).
Qed.

(** ** Bits *)

(** The place of the first set bit, the number of bits if there is none. *)
Fixpoint first_set (bs : list bool) : nat :=
  match bs with
  | [] => 0
  | b :: bs' => if b : bool then 0 else S (first_set bs')
  end.

Lemma first_set_stop bs rest : first_set (bs ++ true :: rest) = first_set bs.
Proof. induction bs as [|[] bs IH]; cbn; [done|done|by rewrite IH]. Qed.

Lemma of_bits_testbit bs i : Z.testbit (of_bits bs) (Z.of_nat i) = nth i bs false.
Proof.
  revert i. induction bs as [|b bs IH]; intros i; cbn [of_bits nth]; [rewrite Z.testbit_0_l; by destruct i|].
  rewrite Z.add_comm. destruct i as [|i].
  - apply Z.testbit_0_r.
  - rewrite Nat2Z.inj_succ, Z.testbit_succ_r by lia. apply IH.
Qed.

Lemma of_bits_app bs cs : of_bits (bs ++ cs) = (of_bits bs + 2 ^ Z.of_nat (length bs) * of_bits cs)%Z.
Proof.
  induction bs as [|b bs IH]; cbn [of_bits app length]; [cbn; lia|].
  rewrite IH, Nat2Z.inj_succ, Z.pow_succ_r by lia. lia.
Qed.

Lemma leading_zeros_first n x :
  leading_zeros n x = first_set (map (λ i, Z.testbit x (Z.of_nat (n - 1 - i))) (seq 0 n)).
Proof.
  induction n as [|n IH]; [done|]. cbn [leading_zeros seq map first_set].
  replace (S n - 1 - 0) with n by lia. destruct (Z.testbit x (Z.of_nat n)); [done|]. f_equal.
  rewrite IH, <- seq_shift, map_map. f_equal. apply map_ext. intros i. do 2 f_equal. lia.
Qed.

Lemma rbit64_testbit x i : i < 64 → Z.testbit (rbit64 x) (Z.of_nat i) = Z.testbit x (63 - Z.of_nat i).
Proof.
  intros Hi. unfold rbit64. rewrite of_bits_testbit.
  rewrite (nth_indep _ false (Z.testbit x (63 - Z.of_nat 0))) by (rewrite length_map, length_seq; done).
  rewrite (map_nth (λ i, Z.testbit x (63 - Z.of_nat i))). by rewrite seq_nth.
Qed.

(** The position the blocks compute: the first of the low [w] bits that is set. *)
Lemma clz_rbit w x :
  w < 64 →
  clz64 (Z.lor (rbit64 x) (Z.shiftl 1 (63 - Z.of_nat w))) = first_set (map (λ i, Z.testbit x (Z.of_nat i)) (seq 0 w)).
Proof.
  intros Hw. unfold clz64. rewrite leading_zeros_first.
  rewrite (map_ext_in _ (λ i, Z.testbit x (Z.of_nat i) || bool_decide (i = w))).
  2: { intros i Hi%in_seq. rewrite Z.lor_spec, Z.shiftl_1_l, Z.pow2_bits_eqb by lia.
    rewrite rbit64_testbit by lia. f_equal; [f_equal; lia|].
    destruct (decide (i = w)) as [->|Hne]; [rewrite bool_decide_true by done; apply Z.eqb_eq; lia|].
    rewrite bool_decide_false by done. apply Z.eqb_neq. lia. }
  replace 64 with (w + S (63 - w)) by lia. rewrite seq_app, map_app. cbn [seq map].
  rewrite (bool_decide_true (0 + w = w)), orb_true_r, first_set_stop by done.
  f_equal. apply map_ext_in. intros i Hi%in_seq. rewrite bool_decide_false by lia. apply orb_false_r.
Qed.

(** *** Masks *)
Definition lanes (mask : Z) (data : list Z) : list bool := map (λ d, bool_decide (d = mask)) data.

Lemma lane_bit (mask d m : Z) :
  Z.land (if decide (d = mask) then 255 else 0) m = if bool_decide (d = mask) then Z.land 255 m else 0%Z.
Proof. destruct (decide (d = mask)); [by rewrite bool_decide_true|by rewrite bool_decide_false]. Qed.

(** The sum of eight masked lanes has the lanes as its bits. *)
Lemma move_mask_8 mask data :
  length data = 8 → neon_move_mask_8 (vceq mask data) BYTE_MASK_DATA = of_bits (lanes mask data).
Proof.
  intros Hl. do 8 (destruct data as [|? data]; [done|]). destruct data; [|done].
  unfold neon_move_mask_8, vand, vceq, BYTE_MASK_DATA, vaddv. cbn [map zip_with foldr].
  rewrite !lane_bit. unfold lanes. cbn [map].
  repeat match goal with |- context [bool_decide ?P] => generalize (bool_decide P); intros ? end.
  by repeat match goal with b : bool |- _ => destruct b end.
Qed.

Lemma vand_zeros l k n : vaddv (vand l (replicate n 0%Z ++ k)) = vaddv (vand (drop n l) k).
Proof.
  unfold vaddv, vand. revert l. induction n as [|n IH]; intros [|x l]; cbn; try done.
  rewrite Z.land_0_r. apply IH.
Qed.

Lemma vand_cut l k n : length l = length k → vaddv (vand (l ++ n) k) = vaddv (vand l k).
Proof.
  intros Hl. unfold vaddv, vand. f_equal. f_equal. revert k Hl.
  induction l as [|x l IH]; intros [|y k] [=]; cbn; [by destruct n|]. by rewrite IH.
Qed.

Lemma vand_zeros_after l k n : vaddv (vand l (k ++ replicate n 0%Z)) = vaddv (vand (take (length k) l) k).
Proof.
  unfold vaddv, vand. f_equal. revert l. induction k as [|y k IH]; intros [|x l]; cbn; try done.
  - assert (∀ m l, foldr Z.add 0%Z (zip_with Z.land l (replicate m 0%Z)) = 0%Z) as Hz.
    { intros m. induction m as [|m IHm]; intros [|z l']; cbn; try done. by rewrite Z.land_0_r, IHm. }
    exact (Hz n (x :: l)).
  - by rewrite IH.
Qed.

Lemma vaddv_small a : (0 ≤ vaddv a < 256)%Z.
Proof. apply Z.mod_pos_bound. lia. Qed.

Lemma move_mask_16 mask data :
  length data = 16 →
  neon_move_mask_16 (vceq mask data) BYTE_MASK_DATA_HIGH BYTE_MASK_DATA_LOW = of_bits (lanes mask data).
Proof.
  intros Hl. unfold neon_move_mask_16, BYTE_MASK_DATA_HIGH, BYTE_MASK_DATA_LOW.
  rewrite vand_zeros, vand_zeros_after. unfold vceq. rewrite skipn_map, firstn_map.
  cbn [length BYTE_MASK_DATA].
  pose proof (move_mask_8 mask (drop 8 data) ltac:(rewrite length_drop; lia)) as Hh.
  pose proof (move_mask_8 mask (take 8 data) ltac:(rewrite length_take; lia)) as Hlow.
  unfold neon_move_mask_8, vceq in Hh, Hlow. rewrite Hh, Hlow.
  rewrite <- (take_drop 8 data) at 3. unfold lanes. rewrite map_app, of_bits_app, length_map, length_take.
  rewrite Z.shiftl_mul_pow2 by lia. replace (8 `min` length data) with 8 by lia. lia.
Qed.

(** [(bits2 >> 1) & bits1] marks the places of CRLF inside the block. *)
Lemma pair_bits data w :
  length data = w →
  first_set (map (λ i, Z.testbit (Z.land (Z.shiftr (of_bits (lanes 10 data)) 1) (of_bits (lanes 13 data))) (Z.of_nat i))
    (seq 0 w)) = first_crlf data.
Proof.
  intros <-.
  rewrite (map_ext _ (λ i, nth (S i) (lanes 10 data) false && nth i (lanes 13 data) false)).
  2: { intros i. rewrite Z.land_spec, Z.shiftr_spec by lia. rewrite (of_bits_testbit (lanes 13 data)). f_equal.
    rewrite <- of_bits_testbit. f_equal. lia. }
  induction data as [|a data IH]; [done|]. cbn [length seq map first_set first_crlf].
  rewrite <- seq_shift, map_map. unfold lanes. cbn [map nth]. fold (lanes 10 data) (lanes 13 data).
  assert (nth 0 (lanes 10 data) false = bool_decide (data !! 0 = Some 10%Z)) as ->.
  { destruct data as [|b data]; [done|]. cbn. by apply bool_decide_ext; split; [intros ->|intros [=]]. }
  rewrite IH.
  case_decide as Hc.
  - destruct Hc as [-> Hb]. by rewrite !bool_decide_true.
  - destruct (bool_decide (data !! 0 = Some 10%Z)) eqn:E1, (bool_decide (a = 13%Z)) eqn:E2; try done.
    apply bool_decide_eq_true in E1, E2. by destruct Hc.
Qed.

Lemma block_8_first data : length data = 8 → block_8 data = first_crlf data.
Proof.
  intros Hl. unfold block_8. rewrite !move_mask_8 by done. rewrite <- (pair_bits data 8 Hl).
  apply (clz_rbit 8). lia.
Qed.

Lemma block_16_first data : length data = 16 → block_16 data = first_crlf data.
Proof.
  intros Hl. unfold block_16. rewrite !move_mask_16 by done. rewrite <- (pair_bits data 16 Hl).
  apply (clz_rbit 16). lia.
Qed.

(** ** The loops *)
Lemma mod_shift w j : 0 < w → (w + j) mod w = j mod w.
Proof. intros Hw. rewrite Nat.add_comm. replace (j + w) with (j + 1 * w) by lia. apply Nat.Div0.mod_add. Qed.

Lemma div_shift w n : 0 < w → w ≤ n → n / w = S ((n - w) / w).
Proof. intros Hw Hn. replace n with (n - w + 1 * w) at 1 by lia. rewrite Nat.div_add by lia. lia. Qed.

Lemma crlf_at_take w buf i : S i < w → crlf_at (take w buf) i ↔ crlf_at buf i.
Proof. intros Hi. unfold crlf_at. by rewrite !lookup_take_lt by lia. Qed.

Lemma crlf_at_drop w buf i : crlf_at (drop w buf) i ↔ crlf_at buf (w + i).
Proof. unfold crlf_at. by rewrite !lookup_drop, Nat.add_succ_r. Qed.

(** The first CRLF that lies within a block, if [r] is not the end of the last. *)
Definition first_in_blocks (w : nat) (buf : list Z) (r : nat) : Prop :=
  r ≤ w * (length buf / w) ∧ (∀ i, i < r → crlf_at buf i → i mod w = w - 1) ∧
  (r = w * (length buf / w) ∨ crlf_at buf r ∧ r mod w ≠ w - 1).

Lemma simd_loop_spec w block fuel res buf :
  0 < w → (∀ data, length data = w → block data = first_crlf data) → length buf < fuel →
  ∃ r, simd_loop w block fuel res buf = Ok (res + r) ∧ first_in_blocks w buf r.
Proof.
  intros Hw Hblock. revert res buf. induction fuel as [|fuel IH]; intros res buf Hf; [lia|]. cbn [simd_loop].
  case_decide as Hl.
  2: { exists 0. unfold first_in_blocks. rewrite Nat.add_0_r, Nat.div_small, Nat.mul_0_r by lia.
    split_and!; [done|lia|lia|by left]. }
  assert (length (take w buf) = w) as Ht by (rewrite length_take; lia). rewrite (Hblock _ Ht). cbn zeta.
  destruct (first_crlf_spec (take w buf)) as (Hle & Hno & Hend). rewrite Ht in Hle, Hend.
  assert (∀ i, i < first_crlf (take w buf) → crlf_at buf i → i = w - 1) as Hedge.
  { intros i Hi Hc. destruct (decide (S i < w)); [|lia]. destruct (Hno i Hi). by apply crlf_at_take. }
  case_decide as Hret.
  - destruct Hend as [?|Hc]; [done|]. exists (first_crlf (take w buf)). split; [done|].
    assert (S (first_crlf (take w buf)) < w) as HS.
    { destruct Hc as [_ Hc]. apply lookup_lt_Some in Hc. lia. }
    split_and!.
    + rewrite div_shift by lia. lia.
    + intros i Hi Hci. specialize (Hedge i Hi Hci). lia.
    + right. split; [by apply (crlf_at_take w)|]. rewrite Nat.mod_small by lia. lia.
  - rewrite Hret in *.
    destruct (IH (res + w) (drop w buf)) as (r & Hr & Hle2 & Hno2 & Hend2); [rewrite length_drop; lia|].
    exists (w + r). split; [rewrite Hr; f_equal; lia|]. unfold first_in_blocks.
    rewrite length_drop in *. rewrite (div_shift w (length buf)) by lia. split_and!; [lia| |].
    + intros i Hi Hc. destruct (decide (i < w)) as [Hiw|Hiw].
      * rewrite (Hedge i Hiw Hc). apply Nat.mod_small. lia.
      * replace i with (w + (i - w)) in Hc |- * by lia. rewrite mod_shift by done.
        apply Hno2; [lia|]. by apply crlf_at_drop.
    + rewrite mod_shift by done. destruct Hend2 as [->|[Hc Hm]]; [left; lia|right].
      split; [by apply crlf_at_drop|done].
Qed.

Lemma scalar_loop_spec buf n i :
  i + n + 1 = length buf → (∀ j, j < i → ¬ crlf_at buf j) → scalar_loop buf i n = Ok (first_crlf buf).
Proof.
  revert i. induction n as [|n IH]; intros i Hn Hno; cbn [scalar_loop].
  - f_equal. apply first_crlf_unique; [done| |by left]. intros j Hj Hc.
    destruct (decide (j < i)); [by apply (Hno j)|]. destruct Hc as [_ Hc%lookup_lt_Some]. lia.
  - destruct (lookup_lt_is_Some_2 buf i ltac:(lia)) as [a Ha], (lookup_lt_is_Some_2 buf (i + 1) ltac:(lia)) as [b Hb].
    unfold index. rewrite Ha, Hb. cbn [mbind outcome_bind].
    assert (∀ b', (b' = b ∨ a ≠ 13%Z) → (if decide (a = 13%Z ∧ b' = 10%Z) then Ok i else scalar_loop buf (i + 1) n) =
      Ok (first_crlf buf)) as Hstep.
    { intros b' Hb'. rewrite Nat.add_1_r in *. case_decide as Hc.
      - f_equal. destruct Hc as [-> ->], Hb' as [<-|]; [|done].
        apply first_crlf_unique; [lia|done|right; done].
      - apply IH; [lia|]. intros j Hj Hcj. destruct (decide (j = i)) as [->|]; [|apply (Hno j); [lia|done]].
        destruct Hcj as [H1 H2]. rewrite Ha in H1. rewrite Hb in H2. injection H1 as ->. injection H2 as ->.
        destruct Hb' as [->|]; [by destruct Hc|done]. }
    destruct (decide (a = 13%Z)); cbn [mbind outcome_bind mret outcome_ret]; apply Hstep; auto.
Qed.

(** * Properties *)
Definition parse_simd (wide : bool) : list Z → outcome unit nat := if wide then parse_simd_16 else parse_simd_8.
Definition width (wide : bool) : nat := if wide then 16 else 8.

(** C40: the vector searches against the scalar one. Both widths return, on every
    buffer, the place of the first CRLF that does not straddle two blocks, or the end
    of the last whole block if there is none; so they agree with the scalar search on
    every non-empty buffer of whole blocks none of whose CRLFs straddles. *)
Theorem simd_matches_scalar wide buf :
  (∃ r, parse_simd wide buf = Ok r ∧ first_in_blocks (width wide) buf r) ∧
  (buf ≠ [] → length buf mod width wide = 0 → (∀ i, crlf_at buf i → i mod width wide ≠ width wide - 1) →
   parse_simd wide buf = parse_scalar buf).
Proof.
  assert (∃ r, parse_simd wide buf = Ok r ∧ first_in_blocks (width wide) buf r) as Hspec.
  { destruct wide; [apply (simd_loop_spec 16 block_16 _ 0)|apply (simd_loop_spec 8 block_8 _ 0)];
      auto using block_8_first, block_16_first with lia. }
  split; [exact Hspec|]. intros Hne Hmod Hin. destruct Hspec as (r & -> & Hle & Hno & Hend).
  assert (0 < length buf) by (destruct buf; [done|cbn; lia]).
  unfold parse_scalar. rewrite decide_False, scalar_loop_spec by lia. f_equal.
  assert (width wide * (length buf / width wide) = length buf) as Hw.
  { rewrite (Nat.div_mod_eq (length buf) (width wide)) at 2. lia. }
  rewrite Hw in *. apply first_crlf_unique; [done| |].
  - intros i Hi Hc. exact (Hin i Hc (Hno i Hi Hc)).
  - destruct Hend as [->|[Hc _]]; [by left|by right].
Qed.

(** A CRLF over the edge of a block is missed. *)
Example simd_misses_straddling :
  parse_simd_8 (replicate 7 97 ++ [13; 10] ++ replicate 7 97)%Z = Ok 16 ∧
  parse_scalar (replicate 7 97 ++ [13; 10] ++ replicate 7 97)%Z = Ok 7.
Proof. split; vm_compute; reflexivity. Qed.

(** The searches on one block with a CRLF inside. *)
Lemma simd_matches_scalar_witness :
  parse_simd false [97; 98; 13; 10; 99; 100; 101; 102]%Z = Ok 2 ∧
  parse_simd false [97; 98; 13; 10; 99; 100; 101; 102]%Z = parse_scalar [97; 98; 13; 10; 99; 100; 101; 102]%Z.
Proof.
  split; [vm_compute; reflexivity|].
  apply (proj2 (simd_matches_scalar false [97; 98; 13; 10; 99; 100; 101; 102]%Z)); [done|done|].
  intros i [Hi Hn]. do 8 (destruct i as [|i]; [done|]). discriminate.
Defined.
