(* ===== verification/Listeners.v ===== *)
(** The tasks of the process: src/src/proxy.rs, src/src/server/run.rs and
    src/src/client/run.rs, the accept loops of src/src/server/inbound/listener.rs and
    src/src/client/inbound/listener.rs, [handle_quic_connection] of
    src/src/server/inbound/handler.rs, and how the shutdown signal goes through them.

    A task that spawns others creates a broadcast channel, gives each of them a
    receiver and keeps the sender until it ends. Nothing is ever sent: a receiver is
    ready exactly when the task that created the channel has ended. So the state is
    the list of all tasks spawned so far, each with the task whose channel it
    watches; one task moves in a step, from one [await] to the next. What relays do is
    behind the interface [Connection]. Tasks are followed for as long as the runtime
    runs: [main] drops it when [build_tunnel] returns. *)
From stdpp Require Import relations.
From S2P Require Import Prelude Vec MixAddr Io Copy UdpTraits UdpCopy TrojanUdp Acceptor UdpSockets Quic.
From S2P Require Import Timeout Adapter LiteTls Inbound Socks5 Fallback Connector Client.

(** ** Connections

    The relay of a connection: one poll, given the order of its branches, whether the
    signal is there, and enough fuel. [conn_user] holds of what the listeners spawn. *)
Class Connection (C : Type) := {
  conn_user : C → bool;
  conn_poll : nat → list Branch → bool → C → outcome unit unit * C;
}.

Definition all_branches (order : list Branch) : Prop := order ≡ₚ [BDuplex; BTimeout; BShutdown].

(** A relay ends at the first poll after the signal. *)
Class ConnectionOk (C : Type) `{Connection C} : Prop := {
  conn_poll_user fuel order closed c : conn_user c = true → conn_user (conn_poll fuel order closed c).2 = true;
  conn_poll_closed fuel order c : conn_user c = true → all_branches order →
    (conn_poll fuel order true c).1 ≠ Pending;
}.

(** ** Tasks *)
Inductive QuicPc : Type := QlStart | QlNext | QlHandshake.
Inductive TcpPc : Type := TlStart | TlTop | TlAccept | TlRebind.

(** [daemon] is the task of the QUIC connection manager of this listener. *)
Inductive UserPc : Type :=
| UlStart
| UlTop (daemon : nat)
| UlAccept (daemon : nat)
| UlSend (daemon : nat).
Inductive ForwardPc : Type := FwAccepting | FwConnecting | FwAuth.

(** A request to the QUIC manager: its task, and the number of requests its listener
    had sent before. *)
Abbreviation Request := (nat * nat)%type.

Section tasks.
Context {C T : Type} `{Connection C}.
Abbreviation DaemonSt := (DaemonState * Quic * list (outcome quic_error T))%type.

(** What a task is doing. [taken] counts the requests the daemon has received. *)
Inductive TaskState : Type :=
| Ended
| Tunnel (server running : bool)
| QuicListener (pc : QuicPc)
| QuicConnection
| TcpTlsListener (pc : TcpPc)
| HandleTcpTls
| HandleOutbound
| UserListener (front : Front) (pc : UserPc)
| QuicDaemon (d : option DaemonSt) (taken : nat)
| Forward (pc : ForwardPc) (request : option Request)
| Relaying (request : option Request) (c : C).

(** [tk_sent]: the requests sent to the daemon so far (by a [UserListener]). *)
Record Task := mkTask { tk_parent : option nat; tk_state : TaskState; tk_sent : nat }.

(** A daemon that left or panicked is gone, with the receiver of its channel. *)
Definition ended (st : TaskState) : bool :=
  match st with
  | Ended => true
  | QuicDaemon (Some (d, _, _)) _ => match d with Left | Crashed _ => true | _ => false end
  | _ => false
  end.

(** ** What the environment answers *)
Inductive Accepted : Type := AcErr | AcOk (nodelay : bool).
Inductive Next : Type := NextPending | NextNone | NextApplicationClosed | NextErr | NextStream.

Inductive Event : Type :=
| EvRun (* the first poll of [run_server] or [run_client] *)
| EvCtrlC
| EvShutdown (* [recv] of the signal returns *)
| EvInit (ok : bool) (* configuration and bind *)
| EvPoll (* goes on without an answer *)
| EvAccept (a : Accepted)
| EvIncoming (some : bool) (* [incoming.next()] of the QUIC endpoint *)
| EvHandshake (ok : bool)
| EvStream (shutdown_first : bool) (next : Next)
| EvDone (ok : bool) (* the request is read, the server is reached *)
| EvRelay (c : option C) (* the relay is set up, or the task fails before *)
| EvRelayPoll (fuel : nat) (order : list Branch)
| EvDaemon (e : DaemonEvent T)
| EvDaemonNew (setup : outcome quic_error unit) (env : Env T).

(** The task's next state, the tasks it spawns, and the requests it sends. *)
Abbreviation Effect := (option (TaskState * list TaskState * nat)).
Definition goes (st : TaskState) : Effect := Some (st, [], 0).
Definition goes_or_ends (ok : bool) (st : TaskState) : Effect := goes (if ok then st else Ended).

(** ** Handlers

    [closed] is what the task's own receiver says. *)
Definition run_server : list TaskState := [QuicListener QlStart; TcpTlsListener TlStart].
Definition run_client : list TaskState := [UserListener HttpFront UlStart; UserListener Socks5Front UlStart].

(** The [select!] of ctrl-c and the rest; [run_server] and [run_client] then await
    [context.shutdown]. *)
Definition build_tunnel (server running closed : bool) (e : Event) : Effect :=
  match e, running with
  | EvCtrlC, _ => goes Ended
  | EvRun, false => Some (Tunnel server true, if server then run_server else run_client, 0)
  | EvShutdown, true => if closed then goes Ended else None
  | _, _ => None
  end.

(** The signal is looked at after [next]. *)
Definition quic_listener (closed : bool) (pc : QuicPc) (e : Event) : Effect :=
  match pc, e with
  | QlStart, EvInit ok => goes_or_ends ok (QuicListener QlNext)
  | QlNext, EvIncoming some => goes_or_ends (some && negb closed) (QuicListener QlHandshake)
  | QlHandshake, EvHandshake ok => Some (QuicListener QlNext, if ok then [QuicConnection] else [], 0)
  | _, _ => None
  end.

(** The [select!] of the next stream and the signal. *)
Definition handle_quic_connection (closed : bool) (e : Event) : Effect :=
  match e with
  | EvStream shutdown_first next =>
      if closed && (shutdown_first || match next with NextPending => true | _ => false end) then goes Ended
      else
        match next with
        | NextPending => goes QuicConnection
        | NextNone | NextApplicationClosed | NextErr => goes Ended
        | NextStream => Some (QuicConnection, [HandleOutbound], 0)
        end
  | _ => None
  end.

(** The signal is looked at before [accept]. *)
Definition tcp_tls_listener (closed : bool) (pc : TcpPc) (e : Event) : Effect :=
  match pc, e with
  | TlStart, EvInit ok | TlRebind, EvInit ok => goes_or_ends ok (TcpTlsListener TlTop)
  | TlTop, EvPoll => goes_or_ends (negb closed) (TcpTlsListener TlAccept)
  | TlAccept, EvAccept (AcOk true) => Some (TcpTlsListener TlTop, [HandleTcpTls], 0)
  | TlAccept, EvAccept (AcOk false) => goes Ended
  | TlAccept, EvAccept AcErr => goes (TcpTlsListener TlRebind)
  | _, _ => None
  end.

(** [handle_tcp_tls_connection] and [handle_outbound] up to the relay. *)
Definition relay_or_end (request : option Request) (oc : option C) : Effect :=
  match oc with
  | Some c => if conn_user c then goes (Relaying request c) else None
  | None => goes Ended
  end.
Definition handle_tcp_tls (e : Event) : Effect :=
  match e with EvHandshake ok => goes_or_ends ok HandleOutbound | _ => None end.
Definition handle_outbound_start (e : Event) : Effect :=
  match e with EvRelay oc => relay_or_end None oc | _ => None end.

(** [mpsc::channel(20)]. *)
Definition TASK_CHANNEL : nat := 20.

(** [new_id] is the number the next task gets, [daemon_gone] and [waiting] describe
    the daemon's channel, [sent] counts what went through it. *)
Definition user_endpoint_listener (mode : ConnectionMode) (closed daemon_gone : bool) (waiting sent new_id : nat)
    (front : Front) (pc : UserPc) (e : Event) : Effect :=
  match pc, e with
  | UlStart, EvInit true => Some (UserListener front (UlTop new_id), [QuicDaemon None 0], 0)
  | UlStart, EvInit false => goes Ended
  | UlTop d, EvPoll => goes_or_ends (negb closed) (UserListener front (UlAccept d))
  | UlAccept d, EvAccept AcErr => goes Ended
  | UlAccept d, EvAccept (AcOk _) =>
      match mode with
      | TcpTLS | LiteTLSMode => Some (UserListener front (UlTop d), [Forward FwAccepting None], 0)
      | Acceptor.Quic => goes (UserListener front (UlSend d))
      end
  | UlSend d, EvPoll =>
      if daemon_gone then goes (UserListener front (UlTop d))
      else if decide (waiting < TASK_CHANNEL) then
        Some (UserListener front (UlTop d), [Forward FwAccepting (Some (d, sent))], 1)
      else None
  | _, _ => None
  end.

(** [quic_connection_daemon] of Quic.v, fed from the channel of its listener, which
    closes with it. *)
Definition daemon_task (closed : bool) (sent : nat) (d : option DaemonSt) (taken : nat) (e : Event) : Effect :=
  match d, e with
  | None, EvDaemonNew setup env => goes (QuicDaemon (Some (quic_connection_daemon setup env [])) taken)
  | Some st, EvDaemon (EchoStep ev) => goes (QuicDaemon (Some (daemon_step st (EchoStep ev))) taken)
  | Some ((Quic.Serving, _, _) as st), EvDaemon (TaskRequested env) =>
      if decide (taken < sent) then goes (QuicDaemon (Some (daemon_step st (TaskRequested env))) (S taken)) else None
  | Some ((Quic.Serving, _, _) as st), EvDaemon TasksClosed =>
      if closed && bool_decide (taken = sent) then goes (QuicDaemon (Some (daemon_step st TasksClosed)) taken) else None
  | Some ((Quic.Serving, _, _) as st), EvDaemon ShutdownReceived =>
      if closed then goes (QuicDaemon (Some (daemon_step st ShutdownReceived)) taken) else None
  | _, _ => None
  end.

(** The daemon's answer to a request; [Some None]: its sender is dropped. *)
Definition reply (d : TaskState) (n : nat) : option (option (outcome quic_error T)) :=
  match d with
  | QuicDaemon (Some (_, _, replies)) _ =>
      match replies !! n with
      | Some r => Some (Some r)
      | None => if ended d then Some None else None
      end
  | _ => None
  end.

(** [forward] up to the relay: the user's request, then the server, which in QUIC
    mode is the daemon's answer ([conn_ret_rx.await??]). *)
Definition forward_task (answer : Request → option (option (outcome quic_error T))) (pc : ForwardPc)
    (request : option Request) (e : Event) : Effect :=
  match pc, e with
  | FwAccepting, EvDone ok => goes_or_ends ok (Forward FwConnecting request)
  | FwConnecting, EvDone ok =>
      match request with
      | None => goes_or_ends ok (Forward FwAuth request)
      | Some r =>
          match answer r with
          | Some (Some (Ok _)) => goes (Forward FwAuth request)
          | Some _ => goes Ended
          | None => None
          end
      end
  | FwAuth, EvRelay oc => relay_or_end request oc
  | _, _ => None
  end.

Definition relay_task (closed : bool) (request : option Request) (c : C) (e : Event) : Effect :=
  match e with
  | EvRelayPoll fuel order =>
      if decide (all_branches order) then
        match conn_poll fuel order closed c with
        | (Pending, c') => goes (Relaying request c')
        | (OutOfFuel, _) => None
        | _ => goes Ended
        end
      else None
  | _ => None
  end.

(** ** The process *)
Abbreviation World := (list Task).

Definition has_ended (w : World) (i : nat) : bool :=
  match w !! i with Some t => ended (tk_state t) | None => true end.
Definition signalled (w : World) (t : Task) : bool :=
  match tk_parent t with Some p => has_ended w p | None => false end.
Definition state_of (w : World) (i : nat) : TaskState :=
  match w !! i with Some t => tk_state t | None => Ended end.
Definition sent_by (w : World) (i : option nat) : nat :=
  match i with Some i => match w !! i with Some t => tk_sent t | None => 0 end | None => 0 end.

(** The requests in the channel of a daemon. *)
Definition waiting (w : World) (sent : nat) (d : nat) : nat :=
  match state_of w d with QuicDaemon _ taken => sent - taken | _ => 0 end.
Definition daemon_of (pc : UserPc) : nat :=
  match pc with UlStart => 0 | UlTop d | UlAccept d | UlSend d => d end.

Context (mode : ConnectionMode).

Definition task_step (w : World) (t : Task) (e : Event) : Effect :=
  let closed := signalled w t in
  match tk_state t with
  | Ended => None
  | Tunnel server running => build_tunnel server running closed e
  | QuicListener pc => quic_listener closed pc e
  | QuicConnection => handle_quic_connection closed e
  | TcpTlsListener pc => tcp_tls_listener closed pc e
  | HandleTcpTls => handle_tcp_tls e
  | HandleOutbound => handle_outbound_start e
  | UserListener front pc =>
      let d := daemon_of pc in
      user_endpoint_listener mode closed (has_ended w d) (waiting w (tk_sent t) d) (tk_sent t) (length w) front pc e
  | QuicDaemon d taken => daemon_task closed (sent_by w (tk_parent t)) d taken e
  | Forward pc request => forward_task (λ r, reply (state_of w r.1) r.2) pc request e
  | Relaying request c => relay_task closed request c e
  end.

(** Task [i] moves; the tasks it spawns watch its channel. *)
Definition step (w : World) (ie : nat * Event) : option World :=
  t ← w !! ie.1;
  '(st, spawned, sent) ← task_step w t ie.2;
  Some (<[ie.1 := mkTask (tk_parent t) st (tk_sent t + sent)]> w ++
    map (λ st, mkTask (Some ie.1) st 0) spawned).

(** [main] runs [build_tunnel]. *)
Definition boot (server : bool) : World := [mkTask None (Tunnel server false) 0].

Fixpoint steps (w : World) (es : list (nat * Event)) : option World :=
  match es with
  | [] => Some w
  | ie :: es' => w' ← step w ie; steps w' es'
  end.

Definition reachable (w : World) : Prop := ∃ server es, steps (boot server) es = Some w.

(** ** One step *)
Lemma step_cases w i e w' :
  step w (i, e) = Some w' → ∃ t st spawned sent,
    w !! i = Some t ∧ task_step w t e = Some (st, spawned, sent) ∧
    w' = <[i := mkTask (tk_parent t) st (tk_sent t + sent)]> w ++ map (λ st, mkTask (Some i) st 0) spawned.
Proof.
  unfold step. cbn [fst snd]. destruct (w !! i) as [t|]; [|done]. cbn [mbind option_bind].
  destruct (task_step w t e) as [[[st spawned] sent]|] eqn:Ht; [|done]. cbn. intros [= <-].
  by exists t, st, spawned, sent.
Qed.

(** Where the tasks of the next state come from. *)
Lemma step_task w i e w' j u :
  step w (i, e) = Some w' → w' !! j = Some u →
  (j ≠ i ∧ w !! j = Some u) ∨
  (∃ t spawned sent, j = i ∧ w !! i = Some t ∧ task_step w t e = Some (tk_state u, spawned, sent) ∧
    tk_parent u = tk_parent t ∧ tk_sent u = tk_sent t + sent) ∨
  (∃ t st spawned sent, w !! i = Some t ∧ task_step w t e = Some (st, spawned, sent) ∧
    tk_state u ∈ spawned ∧ tk_parent u = Some i ∧ tk_sent u = 0 ∧ length w ≤ j).
Proof.
  intros (t & st & spawned & sent & Ht & Hs & ->)%step_cases Hu.
  apply lookup_app_Some in Hu as [Hu|[Hlen Hu]].
  - destruct (decide (j = i)) as [->|Hne].
    + right. left. rewrite list_lookup_insert_eq in Hu by (by eapply lookup_lt_Some). injection Hu as <-.
      by exists t, spawned, sent.
    + left. by rewrite list_lookup_insert_ne in Hu.
  - right. right. rewrite length_insert in Hlen, Hu. rewrite list_lookup_fmap in Hu.
    destruct (spawned !! _) as [st'|] eqn:Hst; [|done]. injection Hu as <-.
    exists t, st, spawned, sent. split_and!; [done..| |done|done|done]. by eapply list_elem_of_lookup_2.
Qed.

(** A step changes its own task only, and keeps every task where it is. *)
Lemma step_keeps w i e w' j t :
  step w (i, e) = Some w' → w !! j = Some t →
  ∃ u, w' !! j = Some u ∧ tk_parent u = tk_parent t ∧ (j ≠ i → u = t).
Proof.
  intros (t' & st & spawned & sent & Ht' & Hs & ->)%step_cases Ht.
  destruct (decide (j = i)) as [->|Hne].
  - rewrite Ht' in Ht. injection Ht as ->. eexists. rewrite lookup_app_l, list_lookup_insert_eq
      by (rewrite ?length_insert; by eapply lookup_lt_Some). by split_and!.
  - exists t. rewrite lookup_app_l by (rewrite length_insert; by eapply lookup_lt_Some).
    by rewrite list_lookup_insert_ne.
Qed.

(** What has ended stays as it is. *)
Lemma task_step_ended w t e st spawned sent :
  ended (tk_state t) = true → task_step w t e = Some (st, spawned, sent) → ended st = true ∧ spawned = [] ∧ sent = 0.
Proof.
  unfold task_step. destruct (tk_state t) as [| | | | | | | |[[[d q] rs]|] taken| |]; cbn; try done.
  destruct d; try done; intros _; destruct e as [| | | | | | | | | | | | [] |]; try done; intros [= <- <- <-]; done.
Qed.

Lemma has_ended_step w i e w' j :
  step w (i, e) = Some w' → has_ended w j = true → j < length w → has_ended w' j = true.
Proof.
  intros Hs He Hj. destruct (lookup_lt_is_Some_2 _ _ Hj) as [t Ht]. unfold has_ended in He. rewrite Ht in He.
  destruct (step_keeps _ _ _ _ _ _ Hs Ht) as (u & Hu & _ & Hsame). unfold has_ended. rewrite Hu.
  destruct (step_task _ _ _ _ _ _ Hs Hu) as [[_ Hw]|[(t' & sp & sent & -> & Ht' & Hts & _)|(t' & st & sp & sent & _ & _ & _ & _ & _ & Hl)]].
  - rewrite Ht in Hw. by injection Hw as ->.
  - rewrite Ht in Ht'. injection Ht' as <-. by eapply task_step_ended.
  - lia.
Qed.

Lemma sent_by_step w i e w' p :
  step w (i, e) = Some w' → p < length w → has_ended w p = true → sent_by w' (Some p) = sent_by w (Some p).
Proof.
  intros Hs Hp He. destruct (lookup_lt_is_Some_2 _ _ Hp) as [t Ht]. unfold has_ended in He. rewrite Ht in He.
  destruct (step_keeps _ _ _ _ _ _ Hs Ht) as (u & Hu & _ & _). unfold sent_by. rewrite Hu, Ht.
  destruct (step_task _ _ _ _ _ _ Hs Hu) as [[_ Hw]|[(t' & sp & sent & -> & Ht' & Hts & _ & ->)|(t' & st & sp & sent & _ & _ & _ & _ & _ & Hl)]].
  - rewrite Ht in Hw. by injection Hw as ->.
  - rewrite Ht in Ht'. injection Ht' as <-. destruct (task_step_ended _ _ _ _ _ _ He Hts) as (_ & _ & ->). lia.
  - lia.
Qed.

(** Relays are of the listeners' kind. *)
Definition user_ok (st : TaskState) : Prop := match st with Relaying _ c => conn_user c = true | _ => True end.
Definition users_ok (w : World) : Prop := ∀ i t, w !! i = Some t → user_ok (tk_state t).

(** ** How far a task is from its end

    once it is signalled, in steps of its own. [sent] is what its parent sent. *)
Definition rank (sent : nat) (st : TaskState) : nat :=
  if ended st then 0 else
  match st with
  | Ended => 0
  | Tunnel _ running => if running then 1 else 2
  | QuicListener pc => match pc with QlNext => 1 | QlStart | QlHandshake => 2 end
  | QuicConnection => 1
  | TcpTlsListener pc => match pc with TlTop => 1 | TlStart | TlRebind => 2 | TlAccept => 3 end
  | HandleTcpTls => 3
  | HandleOutbound => 2
  | UserListener _ pc => match pc with UlTop _ => 1 | UlStart | UlSend _ => 2 | UlAccept _ => 3 end
  | QuicDaemon None taken => 2 + (sent - taken)
  | QuicDaemon (Some _) taken => 1 + (sent - taken)
  | Forward pc _ => match pc with FwAccepting => 4 | FwConnecting => 3 | FwAuth => 2 end
  | Relaying _ _ => 1
  end.

(** All steps bring it nearer but those of the daemon's echo tasks, and the polls of a
    QUIC connection that look for a stream first. *)
Definition counts (e : Event) : bool :=
  match e with EvStream shutdown_first _ => shutdown_first | EvDaemon (EchoStep _) => false | _ => true end.

Lemma rank_ended sent st : rank sent st = 0 ↔ ended st = true.
Proof.
  unfold rank. destruct (ended st) eqn:He; [done|].
  destruct st as [| |[]| |[]| | |? []|[]| []|]; try done; by destruct running.
Qed.
End tasks.

Section shutdown.
Context {C T : Type} `{ConnectionOk C} (mode : ConnectionMode).
Abbreviation W := (list (Task (C:=C) (T:=T))).
Implicit Types w : W.

(** Every case of a handler that goes on. *)
Ltac handler_cases Hs :=
  repeat match type of Hs with
  | None = Some _ => discriminate Hs
  | goes _ = Some _ => unfold goes in Hs
  | goes_or_ends _ _ = Some _ => unfold goes_or_ends in Hs
  | relay_or_end _ _ = Some _ => unfold relay_or_end in Hs
  | Some _ = Some _ => injection Hs as <- <- <-
  | context [match ?x with _ => _ end] => destruct x eqn:?; try discriminate Hs
  end.

Lemma task_step_user w t e st spawned sent :
  user_ok (tk_state t) → task_step mode w t e = Some (st, spawned, sent) →
  user_ok st ∧ Forall user_ok spawned.
Proof.
  intros Hu. unfold task_step. destruct (tk_state t) as [|? []|[]| |[]| | |? []|[]|[]|req c] eqn:Et; intros Hs;
    try discriminate Hs;
    unfold build_tunnel, quic_listener, handle_quic_connection, tcp_tls_listener, handle_tcp_tls,
      handle_outbound_start, user_endpoint_listener, daemon_task, forward_task, relay_task in Hs;
    destruct e; try discriminate Hs; handler_cases Hs.
  all: split; repeat case_match; repeat constructor; try done.
  all: match goal with Hp : conn_poll ?f ?o ?b ?x = _ |- _ => pose proof (conn_poll_user f o b x Hu) as Hc; by rewrite Hp in Hc end.
Qed.

(** Every step of a task that is signalled brings it nearer to its end. *)
Lemma task_step_rank w t e st spawned sent :
  user_ok (tk_state t) → signalled w t = true → task_step mode w t e = Some (st, spawned, sent) →
  let r st := rank (sent_by w (tk_parent t)) st in
  r st ≤ r (tk_state t) ∧ (counts e = true → ended (tk_state t) = false → r st < r (tk_state t)).
Proof.
  intros Hu Hc. unfold task_step. rewrite Hc. cbv zeta.
  destruct (tk_state t) as [|? []|[]| |[]| | |? []|[[[d q] rs]|]|[]|req c] eqn:Et; intros Hs; try discriminate Hs;
    unfold build_tunnel, quic_listener, handle_quic_connection, tcp_tls_listener, handle_tcp_tls,
      handle_outbound_start, user_endpoint_listener, daemon_task, forward_task, relay_task in Hs;
    destruct e; try discriminate Hs; handler_cases Hs.
  all: try (unfold rank; cbn; repeat case_match; split; intros; (lia || discriminate)).
  - by destruct shutdown_first.
  - split; [done|]. intros _ _. match goal with Hp : conn_poll ?f ?o true ?x = _, Ho : all_branches ?o |- _ =>
      destruct (conn_poll_closed f o x Hu Ho); by rewrite Hp end.
Qed.

Lemma step_users w i e w' : step mode w (i, e) = Some w' → users_ok w → users_ok w'.
Proof.
  intros Hs Hu j u Hj.
  destruct (step_task _ _ _ _ _ _ _ Hs Hj) as [[_ Hw]|[(t & sp & sent & -> & Ht & Hts & _)|(t & st & sp & sent & Ht & Hts & Hin & _)]].
  - by eapply Hu.
  - exact (proj1 (task_step_user _ _ _ _ _ _ (Hu _ _ Ht) Hts)).
  - pose proof (proj2 (task_step_user _ _ _ _ _ _ (Hu _ _ Ht) Hts)) as Hf. rewrite Forall_forall in Hf. apply Hf. by apply list_elem_of_In.
Qed.

(** ** Endless runs

    [None] is a moment in which no task moves. *)
Definition runs (server : bool) (world : nat → W) (label : nat → option (nat * Event (C:=C) (T:=T))) : Prop :=
  world 0 = boot server ∧
  ∀ n, match label n with
       | None => world (S n) = world n
       | Some ie => step mode (world n) ie = Some (world (S n))
       end.

(** The environment and the scheduler leave no signalled task waiting for ever. *)
Definition served (world : nat → W) (label : nat → option (nat * Event (C:=C) (T:=T))) : Prop :=
  ∀ n i t, world n !! i = Some t → signalled (world n) t = true → ended (tk_state t) = false →
    ∃ m e, n ≤ m ∧ label m = Some (i, e) ∧ counts e = true.

(** The tasks spawned by [p], and by them. *)
Definition below (w : W) : nat → nat → Prop :=
  rtc (λ p i, ∃ t, w !! i = Some t ∧ tk_parent t = Some p).

Section run.
Context (server : bool) (world : nat → W) (label : nat → option (nat * Event (C:=C) (T:=T))).
Context (Hruns : runs server world label).

Lemma run_users n : users_ok (world n).
Proof.
  destruct Hruns as [Hb Hn]. induction n as [|n IH].
  - rewrite Hb. intros [|i] t; [by intros [= <-]|by destruct i].
  - specialize (Hn n). destruct (label n) as [[i e]|]; [by eapply step_users|by rewrite Hn].
Qed.

(** A task keeps its place and its parent; what has ended, and what it sent, stays. *)
Lemma run_keeps n m i t : n ≤ m → world n !! i = Some t → ∃ u, world m !! i = Some u ∧ tk_parent u = tk_parent t.
Proof.
  destruct Hruns as [_ Hn]. induction 1 as [|m _ IH]; intros Ht; [by exists t|].
  destruct (IH Ht) as (u & Hu & Hp). specialize (Hn m). destruct (label m) as [[j e]|]; [|rewrite Hn; by exists u].
  destruct (step_keeps _ _ _ _ _ _ _ Hn Hu) as (v & Hv & Hpv & _). exists v. split; [done|congruence].
Qed.

Lemma run_ended n m i : n ≤ m → i < length (world n) → has_ended (world n) i = true →
  has_ended (world m) i = true ∧ sent_by (world m) (Some i) = sent_by (world n) (Some i).
Proof.
  intros Hnm Hi He. pose proof Hruns as [_ Hn]. induction Hnm as [|m Hnm IH]; [done|]. destruct IH as [IH1 IH2].
  assert (i < length (world m)) as Hm.
  { destruct (lookup_lt_is_Some_2 _ _ Hi) as [t Ht]. destruct (run_keeps n m i t Hnm Ht) as (u & Hu & _).
    by eapply lookup_lt_Some. }
  specialize (Hn m). destruct (label m) as [[j e]|]; [|by rewrite Hn].
  split; [by eapply has_ended_step|]. rewrite <- IH2. by eapply sent_by_step.
Qed.

(** A signalled task comes no further from its end, and nearer by its own steps. *)
Lemma run_rank n m i t p :
  n ≤ m → world n !! i = Some t → tk_parent t = Some p → p < length (world n) → has_ended (world n) p = true →
  ∃ u, world m !! i = Some u ∧ tk_parent u = Some p ∧
    let r x := rank (sent_by (world n) (Some p)) (tk_state x) in
    r u ≤ r t ∧
    ∀ e, label m = Some (i, e) → counts e = true → ended (tk_state u) = false →
      ∃ v, world (S m) !! i = Some v ∧ tk_parent v = Some p ∧ r v < r u.
Proof.
  intros Hnm Ht Hp Hlen He. pose proof Hruns as [_ Hn].
  assert (∀ k u, n ≤ k → world k !! i = Some u → tk_parent u = Some p →
    ∀ j e, step mode (world k) (j, e) = Some (world (S k)) →
    ∃ v, world (S k) !! i = Some v ∧ tk_parent v = Some p ∧
      let r x := rank (sent_by (world n) (Some p)) (tk_state x) in
      r v ≤ r u ∧ (j = i → counts e = true → ended (tk_state u) = false → r v < r u)) as Hstep.
  { intros k u Hk Hu Hpu j e Hs. destruct (run_ended n k p Hk Hlen He) as [Hek Hsk].
    destruct (step_keeps _ _ _ _ _ _ _ Hs Hu) as (v & Hv & Hpv & Hsame). exists v.
    split; [done|]. split; [congruence|]. cbv zeta. destruct (decide (i = j)) as [<-|Hne]; [|by rewrite Hsame].
    destruct (step_task _ _ _ _ _ _ _ Hs Hv) as [[? _]|[(t' & sp & sent & _ & Ht' & Hts & _)|(t' & st & sp & sent & _ & _ & _ & _ & _ & Hl)]];
      [done| |apply lookup_lt_Some in Hu; lia].
    rewrite Hu in Ht'. injection Ht' as <-.
    destruct (task_step_rank _ _ _ _ _ _ (run_users k _ _ Hu) ltac:(unfold signalled; by rewrite Hpu) Hts) as [Hr Hlt].
    rewrite Hpu, Hsk in Hr, Hlt. split; [done|]. intros _. exact Hlt. }
  assert (∃ u, world m !! i = Some u ∧ tk_parent u = Some p ∧
    rank (sent_by (world n) (Some p)) (tk_state u) ≤ rank (sent_by (world n) (Some p)) (tk_state t)) as (u & Hu & Hpu & Hr).
  { clear -Hnm Hstep Hn Ht Hp. induction Hnm as [|m Hnm (u & Hu & Hpu & Hr)]; [by exists t|].
    specialize (Hn m). destruct (label m) as [[j e]|]; [|rewrite Hn; by exists u].
    destruct (Hstep m u Hnm Hu Hpu j e Hn) as (v & Hv & Hpv & Hle & _). exists v. split_and!; [done..|lia]. }
  exists u. split_and!; [done..|]. intros r. split; [done|]. intros e Hl Hc Heu. specialize (Hn m). rewrite Hl in Hn.
  destruct (Hstep m u Hnm Hu Hpu i e Hn) as (v & Hv & Hpv & _ & Hlt). exists v. split_and!; [done..|]. by apply Hlt.
Qed.

(** A signalled task ends. *)
Lemma run_signalled_ends n i t p :
  served world label →
  world n !! i = Some t → tk_parent t = Some p → p < length (world n) → has_ended (world n) p = true →
  ∃ m, n ≤ m ∧ has_ended (world m) i = true.
Proof.
  intros Hserved. remember (rank (sent_by (world n) (Some p)) (tk_state t)) as r eqn:Er. revert n t Er.
  induction (lt_wf r) as [r _ IH]. intros n t -> Ht Hp Hlen He.
  destruct (ended (tk_state t)) eqn:Het; [exists n; split; [done|unfold has_ended; by rewrite Ht]|].
  destruct (Hserved n i t Ht ltac:(unfold signalled; by rewrite Hp) Het) as (m & e & Hnm & Hl & Hc).
  destruct (run_rank n m i t p Hnm Ht Hp Hlen He) as (u & Hu & Hpu & Hr & Hstep).
  destruct (ended (tk_state u)) eqn:Heu; [exists m; split; [done|unfold has_ended; by rewrite Hu]|].
  destruct (Hstep e Hl Hc eq_refl) as (v & Hv & Hpv & Hlt).
  destruct (run_ended n (S m) p ltac:(lia) Hlen He) as [Hep Hsp].
  destruct (lookup_lt_is_Some_2 _ _ Hlen) as [tp Htp].
  destruct (run_keeps n (S m) p tp ltac:(lia) Htp) as (tp' & Htp' & _).
  destruct (IH (rank (sent_by (world n) (Some p)) (tk_state v))) with (n := S m) (t := v) as (m' & Hm' & Hend);
    [cbn in *; lia|by rewrite Hsp|done|done|by eapply lookup_lt_Some|done|].
  exists m'. split; [lia|done].
Qed.

(** So does everything below a task that has ended. *)
Lemma run_below_ends n i j :
  served world label → below (world n) j i → j < length (world n) → has_ended (world n) j = true →
  ∃ m, n ≤ m ∧ has_ended (world m) i = true.
Proof.
  intros Hserved Hb Hj He. cut (i < length (world n) ∧ ∃ m, n ≤ m ∧ has_ended (world m) i = true); [by intros [_ ?]|].
  revert i Hb. apply rtc_ind_r; [split; [done|by exists n]|].
  intros k i _ (t & Ht & Hp) (Hk & m & Hnm & Hm). split; [by eapply lookup_lt_Some|].
  destruct (lookup_lt_is_Some_2 _ _ Hk) as [tk Htk]. destruct (run_keeps n m k tk Hnm Htk) as (tk' & Htk' & _).
  destruct (run_keeps n m i t Hnm Ht) as (u & Hu & Hpu). rewrite Hp in Hpu.
  destruct (run_signalled_ends m i u k Hserved Hu Hpu ltac:(by eapply lookup_lt_Some) Hm) as (m' & Hm' & He').
  exists m'. split; [lia|done].
Qed.
End run.

(** C16: the signal reaches every task. In an endless run in which no signalled task is
    left waiting for ever (accepts, handshakes and dials it is in return at last, its
    [select!] is polled with the signal first at last), once a task has ended, every
    task below it ends: listeners after a listener's process, connections after their
    listener, the QUIC manager after the front end whose tunnels it opens. *)
Theorem shutdown_reaches_all server (world : nat → W) (label : nat → option (nat * Event (C:=C) (T:=T))) n j i :
  runs server world label → served world label →
  j < length (world n) → has_ended (world n) j = true → below (world n) j i →
  ∃ m, n ≤ m ∧ has_ended (world m) i = true.
Proof. intros Hr Hs Hj He Hb. exact (run_below_ends server world label Hr n i j Hs Hb Hj He). Qed.
End shutdown.

(** ** The relays of the program

    as [Connection]s: the receiver of the signal is ready when the channel is closed. *)
Record Receiver := mkReceiver { rx_closed : bool }.
#[export] Instance receiver_signal : Signal Receiver := λ rx, (rx_closed rx, rx).

Definition watch_signal {T I O Buf} (closed : bool) (r : Relay T Receiver I O Buf) : Relay T Receiver I O Buf :=
  mkRelay (rl_bidi r) (rl_monitor r) (mkReceiver closed).

Definition unlogged {E A} (r : outcome E A) : outcome unit unit := map_err (λ _, ()) (_ ← r; mret ()).

Lemma unlogged_pending {E A} (r : outcome E A) : unlogged r = Pending ↔ r = Pending.
Proof. by destruct r. Qed.

Lemma all_branches_shutdown order : all_branches order → BShutdown ∈ order.
Proof. unfold all_branches. intros ->. set_solver. Qed.

(** The poll of a relay whose signal is there. *)
Ltac closed_relay Ho :=
  unfold relay_tcp, relay_udp;
  match goal with |- context [select ?oc ?d ?order (watch_signal true ?r)] =>
    let Hs := fresh in pose proof (select_closed oc d order (watch_signal true r) Ho eq_refl) as Hs;
    destruct (select oc d order (watch_signal true r)) as [[] ?]; done
  end.

Section server_connection.
Context {T I O TI K D DT : Type} `{Sleep T, AsyncRead I, AsyncWrite I, AsyncRead O, AsyncWrite O}.
Context `{AsyncRead TI, AsyncWrite TI, UdpSocket K, Dns D DT} (overflow_checks : bool).
Abbreviation Sv := (Serving T Receiver I O TI K D DT).

Definition serve_watch (closed : bool) (s : Sv) : Sv :=
  match s with
  | ServeClosed => ServeClosed
  | ServeTcp r => ServeTcp (watch_signal closed r)
  | ServeLite r => ServeLite (watch_signal closed r)
  | ServeUdp r => ServeUdp (watch_signal closed r)
  | ServeEcho e _ => ServeEcho e (mkReceiver closed)
  end.

#[export] Instance serving_connection : Connection Sv := {
  conn_user _ := true;
  conn_poll fuel order closed s :=
    let '(r, s') := serve_poll overflow_checks fuel fuel order (serve_watch closed s) in (unlogged r, s');
}.

Lemma echo_select_closed fuel order (s : Echo I * Receiver) :
  BShutdown ∈ order → rx_closed s.2 = true → (echo_select fuel order s).1 ≠ Pending.
Proof.
  revert s. induction order as [|[] order IH]; intros s Hin Hc; [by apply not_elem_of_nil in Hin|..];
    cbn [echo_select].
  - rewrite st_try_bind, st_zoom_run. apply elem_of_cons in Hin as [?|Hin]; [done|].
    destruct (echo_poll fuel s.1) as [[] e]; cbn [fst snd]; try done. by apply IH.
  - apply elem_of_cons in Hin as [?|Hin]; [done|]. by apply IH.
  - rewrite st_get_bind. destruct s as [e [[]]]; [done|discriminate Hc].
Qed.

#[export] Instance serving_connection_ok : ConnectionOk Sv.
Proof.
  split; [done|]. intros fuel order c _ Ho%all_branches_shutdown. cbn [conn_poll serving_connection].
  destruct c as [|r|r|r|e x]; cbn [serve_watch serve_poll].
  - done.
  - closed_relay Ho.
  - closed_relay Ho.
  - closed_relay Ho.
  - pose proof (echo_select_closed fuel order (e, mkReceiver true) Ho eq_refl) as Hs.
    destruct (echo_select fuel order (e, mkReceiver true)) as [res [e' x']]. by destruct res.
Qed.
End server_connection.

Section client_connection.
Context {T U SS RS S TS K XR E : Type} `{Sleep T, AsyncRead U, AsyncWrite U}.
Context `{AsyncWrite SS, AsyncRead RS, AsyncRead S, AsyncWrite S, AsyncRead TS, AsyncWrite TS}.
Context `{UdpSocket K, Signal XR} (overflow_checks : bool).
Abbreviation Rl := (Client.Relaying T Receiver U SS RS S TS K XR E).

Definition client_watch (closed : bool) (s : Rl) : Rl :=
  match s with
  | RelClosed => RelClosed
  | RelTcp r => RelTcp (watch_signal closed r)
  | RelTcpQuic r => RelTcpQuic (watch_signal closed r)
  | RelLite r => RelLite (watch_signal closed r)
  | RelUdp r => RelUdp (watch_signal closed r)
  | RelUdpQuic r => RelUdpQuic (watch_signal closed r)
  | RelEcho p echo_rx => RelEcho p echo_rx
  end.

(** A user's request is never an echo. *)
#[export] Instance relaying_connection : Connection Rl := {
  conn_user s := match s with RelEcho _ _ => false | _ => true end;
  conn_poll fuel order closed s :=
    let '(r, s') := client_poll overflow_checks fuel fuel order (client_watch closed s) in (unlogged r, s');
}.

#[export] Instance relaying_connection_ok : ConnectionOk Rl.
Proof.
  split.
  - intros fuel order closed [|r|r|r|r|r|p rx] Hu; cbn [conn_poll relaying_connection client_watch client_poll]; try done.
    all: unfold relay_tcp, relay_udp; by destruct (select _ _ _ _).
  - intros fuel order c Hu Ho%all_branches_shutdown. cbn [conn_poll relaying_connection].
    destruct c as [|r|r|r|r|r|p rx]; cbn [client_watch client_poll]; [done|closed_relay Ho..|done].
Qed.
End client_connection.

(** ** Examples *)
Abbreviation ExConn := (Serving Z Receiver Script Script Script SockScript (list (answer IpAddr)) (list (answer IpAddr))).
Definition ex_serving : ExConn :=
  ServeTcp (relay_start (set_timeout TCP_MAX_IDLE_TIMEOUT Adapter_new) (λ _, 0%Z) CopyBuffer_new CopyBuffer_new
    (BufferedRecv_new (script_of []) None) (script_of []) (mkReceiver false)).
#[local] Instance ex_serving_connection : Connection ExConn := serving_connection true.
#[local] Instance ex_serving_ok : ConnectionOk ExConn := serving_connection_ok true.

(** A server accepts one connection and relays it. *)
Definition ex_serves : list (nat * Event (C:=ExConn) (T:=unit)) :=
  [(0, EvRun); (1, EvInit true); (2, EvInit true); (2, EvPoll); (2, EvAccept (AcOk true));
   (3, EvHandshake true); (3, EvRelay (Some ex_serving))].
(** Ctrl-C; a QUIC client and the relay find out. *)
Definition ex_stops : list (nat * Event (C:=ExConn) (T:=unit)) :=
  [(0, EvCtrlC); (1, EvIncoming true); (2, EvPoll); (3, EvRelayPoll 10 [BDuplex; BTimeout; BShutdown])].
Definition ex_world (n : nat) : list (Task (C:=ExConn) (T:=unit)) :=
  default [] (steps TcpTLS (boot true) (take n (ex_serves ++ ex_stops))).
Definition ex_label (n : nat) : option (nat * Event (C:=ExConn) (T:=unit)) := (ex_serves ++ ex_stops) !! n.

(** Ctrl-C while the listener waits in [accept]: its connection is not told, before
    another client connects. *)
Example accept_delays_shutdown :
  match steps TcpTLS (boot true) (ex_serves ++ [(2, EvPoll); (0, EvCtrlC)]) with
  | Some w => has_ended w 0 = true ∧ has_ended w 2 = false ∧
      signalled w <$> w !! 3 = Some false ∧ step TcpTLS w (2, EvPoll) = None
  | None => False
  end.
Proof. vm_compute. split_and!; reflexivity. Qed.

(** An accept error ends a front end of the client for good, and signals its
    connections and its QUIC manager; the process goes on without it. *)
Example accept_error_ends_front :
  match steps (C:=ExConn) (T:=unit) TcpTLS (boot false)
    [(0, EvRun); (1, EvInit true); (1, EvPoll); (1, EvAccept (AcOk true)); (1, EvPoll); (1, EvAccept AcErr)] with
  | Some w => has_ended w 0 = false ∧ has_ended w 1 = true ∧
      forallb (λ t, implb (bool_decide (tk_parent t = Some 1)) (signalled w t)) w = true
  | None => False
  end.
Proof. vm_compute. split_and!; reflexivity. Qed.

Ltac served_at m := exists m; eexists; split; [lia|split; reflexivity].

Lemma shutdown_reaches_all_witness :
  has_ended (ex_world 8) 0 = true ∧ has_ended (ex_world 8) 3 = false ∧
  ∃ m, 8 ≤ m ∧ has_ended (ex_world m) 3 = true.
Proof.
  split; [vm_compute; reflexivity|]. split; [vm_compute; reflexivity|].
  apply (shutdown_reaches_all TcpTLS true ex_world ex_label 8 0 3).
  - split; [reflexivity|]. intros n. do 11 (destruct n as [|n]; [vm_compute; reflexivity|]).
    unfold ex_label, ex_world. rewrite lookup_ge_None_2 by (cbn; lia). by rewrite !take_ge by (cbn; lia).
  - intros n i t Ht Hs He.
    assert (has_ended (ex_world n) i = false) as Hl by (unfold has_ended; by rewrite Ht).
    assert (match ex_world n !! i with Some t => signalled (ex_world n) t | None => false end = true) as Hg by (by rewrite Ht).
    assert (i < length (ex_world n)) as Hi by (by eapply lookup_lt_Some).
    clear t Ht Hs He.
    do 8 (destruct n as [|n]; [exfalso; do 4 (destruct i as [|i]; [vm_compute in Hg; discriminate Hg|]); vm_compute in Hi; lia|]).
    do 3 (destruct n as [|n]; [do 4 (destruct i as [|i]; [first [vm_compute in Hg; discriminate Hg|vm_compute in Hl; discriminate Hl|served_at 8|served_at 9|served_at 10]|]); exfalso; vm_compute in Hi; lia|]).
    exfalso. unfold has_ended, ex_world in Hl, Hi. rewrite take_ge in Hl, Hi by (cbn; lia).
    do 4 (destruct i as [|i]; [vm_compute in Hl; discriminate Hl|]). vm_compute in Hi. lia.
  - vm_compute. lia.
  - vm_compute. reflexivity.
  - apply (rtc_l _ 0 2 3); [exists (mkTask (Some 0) (TcpTlsListener TlTop) 0)|apply rtc_once; exists (mkTask (Some 2) (Relaying None ex_serving) 0)];
      split; vm_compute; reflexivity.
Defined.
