(* ===== verification/Main.v ===== *)
(** The program from its command line: [main] of src/src/main.rs, and what the tasks of
    Listeners.v make of the configuration of TlsConfig.v when they start. *)
From stdpp Require Import relations.
From S2P Require Import Prelude Vec MixAddr Io Copy UdpTraits UdpCopy TrojanUdp Acceptor UdpSockets Quic.
From S2P Require Import Timeout Adapter LiteTls Inbound Socks5 Fallback Connector Client Args TlsConfig Listeners.

Inductive main_error : Type :=
| MainUsage (e : usage_error)
| MainIo (e : io_error).

Definition is_ok {E A} (r : outcome E A) : bool := match r with Ok _ => true | _ => false end.

Section main.
Context {F G A C T : Type} `{Files F, TlsLibrary G A, Connection C}.
Context (sha224 : list Z → list Z) (overflow_checks : bool) (project_dirs : option (list Z)).
Abbreviation Wld := (list (Task (C:=C) (T:=T))).

(** The options, the address of the server, and the task of [build_tunnel]. *)
Definition main (a : Args) (to_socket_addrs : list Z → Z → outcome io_error (list SocketAddr))
    : outcome main_error (Opt * Wld) :=
  options ← map_err MainUsage (from_args sha224 overflow_checks a);
  options ← map_err MainIo (resolve_remote to_socket_addrs options);
  mret (options, boot (opt_server options)).

(** ** The first steps of the tasks

    [bind] and [local_addr] are answers of the system; [local_addr] is only asked for a
    line of the log, and [Ok] where that is not printed. *)
Definition quic_listener_start (generated : outcome Z G) (bind : SocketAddr → outcome io_error unit)
    (local_addr : outcome io_error unit) (o : Opt) : ST F setup_error unit :=
  _ ← quic_tunnel_rx project_dirs generated bind o;
  st_lift (map_err (SetupIo "") local_addr).

Definition tcp_tls_listener_start (ticketer : outcome Z unit) (bind : SocketAddr → outcome io_error unit)
    (local_addr : outcome io_error unit) (o : Opt) (f : F) : outcome setup_error ServerCrypto :=
  config ← tls_server_config ticketer o f;
  _ ← map_err (SetupIo "failed to bind tcp port") (bind (get_server_local_addr (server_port o)));
  _ ← map_err (SetupIo "") local_addr;
  mret config.

Definition user_listener_start (service_addr : SocketAddr) (bind : SocketAddr → outcome io_error unit)
    (native : outcome io_error (list (list Z))) : outcome setup_error (ClientCrypto A) :=
  _ ← map_err (SetupIo "") (bind service_addr);
  tls_client_config native.

Definition service_addr (o : Opt) (front : Front) : SocketAddr :=
  match front with HttpFront => local_http_addr o | Socks5Front => local_socks5_addr o end.

(** What [EndpointManager::new] has before it dials. *)
Definition manager_setup (bound : outcome io_error unit) (native : outcome io_error (list (list Z))) (o : Opt) (f : F)
    : outcome quic_error unit :=
  map_err (λ _, SetupFailed) (_ ← endpoint_setup project_dirs bound native o f; mret tt).

(** A step of the process in which a task that starts gets what the options and the
    files give; [fs] says what the files can be at that time. *)
Definition configured (o : Opt) (fs : F → Prop) (w : Wld) (ie : nat * Event (C:=C) (T:=T)) : Prop :=
  match state_of w ie.1, ie.2 with
  | QuicListener QlStart, EvInit ok =>
      ∃ generated bind local_addr f, fs f ∧ ok = is_ok (quic_listener_start generated bind local_addr o f).1
  | TcpTlsListener TlStart, EvInit ok =>
      ∃ ticketer bind local_addr f, fs f ∧ ok = is_ok (tcp_tls_listener_start ticketer bind local_addr o f)
  | UserListener front UlStart, EvInit ok =>
      ∃ bind native, ok = is_ok (user_listener_start (service_addr o front) bind native)
  | QuicDaemon None _, EvDaemonNew setup _ =>
      ∃ bound native f, fs f ∧ setup = manager_setup bound native o f
  | _, _ => True
  end.

Definition configured_step (o : Opt) (fs : F → Prop) (w w' : Wld) : Prop :=
  ∃ ie, configured o fs w ie ∧ step (connection_mode o) w ie = Some w'.

(** Such a step that is not ctrl-c. *)
Definition uninterrupted_step (o : Opt) (fs : F → Prop) (w w' : Wld) : Prop :=
  ∃ ie, ie ≠ (0, EvCtrlC) ∧ configured o fs w ie ∧ step (connection_mode o) w ie = Some w'.

(** ** Lemmas *)

(** Whatever becomes of the other tasks, that of [build_tunnel] goes on. *)
Lemma tunnel_goes_on o fs server w0 w :
  (∃ running n, w0 !! 0 = Some (mkTask None (Tunnel server running) n)) → rtc (uninterrupted_step o fs) w0 w →
  ∃ running n, w !! 0 = Some (mkTask None (Tunnel server running) n).
Proof.
  intros Hstart Hr. induction Hr as [w|w w1 w2 ([i e] & Hne & _ & Hs) _ IH]; [done|]. apply IH. clear IH.
  destruct Hstart as (running & n & Hw). apply step_cases in Hs as (t & st & spawned & sent & Ht & Hts & ->).
  destruct (decide (i = 0)) as [->|Hi].
  - rewrite Hw in Ht. injection Ht as <-. cbn in Hts. unfold build_tunnel in Hts.
    destruct e, running; try done; injection Hts as <- <- <-.
    eexists _, _. rewrite lookup_app_l, list_lookup_insert_eq; [done| |rewrite length_insert]; by eapply lookup_lt_Some.
  - exists running, n. apply lookup_app_l_Some. by rewrite list_lookup_insert_ne.
Qed.

Lemma main_options a to_socket_addrs o w :
  main a to_socket_addrs = Ok (o, w) →
  opt_key o = arg_key a ∧ opt_cert o = arg_cert a ∧ opt_ca o = arg_ca a ∧ w = boot (opt_server o) ∧
  is_Some (remote_socket_addr o) ∧ (is_Some (arg_key a) ↔ is_Some (arg_cert a)).
Proof.
  unfold main. intros (o1 & Ho & Hm)%outcome_bind_Ok. apply outcome_bind_Ok in Hm as (o2 & Hr & [= <- <-]).
  assert (from_args sha224 overflow_checks a = Ok o1) as Ho1
    by (destruct (from_args sha224 overflow_checks a); by simplify_eq/=).
  assert (resolve_remote to_socket_addrs o1 = Ok o2) as Hr1
    by (destruct (resolve_remote to_socket_addrs o1); by simplify_eq/=).
  unfold from_args in Ho1. destruct (negb _) eqn:Hkc; [done|]. destruct (arg_password a); [|done].
  repeat (apply outcome_bind_Ok in Ho1 as (? & _ & Ho1)). injection Ho1 as <-.
  unfold resolve_remote in Hr1. apply outcome_bind_Ok in Hr1 as ([|remote rs] & _ & Hr1); [done|]. injection Hr1 as <-.
  apply negb_false_iff, Bool.eqb_prop in Hkc. split_and!; [done..|by eexists|].
  by rewrite <- (bool_decide_eq_true (is_Some (arg_key a))), Hkc, bool_decide_eq_true.
Qed.

(** An invariant of the tasks: each step keeps it for the task that moves and gives it
    to those it spawns. *)
Lemma configured_invariant o fs (good : Task (C:=C) (T:=T) → Prop) w w' :
  (∀ w ie t st spawned sent, (∀ i t, w !! i = Some t → good t) → w !! ie.1 = Some t → configured o fs w ie →
     task_step (connection_mode o) w t ie.2 = Some (st, spawned, sent) →
     good (mkTask (tk_parent t) st (tk_sent t + sent)) ∧ Forall (λ st', good (mkTask (Some ie.1) st' 0)) spawned) →
  rtc (configured_step o fs) w w' → (∀ i t, w !! i = Some t → good t) → ∀ i t, w' !! i = Some t → good t.
Proof.
  intros Hgood. induction 1 as [w|w w1 w' [[i e] [Hc Hs]] _ IH]; [done|]. intros Hw. apply IH. intros j [p st n] Hu.
  destruct (step_task _ _ _ _ _ _ _ Hs Hu) as [[_ Hj]|[(t & sp & sent & -> & Ht & Hts & Hp & Hn)|(t & st0 & sp & sent & Ht & Hts & Hin & Hp & Hn & _)]].
  - by eapply Hw.
  - cbn in *. subst p n. by eapply (Hgood w (i, e)).
  - cbn in *. subst p n. destruct (Hgood w (i, e) t st0 sp sent Hw Ht Hc Hts) as [_ HF].
    rewrite list.Forall_forall in HF. by apply HF.
Qed.
(** Every handler's step that is possible. *)
Ltac task_cases Hs :=
  unfold task_step, build_tunnel, run_server, run_client, quic_listener, handle_quic_connection, tcp_tls_listener,
    handle_tcp_tls, handle_outbound_start, user_endpoint_listener, daemon_task, forward_task, relay_task,
    relay_or_end, goes_or_ends, goes in Hs;
  repeat (case_match; simplify_eq/=; try done).

(** A server without a certificate: no task of its TLS side gets past the start. *)
Definition tls_unserved (t : Task (C:=C) (T:=T)) : Prop :=
  match tk_state t with
  | TcpTlsListener TlStart => True
  | TcpTlsListener _ | HandleTcpTls => False
  | _ => True
  end.

Lemma tls_unserved_step o fs w ie t st spawned sent :
  opt_key o = None → tls_unserved t → w !! ie.1 = Some t → configured o fs w ie →
  task_step (connection_mode o) w t ie.2 = Some (st, spawned, sent) →
  tls_unserved (mkTask (tk_parent t) st (tk_sent t + sent)) ∧
  Forall (λ st', tls_unserved (mkTask (Some ie.1) st' 0)) spawned.
Proof.
  intros Hk Ht Hw Hc Hs. destruct ie as [i e]. unfold configured, state_of in Hc. cbn [fst snd] in *. rewrite Hw in Hc.
  destruct t as [p ts n]. unfold tls_unserved in *. cbn [tk_state tk_parent tk_sent] in *.
  task_cases Hs; try (split; [done|repeat constructor]).
  all: destruct Hc as (ticketer & bind & local_addr & f & _ & Hok).
  all: unfold tcp_tls_listener_start, tls_server_config in Hok; by rewrite Hk in Hok.
Qed.

(** A QUIC client without a certificate: its manager stops when it starts, and no
    request gets a connection. *)
Definition quic_unserved (t : Task (C:=C) (T:=T)) : Prop :=
  match tk_state t with
  | QuicDaemon (Some (d, _, replies)) _ => d ≠ Quic.Serving ∧ replies = []
  | Forward FwAuth _ | Forward _ None | Relaying _ _ => False
  | Tunnel server _ => server = false
  | QuicListener _ | QuicConnection | TcpTlsListener _ | HandleTcpTls | HandleOutbound => False
  | _ => True
  end.

Lemma manager_setup_refused dir bound native o (f : F) :
  project_dirs = Some dir → opt_ca o = None → (∀ x, fs_read f (join dir CERT_DER) ≠ Ok x) →
  is_ok (manager_setup bound native o f) = false.
Proof.
  intros Hd Hca Hf. unfold manager_setup, endpoint_setup, new_builder, load_cert. rewrite Hd, Hca.
  destruct bound; try done. set (p := join dir CERT_DER) in *. clearbody p.
  destruct (fs_read f p) as [x| | | |]; try done. by destruct (Hf x).
Qed.

Lemma daemon_refused setup (env : Env T) :
  is_ok setup = false →
  let '(d, _, replies) := quic_connection_daemon setup env [] in d ≠ Quic.Serving ∧ replies = [].
Proof. by destruct setup. Qed.

Lemma reply_unserved w (r : Request) a :
  (∀ i t, w !! i = Some t → quic_unserved t) → reply (state_of w r.1) r.2 ≠ Some (Some (Ok (E:=quic_error) a)).
Proof.
  intros Hw. unfold state_of. destruct (w !! r.1) as [t|] eqn:Ht; [|done]. apply Hw in Ht. unfold quic_unserved in Ht.
  unfold reply. destruct (tk_state t) as [| | | | | | | |[[[d q] replies]|]| |]; try done.
  destruct Ht as [_ ->]. rewrite lookup_nil. by case_match.
Qed.

Lemma quic_unserved_step dir o fs w ie t st spawned sent :
  project_dirs = Some dir → opt_ca o = None → connection_mode o = Acceptor.Quic →
  (∀ f x, fs f → fs_read f (join dir CERT_DER) ≠ Ok x) →
  (∀ i t, w !! i = Some t → quic_unserved t) → w !! ie.1 = Some t → configured o fs w ie →
  task_step (connection_mode o) w t ie.2 = Some (st, spawned, sent) →
  quic_unserved (mkTask (tk_parent t) st (tk_sent t + sent)) ∧
  Forall (λ st', quic_unserved (mkTask (Some ie.1) st' 0)) spawned.
Proof.
  intros Hd Hca Hm Hfs Hall Hw Hc Hs. destruct ie as [i e]. unfold configured, state_of in Hc. cbn [fst snd] in *.
  rewrite Hw in Hc. pose proof (Hall i t Hw) as Ht. destruct t as [p ts n].
  rewrite Hm in Hs. unfold quic_unserved in Ht |- *. cbn [tk_state tk_parent tk_sent] in *.
  task_cases Hs; try (split; [done|repeat constructor]).
  all: try (by destruct Ht).
  - destruct Hc as (bound & native & f & Hf & ->).
    pose proof (daemon_refused (manager_setup bound native o f) env) as Hr.
    rewrite (manager_setup_refused dir) in Hr by eauto. rewrite H2 in Hr. split; [by apply Hr|constructor].
  - by eapply reply_unserved in Hall.
Qed.

(** C20: what a process does not do without a certificate, although it goes on running:
    without a ctrl-c the task of [build_tunnel], whose end is that of the process, never
    ends, whatever its tasks come to. A server without one never serves a TLS
    connection: its TLS listener stops when it starts. A QUIC client that was not given one, on a machine where no server left
    its own, never gets a connection to the server for any request, whatever the
    platform's store holds: its connection managers stop when they start. *)
Theorem process_without_certificate a to_socket_addrs o w0 fs w :
  main a to_socket_addrs = Ok (o, w0) → rtc (configured_step o fs) w0 w →
  (arg_key a = None → ∀ i t, w !! i = Some t → tls_unserved t) ∧
  (∀ dir, opt_server o = false → connection_mode o = Acceptor.Quic → arg_ca a = None → project_dirs = Some dir →
    (∀ f x, fs f → fs_read f (join dir CERT_DER) ≠ Ok x) → ∀ i t, w !! i = Some t → quic_unserved t) ∧
  (rtc (uninterrupted_step o fs) w0 w → ∃ running, state_of w 0 = Tunnel (opt_server o) running).
Proof.
  intros (Hk & _ & Hca & -> & _)%main_options Hw. split; [|split].
  - intros Hka. rewrite Hka in Hk. eapply (configured_invariant o fs tls_unserved); [|exact Hw|].
    + intros w1 ie t st sp sent Hall Ht Hc Hs. by eapply tls_unserved_step; eauto.
    + intros [|i] t; [by intros [= <-]|by destruct i].
  - intros dir Hsv Hm Hcaa Hd Hfs. rewrite Hcaa in Hca. eapply (configured_invariant o fs quic_unserved); [|exact Hw|].
    + intros w1 ie t st sp sent Hall Ht Hc Hs. by eapply quic_unserved_step; eauto.
    + intros [|i] t; [by intros [= <-]|by destruct i].
  - intros Hu. eapply tunnel_goes_on in Hu as (running & n & Hmain); [|by exists false, 0].
    exists running. unfold state_of. by rewrite Hmain.
Qed.

(** A run given by its events. *)
Fixpoint configured_all (o : Opt) (fs : F → Prop) (w : Wld) (es : list (nat * Event)) : Prop :=
  match es with
  | [] => True
  | ie :: es' =>
      configured o fs w ie ∧
      match step (connection_mode o) w ie with Some w' => configured_all o fs w' es' | None => False end
  end.

Lemma configured_all_rtc o fs w es w' :
  Forall (λ ie, ie ≠ (0, EvCtrlC)) es →
  configured_all o fs w es → steps (connection_mode o) w es = Some w' → rtc (uninterrupted_step o fs) w w'.
Proof.
  intros Hes. revert w. induction Hes as [|ie es Hne _ IH]; intros w; cbn; [by intros _ [= ->]|]. intros [Hc Hall].
  destruct (step (connection_mode o) w ie) as [w1|] eqn:Hs; [|done]. cbn. intros Hw.
  eapply rtc_l; [by exists ie|by apply IH].
Qed.

Lemma uninterrupted_configured o fs w w' : rtc (uninterrupted_step o fs) w w' → rtc (configured_step o fs) w w'.
Proof. apply rtc_subrel. intros ? ? (ie & _ & ? & ?). by exists ie. Qed.

(** With a certificate, both listeners of a server present the same. *)
Lemma listeners_share_identity ticketer generated bind (o : Opt) f c ep f' :
  tls_server_config ticketer o f = Ok c → quic_tunnel_rx project_dirs generated bind o f = (Ok ep, f') →
  sc_certs c = sc_certs (qe_crypto ep) ∧ sc_key c = sc_key (qe_crypto ep) ∧ f' = f.
Proof.
  unfold tls_server_config, quic_tunnel_rx. destruct (opt_key o) as [k|] eqn:Hk, (opt_cert o) as [ce|] eqn:Hce; try done.
  intros ([certs key] & Hg & Hc)%outcome_bind_Ok. apply outcome_bind_Ok in Hc as (u & _ & Hc).
  apply outcome_bind_Ok in Hc as (u' & _ & [= <-]).
  intros ([certs' key'] & s & Hi & [= Hq <-])%st_bind_Ok. unfold server_identity in Hi. rewrite Hk, Hce in Hi.
  rewrite st_get_bind in Hi. unfold st_lift in Hi. rewrite Hg in Hi. injection Hi as <- <- <-.
  by apply quic_endpoint_Ok in Hq as (_ & _ & ->).
Qed.
End main.

(** ** Examples *)
#[local] Existing Instances ex_library ex_serving_connection.

Definition ex_remote (_ : list Z) (port : Z) : outcome io_error (list SocketAddr) := Ok [SocketV4 [203; 0; 113; 7]%Z port].

(** [trojan-oxide -w secret -u example -x 443 -m q], the command of the manual. *)
Definition ex_client_args : Args :=
  mkArgs None None None None (Some (bytes_of_string "example")) (Some (bytes_of_string "443")) None false None None
    (Some (bytes_of_string "secret")) None (Some (bytes_of_string "q")) None.

(** A front end starts, then its manager, and a user connects: the request is dropped. *)
Definition ex_client_run : list (nat * Event (C:=ExConn) (T:=unit)) :=
  [(0, EvRun); (1, EvInit true); (3, EvDaemonNew (Err SetupFailed) example_env);
   (1, EvPoll); (1, EvAccept (AcOk true)); (1, EvPoll)].
Definition ex_empty (d : Disk) : Prop := d = mkDisk ∅ [].

Lemma process_without_certificate_witness :
  ∃ o w, main ex_digest true ex_client_args ex_remote = Ok (o, boot (C:=ExConn) (T:=unit) false) ∧
  steps (C:=ExConn) (T:=unit) (connection_mode o) (boot false) ex_client_run = Some w ∧ length w = 4 ∧
  (∀ i t, w !! i = Some t → quic_unserved t) ∧ ∃ running, state_of w 0 = Tunnel false running.
Proof.
  assert (∃ o, main ex_digest true ex_client_args ex_remote = Ok (o, boot (C:=ExConn) (T:=unit) false) ∧
    connection_mode o = Acceptor.Quic ∧ opt_server o = false ∧ opt_ca o = None) as (o & Ho & Hm & Hs & Hca).
  { eexists. split; [vm_compute; reflexivity|]. split_and!; reflexivity. }
  assert (∃ w, steps (C:=ExConn) (T:=unit) Acceptor.Quic (boot false) ex_client_run = Some w ∧ length w = 4) as (w & Hw & Hl).
  { eexists. split; [vm_compute; reflexivity|reflexivity]. }
  exists o, w. rewrite Hm. split; [exact Ho|]. split; [exact Hw|]. split; [exact Hl|].
  assert (rtc (uninterrupted_step (C:=ExConn) (T:=unit) (Some ex_dir) o ex_empty) (boot false) w) as Hrun.
  { eapply (configured_all_rtc _ _ _ _ ex_client_run); [repeat constructor; discriminate| |by rewrite Hm].
    unfold ex_client_run, configured_all. rewrite Hm.
    split; [exact I|]. split; [exists (λ _, Ok tt), (Ok []); reflexivity|].
    split; [|split; [exact I|split; [exact I|split; [exact I|exact I]]]].
    exists (Ok tt), (Ok []), (mkDisk ∅ []). split; [reflexivity|].
    unfold manager_setup, endpoint_setup, new_builder, load_cert. rewrite Hca. vm_compute. reflexivity. }
  destruct (process_without_certificate ex_digest true (Some ex_dir) ex_client_args ex_remote o (boot false) ex_empty w Ho
    (uninterrupted_configured _ _ _ _ _ Hrun)) as (_ & Hquic & Hgoes).
  split; [|rewrite <- Hs; exact (Hgoes Hrun)].
  apply (Hquic ex_dir Hs Hm eq_refl eq_refl). intros f x ->. vm_compute. discriminate.
Defined.
