(* ===== verification/Zio.v ===== *)
(** The io_uring workers of the feature [zio]: src/src/utils/glommio_utils/
    start_tcp_relay_thread.rs, and [relay_tcp_zio] of src/src/utils/adapter.rs.

    One thread per processor relays the sockets handed to it through a channel. The
    relay is that of Copy.v; this file models the hand-over, the workers and their
    tasks. A connection goes to the worker its number selects; a worker whose
    receiving loop returns is gone with its executor, its channel and its tasks. *)
From S2P Require Import Prelude Vec Io Copy Connector.

Definition ZIO_CHANNEL : nat := 100.

Inductive zio_error : Type :=
| ZioIo (e : io_error)
| ZioSend.

Section zio.
(** Sockets as tokio, the standard library and glommio hold them; their conversions
    and options. *)
Context {TS SS G : Type} `{AsyncRead G, AsyncWrite G}.
Context (into_std : TS → outcome io_error SS) (from_raw_fd : SS → G).
Context (set_nodelay : G → outcome io_error unit).
Context (set_read_timeout set_write_timeout : Z → G → outcome io_error unit).

Abbreviation Item := (SS * SS * nat)%type.
Abbreviation Conn := (TS * TS * nat)%type.

Record RelayTask := mkRelayTask { rt_item : Item; rt_relay : CopyBidirectional CopyBuffer G G }.

(** [wk_handed] lists what was sent to the worker and [wk_started] what it started a
    relay for: histories, which the code does not keep. *)
Record Worker := mkWorker {
  wk_alive : bool;
  wk_queue : list Item;
  wk_tasks : list RelayTask;
  wk_handed : list Item;
  wk_started : list Item;
}.

(** The executor may fail to start ([make().unwrap()]). *)
Definition Worker_new (made : bool) : Worker := mkWorker made [] [] [] [].

(** One thread per processor. *)
Definition start_tcp_relay_threads (made : list bool) : list Worker := map Worker_new made.

Definition init_tcp_stream (std_tcp_stream : SS) : outcome io_error G :=
  let stream := from_raw_fd std_tcp_stream in
  _ ← set_nodelay stream;
  _ ← set_read_timeout TCP_MAX_IDLE_TIMEOUT stream;
  _ ← set_write_timeout TCP_MAX_IDLE_TIMEOUT stream;
  mret stream.

Definition wk_push (item : Item) (w : Worker) : Worker :=
  mkWorker (wk_alive w) (wk_queue w ++ [item]) (wk_tasks w) (wk_handed w ++ [item]) (wk_started w).

(** [VEC_TCP_TX], set before the listeners start. *)
Definition relay_tcp_zio (vec_tcp_tx : option (list Worker)) (inbound outbound : TS) (conn_id : nat)
    : outcome zio_error (list Worker) :=
  match vec_tcp_tx with
  | None => Panic "called `Option::unwrap()` on a `None` value"
  | Some ws =>
      if decide (length ws = 0) then Panic "attempt to calculate the remainder with a divisor of zero"
      else
        let k := conn_id mod length ws in
        tcp_tx ← index ws k;
        inbound_std ← map_err ZioIo (into_std inbound);
        outbound_std ← map_err ZioIo (into_std outbound);
        if wk_alive tcp_tx then
          if decide (length (wk_queue tcp_tx) < ZIO_CHANNEL)
          then mret (<[k := wk_push (inbound_std, outbound_std, conn_id) tcp_tx]> ws)
          else Pending
        else Err ZioSend
  end.

(** The loop returned: [ex.run] returns, and with the executor go its tasks. *)
Definition wk_dead (w : Worker) : Worker := mkWorker false [] [] (wk_handed w) (wk_started w).

Definition wk_spawn (item : Item) (rest : list Item) (inbound outbound : G) (w : Worker) : Worker :=
  mkWorker (wk_alive w) rest
    (wk_tasks w ++ [mkRelayTask item (bidi_new CopyBuffer_new CopyBuffer_new inbound outbound)])
    (wk_handed w) (wk_started w ++ [item]).

(** One turn of [worker]. *)
Definition worker (w : Worker) : Worker :=
  match wk_queue w with
  | [] => w
  | ((inbound_fd, outbound_fd, ret) as item) :: rest =>
      match init_tcp_stream inbound_fd with
      | Ok inbound =>
          match init_tcp_stream outbound_fd with
          | Ok outbound => wk_spawn item rest inbound outbound w
          | _ => wk_dead w
          end
      | _ => wk_dead w
      end
  end.

(** One poll of the task in place [j]; a task that ends is gone. *)
Definition tcp_relay_task (fuel j : nat) (w : Worker) : Worker :=
  match wk_tasks w !! j with
  | None => w
  | Some t =>
      let '(res, relay) := glommio_poll fuel (rt_relay t) in
      mkWorker (wk_alive w) (wk_queue w)
        (match res with
         | Pending => <[j := mkRelayTask (rt_item t) relay]> (wk_tasks w)
         | _ => delete j (wk_tasks w)
         end) (wk_handed w) (wk_started w)
  end.

(** The workers and the connections that hand sockets to them, in any order; the label
    is the connection handed over. A poll of a task returns when it has fuel enough. *)
Inductive zio_step : option Conn → list Worker → list Worker → Prop :=
| zio_send ws inbound outbound conn_id ws' :
    relay_tcp_zio (Some ws) inbound outbound conn_id = Ok ws' → zio_step (Some (inbound, outbound, conn_id)) ws ws'
| zio_recv ws k w : ws !! k = Some w → wk_alive w = true → zio_step None ws (<[k := worker w]> ws)
| zio_poll ws k w j t fuel : ws !! k = Some w → wk_alive w = true → wk_tasks w !! j = Some t →
    (glommio_poll fuel (rt_relay t)).1 ≠ OutOfFuel → zio_step None ws (<[k := tcp_relay_task fuel j w]> ws).

(** [zio_run made conns ws]: from their start the workers came to [ws], [conns] having
    been handed over, in this order. *)
Inductive zio_run (made : list bool) : list Conn → list Worker → Prop :=
| zio_start : zio_run made [] (start_tcp_relay_threads made)
| zio_next conns ws conn ws' :
    zio_run made conns ws → zio_step conn ws ws' → zio_run made (conns ++ option_list conn) ws'.

(** ** Invariant *)

(** An item of the channel is the connection's two sockets, in this order, and its
    number. *)
Definition handed_as (conn : Conn) (item : Item) : Prop :=
  into_std conn.1.1 = Ok item.1.1 ∧ into_std conn.1.2 = Ok item.1.2 ∧ item.2 = conn.2.

(** The connections whose number selects worker [k] of [n]. *)
Definition selecting (n k : nat) (conns : list Conn) : list Conn := filter (λ c, c.2 mod n = k) conns.

Lemma selecting_app n k conns c :
  selecting n k (conns ++ [c]) = if decide (c.2 mod n = k) then selecting n k conns ++ [c] else selecting n k conns.
Proof. unfold selecting. rewrite list.filter_app, list.filter_cons. case_decide; [done|apply app_nil_r]. Qed.

Definition initialised (item : Item) (i o : G) : Prop :=
  init_tcp_stream item.1.1 = Ok i ∧ init_tcp_stream item.1.2 = Ok o.
Definition refused (item : Item) : Prop := ∀ i o, ¬ initialised item i o.

(** A relay is where polls of its own brought it from the sockets it was given. *)
Definition relays_item (t : RelayTask) : Prop :=
  ∃ i o, initialised (rt_item t) i o ∧
    bidi_carried io_trace io_trace unsent relay_buf_wf (bidi_new CopyBuffer_new CopyBuffer_new i o) (rt_relay t).

#[local] Instance sockets_carried_preorder : PreOrder (bidi_carried (I:=G) (O:=G) io_trace io_trace unsent relay_buf_wf).
Proof. apply bidi_carried_preorder; eauto using io_refl, io_trace_trans. Qed.

Record worker_ok (mine : list Conn) (w : Worker) : Prop := {
  wo_mine : Forall2 handed_as mine (wk_handed w);
  wo_tasks : ∀ t, t ∈ wk_tasks w → rt_item t ∈ wk_started w ∧ relays_item t;
  wo_order :
    if wk_alive w then wk_handed w = wk_started w ++ wk_queue w ∧ length (wk_queue w) ≤ ZIO_CHANNEL
    else wk_tasks w = [] ∧
      (wk_handed w = [] ∨ ∃ item lost, wk_handed w = wk_started w ++ item :: lost ∧ refused item);
}.

Lemma worker_ok_new made : worker_ok [] (Worker_new made).
Proof.
  split; cbn; [constructor|intros ? []%elem_of_nil|].
  destruct made; [split; [done|cbn; unfold ZIO_CHANNEL; lia]|split; [done|by left]].
Qed.

Lemma worker_ok_push mine conn item w :
  handed_as conn item → wk_alive w = true → length (wk_queue w) < ZIO_CHANNEL → worker_ok mine w →
  worker_ok (mine ++ [conn]) (wk_push item w).
Proof.
  intros Hk Ha Hl [Hm Ht Ho]. rewrite Ha in Ho. destruct Ho as [Ho _]. split; cbn; [|done|].
  - apply Forall2_app; [done|]. by constructor.
  - rewrite Ha, Ho, length_app. cbn. split; [by rewrite <- app_assoc|lia].
Qed.

Lemma worker_ok_dead mine item rest w :
  wk_alive w = true → wk_queue w = item :: rest → refused item → worker_ok mine w → worker_ok mine (wk_dead w).
Proof.
  intros Ha Hq Hr [Hm Ht Ho]. rewrite Ha, Hq in Ho. split; cbn; [done|by intros ? ?%elem_of_nil|].
  split; [done|]. right. exists item, rest. split; [apply Ho|done].
Qed.

Lemma worker_ok_worker mine w : wk_alive w = true → worker_ok mine w → worker_ok mine (worker w).
Proof.
  intros Ha Hok. unfold worker. destruct (wk_queue w) as [|[[a b] id] rest] eqn:Hq; [done|].
  destruct (init_tcp_stream a) as [i| | | |] eqn:Hi;
    [|by apply (worker_ok_dead mine (a, b, id) rest); try done; intros ? ? [? _]; cbn in *; congruence..].
  destruct (init_tcp_stream b) as [o| | | |] eqn:Hb;
    [|by apply (worker_ok_dead mine (a, b, id) rest); try done; intros ? ? [_ ?]; cbn in *; congruence..].
  destruct Hok as [Hm Ht Ho]. rewrite Ha, Hq in Ho. destruct Ho as [Ho Hl]. split; cbn; [done| |].
  - intros t [Hin| ->%list_elem_of_singleton]%elem_of_app.
    + destruct (Ht t Hin) as [? ?]. split; [|done]. apply elem_of_app. by left.
    + split; [apply elem_of_app; right; by apply list_elem_of_singleton|]. exists i, o. by split; [|reflexivity].
  - rewrite Ha. split; [by rewrite Ho, <- app_assoc|]. cbn in Hl. lia.
Qed.

Context `{!AsyncReadOk G, !AsyncWriteOk G}.

Lemma worker_ok_poll mine fuel j t w :
  wk_alive w = true → wk_tasks w !! j = Some t → (glommio_poll fuel (rt_relay t)).1 ≠ OutOfFuel →
  worker_ok mine w → worker_ok mine (tcp_relay_task fuel j w).
Proof.
  intros Ha Hj Hf [Hm Ht Ho]. unfold tcp_relay_task. rewrite Hj.
  destruct (glommio_poll fuel (rt_relay t)) as [res relay] eqn:Ep. cbn [fst] in Hf.
  split; cbn; [done| |by rewrite Ha in *]. intros u Hu.
  assert (u ∈ wk_tasks w ∨ (res = Pending ∧ u = mkRelayTask (rt_item t) relay)) as [?|[-> ->]]; [|by apply Ht|].
  { apply list_elem_of_lookup in Hu as [m Hu]. destruct res; try (left; apply list_elem_of_lookup; rewrite list_lookup_delete in Hu;
      case_decide; eauto; fail).
    destruct (decide (m = j)) as [->|]; [|rewrite list_lookup_insert_ne in Hu by done; left; by eapply list_elem_of_lookup_2].
    rewrite list_lookup_insert_eq in Hu by (by eapply lookup_lt_Some). injection Hu as <-. by right. }
  destruct (Ht t ltac:(by eapply list_elem_of_lookup_2)) as [Hs (i & o & Hi & Hc)]. split; [done|].
  exists i, o. split; [done|]. cbn. etrans; [exact Hc|].
  pose proof (post_run _ _ _ _ _ (glommio_is_relay fuel (rt_relay t) ltac:(apply Hc; split; apply relay_buf_new_wf)) Ep) as [Hp _].
  by apply Hp.
Qed.

(** ** The workers together *)
Definition workers_ok (n : nat) (conns : list Conn) (ws : list Worker) : Prop :=
  length ws = n ∧ ∀ k w, ws !! k = Some w → worker_ok (selecting n k conns) w.

Lemma workers_ok_insert n conns ws k w :
  workers_ok n conns ws → worker_ok (selecting n k conns) w → workers_ok n conns (<[k := w]> ws).
Proof.
  intros [Hl Hw] Hk. split; [by rewrite length_insert|]. intros j u Hj.
  destruct (decide (j = k)) as [->|]; [|rewrite list_lookup_insert_ne in Hj by done; by apply Hw].
  rewrite list_lookup_insert_eq in Hj; [by injection Hj as <-|]. apply lookup_lt_Some in Hj. by rewrite length_insert in Hj.
Qed.

(** What a connection that is handed over does: its item goes to the end of the
    channel of its worker. *)
Lemma relay_tcp_zio_Ok ws inbound outbound id ws' :
  relay_tcp_zio (Some ws) inbound outbound id = Ok ws' →
  ∃ w item, let k := id mod length ws in ws !! k = Some w ∧ wk_alive w = true ∧
    length (wk_queue w) < ZIO_CHANNEL ∧ handed_as (inbound, outbound, id) item ∧ ws' = <[k := wk_push item w]> ws.
Proof.
  intros Hs. cbn [relay_tcp_zio] in Hs. case_decide as Hn; [done|]. unfold index in Hs.
  destruct (ws !! (id mod length ws)) as [w|] eqn:Hk; [|done]. cbn [mbind outcome_bind] in Hs.
  destruct (into_std inbound) as [a| | | |] eqn:Ea; try done. destruct (into_std outbound) as [b| | | |] eqn:Eb; try done.
  cbn in Hs. destruct (wk_alive w) eqn:Ha; [|done]. case_decide as Hl; [|done]. injection Hs as <-.
  by exists w, (a, b, id).
Qed.

Lemma workers_ok_step n conns conn ws ws' :
  zio_step conn ws ws' → workers_ok n conns ws → workers_ok n (conns ++ option_list conn) ws'.
Proof.
  intros Hs Hok. destruct Hs as [ws inbound outbound id ws' Hs|ws k w Hk Ha|ws k w j t fuel Hk Ha Hj Hf];
    unfold option_list; cbn [option_rect]; rewrite ?app_nil_r.
  - apply relay_tcp_zio_Ok in Hs as (w & item & Hk & Ha & Hl & Hi & ->). destruct Hok as [<- Hok].
    set (k := id mod length ws) in *. split; [by rewrite length_insert|]. intros j u Hj. rewrite selecting_app. cbn [snd].
    fold k. destruct (decide (k = j)) as [<-|Hne].
    + rewrite list_lookup_insert_eq in Hj by (by eapply lookup_lt_Some). injection Hj as <-. by apply worker_ok_push; auto.
    + rewrite list_lookup_insert_ne in Hj by done. by apply Hok.
  - apply workers_ok_insert; [done|]. apply worker_ok_worker; [done|]. by apply Hok.
  - apply workers_ok_insert; [done|]. eapply worker_ok_poll; [done..|]. by apply Hok.
Qed.

Lemma workers_ok_run made conns ws : zio_run made conns ws → workers_ok (length made) conns ws.
Proof.
  induction 1 as [|conns ws conn ws' _ IH Hs]; [|by eapply workers_ok_step].
  split; [apply length_map|]. intros k w Hk. unfold start_tcp_relay_threads in Hk. rewrite list_lookup_fmap in Hk.
  destruct (made !! k); [|done]. injection Hk as <-. apply worker_ok_new.
Qed.

(** C17: the workers deal with every connection handed to them. Of the connections
    [conns] that [relay_tcp_zio] took so far, each worker was handed exactly those whose
    number selects it, in order, each as its two sockets; while it runs it has started,
    or will start, a relay for each, in order, it takes every further connection that
    its channel has room for, and every relay is exact: each socket was sent what the
    other delivered, less at most one buffer in flight. A worker stops only at a socket
    that it cannot set up; then its relays are gone, with what was handed to it after,
    and it never takes another connection. *)
Theorem zio_workers_exact made conns ws k w :
  zio_run made conns ws → ws !! k = Some w →
  Forall2 handed_as (filter (λ c, c.2 mod length made = k) conns) (wk_handed w) ∧
  (if wk_alive w then wk_handed w = wk_started w ++ wk_queue w ∧ length (wk_queue w) ≤ ZIO_CHANNEL ∧
     ∀ conn item, handed_as conn item → conn.2 mod length made = k → length (wk_queue w) < ZIO_CHANNEL →
       ∃ ws', relay_tcp_zio (Some ws) conn.1.1 conn.1.2 conn.2 = Ok ws'
   else wk_tasks w = [] ∧
     (wk_handed w = [] ∨ ∃ item lost, wk_handed w = wk_started w ++ item :: lost ∧ refused item) ∧
     ∀ inbound outbound conn_id ws', conn_id mod length made = k →
       relay_tcp_zio (Some ws) inbound outbound conn_id ≠ Ok ws') ∧
  (∀ t, t ∈ wk_tasks w → rt_item t ∈ wk_started w ∧
    ∃ i o iin iout oin oout,
      initialised (rt_item t) i o ∧
      io_trace i iin iout (bi_i (rt_relay t)) ∧ io_trace o oin oout (bi_o (rt_relay t)) ∧
      iin = oout ++ in_flight unsent (bi_upload (rt_relay t)) ∧
      oin = iout ++ in_flight unsent (bi_download (rt_relay t)) ∧
      length (in_flight unsent (bi_upload (rt_relay t))) ≤ RELAY_BUFFER_SIZE ∧
      length (in_flight unsent (bi_download (rt_relay t))) ≤ RELAY_BUFFER_SIZE).
Proof.
  intros Hr Hk. destruct (workers_ok_run _ _ _ Hr) as [Hl Hok]. destruct (Hok k w Hk) as [Hm Ht Ho].
  split; [done|]. split.
  - destruct (wk_alive w) eqn:Ha.
    { split; [apply Ho|]. split; [apply Ho|]. intros [[inbound outbound] id] [[a b] id'] (Ea & Eb & _) Hid Hroom.
      cbn in *. rewrite Ea, Eb, Hl, Hid. pose proof (lookup_lt_Some _ _ _ Hk). rewrite decide_False by lia.
      unfold index. rewrite Hk. cbn. rewrite Ha, decide_True by done. by eexists. }
    split; [apply Ho|]. split; [apply Ho|].
    intros inbound outbound id ws' Hid. cbn [relay_tcp_zio]. rewrite Hl, Hid. case_decide; [done|].
    unfold index. rewrite Hk. cbn. destruct (into_std inbound); try done. destruct (into_std outbound); try done.
    cbn. by rewrite Ha.
  - intros t Hin. destruct (Ht t Hin) as [Hs (i & o & Hi & Hc)]. split; [done|].
    destruct Hc as ([Hwu Hwd] & _ & _ & iin & iout & oin & oout & Hti & Hto & E1 & E2);
      [split; apply relay_buf_new_wf|].
    exists i, o, iin, iout, oin, oout. cbn in Hti, Hto, E1, E2. by split_and!; try apply in_flight_bounded.
Qed.
End zio.
Arguments Worker : clear implicits.
Arguments RelayTask : clear implicits.

(** ** Examples: two workers, and sockets that are scripts

    A socket that delivers the byte 255 first cannot be set up. *)
Definition ex_into (s : Script) : outcome io_error Script := Ok s.
Definition ex_set (s : Script) : outcome io_error unit :=
  match sc_reads s with Gives [255%Z] :: _ => Err OtherKind | _ => Ok tt end.
Definition ex_ok (s : Script) : outcome io_error unit := Ok tt.

Definition ex_send (conn_id : nat) (i o : Script) (ws : list (Worker Script Script)) : list (Worker Script Script) :=
  match relay_tcp_zio ex_into (Some ws) i o conn_id with Ok ws' => ws' | _ => [] end.
Definition ex_alter (f : Worker Script Script → Worker Script Script) (k : nat) (ws : list (Worker Script Script)) :=
  match ws !! k with Some w => <[k := f w]> ws | None => [] end.
Definition ex_turn := ex_alter (worker id ex_set (λ _, ex_ok) (λ _, ex_ok)).
Definition ex_poll := ex_alter (tcp_relay_task 10 0).

Definition ex_ws0 := start_tcp_relay_threads (SS:=Script) (G:=Script) [true; true].
Definition ex_ws1 := ex_send 5 ex_inbound ex_outbound ex_ws0.
Definition ex_ws2 := ex_turn 1 ex_ws1.
Definition ex_ws3 := ex_poll 1 ex_ws2.
Definition ex_ws4 := ex_send 7 (script_of [[255%Z]]) ex_outbound ex_ws3.
Definition ex_ws5 := ex_turn 1 ex_ws4.

(** One socket that cannot be set up ends the relays of its worker, and every
    connection that would go there fails from then on. *)
Example zio_refused_socket_ends_worker :
  map (λ w, length (wk_tasks w)) ex_ws4 = [0; 1] ∧ map (λ w, length (wk_tasks w)) ex_ws5 = [0; 0] ∧
  relay_tcp_zio ex_into (Some ex_ws5) ex_inbound ex_outbound 9 = Err ZioSend.
Proof. split_and!; vm_compute; reflexivity. Qed.

Lemma zio_workers_exact_witness :
  ∃ w t, ex_ws3 !! 1 = Some w ∧ wk_alive w = true ∧ wk_tasks w = [t] ∧
    Forall2 (handed_as ex_into) [(ex_inbound, ex_outbound, 5)] (wk_handed w) ∧
    wk_handed w = wk_started w ++ wk_queue w ∧
    ∃ i o iin iout oin oout,
      initialised id ex_set (λ _, ex_ok) (λ _, ex_ok) (rt_item t) i o ∧
      io_trace i iin iout (bi_i (rt_relay t)) ∧ io_trace o oin oout (bi_o (rt_relay t)) ∧
      iin = oout ++ in_flight unsent (bi_upload (rt_relay t)) ∧
      oin = iout ++ in_flight unsent (bi_download (rt_relay t)) ∧
      length (in_flight unsent (bi_upload (rt_relay t))) ≤ RELAY_BUFFER_SIZE ∧
      length (in_flight unsent (bi_download (rt_relay t))) ≤ RELAY_BUFFER_SIZE.
Proof.
  assert (match ex_ws3 !! 1 with Some w => wk_alive w = true ∧ length (wk_tasks w) = 1 | None => False end) as Hw
    by (vm_compute; by split).
  destruct (ex_ws3 !! 1) as [w|] eqn:Hk; [|done]. destruct Hw as [Ha Hl].
  destruct (wk_tasks w) as [|t [|]] eqn:Ht; try discriminate Hl. exists w, t.
  destruct (zio_workers_exact ex_into id ex_set (λ _, ex_ok) (λ _, ex_ok) [true; true] [(ex_inbound, ex_outbound, 5)] ex_ws3 1 w)
    as (Hhanded & Ho & Htasks).
  - pose proof (zio_next ex_into id ex_set (λ _, ex_ok) (λ _, ex_ok) [true; true] [] ex_ws0 (Some (ex_inbound, ex_outbound, 5)) ex_ws1
      (zio_start ex_into id ex_set (λ _, ex_ok) (λ _, ex_ok) [true; true])) as H01.
    specialize (H01 ltac:(apply (zio_send _ _ _ _ _ ex_ws0 ex_inbound ex_outbound 5); vm_compute; reflexivity)).
    destruct (ex_ws1 !! 1) as [w1|] eqn:H1; [|exfalso; vm_compute in H1; discriminate H1].
    assert (option_map wk_alive (ex_ws1 !! 1) = Some true) as A1 by (vm_compute; reflexivity).
    rewrite H1 in A1. injection A1 as A1.
    assert (option_map wk_alive (ex_ws2 !! 1) = Some true) as A2 by (vm_compute; reflexivity).
    assert (match ex_ws2 !! 1 with
      | Some w => match wk_tasks w !! 0 with Some t => match (glommio_poll 10 (rt_relay t)).1 with Pending => true | _ => false end | None => false end
      | None => false end = true) as P2 by (vm_compute; reflexivity).
    destruct (ex_ws2 !! 1) as [w2|] eqn:H2; [|discriminate P2]. injection A2 as A2.
    destruct (wk_tasks w2 !! 0) as [t2|] eqn:T2; [|discriminate P2].
    assert ((glommio_poll 10 (rt_relay t2)).1 ≠ OutOfFuel) as P3 by (intros E; by rewrite E in P2).
    pose proof (zio_recv ex_into id ex_set (λ _, ex_ok) (λ _, ex_ok) ex_ws1 1 w1 H1 A1) as S1.
    pose proof (zio_poll ex_into id ex_set (λ _, ex_ok) (λ _, ex_ok) ex_ws2 1 w2 0 t2 10 H2 A2 T2 P3) as S2.
    assert (ex_ws2 = <[1 := worker id ex_set (λ _, ex_ok) (λ _, ex_ok) w1]> ex_ws1) as E2
      by (unfold ex_ws2, ex_turn, ex_alter; by rewrite H1).
    assert (ex_ws3 = <[1 := tcp_relay_task 10 0 w2]> ex_ws2) as E3 by (unfold ex_ws3, ex_poll, ex_alter; by rewrite H2).
    rewrite <- E2 in S1. rewrite <- E3 in S2.
    exact (zio_next _ _ _ _ _ _ _ _ _ _ (zio_next _ _ _ _ _ _ _ _ _ _ H01 S1) S2).
  - exact Hk.
  - rewrite Ha in Ho. split_and!; [done..|exact Hhanded|apply Ho|]. apply (Htasks t). rewrite Ht. by apply list_elem_of_singleton.
Defined.
